(** * Flock2: spatial grid, counting sort, neighbour search and clustering

    A shallow embedding of the CPU path of [source/app_flock.cpp]
    ([InsertIntoGrid], [PrefixSumGrid], [FindNeighbors], [CalculateClusters],
    [UpdateFlockData]) and the properties of it that the specification states.

    Conventions.
    - [int] and [uint] values are [Z]; every place where the C++ code can wrap
      is written with [i32] or [u32].
    - Buffers are lists.  A read or write outside a buffer, and a throwing
      [std::vector::at], make the embedded function return [None].
    - [float] is abstract: the functions are written over the operations of
      the class [FloatOps].  [binary32] instantiates it with the IEEE-754
      single precision format of [SpecFloat]. *)

From Stdlib Require Import ZArith List Lia Bool.
From Corelib Require Import SpecFloat.
From stdpp Require Import base tactics option list numbers relations sorting.

Local Open Scope Z_scope.

(** ** Machine integers *)

Definition i32 (z : Z) : Z := (z + 2147483648) mod 4294967296 - 2147483648.
Definition u32 (z : Z) : Z := z mod 4294967296.

Definition INT_MAX : Z := 2147483647.
(** [#define GRID_UNDEF 2147483647] (flock_types.h) *)
Definition GRID_UNDEF : Z := 2147483647.

(** ** Buffers with checked access *)

Definition rd {A} (a : list A) (i : Z) : option A :=
  if bool_decide (0 ≤ i) then a !! Z.to_nat i else None.

Definition wr {A} (a : list A) (i : Z) (v : A) : option (list A) :=
  if bool_decide (0 ≤ i < Z.of_nat (length a))
  then Some (<[Z.to_nat i := v]> a) else None.

(** A [for] loop over the elements of [l], threading the state and stopping
    at the first failing iteration. *)
Fixpoint for_each {A St} (f : St → A → option St) (l : list A) (s : St) : option St :=
  match l with
  | [] => Some s
  | x :: l' => match f s x with
               | Some s' => for_each f l' s'
               | None => None
               end
  end.

(** ** Floating point interface *)

Record Vec3 (A : Type) := mkVec3 { vx : A; vy : A; vz : A }.
Arguments mkVec3 {A} _ _ _.
Arguments vx {A} _.
Arguments vy {A} _.
Arguments vz {A} _.

(** The operations of [float] that the embedded functions use.  [f_to_int] is
    the conversion [int(x)]: an instance may give [None] where C++ leaves
    the conversion undefined (the truncated value is not representable, or
    [x] is not a number); the instance for single precision below gives
    what the compiled conversion gives there.  [normalize] is
    [Vec3F::Normalize] of the external vector library. *)
Class FloatOps (F : Type) := {
  f_of_int : Z → F;
  f_to_int : F → option Z;
  fadd : F → F → F;
  fsub : F → F → F;
  fmul : F → F → F;
  fdiv : F → F → F;
  flt : F → F → bool;
  fisnan : F → bool;
  normalize : Vec3 F → Vec3 F
}.

Section Model.
Context {F : Type} `{FloatOps F}.

Definition Vec3F := Vec3 F.
Definition Vec3I := Vec3 Z.

Definition fgt (x y : F) : bool := flt y x.

Definition vsub (a b : Vec3F) : Vec3F :=
  mkVec3 (fsub (vx a) (vx b)) (fsub (vy a) (vy b)) (fsub (vz a) (vz b)).
Definition vadd (a b : Vec3F) : Vec3F :=
  mkVec3 (fadd (vx a) (vx b)) (fadd (vy a) (vy b)) (fadd (vz a) (vz b)).
Definition vmul (a b : Vec3F) : Vec3F :=
  mkVec3 (fmul (vx a) (vx b)) (fmul (vy a) (vy b)) (fmul (vz a) (vz b)).
Definition vscale (a : Vec3F) (k : F) : Vec3F :=
  mkVec3 (fmul (vx a) k) (fmul (vy a) k) (fmul (vz a) k).
Definition vdiv (a : Vec3F) (k : F) : Vec3F :=
  mkVec3 (fdiv (vx a) k) (fdiv (vy a) k) (fdiv (vz a) k).
Definition vdot (a b : Vec3F) : F :=
  fadd (fadd (fmul (vx a) (vx b)) (fmul (vy a) (vy b))) (fmul (vz a) (vz b)).
Definition vzero : Vec3F := mkVec3 (f_of_int 0) (f_of_int 0) (f_of_int 0).

(** ** Data *)

(** The fields of [struct Bird] that the grid, the neighbour search and the
    clustering read or write. *)
Record Bird := mkBird {
  pos : Vec3F;
  vel : Vec3F;
  ave_pos : Vec3F;
  ave_vel : Vec3F;
  near_j : Z;
  t_nbrs : Z;
  r_nbrs : Z;
  cluster_id : Z
}.

(** [struct Accel]: the fields set by [InitializeGrid] and read per step. *)
Record Accel := mkAccel {
  psmoothradius : F;
  sim_scale : F;
  gridDelta : Vec3F;
  gridMin : Vec3F;
  gridRes : Vec3I;
  gridScanMax : Vec3I;
  gridSrch : Z;
  gridTotal : Z;
  gridAdjCnt : Z;
  gridAdj : list Z
}.

(** The fields of [m_Params] read by [FindNeighbors]. *)
Record Params := mkParams {
  neighbors : Z;
  fovcos : F;
  cluster_threshold_dist : F
}.

(** The per-bird buffers [FGCELL], [FGNDX] and the grid buffers [AGRID],
    [AGRIDCNT], [AGRIDOFF]. *)
Record Grid := mkGrid {
  pgcell : list Z;
  pgndx : list Z;
  mgcnt : list Z;
  mgoff : list Z;
  mgrid : list Z
}.

(** ** InitializeGrid, integer part (lines 801, 808-809, 841-845) *)

(** [gridAdj[cell++] = (y*gridRes.z + z)*gridRes.x + x] for [y], [z], [x]
    in [0, gridSrch), [x] innermost. *)
Definition adj_table (res : Vec3I) (srch : Z) : list Z :=
  y ← seqZ 0 srch; z ← seqZ 0 srch; x ← seqZ 0 srch;
  [(y * vz res + z) * vx res + x].

Definition InitializeGrid_tables (a : Accel) (res : Vec3I) (srch : Z) : Accel :=
  mkAccel (psmoothradius a) (sim_scale a) (gridDelta a) (gridMin a)
    res
    (mkVec3 (vx res - srch) (vy res - srch) (vz res - srch))
    srch
    (vx res * vy res * vz res)
    (srch * srch * srch)
    (adj_table res srch).

(** ** InsertIntoGrid (lines 875-912) *)

(** [gcf = (ppos - gridMin) * gridDelta; gc = Vec3I(int(gcf.x), ..)] *)
Definition cell_coord (a : Accel) (ppos : Vec3F) : option Vec3I :=
  let gcf := vmul (vsub ppos (gridMin a)) (gridDelta a) in
  x ← f_to_int (vx gcf); y ← f_to_int (vy gcf); z ← f_to_int (vz gcf);
  Some (mkVec3 x y z).

(** [gs = (gc.y * gridRes.z + gc.z)*gridRes.x + gc.x] *)
Definition flat_index (a : Accel) (gc : Vec3I) : Z :=
  i32 ((vy gc * vz (gridRes a) + vz gc) * vx (gridRes a) + vx gc).

Definition in_scan (a : Accel) (gc : Vec3I) : bool :=
  (1 <=? vx gc) && (vx gc <=? vx (gridScanMax a)) &&
  (1 <=? vy gc) && (vy gc <=? vy (gridScanMax a)) &&
  (1 <=? vz gc) && (vz gc <=? vz (gridScanMax a)).

(** One iteration of the loop over [n]; the state is the three buffers
    that the loop writes. *)
Definition insert_step (a : Accel) (birds : list Bird)
    (st : list Z * list Z * list Z) (n : Z) : option (list Z * list Z * list Z) :=
  let '(cell, ndx, cnt) := st in
  b ← rd birds n;
  gc ← cell_coord a (pos b);
  let gs := flat_index a gc in
  if in_scan a gc then
    cell' ← wr cell n (u32 gs);
    c ← rd cnt gs;
    ndx' ← wr ndx n c;
    cnt' ← wr cnt gs (u32 (c + 1));
    Some (cell', ndx', cnt')
  else
    cell' ← wr cell n GRID_UNDEF;
    Some (cell', ndx, cnt).

Definition numPoints (birds : list Bird) : Z := Z.of_nat (length birds).

(** The four [memset]s, then the loop.  [AGRID] is not touched: the result
    keeps the [mgrid] of the previous step. *)
Definition InsertIntoGrid (a : Accel) (birds : list Bird) (old : list Z) : option Grid :=
  let zeroP := replicate (length birds) 0 in
  let zeroG := replicate (Z.to_nat (gridTotal a)) 0 in
  '(cell, ndx, cnt) ← for_each (insert_step a birds) (seqZ 0 (numPoints birds))
                         (zeroP, zeroP, zeroG);
  Some (mkGrid cell ndx cnt zeroG old).

(** ** PrefixSumGrid, CPU branch (lines 983-1011) *)

(** [mgoff[n] = sum; sum += mgcnt[n];] with [int sum]. *)
Definition scan_step (cnt : list Z) (st : list Z * Z) (n : Z) : option (list Z * Z) :=
  let '(off, sum) := st in
  off' ← wr off n (u32 sum);
  c ← rd cnt n;
  Some (off', i32 (sum + c)).

(** [if (pgcell[j] != GRID_UNDEF) { sort_ndx = mgoff[pgcell[j]] + pgndx[j];
    mgrid[sort_ndx] = j; }] (the source walks [pgcell] and [pgndx] by
    pointer increment). *)
Definition scatter_step (g : Grid) (off : list Z) (grid : list Z) (j : Z) : option (list Z) :=
  c ← rd (pgcell g) j;
  if bool_decide (c ≠ GRID_UNDEF) then
    o ← rd off c;
    r ← rd (pgndx g) j;
    wr grid (i32 (o + r)) j
  else Some grid.

Definition PrefixSumGrid (a : Accel) (n : Z) (g : Grid) : option Grid :=
  '(off, _) ← for_each (scan_step (mgcnt g)) (seqZ 0 (gridTotal a)) (mgoff g, 0);
  undef ← for_each (λ grid k, wr grid k GRID_UNDEF) (seqZ 0 n) (mgrid g);
  grid ← for_each (scatter_step g off) (seqZ 0 n) undef;
  Some (mkGrid (pgcell g) (pgndx g) (mgcnt g) off grid).

(** ** FindNeighbors, CPU branch (lines 1027-1197) *)

(** What the function reads and writes besides the grid: the birds, the
    clustering tables and the three locals of the topological sort
    ([float sort_d_nbr[16]; int sort_j_nbr[16]; int sort_num]), which are
    declared outside the loop over the birds and so live across it. *)
Record NbrState := mkNbr {
  birds : list Bird;
  max_cluster_id : Z;
  cluster_assignment : list (list Z);
  sort_d_nbr : list F;
  sort_j_nbr : list Z;
  sort_num : Z
}.

Definition set_cluster_id (c : Z) (b : Bird) : Bird :=
  mkBird (pos b) (vel b) (ave_pos b) (ave_vel b) (near_j b) (t_nbrs b) (r_nbrs b) c.
Definition set_birds (bs : list Bird) (st : NbrState) : NbrState :=
  mkNbr bs (max_cluster_id st) (cluster_assignment st)
    (sort_d_nbr st) (sort_j_nbr st) (sort_num st).
Definition set_clusters (m : Z) (ca : list (list Z)) (st : NbrState) : NbrState :=
  mkNbr (birds st) m ca (sort_d_nbr st) (sort_j_nbr st) (sort_num st).
Definition set_sort (d : list F) (j : list Z) (n : Z) (st : NbrState) : NbrState :=
  mkNbr (birds st) (max_cluster_id st) (cluster_assignment st) d j n.

(** [b = GetElem(FBIRD, i); b->field = ..]: an update in place. *)
Definition upd_bird (f : Bird → Bird) (i : Z) (st : NbrState) : option NbrState :=
  b ← rd (birds st) i;
  bs ← wr (birds st) i (f b);
  Some (set_birds bs st).

(** *** Clustering (lines 1077-1085 and 1124-1143) *)

(** Lines 1077-1085: a bird without a cluster opens a new one. *)
Definition new_cluster (i : Z) (st : NbrState) : option NbrState :=
  bi ← rd (birds st) i;
  if cluster_id bi =? -1 then
    let m := i32 (max_cluster_id st + 1) in
    st' ← upd_bird (set_cluster_id m) i st;
    Some (set_clusters m (cluster_assignment st' ++ [[i]]) st')
  else Some st.

(** Lines 1125-1128: the neighbour has no cluster yet. *)
Definition join_cluster (i j : Z) (st : NbrState) : option NbrState :=
  bi ← rd (birds st) i;
  bj ← rd (birds st) j;
  if cluster_id bj =? -1 then
    st' ← upd_bird (set_cluster_id (cluster_id bi)) j st;
    members ← rd (cluster_assignment st') (cluster_id bi);
    ca ← wr (cluster_assignment st') (cluster_id bi) (members ++ [j]);
    Some (set_clusters (max_cluster_id st') ca st')
  else Some st.

(** Lines 1134-1140: one iteration of the re-tagging loop. *)
Definition merge_step (merge_from_id merge_to_id : Z) (st : NbrState) (k : Z)
    : option NbrState :=
  from ← rd (cluster_assignment st) merge_from_id;
  kk ← rd from k;
  st' ← upd_bird (set_cluster_id merge_to_id) kk st;
  to ← rd (cluster_assignment st') merge_to_id;
  ca ← wr (cluster_assignment st') merge_to_id (to ++ [kk]);
  Some (set_clusters (max_cluster_id st') ca st').

(** Lines 1129-1142: the neighbour is in another cluster. *)
Definition merge_clusters (i j : Z) (st : NbrState) : option NbrState :=
  bi ← rd (birds st) i;
  bj ← rd (birds st) j;
  if negb (cluster_id bj =? cluster_id bi) then
    let merge_from_id := cluster_id bj in
    let merge_to_id := cluster_id bi in
    from ← rd (cluster_assignment st) merge_from_id;
    st' ← for_each (merge_step merge_from_id merge_to_id)
             (seqZ 0 (Z.of_nat (length from))) st;
    ca ← wr (cluster_assignment st') merge_from_id [];
    Some (set_clusters (max_cluster_id st') ca st')
  else Some st.

Definition cluster_pair (i j : Z) (st : NbrState) : option NbrState :=
  st' ← join_cluster i j st;
  merge_clusters i j st'.

(** *** Topological sorted list (lines 1154-1172) *)

(** [for (k = 0; dsq > sort_d_nbr[k] && k < sort_num;) k++;]
    The array element is read before [k] is compared with [sort_num].
    [fuel] bounds the number of increments; [sort_num] of them are enough. *)
Fixpoint find_slot (fuel : nat) (d : list F) (num : Z) (dsq : F) (k : Z) : option Z :=
  dk ← rd d k;
  if fgt dsq dk && (k <? num) then
    match fuel with
    | O => None
    | S fuel' => find_slot fuel' d num dsq (k + 1)
    end
  else Some k.

(** [for (m = sort_num-1; m >= k; m--) { sort_d_nbr[m+1] = sort_d_nbr[m];
    sort_j_nbr[m+1] = sort_j_nbr[m]; }], [n] iterations from [m] down. *)
Fixpoint shift_down (n : nat) (m : Z) (dj : list F * list Z) : option (list F * list Z) :=
  match n with
  | O => Some dj
  | S n' =>
      dm ← rd (fst dj) m;
      d' ← wr (fst dj) (m + 1) dm;
      jm ← rd (snd dj) m;
      j' ← wr (snd dj) (m + 1) jm;
      shift_down n' (m - 1) (d', j')
  end.

Definition insert_nbr (K : Z) (dsq : F) (j : Z) (st : NbrState) : option NbrState :=
  let num := sort_num st in
  k ← find_slot (Z.to_nat num) (sort_d_nbr st) num dsq 0;
  if k <=? num then
    '(d1, j1) ← (if negb (k =? num)
                 then shift_down (Z.to_nat (num - k)) (num - 1)
                        (sort_d_nbr st, sort_j_nbr st)
                 else Some (sort_d_nbr st, sort_j_nbr st));
    d2 ← wr d1 k dsq;
    j2 ← wr j1 k j;
    let num' := num + 1 in
    Some (set_sort d2 j2 (if num' >? K then K else num') st)
  else Some st.

(** *** The scan of one bird (lines 1103-1181) *)

Definition dist_sq (posi posj : Vec3F) : F :=
  let dist := vsub posi posj in
  fadd (fadd (fmul (vx dist) (vx dist)) (fmul (vy dist) (vy dist)))
       (fmul (vz dist) (vz dist)).

Definition set_r_nbrs (r : Z) (b : Bird) : Bird :=
  mkBird (pos b) (vel b) (ave_pos b) (ave_vel b) (near_j b) (t_nbrs b) r (cluster_id b).

(** Lines 1118-1178: the body of the innermost loop for a neighbour [j]
    that passed [j >= numPoints] and [i == j]. *)
Definition visit (p : Params) (rd2 : F) (i : Z) (posi diri : Vec3F)
    (st : NbrState) (j : Z) : option NbrState :=
  bj ← rd (birds st) j;
  let posj := pos bj in
  let dsq := dist_sq posi posj in
  st1 ← (if flt dsq (fmul (cluster_threshold_dist p) (cluster_threshold_dist p))
         then cluster_pair i j st else Some st);
  if flt dsq rd2 then
    let dirj := normalize (vsub posj posi) in
    let birdang := vdot diri dirj in
    if fgt birdang (fovcos p) then
      st2 ← insert_nbr (neighbors p) dsq j st1;
      upd_bird (λ b, set_r_nbrs (i32 (r_nbrs b + 1)) b) i st2
    else Some st1
  else Some st1.

(** Lines 1112-1117: the members of one cell. *)
Definition scan_cell (p : Params) (g : Grid) (n : Z) (rd2 : F) (i : Z)
    (posi diri : Vec3F) (cell : Z) (st : NbrState) : option NbrState :=
  o ← rd (mgoff g) cell;
  c ← rd (mgcnt g) cell;
  let clast := i32 (u32 (o + c)) in
  for_each (λ st cndx,
      j0 ← rd (mgrid g) cndx;
      let j := i32 j0 in
      if j >=? n then Some st
      else if i =? j then Some st
      else visit p rd2 i posi diri st j)
    (seqZ (i32 o) (clast - i32 o)) st.

(** Lines 1103-1110: the adjacency window of bird [i]. *)
Definition scan_window (a : Accel) (p : Params) (g : Grid) (n : Z) (rd2 : F)
    (nadj : Z) (i : Z) (posi diri : Vec3F) (st : NbrState) : option NbrState :=
  c ← rd (pgcell g) i;
  let gc := i32 c in
  if negb (gc =? GRID_UNDEF) then
    let gc := i32 (gc - nadj) in
    for_each (λ st c,
        adj ← rd (gridAdj a) c;
        scan_cell p g n rd2 i posi diri (u32 (gc + adj)) st)
      (seqZ 0 (gridAdjCnt a)) st
  else Some st.

(** *** Averages over the retained neighbours (lines 1184-1195) *)

Definition set_ave (ap av : Vec3F) (b : Bird) : Bird :=
  mkBird (pos b) (vel b) ap av (near_j b) (t_nbrs b) (r_nbrs b) (cluster_id b).
Definition set_near (nj tn : Z) (b : Bird) : Bird :=
  mkBird (pos b) (vel b) (ave_pos b) (ave_vel b) nj tn (r_nbrs b) (cluster_id b).
(** Lines 1091-1095. *)
Definition clear_info (b : Bird) : Bird :=
  mkBird (pos b) (vel b) vzero vzero (-1) 0 0 (cluster_id b).

Definition accumulate (i : Z) (st : NbrState) (k : Z) : option NbrState :=
  jk ← rd (sort_j_nbr st) k;
  bj ← rd (birds st) jk;
  upd_bird (λ bi, set_ave (vadd (ave_pos bi) (pos bj)) (vadd (ave_vel bi) (vel bj)) bi) i st.

Definition aggregate (i : Z) (st : NbrState) : option NbrState :=
  st1 ← for_each (accumulate i) (seqZ 0 (sort_num st)) st;
  j0 ← rd (sort_j_nbr st1) 0;
  st2 ← upd_bird (set_near j0 (sort_num st1)) i st1;
  if sort_num st2 >? 0 then
    let w := fdiv (f_of_int 1) (f_of_int (sort_num st2)) in
    upd_bird (λ bi, set_ave (vscale (ave_pos bi) w) (vscale (ave_vel bi) w) bi) i st2
  else Some st2.

(** *** The loop over the birds (lines 1072-1197) *)

(** Lines 1077-1100: what is done for bird [i] before its scan. *)
Definition begin_bird (i : Z) (st : NbrState) : option NbrState :=
  st1 ← new_cluster i st;
  st2 ← upd_bird clear_info i st1;
  Some (set_sort (sort_d_nbr st2) (sort_j_nbr st2) 0 st2).

Definition find_bird (a : Accel) (p : Params) (g : Grid) (n : Z) (rd2 : F)
    (nadj : Z) (st : NbrState) (i : Z) : option NbrState :=
  bi ← rd (birds st) i;
  let posi := pos bi in
  let diri := normalize (vel bi) in
  st3 ← begin_bird i st;
  st4 ← scan_window a p g n rd2 nadj i posi diri st3;
  aggregate i st4.

(** Lines 1053-1069: the state at the entry of the loop over the birds.
    [junk_d] and [junk_j] are the contents of the two uninitialised local
    arrays. *)
Definition init_state (bs : list Bird) (junk_d : list F) (junk_j : list Z)
    : option NbrState :=
  sd ← wr junk_d 0 (f_of_int 100000);
  sj ← wr junk_j 0 (-1);
  Some (mkNbr (set_cluster_id (-1) <$> bs) (-1) [] sd sj 0).

Definition FindNeighbors (a : Accel) (p : Params) (g : Grid) (bs : list Bird)
    (junk_d : list F) (junk_j : list Z) : option NbrState :=
  let d := sim_scale a in
  let d2 := fmul d d in
  let rd2 := fdiv (fmul (psmoothradius a) (psmoothradius a)) d2 in
  let nadj := i32 ((vz (gridRes a) + 1) * vx (gridRes a) + 1) in
  st ← init_state bs junk_d junk_j;
  for_each (find_bird a p g (numPoints bs) rd2 nadj) (seqZ 0 (numPoints bs)) st.

(** ** CalculateClusters (lines 1300-1322) *)

(** [struct Histogram], one record per entry of [cluster_assignment]. *)
Record Histogram := mkHistogram { h_cluster_id : Z; bird_cnt : Z }.

(** Modelled from the spec: the declaration of [Histogram] and its
    [operator>], which [std::sort(.., std::greater<>())] uses, are missing
    from the sources; the specification says the records are sorted
    descending by member count. *)
Definition histogram_ge (x y : Histogram) : Prop := bird_cnt y ≤ bird_cnt x.
Global Instance histogram_ge_dec x y : Decision (histogram_ge x y).
Proof. unfold histogram_ge. apply _. Defined.

(** [std::sort] leaves the order of entries with equal counts open, and
    [merge_sort] need not order them as the library of the compiled
    program does; the statements below hold for every order of such
    entries. *)
Definition CalculateClusters (ca : list (list Z)) : option (list Histogram * list Z) :=
  let hist := imap (λ i members, mkHistogram (Z.of_nat i) (Z.of_nat (length members))) ca in
  let hist := merge_sort histogram_ge hist in
  order ← for_each (λ order i, h ← rd hist i; wr order (h_cluster_id h) i)
             (seqZ 0 (Z.of_nat (length hist))) (replicate (length ca) 0);
  Some (hist, order).

(** ** UpdateFlockData, centroids (lines 1442-1475) *)

(** Lines 1451-1472, without the speed and energy sums. *)
Definition flock_step (g : Grid) (bs : list Bird) (order : list Z) (MAX_FLOCKS : Z)
    (st : Vec3F * list Vec3F) (i : Z) : option (Vec3F * list Vec3F) :=
  let '(centroid, flock_centers) := st in
  b ← rd bs i;
  gc ← rd (pgcell g) i;
  if negb (i32 gc =? GRID_UNDEF) then
    if fisnan (vx (pos b)) || fisnan (vy (pos b)) || fisnan (vz (pos b)) then Some st
    else
      let centroid := vadd centroid (pos b) in
      order_n ← rd order (cluster_id b);
      if order_n <? MAX_FLOCKS then
        fc ← rd flock_centers order_n;
        flock_centers ← wr flock_centers order_n (vadd fc (pos b));
        Some (centroid, flock_centers)
      else Some (centroid, flock_centers)
  else Some st.

(** Line 1475: [flock_centers[i] /= cluster_histogram.at(i).bird_cnt]. *)
Definition center_step (hist : list Histogram) (flock_centers : list Vec3F) (i : Z)
    : option (list Vec3F) :=
  fc ← rd flock_centers i;
  h ← rd hist i;
  wr flock_centers i (vdiv fc (f_of_int (bird_cnt h))).

(** [MAX_FLOCKS] is a constant whose definition is not in the sources. *)
Definition UpdateFlockData (MAX_FLOCKS : Z) (g : Grid) (bs : list Bird)
    (hist : list Histogram) (order : list Z) : option (Vec3F * list Vec3F) :=
  '(centroid, flock_centers) ←
     for_each (flock_step g bs order MAX_FLOCKS) (seqZ 0 (numPoints bs))
       (vzero, replicate (Z.to_nat MAX_FLOCKS) vzero);
  let centroid := vscale centroid (fdiv (f_of_int 1) (f_of_int (numPoints bs))) in
  flock_centers ← for_each (center_step hist) (seqZ 0 MAX_FLOCKS) flock_centers;
  Some (centroid, flock_centers).

(** ** One step on the CPU (lines 2707-2733 of [Run]) *)

(** The grid, the neighbour search and the clustering tables of one step;
    [AssignClusters] does nothing when the GPU is off. *)
Definition grid_pass (a : Accel) (bs : list Bird) (old : list Z) : option Grid :=
  g ← InsertIntoGrid a bs old;
  PrefixSumGrid a (numPoints bs) g.

Definition neighbor_pass (a : Accel) (p : Params) (bs : list Bird) (old : list Z)
    (junk_d : list F) (junk_j : list Z) : option (Grid * NbrState) :=
  g ← grid_pass a bs old;
  st ← FindNeighbors a p g bs junk_d junk_j;
  Some (g, st).

End Model.

Arguments Vec3F F : clear implicits.
Arguments Bird F : clear implicits.
Arguments Accel F : clear implicits.
Arguments Params F : clear implicits.
Arguments NbrState F : clear implicits.

(** ** IEEE-754 single precision *)

Definition float32 := spec_float.

(** [int(x)]: truncation toward zero.  Where the truncated value is not an
    [int] (a NaN, an infinity, a value out of range) C++ defines no result;
    the compiled program converts with [cvttss2si], which gives [INT_MIN]
    there, and so does this definition. *)
Definition f32_to_int (x : float32) : option Z :=
  match x with
  | S754_zero _ => Some 0
  | S754_finite s m e =>
      let mag := if 0 <=? e then Z.pos m * 2 ^ e else Z.pos m / 2 ^ (- e) in
      let v := if s then - mag else mag in
      if (-2147483648 <=? v) && (v <=? 2147483647) then Some v
      else Some (-2147483648)
  | _ => Some (-2147483648)
  end.

Definition f32_of_int (z : Z) : float32 := binary_normalize 24 128 z 0 false.

Definition f32_isnan (x : float32) : bool :=
  match x with S754_nan => true | _ => false end.

(** Not a finite number: a NaN or an infinity. *)
Definition non_finite (x : float32) : bool :=
  match x with S754_nan | S754_infinity _ => true | _ => false end.

(** A stand-in for [Vec3F::Normalize] of the external vector library:
    divide by the length unless the length is zero. *)
Definition f32_normalize (v : Vec3 float32) : Vec3 float32 :=
  let n := SFadd 24 128 (SFadd 24 128 (SFmul 24 128 (vx v) (vx v))
             (SFmul 24 128 (vy v) (vy v))) (SFmul 24 128 (vz v) (vz v)) in
  if SFeqb n (S754_zero false) then v
  else let r := SFsqrt 24 128 n in
       mkVec3 (SFdiv 24 128 (vx v) r) (SFdiv 24 128 (vy v) r) (SFdiv 24 128 (vz v) r).

Global Instance binary32 : FloatOps float32 := {
  f_of_int := f32_of_int;
  f_to_int := f32_to_int;
  fadd := SFadd 24 128;
  fsub := SFsub 24 128;
  fmul := SFmul 24 128;
  fdiv := SFdiv 24 128;
  flt := SFltb;
  fisnan := f32_isnan;
  normalize := f32_normalize
}.

(** * Specification vocabulary *)

Section Vocabulary.
Context {F : Type} `{FloatOps F}.

(** What [InitializeGrid] establishes about the integer fields, together
    with the capacities the types give: [gridTotal] is an [int] and
    [gridAdj] has 64 entries. *)
Record accel_wf (a : Accel F) : Prop := {
  wf_srch : 2 ≤ gridSrch a;
  wf_total : gridTotal a = vx (gridRes a) * vy (gridRes a) * vz (gridRes a);
  wf_total_int : 0 ≤ gridTotal a ≤ INT_MAX;
  wf_scan : gridScanMax a =
            mkVec3 (vx (gridRes a) - gridSrch a) (vy (gridRes a) - gridSrch a)
                   (vz (gridRes a) - gridSrch a);
  wf_adjcnt : gridAdjCnt a = gridSrch a * gridSrch a * gridSrch a;
  wf_adjcap : gridAdjCnt a ≤ 64;
  wf_adj : gridAdj a = adj_table (gridRes a) (gridSrch a)
}.

(** The conversion [int(..)] of the three cell coordinates of every bird is
    defined. *)
Definition coords_defined (a : Accel F) (bs : list (Bird F)) : Prop :=
  Forall (λ b, is_Some (cell_coord a (pos b))) bs.

(** The cell that the grid builder stores for a bird. *)
Definition cell_of (a : Accel F) (b : Bird F) : Z :=
  match cell_coord a (pos b) with
  | Some gc => if in_scan a gc then u32 (flat_index a gc) else GRID_UNDEF
  | None => GRID_UNDEF
  end.

Definition cells (a : Accel F) (bs : list (Bird F)) : list Z := cell_of a <$> bs.

(** The indices below [k] whose cell is [c], in increasing order. *)
Definition members_upto (cs : list Z) (c : Z) (k : nat) : list Z :=
  filter (λ n, rd cs n = Some c) (seqZ 0 (Z.of_nat k)).

Definition members (cs : list Z) (c : Z) : list Z := members_upto cs c (length cs).

Definition occ (cs : list Z) (c : Z) (k : nat) : Z :=
  Z.of_nat (length (members_upto cs c k)).

(** The number of agents with a defined cell. *)
Definition defined_count (cs : list Z) : Z :=
  Z.of_nat (length (filter (λ c, c ≠ GRID_UNDEF) cs)).

(** The slice [mgrid[mgoff[c] .. mgoff[c] + mgcnt[c])]. *)
Definition bucket (g : Grid) (c : Z) : list Z :=
  match rd (mgoff g) c, rd (mgcnt g) c with
  | Some o, Some n => take (Z.to_nat n) (drop (Z.to_nat o) (mgrid g))
  | _, _ => []
  end.

Definition sumZ (l : list Z) : Z := foldr Z.add 0 l.

(** The state of the buffers after the count phase, for the cells [cs] of
    the birds and a grid of [T] cells. *)
Record counted (cs : list Z) (T : Z) (g : Grid) : Prop := {
  cnt_cell : pgcell g = cs;
  cnt_ndx_len : length (pgndx g) = length cs;
  cnt_ndx : ∀ n c, rd cs n = Some c → c ≠ GRID_UNDEF →
            rd (pgndx g) n = Some (occ cs c (Z.to_nat n));
  cnt_len : length (mgcnt g) = Z.to_nat T;
  cnt_cnt : ∀ c, 0 ≤ c < T → rd (mgcnt g) c = Some (occ cs c (length cs));
  cnt_sum : sumZ (mgcnt g) = defined_count cs
}.

(** Every stored cell is the undefined sentinel or a cell of the grid. *)
Definition cells_in_grid (cs : list Z) (T : Z) : Prop :=
  ∀ c, c ∈ cs → c = GRID_UNDEF ∨ 0 ≤ c < T.

(** The buffers after [k] iterations of the loop of [InsertIntoGrid]. *)
Definition count_inv (a : Accel F) (bs : list (Bird F)) (k : Z) (st : list Z * list Z * list Z) : Prop :=
  let '(cell, ndx, cnt) := st in
  let cs := cells a bs in
  length cell = length bs ∧ length ndx = length bs ∧
  length cnt = Z.to_nat (gridTotal a) ∧
  (∀ n, 0 ≤ n < k → rd cell n = rd cs n) ∧
  (∀ n c, 0 ≤ n < k → rd cs n = Some c → c ≠ GRID_UNDEF →
          rd ndx n = Some (occ cs c (Z.to_nat n))) ∧
  (∀ c, 0 ≤ c < gridTotal a → rd cnt c = Some (occ cs c (Z.to_nat k))) ∧
  sumZ cnt = defined_count (take (Z.to_nat k) cs).

(** The exclusive prefix sum of the counts. *)
Definition presum (cnt : list Z) (c : Z) : Z := sumZ (take (Z.to_nat c) cnt).

(** The slot of bird [n] of cell [c] in the sorted array. *)
Definition slot (cs cnt : list Z) (c : Z) (n : Z) : Z :=
  presum cnt c + occ cs c (Z.to_nat n).

(** The offsets after [k] iterations of the scan loop. *)
Definition scan_inv (cnt : list Z) (T : Z) (k : Z) (st : list Z * Z) : Prop :=
  let '(off, sum) := st in
  length off = Z.to_nat T ∧
  (∀ c, 0 ≤ c < k → rd off c = Some (presum cnt c)) ∧
  sum = presum cnt k.

(** The sorted array after [j] iterations of the scatter loop. *)
Definition scatter_inv (cs cnt : list Z) (j : Z) (grid : list Z) : Prop :=
  length grid = length cs ∧
  (∀ n c, 0 ≤ n < j → rd cs n = Some c → c ≠ GRID_UNDEF →
          rd grid (slot cs cnt c n) = Some n) ∧
  (∀ q v, rd grid q = Some v →
          v = GRID_UNDEF ∨
          ∃ c, 0 ≤ v < j ∧ rd cs v = Some c ∧ c ≠ GRID_UNDEF ∧ q = slot cs cnt c v).

(** The state of the buffers after the scan and scatter phases. *)
Record bucketed (cs : list Z) (T : Z) (g : Grid) : Prop := {
  bk_counted : counted cs T g;
  bk_off_len : length (mgoff g) = Z.to_nat T;
  bk_off : ∀ c, 0 ≤ c < T → rd (mgoff g) c = Some (presum (mgcnt g) c);
  bk_grid_len : length (mgrid g) = length cs;
  bk_grid : ∀ n c, rd cs n = Some c → c ≠ GRID_UNDEF →
            rd (mgrid g) (slot cs (mgcnt g) c n) = Some n;
  bk_grid_only : ∀ q v, rd (mgrid g) q = Some v →
            v = GRID_UNDEF ∨
            ∃ c, rd cs v = Some c ∧ c ≠ GRID_UNDEF ∧ q = slot cs (mgcnt g) c v
}.

(** ** The neighbours that a scan visits *)

(** The entries of the sorted array in the range of [cell]. *)
Definition cell_slice (g : Grid) (cell : Z) : option (list Z) :=
  o ← rd (mgoff g) cell;
  c ← rd (mgcnt g) cell;
  mapM (rd (mgrid g)) (seqZ (i32 o) (i32 (u32 (o + c)) - i32 o)).

(** The cells of the adjacency window whose corner is [gc]. *)
Definition window_cells (a : Accel F) (gc : Z) : option (list Z) :=
  mapM (λ c, adj ← rd (gridAdj a) c; Some (u32 (gc + adj))) (seqZ 0 (gridAdjCnt a)).

(** The entries that the two loops of lines 1108-1115 read for bird [i],
    in the order in which they are read. *)
Definition scanned (a : Accel F) (g : Grid) (nadj : Z) (i : Z) : option (list Z) :=
  c ← rd (pgcell g) i;
  if negb (i32 c =? GRID_UNDEF) then
    ws ← window_cells a (i32 (i32 c - nadj));
    slices ← mapM (cell_slice g) ws;
    Some (concat slices)
  else Some [].

(** The test of lines 1116-1117 on an entry [j0] of the sorted array. *)
Definition is_candidate (n i : Z) (j : Z) : bool :=
  negb (j >=? n) && negb (i =? j).

(** The neighbours [j] for which the body of the innermost loop runs. *)
Definition candidates (a : Accel F) (g : Grid) (n nadj : Z) (i : Z) : option (list Z) :=
  scanned a g nadj i ≫= λ l : list Z,
  Some (filter (λ j, is_candidate n i j = true) (i32 <$> l)).

Definition nadj_of (a : Accel F) : Z :=
  i32 ((vz (gridRes a) + 1) * vx (gridRes a) + 1).

(** The cells of the adjacency window of a bird in cell [c]: the corner
    [c - nadj] displaced by the entries of [gridAdj]. *)
Definition window_of (a : Accel F) (c : Z) : list Z :=
  (λ adj, c - ((vz (gridRes a) + 1) * vx (gridRes a) + 1) + adj) <$> gridAdj a.

(** The birds, other than [i], of the cells of the window of cell [c]. *)
Definition window_members (a : Accel F) (cs : list Z) (i c : Z) : list Z :=
  filter (λ j, i ≠ j) (concat (members cs <$> window_of a c)).

(** ** Clusters *)

Definition cid_of (bs : list (Bird F)) (n : Z) : option Z := cluster_id <$> rd bs n.

(** [bs'] is [bs] with the cluster id of every bird [n] replaced by
    [f n c], where [c] is its old id; no other field changes. *)
Definition relabel (f : Z → Z → Z) (bs bs' : list (Bird F)) : Prop :=
  length bs' = length bs ∧
  ∀ n b, rd bs n = Some b → rd bs' n = Some (set_cluster_id (f n (cluster_id b)) b).

(** The clustering tables describe the cluster ids of the birds: there are
    [max_cluster_id + 1] lists, every assigned id is the index of a list,
    and list [c] holds, once each, the birds whose id is [c]. *)
Record cluster_inv (st : NbrState F) : Prop := {
  ci_len : Z.of_nat (length (cluster_assignment st)) = max_cluster_id st + 1;
  ci_ids : ∀ n c, cid_of (birds st) n = Some c →
           c = -1 ∨ 0 ≤ c < Z.of_nat (length (cluster_assignment st));
  ci_mem : ∀ c ms, rd (cluster_assignment st) c = Some ms →
           NoDup ms ∧ ∀ x, x ∈ ms ↔ cid_of (birds st) x = Some c
}.

(** The fields of the topological sort are the same in both states. *)
Definition same_sort (st st' : NbrState F) : Prop :=
  sort_d_nbr st' = sort_d_nbr st ∧ sort_j_nbr st' = sort_j_nbr st ∧
  sort_num st' = sort_num st.

(** The state after [k] iterations of the re-tagging loop that moves the
    members [mf] of cluster [from] to cluster [to], whose members were [mt]. *)
Definition merge_inv (st : NbrState F) (to : Z) (mt mf : list Z) (k : Z)
    (st' : NbrState F) : Prop :=
  relabel (λ n c, if bool_decide (n ∈ take (Z.to_nat k) mf) then to else c)
    (birds st) (birds st') ∧
  cluster_assignment st' =
    <[Z.to_nat to := mt ++ take (Z.to_nat k) mf]> (cluster_assignment st) ∧
  max_cluster_id st' = max_cluster_id st ∧ same_sort st st'.

(** ** The topological sorted list *)

(** The retained neighbours: the first [sort_num] entries of the two
    arrays, as pairs of a squared distance and a bird. *)
Definition retained (st : NbrState F) : list (F * Z) :=
  zip (take (Z.to_nat (sort_num st)) (sort_d_nbr st))
      (take (Z.to_nat (sort_num st)) (sort_j_nbr st)).

(** [x <= y] as the insertion loop tests it: not [x > y]. *)
Definition fle (x y : F) : Prop := fgt x y = false.

Definition nearer (x y : F * Z) : Prop := fle x.1 y.1.

(** A squared distance that passed a [<] test. *)
Definition is_number (x : F * Z) : Prop := ∃ r, flt x.1 r = true.

(** The number of leading entries that [dsq] is greater than. *)
Fixpoint lead (dsq : F) (l : list F) : nat :=
  match l with
  | [] => O
  | e :: l' => if fgt dsq e then S (lead dsq l') else O
  end.

(** Insertion before the first entry that is not nearer. *)
Definition ins_sorted (x : F * Z) (l : list (F * Z)) : list (F * Z) :=
  let k := lead x.1 l.*1 in take k l ++ x :: drop k l.

(** Insertion sort, each new element going in front of its equals. *)
Definition isort (l : list (F * Z)) : list (F * Z) :=
  foldl (λ acc x, ins_sorted x acc) [] l.

(** ** The neighbour search, in terms of the input *)

(** [rd2] of line 1034. *)
Definition rd2_of (a : Accel F) : F :=
  fdiv (fmul (psmoothradius a) (psmoothradius a)) (fmul (sim_scale a) (sim_scale a)).

(** The squared distance between birds [i] and [j], as line 1122 computes
    it in the scan of [i]. *)
Definition dsq_of (bs : list (Bird F)) (i j : Z) : option F :=
  bi ← rd bs i; bj ← rd bs j; Some (dist_sq (pos bi) (pos bj)).

(** The test of line 1124: [j] is nearer to [i] than the clustering
    threshold. *)
Definition close (p : Params F) (bs : list (Bird F)) (i j : Z) : Prop :=
  ∃ dsq, dsq_of bs i j = Some dsq ∧
         flt dsq (fmul (cluster_threshold_dist p) (cluster_threshold_dist p)) = true.

(** The tests of lines 1145 and 1152: [j] is within the radius and in the
    field of view of [i]. *)
Definition qualifies (a : Accel F) (p : Params F) (bi bj : Bird F) : bool :=
  flt (dist_sq (pos bi) (pos bj)) (rd2_of a) &&
  fgt (vdot (normalize (vel bi)) (normalize (vsub (pos bj) (pos bi)))) (fovcos p).

(** The pairs that the scan of [i] over the neighbours [l] inserts. *)
Definition qual_list (a : Accel F) (p : Params F) (bs : list (Bird F)) (i : Z)
    (l : list Z) : list (F * Z) :=
  j ← l;
  match rd bs i, rd bs j with
  | Some bi, Some bj =>
      if qualifies a p bi bj then [(dist_sq (pos bi) (pos bj), j)] else []
  | _, _ => []
  end.

(** The neighbours that the scan of bird [i] visits (see
    [candidates_spec]). *)
Definition cand_list (a : Accel F) (bs : list (Bird F)) (i : Z) : list Z :=
  match rd bs i with
  | Some b => if decide (cell_of a b = GRID_UNDEF) then []
              else window_members a (cells a bs) i (cell_of a b)
  | None => []
  end.

(** The retained neighbours of bird [i] at the end of its scan: the first
    [neighbors] entries of the sorted list of the qualifying candidates. *)
Definition nbr_list (a : Accel F) (p : Params F) (bs : list (Bird F)) (i : Z)
    : list (F * Z) :=
  take (Z.to_nat (neighbors p)) (isort (qual_list a p bs i (cand_list a bs i))).

(** The unweighted mean as lines 1184-1195 compute it: the sum, times the
    reciprocal of the count; the zero vector for no vectors. *)
Definition mean_vec (vs : list (Vec3F F)) : Vec3F F :=
  if decide (vs = []) then vzero
  else vscale (foldl vadd vzero vs)
         (fdiv (f_of_int 1) (f_of_int (Z.of_nat (length vs)))).

(** The positions, or velocities, of the birds of a list of neighbours. *)
Definition gather (f : Bird F → Vec3F F) (bs : list (Bird F)) (l : list (F * Z))
    : list (Vec3F F) :=
  omap (λ x, f <$> rd bs x.2) l.

(** The change of cluster ids by lines 1124-1143 for the pair [(i, j)],
    where [t] and [cj] are the ids of [i] and [j] before. *)
Definition pair_relabel (j t cj : Z) (n c : Z) : Z :=
  if (n =? j) || ((c =? cj) && negb (cj =? -1)) then t else c.

(** What no part of [FindNeighbors] changes in a bird. *)
Definition same_static (b b' : Bird F) : Prop := pos b' = pos b ∧ vel b' = vel b.

(** What the scan of another bird does not change in a bird. *)
Definition same_result (b b' : Bird F) : Prop :=
  ave_pos b' = ave_pos b ∧ ave_vel b' = ave_vel b ∧
  near_j b' = near_j b ∧ t_nbrs b' = t_nbrs b.

(** The aggregates of a bird whose scan is over. *)
Definition aggregated (a : Accel F) (p : Params F) (bs : list (Bird F)) (n : Z)
    (b : Bird F) : Prop :=
  t_nbrs b = Z.of_nat (length (nbr_list a p bs n)) ∧
  ave_pos b = mean_vec (gather pos bs (nbr_list a p bs n)) ∧
  ave_vel b = mean_vec (gather vel bs (nbr_list a p bs n)).

(** The state during the scan of bird [i], after the neighbours [pre]. *)
Record walk_inv (a : Accel F) (p : Params F) (bs : list (Bird F)) (i : Z)
    (pre : list Z) (st : NbrState F) : Prop := {
  wi_static : ∀ n b, rd bs n = Some b →
              ∃ b', rd (birds st) n = Some b' ∧ same_static b b';
  wi_len : length (birds st) = length bs;
  wi_arrays : length (sort_d_nbr st) = 16%nat ∧ length (sort_j_nbr st) = 16%nat;
  wi_num : sort_num st ≤ 15 ∧ (neighbors p < 0 → sort_num st ≤ 0);
  wi_retained : 0 ≤ neighbors p →
                retained st = take (Z.to_nat (neighbors p)) (isort (qual_list a p bs i pre)) ∧
                sort_num st = Z.of_nat (length (retained st));
  wi_cluster : cluster_inv st;
  wi_ca_len : Z.of_nat (length (cluster_assignment st)) ≤ i + 1;
  wi_assigned : ∀ n, 0 ≤ n ≤ i → n < Z.of_nat (length bs) →
                ∃ c, cid_of (birds st) n = Some c ∧ c ≠ -1;
  wi_conn : ∀ x y c, cid_of (birds st) x = Some c → cid_of (birds st) y = Some c →
            c ≠ -1 → rtsc (close p bs) x y;
  wi_found : ∀ i' j, (0 ≤ i' < i ∧ j ∈ cand_list a bs i') ∨ (i' = i ∧ j ∈ pre) →
             close p bs i' j →
             ∃ c, c ≠ -1 ∧ cid_of (birds st) i' = Some c ∧ cid_of (birds st) j = Some c;
  wi_done : 0 ≤ neighbors p →
            ∀ n b, 0 ≤ n < i → rd (birds st) n = Some b → aggregated a p bs n b;
  wi_cleared : ∀ b, rd (birds st) i = Some b → ave_pos b = vzero ∧ ave_vel b = vzero
}.

(** The state before bird [i] is processed. *)
Record head_inv (a : Accel F) (p : Params F) (bs : list (Bird F)) (i : Z)
    (st : NbrState F) : Prop := {
  hi_static : ∀ n b, rd bs n = Some b →
              ∃ b', rd (birds st) n = Some b' ∧ same_static b b';
  hi_len : length (birds st) = length bs;
  hi_arrays : length (sort_d_nbr st) = 16%nat ∧ length (sort_j_nbr st) = 16%nat;
  hi_cluster : cluster_inv st;
  hi_ca_len : Z.of_nat (length (cluster_assignment st)) ≤ i;
  hi_assigned : ∀ n, 0 ≤ n < i → n < Z.of_nat (length bs) →
                ∃ c, cid_of (birds st) n = Some c ∧ c ≠ -1;
  hi_conn : ∀ x y c, cid_of (birds st) x = Some c → cid_of (birds st) y = Some c →
            c ≠ -1 → rtsc (close p bs) x y;
  hi_found : ∀ i' j, 0 ≤ i' < i → j ∈ cand_list a bs i' → close p bs i' j →
             ∃ c, c ≠ -1 ∧ cid_of (birds st) i' = Some c ∧ cid_of (birds st) j = Some c;
  hi_done : 0 ≤ neighbors p →
            ∀ n b, 0 ≤ n < i → rd (birds st) n = Some b → aggregated a p bs n b
}.

(** [bs'] is [bs] with the cluster ids changed by [f] and, possibly, other
    counters of the scan in progress; positions, velocities and results
    are the same. *)
Definition evolves (f : Z → Z → Z) (bs bs' : list (Bird F)) : Prop :=
  length bs' = length bs ∧
  ∀ n b, rd bs n = Some b →
    ∃ b', rd bs' n = Some b' ∧ same_static b b' ∧ same_result b b' ∧
          cluster_id b' = f n (cluster_id b).

(** The birds after [k] iterations of the summing loop of lines 1184-1188
    for bird [i], which was [bi] before, over the retained list [R]. *)
Definition accum_inv (bs : list (Bird F)) (i : Z) (bi : Bird F) (R : list (F * Z))
    (st : NbrState F) (k : Z) (st' : NbrState F) : Prop :=
  length (birds st') = length (birds st) ∧
  (∀ n, n ≠ i → rd (birds st') n = rd (birds st) n) ∧
  rd (birds st') i =
    Some (set_ave (foldl vadd vzero (gather pos bs (take (Z.to_nat k) R)))
                  (foldl vadd vzero (gather vel bs (take (Z.to_nat k) R))) bi) ∧
  cluster_assignment st' = cluster_assignment st ∧
  max_cluster_id st' = max_cluster_id st ∧ same_sort st st'.

(** Cell [gj] lies in the adjacency window of cell [gi]: on every axis its
    coordinate exceeds that of [gi] by -1 .. gridSrch - 2. *)
Definition in_window (a : Accel F) (gi gj : Vec3I) : Prop :=
  -1 ≤ vx gj - vx gi ≤ gridSrch a - 2 ∧
  -1 ≤ vy gj - vy gi ≤ gridSrch a - 2 ∧
  -1 ≤ vz gj - vz gi ≤ gridSrch a - 2.

(** [j] is another bird than [i], both have a cell of the scan region, and
    the cell of [j] lies in the window of the cell of [i]. *)
Definition window_pair (a : Accel F) (bs : list (Bird F)) (i j : Z) : Prop :=
  i ≠ j ∧ ∃ bi bj gi gj,
    rd bs i = Some bi ∧ rd bs j = Some bj ∧
    cell_coord a (pos bi) = Some gi ∧ cell_coord a (pos bj) = Some gj ∧
    in_scan a gi = true ∧ in_scan a gj = true ∧ in_window a gi gj.

(** The state of [FindNeighbors] in the scan of bird [i], when the
    neighbours [pre] have been visited: the birds before [i] are done, the
    scan of [i] has begun, and the body of the innermost loop has run for
    [pre]. *)
Definition scan_prefix (a : Accel F) (p : Params F) (g : Grid) (bs : list (Bird F))
    (junk_d : list F) (junk_j : list Z) (i : Z) (pre : list Z) : option (NbrState F) :=
  st0 ← init_state bs junk_d junk_j;
  st ← for_each (find_bird a p g (numPoints bs) (rd2_of a) (nadj_of a)) (seqZ 0 i) st0;
  bi ← rd (birds st) i;
  st3 ← begin_bird i st;
  for_each (visit p (rd2_of a) i (pos bi) (normalize (vel bi))) pre st3.

End Vocabulary.

(** ** The order of the squared distances *)

(** What the topological sort needs of [<]: it is asymmetric, and a value
    [y] that is less than something (so is a number) lies on one side of
    every [x < z]. *)
Class FloatOrder (F : Type) `{FloatOps F} : Prop := {
  flt_asym : ∀ x y : F, flt x y = true → flt y x = false;
  flt_negtrans : ∀ x y z r : F,
    flt y r = true → flt x z = true → flt x y = true ∨ flt y z = true
}.

(** A key whose lexicographic order is the order of the numbers of
    [SpecFloat]. *)
Definition f32_key (x : float32) : Z * Z * Z :=
  match x with
  | S754_infinity true => (-2, 0, 0)
  | S754_finite true m e => (-1, - e, - Z.pos m)
  | S754_zero _ => (0, 0, 0)
  | S754_nan => (0, 0, 0)
  | S754_finite false m e => (1, e, Z.pos m)
  | S754_infinity false => (2, 0, 0)
  end.

Definition key_lt (a b : Z * Z * Z) : Prop :=
  a.1.1 < b.1.1 ∨ (a.1.1 = b.1.1 ∧ (a.1.2 < b.1.2 ∨ (a.1.2 = b.1.2 ∧ a.2 < b.2))).

(** * A small flock *)

(** A grid as [InitializeGrid] builds it for the domain [8,16]^3 with
    smoothing radius 4, grid density 1 and simulation scale 1: cells of
    width 4, bounds [0,24]^3, resolution 6, search window 3. *)
Definition fz : Z → float32 := f32_of_int.
Definition v3 (x y z : Z) : Vec3 float32 := mkVec3 (fz x) (fz y) (fz z).
Definition quarter : float32 := SFdiv 24 128 (fz 1) (fz 4).

Definition demo_accel : Accel float32 :=
  InitializeGrid_tables
    (mkAccel (fz 4) (fz 1) (mkVec3 quarter quarter quarter) (v3 0 0 0)
       (mkVec3 0 0 0) (mkVec3 0 0 0) 0 0 0 [])
    (mkVec3 6 6 6) 3.

(** Seven neighbours, the full sphere as field of view, and the default
    clustering threshold of 3. *)
Definition demo_params : Params float32 := mkParams 7 (fz (-1)) (fz 3).

(** The same with a single retained neighbour, so that a bird with two
    birds in view has to leave one out. *)
Definition demo_params_one : Params float32 := mkParams 1 (fz (-1)) (fz 3).

Definition demo_bird (p : Vec3 float32) : Bird float32 :=
  mkBird p (v3 0 1 0) (v3 0 0 0) (v3 0 0 0) 0 0 0 0.

(** Three birds in a row inside the scan region, the outer ones first and
    3 apart; and two birds, 1 apart, in the border cell of the grid. *)
Definition demo_birds : list (Bird float32) :=
  [demo_bird (v3 9 9 9); demo_bird (v3 12 9 9); demo_bird (v3 10 9 9);
   demo_bird (v3 0 0 0); demo_bird (v3 1 0 0)].

Definition demo_old : list Z := replicate 5 0.
Definition demo_junk_d : list float32 := replicate 16 (fz 0).
Definition demo_junk_j : list Z := replicate 16 0.

(** A bird whose position is not a number. *)
Definition nan_bird : Bird float32 := demo_bird (mkVec3 S754_nan (fz 9) (fz 9)).

(** * Further functions of [app_flock.cpp] *)

(** ** iDivUp and ComputeNumBlocks (lines 368-376) *)

(** [a / b] and [a % b] on [int]: truncation toward zero; no result for a
    zero divisor or for the quotient that is not an [int]. *)
Definition int_div (a b : Z) : option Z :=
  if (b =? 0) || ((a =? -2147483648) && (b =? -1)) then None else Some (Z.quot a b).
Definition int_rem (a b : Z) : option Z :=
  if (b =? 0) || ((a =? -2147483648) && (b =? -1)) then None else Some (Z.rem a b).

(** [return (a % b != 0) ? (a / b + 1) : (a / b);] *)
Definition iDivUp (a b : Z) : option Z :=
  r ← int_rem a b;
  if negb (r =? 0) then q ← int_div a b; Some (i32 (q + 1)) else int_div a b.

(** [numThreads = std::min(minThreads, numPnts);
     numBlocks = (numThreads==0) ? 1 : iDivUp(numPnts, numThreads);]
    The result is the pair of [numBlocks] and [numThreads]. *)
Definition ComputeNumBlocks (numPnts minThreads : Z) : option (Z * Z) :=
  let numThreads := Z.min minThreads numPnts in
  numBlocks ← (if numThreads =? 0 then Some 1 else iDivUp numPnts numThreads);
  Some (numBlocks, numThreads).

(** ** InitializeGrid: the search size and the adjacency table
       (lines 806-811 and 841-845) *)

(** [gridAdj[cell++] = (y*gridRes.z + z)*gridRes.x + x;] into the array
    [int gridAdj[64]] of [struct Accel]; the state is the array and [cell]. *)
Definition adj_store (res : Vec3 Z) (y z : Z) (st : list Z * Z) (x : Z)
    : option (list Z * Z) :=
  let '(adj, cell) := st in
  adj' ← wr adj cell (i32 ((y * vz res + z) * vx res + x));
  Some (adj', i32 (cell + 1)).

Definition fill_adj (res : Vec3 Z) (srch : Z) (adj : list Z) : option (list Z * Z) :=
  for_each (λ st y,
      for_each (λ st z, for_each (adj_store res y z) (seqZ 0 srch) st) (seqZ 0 srch) st)
    (seqZ 0 srch) (adj, 0).

(** [if (gridSrch < 2) gridSrch = 2; .. if (gridSrch > 6) exit(-1);] and then
    the table.  The outer [None] is the exit; the inner one is a write
    outside of the array. *)
Definition InitializeGrid_adj (res : Vec3 Z) (gridSrch : Z) (adj : list Z)
    : option (option (list Z * Z)) :=
  let gridSrch := if gridSrch <? 2 then 2 else gridSrch in
  if gridSrch >? 6 then None else Some (fill_adj res gridSrch adj).

(** ** What [UpdateFlockData] sums *)

Section FlockSums.
Context {F : Type} `{FloatOps F}.

(** The tests of lines 1453-1458: the bird has a grid cell and no
    coordinate of its position is a NaN. *)
Definition is_counted (g : Grid) (n : Z) (b : Bird F) : bool :=
  match rd (pgcell g) n with
  | Some gc => negb (i32 gc =? GRID_UNDEF) &&
               negb (fisnan (vx (pos b)) || fisnan (vy (pos b)) || fisnan (vz (pos b)))
  | None => false
  end.

(** The position of bird [n] if it is counted, and, for [Some r], if the
    order of its cluster is [r]. *)
Definition counted_bird (g : Grid) (bs : list (Bird F)) (order : list Z)
    (r : option Z) (n : Z) : option (Vec3F F) :=
  b ← rd bs n;
  if is_counted g n b then
    match r with
    | None => Some (pos b)
    | Some r => order_n ← rd order (cluster_id b);
                if order_n =? r then Some (pos b) else None
    end
  else None.

(** The positions of the counted birds among the first [k], in the order
    of the birds. *)
Definition counted_pos (g : Grid) (bs : list (Bird F)) (order : list Z)
    (r : option Z) (k : Z) : list (Vec3F F) :=
  omap (counted_bird g bs order r) (seqZ 0 k).

End FlockSums.

(** ** AssignClusters (lines 1201-1279) *)

Section AssignModel.
Context {F : Type} `{FloatOps F}.

(** The fields [cluster_nbr_cnt] and [cluster_nbrs] of a bird, which only
    [AssignClusters] reads; they are kept in a table parallel to the
    birds. *)
Record ClusterNbrs := mkClusterNbrs { cluster_nbr_cnt : Z; cluster_nbrs : list Z }.

(** Lines 1234-1238: one neighbour in the search for the least cluster id
    among the neighbours that have one. *)
Definition min_nbr_step (bs : list (Bird F)) (nb : ClusterNbrs) (m : Z) (l : Z)
    : option Z :=
  j ← rd (cluster_nbrs nb) l;
  bj ← rd bs j;
  Some (if negb (cluster_id bj =? -1) && ((cluster_id bj <? m) || (m =? -1))
        then cluster_id bj else m).

(** Lines 1230-1250: a bird without a cluster takes the least cluster of
    its neighbours, or opens a new one. *)
Definition assign_own (i : Z) (nb : ClusterNbrs) (st : NbrState F) : option (NbrState F) :=
  bi ← rd (birds st) i;
  if cluster_id bi =? -1 then
    m ← for_each (min_nbr_step (birds st) nb) (seqZ 0 (cluster_nbr_cnt nb)) (-1);
    if m =? -1 then
      let mx := i32 (max_cluster_id st + 1) in
      st' ← upd_bird (set_cluster_id mx) i st;
      Some (set_clusters mx (cluster_assignment st' ++ [[i]]) st')
    else
      st' ← upd_bird (set_cluster_id m) i st;
      members ← rd (cluster_assignment st') m;
      ca ← wr (cluster_assignment st') m (members ++ [i]);
      Some (set_clusters (max_cluster_id st') ca st')
  else Some st.

(** Lines 1252-1273: one neighbour of bird [i]; the two tests and the merge
    are those of lines 1125-1142. *)
Definition assign_nbr (i : Z) (nb : ClusterNbrs) (st : NbrState F) (l : Z)
    : option (NbrState F) :=
  j ← rd (cluster_nbrs nb) l;
  cluster_pair i j st.

Definition assign_bird (tbl : list ClusterNbrs) (st : NbrState F) (i : Z)
    : option (NbrState F) :=
  nb ← rd tbl i;
  st1 ← assign_own i nb st;
  for_each (assign_nbr i nb) (seqZ 0 (cluster_nbr_cnt nb)) st1.

(** The state after lines 1214-1221: no clusters, every bird unassigned. *)
Definition reset_clusters (st : NbrState F) : NbrState F :=
  set_clusters (-1) [] (set_birds (set_cluster_id (-1) <$> birds st) st).

Definition AssignClusters (m_gpu m_calculate_clusters : bool) (tbl : list ClusterNbrs)
    (st : NbrState F) : option (NbrState F) :=
  if m_gpu then
    let st0 := reset_clusters st in
    if negb m_calculate_clusters then Some st0
    else for_each (assign_bird tbl) (seqZ 0 (numPoints (birds st))) st0
  else Some st.

(** [y] is one of the neighbours that the table lists for [x]. *)
Definition nbr_edge (tbl : list ClusterNbrs) (x y : Z) : Prop :=
  ∃ nb l, rd tbl x = Some nb ∧ 0 ≤ l < cluster_nbr_cnt nb ∧
          rd (cluster_nbrs nb) l = Some y.

(** Every bird has an entry in the table, and the neighbours that an entry
    counts are stored and are birds. *)
Definition nbrs_valid (tbl : list ClusterNbrs) (N : Z) : Prop :=
  Z.of_nat (length tbl) = N ∧
  ∀ x nb l, rd tbl x = Some nb → 0 ≤ l < cluster_nbr_cnt nb →
    ∃ j, rd (cluster_nbrs nb) l = Some j ∧ 0 ≤ j < N.

(** The state of [AssignClusters] during bird [i], when its own cluster is
    settled and [k] of its neighbours have been handled. *)
Record assign_walk (tbl : list ClusterNbrs) (bs0 : list (Bird F)) (N i k : Z)
    (st : NbrState F) : Prop := {
  aw_len : Z.of_nat (length (birds st)) = N;
  aw_frame : ∀ n b, rd bs0 n = Some b →
             ∃ c, rd (birds st) n = Some (set_cluster_id c b);
  aw_cluster : cluster_inv st;
  aw_ca_len : Z.of_nat (length (cluster_assignment st)) ≤ i + 1;
  aw_assigned : ∀ n, 0 ≤ n ≤ i → n < N → ∃ c, cid_of (birds st) n = Some c ∧ c ≠ -1;
  aw_conn : ∀ x y c, cid_of (birds st) x = Some c → cid_of (birds st) y = Some c →
            c ≠ -1 → rtsc (nbr_edge tbl) x y;
  aw_found : ∀ i' j nb l, 0 ≤ i' ≤ i → rd tbl i' = Some nb →
             0 ≤ l < cluster_nbr_cnt nb → (i' = i → l < k) →
             rd (cluster_nbrs nb) l = Some j →
             ∃ c, c ≠ -1 ∧ cid_of (birds st) i' = Some c ∧ cid_of (birds st) j = Some c
}.

(** The state of [AssignClusters] before bird [i]. *)
Record assign_inv (tbl : list ClusterNbrs) (bs0 : list (Bird F)) (N i : Z)
    (st : NbrState F) : Prop := {
  ai_len : Z.of_nat (length (birds st)) = N;
  ai_frame : ∀ n b, rd bs0 n = Some b →
             ∃ c, rd (birds st) n = Some (set_cluster_id c b);
  ai_cluster : cluster_inv st;
  ai_ca_len : Z.of_nat (length (cluster_assignment st)) ≤ i;
  ai_assigned : ∀ n, 0 ≤ n < i → n < N → ∃ c, cid_of (birds st) n = Some c ∧ c ≠ -1;
  ai_conn : ∀ x y c, cid_of (birds st) x = Some c → cid_of (birds st) y = Some c →
            c ≠ -1 → rtsc (nbr_edge tbl) x y;
  ai_found : ∀ i' j, 0 ≤ i' < i → nbr_edge tbl i' j →
             ∃ c, c ≠ -1 ∧ cid_of (birds st) i' = Some c ∧ cid_of (birds st) j = Some c
}.

End AssignModel.

Arguments ClusterNbrs : clear implicits.

(** A neighbour table for the five birds of [demo_birds]: the first three
    birds are joined through the third, the fourth lists the fifth (its
    array has one stale entry more than it counts), and the fifth lists
    none. *)
Definition demo_tbl : list ClusterNbrs :=
  [mkClusterNbrs 1 [2]; mkClusterNbrs 1 [2]; mkClusterNbrs 2 [0; 1];
   mkClusterNbrs 1 [4; 0]; mkClusterNbrs 0 []].

(** The state that the demo flock is in before a step. *)
Definition demo_state : NbrState float32 :=
  mkNbr demo_birds (-1) [] demo_junk_d demo_junk_j 0.

(** ** The counters that the neighbour search leaves in a bird *)

Section ResultModel.
Context {F : Type} `{FloatOps F}.

(** What [sort_j_nbr[0]] holds when the scan of bird [n] begins: the -1 of
    line 1057, or the first retained neighbour of the last bird before [n]
    that retained one. *)
Fixpoint first_slot (a : Accel F) (p : Params F) (bs : list (Bird F)) (n : nat) : Z :=
  match n with
  | O => -1
  | S m => match nbr_list a p bs (Z.of_nat m) with
           | [] => first_slot a p bs m
           | x :: _ => x.2
           end
  end.

(** The number of candidates of bird [n] that pass the tests of lines 1145
    and 1152. *)
Definition in_view (a : Accel F) (p : Params F) (bs : list (Bird F)) (n : Z) : Z :=
  Z.of_nat (length (qual_list a p bs n (cand_list a bs n))).

Definition same_counts (b b' : Bird F) : Prop :=
  near_j b' = near_j b ∧ r_nbrs b' = r_nbrs b.

(** The counters before bird [i] is processed. *)
Record results_inv (a : Accel F) (p : Params F) (bs : list (Bird F)) (i : Z)
    (st : NbrState F) : Prop := {
  ri_slot : 1 ≤ neighbors p →
            rd (sort_j_nbr st) 0 = Some (first_slot a p bs (Z.to_nat i));
  ri_near : 1 ≤ neighbors p →
            ∀ n b, 0 ≤ n < i → rd (birds st) n = Some b →
              near_j b = first_slot a p bs (Z.to_nat (n + 1));
  ri_count : ∀ n b, 0 ≤ n < i → rd (birds st) n = Some b → r_nbrs b = in_view a p bs n
}.

(** The counters during the scan of bird [i], after the neighbours [pre]. *)
Record results_walk (a : Accel F) (p : Params F) (bs : list (Bird F)) (i : Z)
    (pre : list Z) (st : NbrState F) : Prop := {
  rw_slot : 1 ≤ neighbors p → qual_list a p bs i pre = [] →
            rd (sort_j_nbr st) 0 = Some (first_slot a p bs (Z.to_nat i));
  rw_near : 1 ≤ neighbors p →
            ∀ n b, 0 ≤ n < i → rd (birds st) n = Some b →
              near_j b = first_slot a p bs (Z.to_nat (n + 1));
  rw_count : ∀ n b, 0 ≤ n < i → rd (birds st) n = Some b → r_nbrs b = in_view a p bs n;
  rw_own : ∀ b, rd (birds st) i = Some b →
           r_nbrs b = Z.of_nat (length (qual_list a p bs i pre))
}.

End ResultModel.

(** ** Two runs of the neighbour search on different stack contents *)

Section SearchPair.
Context {F : Type} `{FloatOps F}.

(** Two states of the neighbour search that differ at most in the entries
    of the two sort arrays that the search has not written: the birds, the
    clustering tables, the number and the list of the retained neighbours,
    and the first entry of [sort_j_nbr] are the same. *)
Definition same_search (st st' : NbrState F) : Prop :=
  birds st' = birds st ∧ max_cluster_id st' = max_cluster_id st ∧
  cluster_assignment st' = cluster_assignment st ∧
  sort_num st' = sort_num st ∧ 0 ≤ sort_num st ≤ 15 ∧
  (length (sort_d_nbr st) = 16%nat ∧ length (sort_j_nbr st) = 16%nat) ∧
  (length (sort_d_nbr st') = 16%nat ∧ length (sort_j_nbr st') = 16%nat) ∧
  retained st' = retained st ∧ rd (sort_j_nbr st') 0 = rd (sort_j_nbr st) 0.

(** [g] neither reads nor writes the three locals of the sort. *)
Definition sort_free (g : NbrState F → option (NbrState F)) : Prop :=
  ∀ d j n s, g (set_sort d j n s) = set_sort d j n <$> g s.

End SearchPair.

(** ** Graph (lines 2529-2545) *)

Section GraphModel.
Context {F : Type} `{FloatOps F}.

(** [struct graph_t] (line 78): a cursor and a ring of 2048 samples. *)
Record graph_t := mkGraph {
  g_x : Z;
  g_y : list F;
  g_scal : F * F;
  g_clr : F * F * F * F
}.

(** Lines 2533-2537: the graph that the loop appends. *)
Definition new_graph (clr : F * F * F * F) (scal : F * F) : graph_t :=
  mkGraph 0 (replicate 2048 (f_of_int 0)) scal clr.

(** The conversion of an [int] to the 64-bit [size_t] that the comparison
    with [m_graph.size()] makes. *)
Definition u64 (z : Z) : Z := z mod 18446744073709551616.

(** [while (id >= m_graph.size()) m_graph.push_back (ng);]  [fuel] bounds
    the number of iterations. *)
Fixpoint grow_graphs (fuel : nat) (id : Z) (ng : graph_t) (gs : list graph_t)
    : option (list graph_t) :=
  if u64 id >=? Z.of_nat (length gs) then
    match fuel with
    | O => None
    | S fuel' => grow_graphs fuel' id ng (gs ++ [ng])
    end
  else Some gs.

(** [id + 1] iterations are enough for an [id] that is not negative; for
    a negative [id] the converted value exceeds every size and the loop
    does not end. *)
Definition Graph (id : Z) (y : F) (clr : F * F * F * F) (scal : F * F)
    (m_graph : list graph_t) : option (list graph_t) :=
  gs ← grow_graphs (Z.to_nat (id + 1)) id (new_graph clr scal) m_graph;
  g ← rd gs id;
  let x := i32 (g_x g + 1) in
  let x := if x >=? 2048 then 0 else x in
  ys ← wr (g_y g) x y;
  wr gs id (mkGraph x ys (g_scal g) (g_clr g)).

(** A graph whose cursor is inside its ring of 2048 samples. *)
Definition graph_ok (g : graph_t) : Prop :=
  0 ≤ g_x g < 2048 ∧ length (g_y g) = 2048%nat.

End GraphModel.

Arguments graph_t F : clear implicits.

(** ** A flock with one bird more *)

(** The flock [bs] with the bird [b] put at index [k]. *)
Definition insert_bird {A} (k : nat) (b : A) (bs : list A) : list A :=
  take k bs ++ b :: drop k bs.

(** The index that bird [n] has after another bird is put at index [k]. *)
Definition skip_index (k n : Z) : Z := if n <? k then n else n + 1.

(** * Buffers and loops *)

Section Buffers.
Context {A : Type}.
Implicit Types (a : list A) (i j : Z) (v : A).

Lemma rd_Some a i v : rd a i = Some v ↔ 0 ≤ i ∧ a !! Z.to_nat i = Some v.
Proof.
  unfold rd. case_bool_decide; split; intros; destruct_and?; try done; lia.
Qed.

Lemma rd_None a i : rd a i = None ↔ i < 0 ∨ Z.of_nat (length a) ≤ i.
Proof.
  unfold rd. case_bool_decide.
  - rewrite lookup_ge_None. lia.
  - split; [lia | done].
Qed.

Lemma rd_range a i v : rd a i = Some v → 0 ≤ i < Z.of_nat (length a).
Proof.
  rewrite rd_Some. intros [? Hl]. apply lookup_lt_Some in Hl. lia.
Qed.

Lemma rd_is_Some a i : 0 ≤ i < Z.of_nat (length a) → is_Some (rd a i).
Proof.
  intros. destruct (rd a i) eqn:E; [done|]. apply rd_None in E. lia.
Qed.

Lemma rd_nat a (n : nat) : rd a (Z.of_nat n) = a !! n.
Proof. unfold rd. rewrite bool_decide_eq_true_2 by lia. by rewrite Nat2Z.id. Qed.

Lemma wr_Some a i v a' :
  wr a i v = Some a' ↔ 0 ≤ i < Z.of_nat (length a) ∧ a' = <[Z.to_nat i := v]> a.
Proof.
  unfold wr. case_bool_decide.
  - split; [intros [= <-]; done | intros [_ ->]; done].
  - split; [done | intros [? _]; done].
Qed.

Lemma wr_is_Some a i v : 0 ≤ i < Z.of_nat (length a) → is_Some (wr a i v).
Proof. intros. unfold wr. rewrite bool_decide_eq_true_2; done. Qed.

Lemma wr_length a i v a' : wr a i v = Some a' → length a' = length a.
Proof. rewrite wr_Some. intros [_ ->]. apply length_insert. Qed.

Lemma rd_wr_eq a i v a' : wr a i v = Some a' → rd a' i = Some v.
Proof.
  rewrite wr_Some, rd_Some. intros [? ->]. split; [lia|].
  apply list_lookup_insert_eq. lia.
Qed.

Lemma rd_wr_ne a i j v a' : wr a i v = Some a' → i ≠ j → rd a' j = rd a j.
Proof.
  rewrite wr_Some. intros [? ->] Hne. unfold rd. case_bool_decide; [|done].
  apply list_lookup_insert_ne. lia.
Qed.

End Buffers.

Section Loops.
Context {A St : Type}.
Implicit Types (f : St → A → option St) (l : list A) (s : St).

Lemma for_each_app f l1 l2 s :
  for_each f (l1 ++ l2) s = for_each f l1 s ≫= for_each f l2.
Proof.
  revert s. induction l1 as [|x l1 IH]; intros s; simpl; [done|].
  destruct (f s x); simpl; [apply IH | done].
Qed.

Lemma for_each_snoc f l x s :
  for_each f (l ++ [x]) s = for_each f l s ≫= λ s', f s' x.
Proof.
  rewrite for_each_app. destruct (for_each f l s); simpl; [|done].
  by destruct (f _ x).
Qed.

(** An invariant that every iteration preserves holds at the end. *)
Lemma for_each_inv (P : St → Prop) f l s s' :
  (∀ s x s', x ∈ l → P s → f s x = Some s' → P s') →
  P s → for_each f l s = Some s' → P s'.
Proof.
  revert s. induction l as [|x l IH]; intros s Hf HP; simpl.
  - by intros [= <-].
  - destruct (f s x) as [s1|] eqn:E; [|done]. intros Hl.
    eapply (IH s1); [| |done].
    + intros s2 y s3 Hy. apply Hf. apply elem_of_cons. by right.
    + eapply Hf; [apply elem_of_cons; by left|done..].
Qed.

End Loops.

(** A loop over [lo, lo+len) with an invariant indexed by the counter: if
    every iteration succeeds and re-establishes the invariant, the loop
    succeeds and the invariant holds at the exit. *)
Lemma for_each_seqZ {St} (I : Z → St → Prop) (f : St → Z → option St) lo len s :
  0 ≤ len →
  I lo s →
  (∀ k s, lo ≤ k < lo + len → I k s → ∃ s', f s k = Some s' ∧ I (k + 1) s') →
  ∃ s', for_each f (seqZ lo len) s = Some s' ∧ I (lo + len) s'.
Proof.
  intros Hlen. rewrite <- (Z2Nat.id len) by done.
  generalize (Z.to_nat len) as n. clear Hlen len.
  induction n as [|n IH]; intros H0 Hstep.
  - exists s. rewrite Z.add_0_r. done.
  - rewrite seqZ_S.
    destruct IH as (s1 & E1 & I1); [done| |].
    { intros k s2 ?. apply Hstep. lia. }
    destruct (Hstep (lo + Z.of_nat n) s1) as (s2 & E2 & I2); [lia|done|].
    exists s2. rewrite for_each_snoc, E1; simpl. split; [done|].
    by replace (lo + Z.of_nat (S n)) with (lo + Z.of_nat n + 1) by lia.
Qed.

(** * Machine integers *)

Lemma i32_small z : -2147483648 ≤ z ≤ 2147483647 → i32 z = z.
Proof. intros. unfold i32. rewrite Z.mod_small; lia. Qed.

Lemma u32_small z : 0 ≤ z < 4294967296 → u32 z = z.
Proof. intros. unfold u32. rewrite Z.mod_small; lia. Qed.

(** * Occupancy of cells *)

Lemma members_upto_S cs c k :
  members_upto cs c (S k) =
  members_upto cs c k ++ (if decide (cs !! k = Some c) then [Z.of_nat k] else []).
Proof.
  unfold members_upto. rewrite seqZ_S, filter_app. f_equal.
  rewrite Z.add_0_l. cbn. rewrite rd_nat.
  destruct (decide (cs !! k = Some c)); by rewrite ?decide_True, ?decide_False.
Qed.

Lemma occ_S cs c k :
  occ cs c (S k) = occ cs c k + (if decide (cs !! k = Some c) then 1 else 0).
Proof.
  unfold occ. rewrite members_upto_S, length_app.
  destruct (decide _); simpl; lia.
Qed.

Lemma occ_bounds cs c k : 0 ≤ occ cs c k ≤ Z.of_nat k.
Proof.
  induction k as [|k IH]; [done|]. rewrite occ_S. destruct (decide _); lia.
Qed.

Lemma occ_mono cs c k k' : (k ≤ k')%nat → occ cs c k ≤ occ cs c k'.
Proof.
  induction 1 as [|k' _ IH]; [done|]. rewrite occ_S. destruct (decide _); lia.
Qed.

(** A bird of cell [c] is counted by every later occupancy. *)
Lemma occ_lt cs c n k :
  cs !! n = Some c → (n < k)%nat → occ cs c n < occ cs c k.
Proof.
  intros Hn Hk. pose proof (occ_mono cs c (S n) k Hk).
  rewrite occ_S, decide_True in H by done. lia.
Qed.

Lemma elem_of_members_upto cs c k n :
  n ∈ members_upto cs c k ↔ 0 ≤ n < Z.of_nat k ∧ rd cs n = Some c.
Proof. unfold members_upto. rewrite list_elem_of_filter, elem_of_seqZ. tauto. Qed.

Lemma NoDup_members_upto cs c k : NoDup (members_upto cs c k).
Proof. apply NoDup_filter, NoDup_seqZ. Qed.

(** The bird [n] of cell [c] stands at position [occ cs c n] among the
    members of [c]. *)
Lemma members_lookup_occ cs c n :
  cs !! n = Some c → members cs c !! Z.to_nat (occ cs c n) = Some (Z.of_nat n).
Proof.
  intros Hn. unfold members.
  assert (n < length cs)%nat as Hlt by (by eapply lookup_lt_Some).
  replace (length cs) with (S n + (length cs - S n))%nat by lia.
  generalize (length cs - S n)%nat as d. intros d.
  induction d as [|d IH].
  - rewrite Nat.add_0_r, members_upto_S, decide_True by done.
    unfold occ. rewrite Nat2Z.id. by rewrite lookup_app_r, Nat.sub_diag.
  - replace (S n + S d)%nat with (S (S n + d)) by lia.
    rewrite members_upto_S. apply lookup_app_l_Some, IH.
Qed.

Lemma defined_count_snoc cs c :
  defined_count (cs ++ [c]) =
  defined_count cs + (if decide (c = GRID_UNDEF) then 0 else 1).
Proof.
  unfold defined_count. rewrite filter_app, length_app. cbn.
  destruct (decide (c = GRID_UNDEF)).
  - rewrite decide_False by (by intros ?). simpl. lia.
  - rewrite decide_True by done. simpl. lia.
Qed.

Lemma defined_count_bounds cs : 0 ≤ defined_count cs ≤ Z.of_nat (length cs).
Proof. unfold defined_count. pose proof (length_filter (λ c, c ≠ GRID_UNDEF) cs). lia. Qed.

Lemma sumZ_insert (l : list Z) (i : nat) v w :
  l !! i = Some v → sumZ (<[i:=w]> l) = sumZ l - v + w.
Proof.
  revert i. induction l as [|x l IH]; intros [|i]; simpl; try done.
  - intros [= ->]. lia.
  - intros Hi. rewrite (IH i Hi). lia.
Qed.

Lemma sumZ_replicate n : sumZ (replicate n 0) = 0.
Proof. induction n; simpl; lia. Qed.

Lemma sumZ_app l1 l2 : sumZ (l1 ++ l2) = sumZ l1 + sumZ l2.
Proof. induction l1; simpl; lia. Qed.

(** * The count phase *)

Section Count.
Context {F : Type} `{FloatOps F}.
Implicit Types (a : Accel F) (bs : list (Bird F)) (cs : list Z).

Lemma in_scan_bounds a gc :
  accel_wf a → in_scan a gc = true →
  1 ≤ vx gc ≤ vx (gridRes a) - gridSrch a ∧
  1 ≤ vy gc ≤ vy (gridRes a) - gridSrch a ∧
  1 ≤ vz gc ≤ vz (gridRes a) - gridSrch a.
Proof.
  intros Hwf. unfold in_scan. rewrite (wf_scan a Hwf). simpl.
  rewrite !andb_true_iff, !Z.leb_le. lia.
Qed.

(** Inside the scan region the flattened index does not wrap and is a cell
    of the grid. *)
Lemma flat_index_range a gc :
  accel_wf a → in_scan a gc = true →
  flat_index a gc = (vy gc * vz (gridRes a) + vz gc) * vx (gridRes a) + vx gc ∧
  0 ≤ flat_index a gc < gridTotal a.
Proof.
  intros Hwf Hin. pose proof (in_scan_bounds a gc Hwf Hin) as (Hx & Hy & Hz).
  pose proof (wf_srch a Hwf). pose proof (wf_total a Hwf) as Ht.
  pose proof (wf_total_int a Hwf). unfold INT_MAX in *.
  set (rx := vx (gridRes a)) in *. set (ry := vy (gridRes a)) in *.
  set (rz := vz (gridRes a)) in *.
  assert (0 ≤ (vy gc * rz + vz gc) * rx + vx gc < gridTotal a) as Hr.
  { rewrite Ht.
    assert (3 ≤ rx ∧ 3 ≤ ry ∧ 3 ≤ rz) as (? & ? & ?) by lia.
    assert (0 ≤ vy gc * rz) by nia.
    assert (0 ≤ (vy gc * rz + vz gc) * rx) by nia.
    assert (vy gc * rz ≤ (ry - 2) * rz) by nia.
    assert ((vy gc * rz + vz gc + 1) * rx ≤ ((ry - 1) * rz) * rx) by nia.
    assert (0 ≤ rz * rx) by nia.
    nia. }
  unfold flat_index. fold rx rz. rewrite i32_small by lia. done.
Qed.

Lemma cell_of_defined a b :
  accel_wf a → cell_of a b ≠ GRID_UNDEF →
  ∃ gc, cell_coord a (pos b) = Some gc ∧ in_scan a gc = true ∧
        cell_of a b = flat_index a gc ∧ 0 ≤ cell_of a b < gridTotal a.
Proof.
  intros Hwf. unfold cell_of. destruct (cell_coord a (pos b)) as [gc|]; [|done].
  destruct (in_scan a gc) eqn:Hin; [|done]. intros _.
  pose proof (flat_index_range a gc Hwf Hin) as [_ Hr].
  pose proof (wf_total_int a Hwf). unfold INT_MAX in *.
  exists gc. rewrite u32_small by lia. done.
Qed.

Lemma cells_in_grid_cells a bs : accel_wf a → cells_in_grid (cells a bs) (gridTotal a).
Proof.
  intros Hwf c [b [-> _]]%list_elem_of_fmap.
  destruct (decide (cell_of a b = GRID_UNDEF)); [by left|right].
  by destruct (cell_of_defined a b) as (? & _ & _ & _ & ?).
Qed.

Lemma rd_cells a bs n b : rd bs n = Some b → rd (cells a bs) n = Some (cell_of a b).
Proof.
  rewrite !rd_Some. intros [? Hb]. split; [done|].
  unfold cells. by rewrite list_lookup_fmap, Hb.
Qed.

Lemma insert_step_inv a bs k st :
  accel_wf a → coords_defined a bs → numPoints bs ≤ INT_MAX →
  0 ≤ k < numPoints bs → count_inv a bs k st →
  ∃ st', insert_step a bs st k = Some st' ∧ count_inv a bs (k + 1) st'.
Proof.
  intros Hwf Hdef Hmax Hk. destruct st as [[cell ndx] cnt].
  intros (Hlc & Hln & Hlt & Hcell & Hndx & Hcnt & Hsum).
  unfold numPoints, INT_MAX in *.
  destruct (rd_is_Some bs k) as [b Hb]; [lia|].
  pose proof (rd_cells a bs k b Hb) as Hck.
  assert (cells a bs !! Z.to_nat k = Some (cell_of a b)) as Hck' by (by apply rd_Some in Hck as [_ ?]).
  assert (is_Some (cell_coord a (pos b))) as [gc Hgc].
  { apply rd_Some in Hb as [_ Hb]. eapply Forall_lookup_1 in Hdef; done. }
  assert (Z.to_nat (k + 1) = S (Z.to_nat k)) as HS by lia.
  assert (take (Z.to_nat (k + 1)) (cells a bs) =
          take (Z.to_nat k) (cells a bs) ++ [cell_of a b]) as Htake.
  { rewrite HS. by erewrite take_S_r. }
  unfold insert_step. rewrite Hb. simpl. rewrite Hgc. simpl.
  assert (cell_of a b = if in_scan a gc then u32 (flat_index a gc) else GRID_UNDEF) as Hcell_of.
  { unfold cell_of. by rewrite Hgc. }
  destruct (in_scan a gc) eqn:Hin.
  - pose proof (flat_index_range a gc Hwf Hin) as [_ Hr].
    pose proof (wf_total_int a Hwf) as Hti. unfold INT_MAX in Hti.
    set (gs := flat_index a gc) in *.
    rewrite u32_small in Hcell_of |- * by lia.
    destruct (wr_is_Some cell k gs) as [cell' Hc']; [lia|]. rewrite Hc'. simpl.
    rewrite (Hcnt gs) by lia. simpl.
    set (c := occ (cells a bs) gs (Z.to_nat k)).
    pose proof (occ_bounds (cells a bs) gs (Z.to_nat k)) as Hob. fold c in Hob.
    destruct (wr_is_Some ndx k c) as [ndx' Hn']; [lia|]. rewrite Hn'. simpl.
    rewrite u32_small by lia.
    destruct (wr_is_Some cnt gs (c + 1)) as [cnt' Ht']; [lia|]. rewrite Ht'. simpl.
    eexists; split; [done|]. unfold count_inv.
    rewrite (wr_length _ _ _ _ Hc'), (wr_length _ _ _ _ Hn'), (wr_length _ _ _ _ Ht').
    split_and!; try done.
    + intros n Hn. destruct (decide (n = k)) as [->|Hne].
      * rewrite (rd_wr_eq _ _ _ _ Hc'), Hck. by rewrite Hcell_of.
      * rewrite (rd_wr_ne _ _ _ _ _ Hc') by done. apply Hcell. lia.
    + intros n c0 Hn Hcs Hud. destruct (decide (n = k)) as [->|Hne].
      * rewrite (rd_wr_eq _ _ _ _ Hn'). rewrite Hck in Hcs.
        injection Hcs as <-. by rewrite Hcell_of.
      * rewrite (rd_wr_ne _ _ _ _ _ Hn') by done. apply Hndx; [lia|done..].
    + intros c0 Hc0. rewrite HS, occ_S, Hck', Hcell_of.
      destruct (decide (c0 = gs)) as [->|Hne].
      * rewrite (rd_wr_eq _ _ _ _ Ht'), decide_True by done. done.
      * rewrite (rd_wr_ne _ _ _ _ _ Ht') by done.
        rewrite decide_False by congruence. rewrite Z.add_0_r. by apply Hcnt.
    + apply wr_Some in Ht' as [_ ->].
      erewrite sumZ_insert; [|by eapply rd_Some, Hcnt; lia].
      rewrite Hsum, Htake, defined_count_snoc, Hcell_of.
      rewrite decide_False; [fold c; lia|]. unfold GRID_UNDEF. lia.
  - destruct (wr_is_Some cell k GRID_UNDEF) as [cell' Hc']; [lia|]. rewrite Hc'. simpl.
    eexists; split; [done|]. unfold count_inv.
    rewrite (wr_length _ _ _ _ Hc').
    split_and!; try done.
    + intros n Hn. destruct (decide (n = k)) as [->|Hne].
      * rewrite (rd_wr_eq _ _ _ _ Hc'), Hck. by rewrite Hcell_of.
      * rewrite (rd_wr_ne _ _ _ _ _ Hc') by done. apply Hcell. lia.
    + intros n c0 Hn Hcs Hud. destruct (decide (n = k)) as [->|Hne].
      * rewrite Hck in Hcs. injection Hcs as <-. by rewrite Hcell_of in Hud.
      * apply Hndx; [lia|done..].
    + intros c0 Hc0. rewrite HS, occ_S, Hck', Hcell_of.
      rewrite decide_False, Z.add_0_r; [by apply Hcnt|].
      intros [= <-]. pose proof (wf_total_int a Hwf). unfold GRID_UNDEF, INT_MAX in *. lia.
    + rewrite Hsum, Htake, defined_count_snoc, Hcell_of, decide_True by done. lia.
Qed.

(** [InsertIntoGrid] returns, and leaves the buffers [counted]. *)
Lemma InsertIntoGrid_counted a bs old :
  accel_wf a → coords_defined a bs → numPoints bs ≤ INT_MAX →
  ∃ g, InsertIntoGrid a bs old = Some g ∧
       counted (cells a bs) (gridTotal a) g ∧
       mgoff g = replicate (Z.to_nat (gridTotal a)) 0 ∧ mgrid g = old.
Proof.
  intros Hwf Hdef Hmax.
  destruct (for_each_seqZ (count_inv a bs) (insert_step a bs) 0 (numPoints bs)
              (replicate (length bs) 0, replicate (length bs) 0,
               replicate (Z.to_nat (gridTotal a)) 0))
    as ([[cell ndx] cnt] & Hrun & Hinv).
  - unfold numPoints. lia.
  - unfold count_inv. rewrite !length_replicate. split_and!; try done; try lia.
    + intros c Hc. unfold occ. simpl.
      apply rd_Some. split; [lia|]. apply lookup_replicate_2. lia.
    + by rewrite sumZ_replicate.
  - intros k st Hk. apply insert_step_inv; try done; lia.
  - unfold InsertIntoGrid. rewrite Hrun. simpl. eexists; split; [done|].
    destruct Hinv as (Hlc & Hln & Hlt & Hcell & Hndx & Hcnt & Hsum).
    rewrite Z.add_0_l in *. unfold numPoints in *.
    assert (length (cells a bs) = length bs) as Hlcs by (unfold cells; apply length_fmap).
    split_and!; try done. split; simpl; try done.
    + apply list_eq. intros i. destruct (decide (i < length bs)%nat).
      * rewrite <- !rd_nat. apply Hcell. lia.
      * rewrite !lookup_ge_None_2; [done|lia..].
    + by rewrite Hlcs.
    + intros n c Hn. apply Hndx; [|done]. apply rd_range in Hn. lia.
    + intros c Hc. rewrite Hlcs, <- (Nat2Z.id (length bs)). by apply Hcnt.
    + rewrite Hsum, Nat2Z.id, <- Hlcs. by rewrite firstn_all.
Qed.

End Count.

(** * The scan and scatter phases *)

Lemma sumZ_take_S (l : list Z) k v :
  l !! k = Some v → sumZ (take (S k) l) = sumZ (take k l) + v.
Proof.
  intros Hk. erewrite take_S_r by done. rewrite sumZ_app. simpl. lia.
Qed.

Lemma sumZ_nonneg (l : list Z) : Forall (λ x, 0 ≤ x) l → 0 ≤ sumZ l.
Proof. induction 1; simpl; lia. Qed.

Lemma presum_mono cnt c c' :
  Forall (λ x, 0 ≤ x) cnt → 0 ≤ c ≤ c' → presum cnt c ≤ presum cnt c'.
Proof.
  intros Hpos Hc. unfold presum.
  rewrite <- (take_drop (Z.to_nat c) (take (Z.to_nat c') cnt)).
  rewrite take_take, Nat.min_l, sumZ_app by lia.
  assert (0 ≤ sumZ (drop (Z.to_nat c) (take (Z.to_nat c') cnt))); [|lia].
  apply sumZ_nonneg, Forall_drop, Forall_take, Hpos.
Qed.

Lemma presum_le_total cnt c :
  Forall (λ x, 0 ≤ x) cnt → presum cnt c ≤ sumZ cnt.
Proof.
  intros Hpos. unfold presum.
  rewrite <- (take_drop (Z.to_nat c) cnt) at 2. rewrite sumZ_app.
  assert (0 ≤ sumZ (drop (Z.to_nat c) cnt)); [|lia].
  apply sumZ_nonneg, Forall_drop, Hpos.
Qed.

Lemma presum_succ cnt c v :
  0 ≤ c → rd cnt c = Some v → presum cnt (c + 1) = presum cnt c + v.
Proof.
  intros Hc [_ Hv]%rd_Some. unfold presum.
  replace (Z.to_nat (c + 1)) with (S (Z.to_nat c)) by lia.
  by apply sumZ_take_S.
Qed.

Lemma presum_0 cnt : presum cnt 0 = 0.
Proof. done. Qed.

Section Counted.
Context (cs : list Z) (T : Z) (g : Grid).
Hypothesis Hcnt : counted cs T g.

Lemma counted_nonneg : Forall (λ x, 0 ≤ x) (mgcnt g).
Proof.
  apply Forall_lookup_2. intros i x Hi.
  assert (0 ≤ Z.of_nat i < T) as Hr.
  { apply lookup_lt_Some in Hi. rewrite (cnt_len _ _ _ Hcnt) in Hi. lia. }
  rewrite <- rd_nat, (cnt_cnt _ _ _ Hcnt) in Hi by done.
  injection Hi as <-. apply occ_bounds.
Qed.

Lemma counted_presum_total : presum (mgcnt g) T = defined_count cs.
Proof.
  unfold presum. rewrite <- (cnt_len _ _ _ Hcnt), firstn_all.
  apply (cnt_sum _ _ _ Hcnt).
Qed.

(** A slot lies inside the range of its cell. *)
Lemma slot_range n c :
  0 ≤ c < T → rd cs n = Some c →
  presum (mgcnt g) c ≤ slot cs (mgcnt g) c n < presum (mgcnt g) (c + 1).
Proof.
  intros Hc Hn. unfold slot.
  rewrite (presum_succ _ c _ (proj1 Hc) (cnt_cnt _ _ _ Hcnt c Hc)).
  pose proof (occ_bounds cs c (Z.to_nat n)).
  apply rd_Some in Hn as [? Hn].
  pose proof (occ_lt cs c (Z.to_nat n) (length cs) Hn (lookup_lt_Some _ _ _ Hn)).
  lia.
Qed.

Lemma slot_bound n c :
  0 ≤ c < T → rd cs n = Some c →
  0 ≤ slot cs (mgcnt g) c n < defined_count cs.
Proof.
  intros Hc Hn. pose proof (slot_range n c Hc Hn).
  pose proof (presum_mono (mgcnt g) 0 c counted_nonneg ltac:(lia)).
  pose proof (presum_mono (mgcnt g) (c + 1) T counted_nonneg ltac:(lia)).
  rewrite presum_0 in *. rewrite counted_presum_total in *. lia.
Qed.

(** Two birds never share a slot. *)
Lemma slot_inj n m c d :
  0 ≤ c < T → 0 ≤ d < T → rd cs n = Some c → rd cs m = Some d →
  slot cs (mgcnt g) c n = slot cs (mgcnt g) d m → n = m.
Proof.
  intros Hc Hd Hn Hm Heq.
  pose proof (slot_range n c Hc Hn). pose proof (slot_range m d Hd Hm).
  destruct (Z.lt_trichotomy c d) as [Hlt|[->|Hlt]].
  - pose proof (presum_mono (mgcnt g) (c + 1) d counted_nonneg ltac:(lia)). lia.
  - unfold slot in Heq.
    apply rd_Some in Hn as [? Hn]. apply rd_Some in Hm as [? Hm].
    destruct (Nat.lt_trichotomy (Z.to_nat n) (Z.to_nat m)) as [Hl|[?|Hl]]; [|lia|].
    + pose proof (occ_lt cs d _ _ Hn Hl). lia.
    + pose proof (occ_lt cs d _ _ Hm Hl). lia.
  - pose proof (presum_mono (mgcnt g) (d + 1) c counted_nonneg ltac:(lia)). lia.
Qed.

End Counted.

Section Scatter.
Context (cs : list Z) (T : Z) (g : Grid).
Hypothesis Hcnt : counted cs T g.
Hypothesis Hin : cells_in_grid cs T.
Hypothesis HT : 0 ≤ T.
Hypothesis Hmax : Z.of_nat (length cs) ≤ INT_MAX.

Lemma scan_step_inv k st :
  0 ≤ k < T → scan_inv (mgcnt g) T k st →
  ∃ st', scan_step (mgcnt g) st k = Some st' ∧ scan_inv (mgcnt g) T (k + 1) st'.
Proof.
  intros Hk. destruct st as [off sum]. intros (Hlen & Hoff & ->).
  pose proof (counted_nonneg cs T g Hcnt) as Hpos.
  pose proof (presum_mono (mgcnt g) 0 k Hpos ltac:(lia)) as H0.
  pose proof (presum_le_total (mgcnt g) (k + 1) Hpos) as H1.
  pose proof (cnt_cnt _ _ _ Hcnt k Hk) as Hc.
  pose proof (presum_succ _ _ _ (proj1 Hk) Hc) as Hs.
  pose proof (occ_bounds cs k (length cs)) as Hocc.
  pose proof (defined_count_bounds cs) as Hdc.
  rewrite presum_0 in H0. rewrite (cnt_sum _ _ _ Hcnt) in H1. unfold INT_MAX in *.
  unfold scan_step. rewrite u32_small by lia.
  destruct (wr_is_Some off k (presum (mgcnt g) k)) as [off' Ho]; [lia|].
  rewrite Ho. simpl. rewrite Hc. simpl. eexists; split; [done|].
  unfold scan_inv. rewrite (wr_length _ _ _ _ Ho). split_and!; [done| |].
  - intros c Hc'. destruct (decide (c = k)) as [->|Hne].
    + by rewrite (rd_wr_eq _ _ _ _ Ho).
    + rewrite (rd_wr_ne _ _ _ _ _ Ho) by done. apply Hoff. lia.
  - rewrite i32_small by lia. done.
Qed.

Lemma scatter_step_inv off j grid :
  (∀ c, 0 ≤ c < T → rd off c = Some (presum (mgcnt g) c)) →
  0 ≤ j < Z.of_nat (length cs) → scatter_inv cs (mgcnt g) j grid →
  ∃ grid', scatter_step g off grid j = Some grid' ∧
           scatter_inv cs (mgcnt g) (j + 1) grid'.
Proof.
  intros Hoff Hj (Hlen & Hput & Honly).
  destruct (rd_is_Some cs j) as [c Hc]; [lia|].
  destruct (rd_is_Some (pgndx g) j) as [r Hr]; [rewrite (cnt_ndx_len _ _ _ Hcnt); lia|].
  unfold scatter_step. rewrite (cnt_cell _ _ _ Hcnt), Hc. simpl.
  case_bool_decide as Hud.
  - assert (0 ≤ c < T) as HcT.
    { destruct (Hin c); [|done|done]. apply rd_Some in Hc as [_ Hc].
      by eapply list_elem_of_lookup_2. }
    rewrite (Hoff c HcT). simpl. rewrite Hr. simpl.
    rewrite (cnt_ndx _ _ _ Hcnt j c Hc Hud) in Hr. injection Hr as <-.
    pose proof (slot_bound cs T g Hcnt j c HcT Hc) as Hsb.
    pose proof (defined_count_bounds cs). unfold INT_MAX in *.
    fold (slot cs (mgcnt g) c j). rewrite i32_small by lia.
    destruct (wr_is_Some grid (slot cs (mgcnt g) c j) j) as [grid' Hw]; [lia|].
    rewrite Hw. eexists; split; [done|].
    unfold scatter_inv. rewrite (wr_length _ _ _ _ Hw). split_and!; [done| |].
    + intros n d Hn Hd Hdu. destruct (decide (n = j)) as [->|Hne].
      * rewrite Hc in Hd. injection Hd as <-. by rewrite (rd_wr_eq _ _ _ _ Hw).
      * rewrite (rd_wr_ne _ _ _ _ _ Hw); [apply Hput; [lia|done..]|].
        intros Heq. apply Hne. symmetry.
        apply (slot_inj cs T g Hcnt j n c d); [done| |done|done|done].
        destruct (Hin d); [|done|done]. apply rd_Some in Hd as [_ Hd].
        by eapply list_elem_of_lookup_2.
    + intros q v Hq. destruct (decide (q = slot cs (mgcnt g) c j)) as [->|Hne].
      * rewrite (rd_wr_eq _ _ _ _ Hw) in Hq. injection Hq as <-.
        right. exists c. split_and!; try done; lia.
      * rewrite (rd_wr_ne _ _ _ _ _ Hw) in Hq by done.
        destruct (Honly q v Hq) as [?|(d & ? & ? & ? & ?)]; [by left|right].
        exists d. split_and!; try done; lia.
  - subst c. eexists; split; [done|].
    split_and!; [done| |].
    + intros n d Hn Hd Hdu. apply Hput; [|done..].
      destruct (decide (n = j)) as [->|]; [congruence|lia].
    + intros q v Hq.
      destruct (Honly q v Hq) as [?|(d & ? & ? & ? & ?)]; [by left|right].
      exists d. split_and!; try done; lia.
Qed.

(** [PrefixSumGrid] returns, and leaves the buffers [bucketed]. *)
Lemma PrefixSumGrid_bucketed (F : Type) (a : Accel F) :
  gridTotal a = T →
  length (mgoff g) = Z.to_nat T → length (mgrid g) = length cs →
  ∃ g', PrefixSumGrid a (Z.of_nat (length cs)) g = Some g' ∧ bucketed cs T g'.
Proof.
  intros HaT Hlo Hlg. unfold PrefixSumGrid. rewrite HaT.
  destruct (for_each_seqZ (scan_inv (mgcnt g) T) (scan_step (mgcnt g)) 0 T (mgoff g, 0))
    as ([off sum] & Hscan & Hlen & Hoff & _);
    [done|split_and!; [done|intros; lia|done]|..].
  { intros k st Hk. apply scan_step_inv. lia. }
  rewrite Hscan. simpl.
  destruct (for_each_seqZ
              (λ k grid, length grid = length cs ∧
                         ∀ q, 0 ≤ q < k → rd grid q = Some GRID_UNDEF)
              (λ grid k, wr grid k GRID_UNDEF) 0 (Z.of_nat (length cs)) (mgrid g))
    as (undef & Hundef & Hlu & Hu); [lia|split; [done|lia]|..].
  { intros k grid Hk [Hl Hq].
    destruct (wr_is_Some grid k GRID_UNDEF) as [grid' Hw]; [lia|].
    exists grid'. split; [done|]. rewrite (wr_length _ _ _ _ Hw). split; [done|].
    intros q Hq'. destruct (decide (q = k)) as [->|].
    - by rewrite (rd_wr_eq _ _ _ _ Hw).
    - rewrite (rd_wr_ne _ _ _ _ _ Hw) by done. apply Hq. lia. }
  rewrite Hundef. simpl.
  destruct (for_each_seqZ (scatter_inv cs (mgcnt g)) (scatter_step g off)
              0 (Z.of_nat (length cs)) undef)
    as (grid & Hsc & Hlg' & Hput & Honly); [lia| |..].
  { split_and!; [done|intros; lia|]. intros q v Hq. left.
    pose proof (rd_range _ _ _ Hq). rewrite Hu in Hq by lia. congruence. }
  { intros k grid Hk. apply scatter_step_inv; [|lia]. intros c Hc. apply Hoff. lia. }
  rewrite Hsc. simpl. eexists; split; [done|].
  rewrite Z.add_0_l in *.
  split; simpl; try done.
  - destruct Hcnt. by split.
  - intros n c Hn Hu'. apply Hput; [|done..]. apply rd_range in Hn. lia.
  - intros q v Hq. destruct (Honly q v Hq) as [?|(c & ? & ? & ? & ?)]; [by left|right].
    by exists c.
Qed.

End Scatter.

(** * The bucketizer as a whole *)

Section Bucketizer.
Context {F : Type} `{FloatOps F}.
Implicit Types (a : Accel F) (bs : list (Bird F)).

Lemma grid_pass_bucketed a bs old :
  accel_wf a → coords_defined a bs → numPoints bs ≤ INT_MAX →
  length old = length bs →
  ∃ g, grid_pass a bs old = Some g ∧ bucketed (cells a bs) (gridTotal a) g.
Proof.
  intros Hwf Hdef Hmax Hold.
  destruct (InsertIntoGrid_counted a bs old Hwf Hdef Hmax) as (g & Hg & Hc & Hoff & Hgrid).
  assert (length (cells a bs) = length bs) as Hlcs by apply length_fmap.
  destruct (PrefixSumGrid_bucketed (cells a bs) (gridTotal a) g Hc
              (cells_in_grid_cells a bs Hwf) (proj1 (wf_total_int a Hwf))
              ltac:(by rewrite Hlcs) F a eq_refl) as (g' & Hg' & Hb).
  - rewrite Hoff. apply length_replicate.
  - by rewrite Hgrid, Hlcs.
  - exists g'. unfold grid_pass. rewrite Hg. simpl.
    unfold numPoints. rewrite <- Hlcs. done.
Qed.

End Bucketizer.

Lemma members_lookup_inv cs c r n :
  members cs c !! r = Some n →
  rd cs n = Some c ∧ occ cs c (Z.to_nat n) = Z.of_nat r.
Proof.
  intros Hr.
  assert (n ∈ members cs c) as [Hn Hc]%elem_of_members_upto
    by (by eapply list_elem_of_lookup_2).
  split; [done|].
  pose proof Hc as [_ Hc']%rd_Some.
  pose proof (members_lookup_occ cs c _ Hc') as Ho. rewrite Z2Nat.id in Ho by lia.
  pose proof (NoDup_lookup _ _ _ _ (NoDup_members_upto cs c (length cs)) Hr Ho).
  pose proof (occ_bounds cs c (Z.to_nat n)). lia.
Qed.

(** The slice of the sorted array that belongs to a cell lists the members
    of the cell, in increasing order of index. *)
Lemma bucket_members cs T g c :
  bucketed cs T g → T ≤ INT_MAX → 0 ≤ c < T → bucket g c = members cs c.
Proof.
  intros Hb HT Hc. pose proof (bk_counted _ _ _ Hb) as Hcnt.
  unfold bucket. rewrite (bk_off _ _ _ Hb c Hc), (cnt_cnt _ _ _ Hcnt c Hc).
  assert (Z.to_nat (occ cs c (length cs)) = length (members cs c)) as Hlen.
  { unfold occ, members. by rewrite Nat2Z.id. }
  rewrite Hlen. apply list_eq. intros r.
  destruct (members cs c !! r) as [n|] eqn:Hr.
  - apply members_lookup_inv in Hr as Hn. destruct Hn as [Hn Ho].
    rewrite lookup_take_lt by (by eapply lookup_lt_Some).
    rewrite lookup_drop.
    pose proof (bk_grid _ _ _ Hb n c Hn) as Hg.
    assert (c ≠ GRID_UNDEF) as Hu.
    { unfold GRID_UNDEF, INT_MAX in *. lia. }
    specialize (Hg Hu). unfold slot in Hg. rewrite Ho in Hg.
    apply rd_Some in Hg as [? Hg].
    pose proof (presum_mono (mgcnt g) 0 c (counted_nonneg _ _ _ Hcnt) ltac:(lia)).
    rewrite presum_0 in *.
    by replace (Z.to_nat (presum (mgcnt g) c) + r)%nat
      with (Z.to_nat (presum (mgcnt g) c + Z.of_nat r)) by lia.
  - apply lookup_ge_None in Hr. apply lookup_ge_None.
    rewrite length_take. lia.
Qed.

(** * The counting sort: offsets and buckets *)

Section BucketTheorems.
Context {F : Type} `{FloatOps F}.
Implicit Types (a : Accel F) (bs : list (Bird F)).

(** C1. After the count, scan and scatter phases, the slice
    [mgrid[mgoff[c] .. mgoff[c] + mgcnt[c])] of every cell [c] holds exactly
    the indices of the birds whose computed cell is [c]: none is missing,
    none occurs twice, none belongs to another cell. *)
Theorem bucket_holds_cell_members a bs old :
  accel_wf a → coords_defined a bs → numPoints bs ≤ INT_MAX →
  length old = length bs →
  ∃ g, grid_pass a bs old = Some g ∧
       ∀ c, 0 ≤ c < gridTotal a →
         NoDup (bucket g c) ∧
         ∀ n, n ∈ bucket g c ↔ ∃ b, rd bs n = Some b ∧ cell_of a b = c.
Proof.
  intros Hwf Hdef Hmax Hold.
  destruct (grid_pass_bucketed a bs old Hwf Hdef Hmax Hold) as (g & Hg & Hb).
  exists g. split; [done|]. intros c Hc.
  rewrite (bucket_members _ _ _ _ Hb (proj2 (wf_total_int a Hwf)) Hc).
  split; [apply NoDup_members_upto|]. intros n.
  unfold members. rewrite elem_of_members_upto. split.
  - intros [Hn Hcn]. pose proof Hcn as [_ Hl]%rd_Some.
    unfold cells in Hl. rewrite list_lookup_fmap in Hl.
    destruct (bs !! Z.to_nat n) as [b|] eqn:Hbn; [|done].
    injection Hl as <-. exists b. split; [|done]. apply rd_Some. split; [lia|done].
  - intros (b & Hbn & <-). split; [|by apply rd_cells].
    apply rd_range in Hbn. unfold cells. rewrite length_fmap. lia.
Qed.

(** C2. The offsets are the exclusive prefix sum of the counts: the first
    offset is 0, each next offset adds the count of the cell before it, and
    the offset of the last cell plus its count is the number of birds with a
    defined cell. *)
Theorem offsets_are_prefix_sums a bs old :
  accel_wf a → coords_defined a bs → numPoints bs ≤ INT_MAX →
  length old = length bs →
  ∃ g, grid_pass a bs old = Some g ∧
       (0 < gridTotal a → rd (mgoff g) 0 = Some 0) ∧
       (∀ c, 0 ≤ c → c + 1 < gridTotal a →
          ∃ o n, rd (mgoff g) c = Some o ∧ rd (mgcnt g) c = Some n ∧
                 rd (mgoff g) (c + 1) = Some (o + n)) ∧
       (0 < gridTotal a →
          ∃ o n, rd (mgoff g) (gridTotal a - 1) = Some o ∧
                 rd (mgcnt g) (gridTotal a - 1) = Some n ∧
                 o + n = defined_count (pgcell g)).
Proof.
  intros Hwf Hdef Hmax Hold.
  destruct (grid_pass_bucketed a bs old Hwf Hdef Hmax Hold) as (g & Hg & Hb).
  pose proof (bk_counted _ _ _ Hb) as Hcnt.
  exists g. split_and!; [done|..].
  - intros HT. by rewrite (bk_off _ _ _ Hb 0) by lia.
  - intros c Hc0 Hc1. eexists _, _. split_and!.
    + apply (bk_off _ _ _ Hb). lia.
    + apply (cnt_cnt _ _ _ Hcnt). lia.
    + rewrite (bk_off _ _ _ Hb) by lia. f_equal.
      apply presum_succ; [done|]. apply (cnt_cnt _ _ _ Hcnt). lia.
  - intros HT. eexists _, _. split_and!.
    + apply (bk_off _ _ _ Hb). lia.
    + apply (cnt_cnt _ _ _ Hcnt). lia.
    + rewrite <- presum_succ with (c := gridTotal a - 1);
        [|lia|apply (cnt_cnt _ _ _ Hcnt); lia].
      replace (gridTotal a - 1 + 1) with (gridTotal a) by lia.
      rewrite (counted_presum_total _ _ _ Hcnt). by rewrite (cnt_cell _ _ _ Hcnt).
Qed.

End BucketTheorems.

Lemma demo_accel_wf : accel_wf demo_accel.
Proof. split; vm_compute; try done; by intros [=]. Qed.

Lemma demo_coords_defined : coords_defined demo_accel demo_birds.
Proof.
  unfold coords_defined, demo_birds.
  repeat (apply Forall_cons; split; [eexists; vm_compute; reflexivity|]).
  by apply Forall_nil.
Qed.

Lemma bucket_holds_cell_members_witness :
  ∃ g, grid_pass demo_accel demo_birds demo_old = Some g ∧
       ∀ c, 0 ≤ c < gridTotal demo_accel →
         NoDup (bucket g c) ∧
         ∀ n, n ∈ bucket g c ↔ ∃ b, rd demo_birds n = Some b ∧ cell_of demo_accel b = c.
Proof.
  apply (bucket_holds_cell_members demo_accel demo_birds demo_old).
  - exact demo_accel_wf.
  - exact demo_coords_defined.
  - vm_compute. by intros [=].
  - reflexivity.
Defined.

Lemma offsets_are_prefix_sums_witness :
  ∃ g, grid_pass demo_accel demo_birds demo_old = Some g ∧
       (0 < gridTotal demo_accel → rd (mgoff g) 0 = Some 0) ∧
       (∀ c, 0 ≤ c → c + 1 < gridTotal demo_accel →
          ∃ o n, rd (mgoff g) c = Some o ∧ rd (mgcnt g) c = Some n ∧
                 rd (mgoff g) (c + 1) = Some (o + n)) ∧
       (0 < gridTotal demo_accel →
          ∃ o n, rd (mgoff g) (gridTotal demo_accel - 1) = Some o ∧
                 rd (mgcnt g) (gridTotal demo_accel - 1) = Some n ∧
                 o + n = defined_count (pgcell g)).
Proof.
  apply (offsets_are_prefix_sums demo_accel demo_birds demo_old).
  - exact demo_accel_wf.
  - exact demo_coords_defined.
  - vm_compute. by intros [=].
  - reflexivity.
Defined.

(** * Loops over computed lists *)

Section LoopFusion.
Context {A B St : Type}.

Lemma for_each_ext (f f' : St → A → option St) l s :
  (∀ s x, x ∈ l → f s x = f' s x) → for_each f l s = for_each f' l s.
Proof.
  revert s. induction l as [|x l IH]; intros s Hf; simpl; [done|].
  rewrite Hf by (apply elem_of_cons; by left).
  destruct (f' s x); [|done]. apply IH. intros ???. apply Hf, elem_of_cons. by right.
Qed.

(** A body that starts by computing [h x] runs over the computed values. *)
Lemma for_each_mapM (h : A → option B) (body : St → A → option St)
    (k : St → B → option St) l ys s :
  mapM h l = Some ys →
  (∀ s x y, h x = Some y → body s x = k s y) →
  for_each body l s = for_each k ys s.
Proof.
  intros Hm Hb. revert ys Hm s.
  induction l as [|x l IH]; intros ys Hm s; simpl in *.
  - by injection Hm as <-.
  - destruct (h x) as [y|] eqn:Hx; simpl in Hm; [|done].
    destruct (mapM h l) as [ys'|] eqn:Hl; simpl in Hm; [|done].
    injection Hm as <-. simpl. rewrite (Hb s x y Hx).
    destruct (k s y); [|done]. by apply IH.
Qed.

Lemma for_each_filter (P : A → bool) (k : St → A → option St) l s :
  for_each (λ s x, if P x then k s x else Some s) l s =
  for_each k (filter (λ x, P x = true) l) s.
Proof.
  revert s. induction l as [|x l IH]; intros s; simpl; [done|].
  rewrite filter_cons. destruct (P x) eqn:HP.
  - rewrite decide_True by done. simpl. destruct (k s x); [apply IH|done].
  - rewrite decide_False by (by intros ?). apply IH.
Qed.

End LoopFusion.

Lemma for_each_concat {A St} (k : St → A → option St) (ls : list (list A)) s :
  for_each (λ s xs, for_each k xs s) ls s = for_each k (concat ls) s.
Proof.
  revert s. induction ls as [|xs ls IH]; intros s; simpl; [done|].
  rewrite for_each_app. destruct (for_each k xs s); simpl; [apply IH|done].
Qed.

Lemma filter_concat {A} (P : A → Prop) `{∀ x, Decision (P x)} (ls : list (list A)) :
  filter P (concat ls) = concat (filter P <$> ls).
Proof.
  induction ls as [|xs ls IH]; simpl; [done|]. by rewrite filter_app, IH.
Qed.

Lemma fmap_concat {A B} (f : A → B) (ls : list (list A)) :
  f <$> concat ls = concat ((λ l : list A, f <$> l) <$> ls).
Proof.
  induction ls as [|xs ls IH]; simpl; [done|]. by rewrite fmap_app, IH.
Qed.

(** * The scan visits the candidates *)

Section Flatten.
Context {F : Type} `{FloatOps F}.
Implicit Types (a : Accel F) (p : Params F) (st : NbrState F).

Lemma scan_cell_slice p g n rd2 i posi diri cell sl st :
  cell_slice g cell = Some sl →
  scan_cell p g n rd2 i posi diri cell st =
  for_each (visit p rd2 i posi diri)
    (filter (λ j, is_candidate n i j = true) (i32 <$> sl)) st.
Proof.
  unfold cell_slice, scan_cell. intros Hs.
  destruct (rd (mgoff g) cell) as [o|]; simpl in *; [|done].
  destruct (rd (mgcnt g) cell) as [c|]; simpl in *; [|done].
  rewrite <- for_each_filter.
  rewrite (for_each_mapM (rd (mgrid g)) _
             (λ st j0, if is_candidate n i (i32 j0)
                       then visit p rd2 i posi diri st (i32 j0) else Some st)
             _ sl st Hs).
  2:{ intros s x y ->. simpl. unfold is_candidate.
      destruct (i32 y >=? n); simpl; [done|]. by destruct (i =? i32 y). }
  generalize sl. clear. intros sl. revert st.
  induction sl as [|x sl IH]; intros st; simpl; [done|].
  destruct (is_candidate n i (i32 x)); [|apply IH].
  destruct (visit _ _ _ _ _ _ _); [apply IH|done].
Qed.

Lemma scan_window_candidates a p g n rd2 i posi diri st l :
  candidates a g n (nadj_of a) i = Some l →
  scan_window a p g n rd2 (nadj_of a) i posi diri st =
  for_each (visit p rd2 i posi diri) l st.
Proof.
  unfold candidates, scanned, scan_window. intros Hc.
  destruct (rd (pgcell g) i) as [c|]; simpl in *; [|done].
  destruct (negb (i32 c =? GRID_UNDEF)); simpl in *; [|by injection Hc as <-].
  destruct (window_cells a _) as [ws|] eqn:Hws; simpl in *; [|done].
  destruct (mapM (cell_slice g) ws) as [slices|] eqn:Hsl; simpl in *; [|done].
  injection Hc as <-.
  rewrite (for_each_mapM _ _ (λ st cell, scan_cell p g n rd2 i posi diri cell st)
             _ ws st Hws).
  2:{ intros s x y Hx. destruct (rd (gridAdj a) x); simpl in *; [|done].
      by injection Hx as <-. }
  rewrite (for_each_mapM (cell_slice g) _
             (λ st sl, for_each (visit p rd2 i posi diri)
                         (filter (λ j, is_candidate n i j = true) (i32 <$> sl)) st)
             _ slices st Hsl).
  2:{ intros s x y Hx. by apply scan_cell_slice. }
  rewrite fmap_concat, filter_concat, <- for_each_concat.
  generalize slices. clear. intros slices. revert st.
  induction slices as [|sl sls IH]; intros st; simpl; [done|].
  destruct (for_each _ _ st); [apply IH|done].
Qed.

End Flatten.

(** * The adjacency window *)

Lemma mapM_rd_seqZ {A} (l : list A) (o c : Z) :
  0 ≤ o → 0 ≤ c → o + c ≤ Z.of_nat (length l) →
  mapM (rd l) (seqZ o c) = Some (take (Z.to_nat c) (drop (Z.to_nat o) l)).
Proof.
  intros Ho Hc Hl. apply mapM_Some, Forall2_same_length_lookup_2.
  - rewrite length_seqZ, length_take, length_drop. lia.
  - intros i x y [-> Hi]%lookup_seqZ Hy.
    rewrite lookup_take_lt, lookup_drop in Hy by lia.
    apply rd_Some. split; [lia|].
    by replace (Z.to_nat (o + Z.of_nat i)) with (Z.to_nat o + i)%nat by lia.
Qed.

Lemma length_bind_const {A B} (f : A → list B) (l : list A) m :
  (∀ x, x ∈ l → length (f x) = m) → length (l ≫= f) = (length l * m)%nat.
Proof.
  induction l as [|x l IH]; intros Hf; [done|].
  rewrite bind_cons, length_app, IH, Hf.
  - simpl. lia.
  - apply elem_of_cons. by left.
  - intros y Hy. apply Hf, elem_of_cons. by right.
Qed.

Lemma length_adj_table res srch :
  0 ≤ srch → Z.of_nat (length (adj_table res srch)) = srch * srch * srch.
Proof.
  intros Hs. unfold adj_table.
  rewrite (length_bind_const _ _ (Z.to_nat srch * Z.to_nat srch)), length_seqZ; [nia|].
  intros y _. rewrite (length_bind_const _ _ (Z.to_nat srch)), length_seqZ; [done|].
  intros z _. rewrite (length_bind_const _ _ 1%nat), length_seqZ; [lia|done].
Qed.

Lemma elem_of_adj_table res srch adj :
  adj ∈ adj_table res srch ↔
  ∃ x y z, 0 ≤ x < srch ∧ 0 ≤ y < srch ∧ 0 ≤ z < srch ∧
           adj = (y * vz res + z) * vx res + x.
Proof.
  unfold adj_table. rewrite list_elem_of_bind. split.
  - intros (y & (z & (x & ->%list_elem_of_singleton & Hx%elem_of_seqZ)%list_elem_of_bind
                     & Hz%elem_of_seqZ)%list_elem_of_bind & Hy%elem_of_seqZ).
    exists x, y, z. split_and!; try done; lia.
  - intros (x & y & z & Hx & Hy & Hz & ->). exists y. split; [|apply elem_of_seqZ; lia].
    apply list_elem_of_bind. exists z. split; [|apply elem_of_seqZ; lia].
    apply list_elem_of_bind. exists x. split; [|apply elem_of_seqZ; lia].
    by apply list_elem_of_singleton.
Qed.

Lemma flat_bound rx ry rz X Y Z' :
  0 ≤ X < rx → 0 ≤ Y < ry → 0 ≤ Z' < rz →
  0 ≤ (Y * rz + Z') * rx + X < rx * ry * rz.
Proof.
  intros HX HY HZ.
  assert (0 ≤ Y * rz) by nia.
  assert (0 ≤ (Y * rz + Z') * rx) by nia.
  assert (Y * rz + Z' + 1 ≤ ry * rz) by nia.
  assert ((Y * rz + Z' + 1) * rx ≤ (ry * rz) * rx) by nia.
  nia.
Qed.

Section Window.
Context {F : Type} `{FloatOps F}.
Implicit Types (a : Accel F) (bs : list (Bird F)).

Lemma nadj_of_small a gc :
  accel_wf a → in_scan a gc = true →
  nadj_of a = (vz (gridRes a) + 1) * vx (gridRes a) + 1.
Proof.
  intros Hwf Hin. pose proof (in_scan_bounds a gc Hwf Hin) as (Hx & Hy & Hz).
  pose proof (wf_srch a Hwf). pose proof (wf_total a Hwf) as Ht.
  pose proof (wf_total_int a Hwf) as Hti. unfold INT_MAX in *.
  unfold nadj_of. apply i32_small. rewrite Ht in Hti.
  set (rx := vx (gridRes a)) in *. set (ry := vy (gridRes a)) in *.
  set (rz := vz (gridRes a)) in *.
  assert (3 ≤ rx ∧ 3 ≤ ry ∧ 3 ≤ rz) as (? & ? & ?) by lia.
  assert (0 ≤ rz * rx) by nia.
  assert (3 * (rz * rx) ≤ rx * ry * rz) by nia.
  nia.
Qed.

(** Every cell of the window of a bird inside the scan region is a cell of
    the grid. *)
Lemma window_in_grid a gc w :
  accel_wf a → in_scan a gc = true →
  w ∈ window_of a (flat_index a gc) → 0 ≤ w < gridTotal a.
Proof.
  intros Hwf Hin. pose proof (in_scan_bounds a gc Hwf Hin) as (Hx & Hy & Hz).
  pose proof (flat_index_range a gc Hwf Hin) as [-> _].
  pose proof (wf_srch a Hwf). rewrite (wf_total a Hwf).
  unfold window_of. rewrite (wf_adj a Hwf).
  intros (adj & -> & (x & y & z & ? & ? & ? & ->)%elem_of_adj_table)%list_elem_of_fmap.
  set (rx := vx (gridRes a)) in *. set (ry := vy (gridRes a)) in *.
  set (rz := vz (gridRes a)) in *.
  replace ((vy gc * rz + vz gc) * rx + vx gc - ((rz + 1) * rx + 1) +
           ((y * rz + z) * rx + x))
    with (((vy gc - 1 + y) * rz + (vz gc - 1 + z)) * rx + (vx gc - 1 + x)) by ring.
  apply flat_bound; lia.
Qed.

Lemma window_cells_spec a gc :
  accel_wf a → in_scan a gc = true →
  window_cells a (i32 (flat_index a gc - nadj_of a)) =
  Some (window_of a (flat_index a gc)).
Proof.
  intros Hwf Hin.
  pose proof (flat_index_range a gc Hwf Hin) as [_ Hr].
  pose proof (wf_total_int a Hwf) as Hti. unfold INT_MAX in *.
  pose proof (wf_srch a Hwf) as Hs.
  rewrite (nadj_of_small a gc Hwf Hin).
  assert (Z.of_nat (length (gridAdj a)) = gridAdjCnt a) as Hlen.
  { rewrite (wf_adj a Hwf), (wf_adjcnt a Hwf). apply length_adj_table. lia. }
  unfold window_cells. apply mapM_Some, Forall2_same_length_lookup_2.
  - unfold window_of. rewrite length_seqZ, length_fmap. lia.
  - intros k c w [-> Hk]%lookup_seqZ Hw.
    unfold window_of in Hw. rewrite list_lookup_fmap in Hw.
    rewrite Z.add_0_l, rd_nat.
    destruct (gridAdj a !! k) as [adj|] eqn:Hadj; simpl in *; [|done].
    injection Hw as <-. f_equal.
    assert (let w := flat_index a gc - ((vz (gridRes a) + 1) * vx (gridRes a) + 1) + adj
            in 0 ≤ w < gridTotal a) as Hw.
    { apply (window_in_grid a gc _ Hwf Hin). unfold window_of.
      apply list_elem_of_fmap. exists adj. split; [done|].
      by eapply list_elem_of_lookup_2. }
    simpl in Hw.
    assert (0 ≤ adj).
    { assert (adj ∈ adj_table (gridRes a) (gridSrch a)) as Ha.
      { rewrite <- (wf_adj a Hwf). by eapply list_elem_of_lookup_2. }
      apply elem_of_adj_table in Ha as (x & y & z & ? & ? & ? & ->).
      pose proof (in_scan_bounds a gc Hwf Hin) as (? & ? & ?).
      assert (0 ≤ vx (gridRes a) ∧ 0 ≤ vz (gridRes a)) as [? ?] by lia.
      assert (0 ≤ y * vz (gridRes a)) by nia.
      assert (0 ≤ (y * vz (gridRes a) + z) * vx (gridRes a)) by nia. lia. }
    assert (let w := flat_index a gc - ((vz (gridRes a) + 1) * vx (gridRes a) + 1) + 0
            in 0 ≤ w < gridTotal a) as Hw0.
    { apply (window_in_grid a gc _ Hwf Hin). unfold window_of.
      apply list_elem_of_fmap. exists 0. split; [done|].
      rewrite (wf_adj a Hwf). apply elem_of_adj_table. exists 0, 0, 0. lia. }
    simpl in Hw0.
    rewrite i32_small by lia. apply u32_small. lia.
Qed.

End Window.

(** * The candidates of a bird *)

Lemma mapM_fmap_fun {A B} (f : A → option B) (h : A → B) (l : list A) :
  (∀ x, x ∈ l → f x = Some (h x)) → mapM f l = Some (h <$> l).
Proof.
  intros Hf. apply mapM_Some, Forall2_fmap_r, Forall_Forall2_diag, Forall_forall.
  exact Hf.
Qed.

Lemma filter_candidates n i (l : list Z) :
  n ≤ INT_MAX → Forall (λ j, 0 ≤ j < n) l →
  filter (λ j, is_candidate n i j = true) (i32 <$> l) = filter (λ j, i ≠ j) l.
Proof.
  intros Hn. unfold INT_MAX in Hn. induction 1 as [|j l Hj _ IH]; [done|].
  rewrite fmap_cons, !filter_cons, IH, i32_small by lia.
  unfold is_candidate. rewrite Z.geb_leb, (proj2 (Z.leb_gt n j)) by lia. simpl.
  destruct (decide (i = j)) as [->|Hne].
  - rewrite Z.eqb_refl. simpl. repeat case_decide; done.
  - rewrite (proj2 (Z.eqb_neq i j)) by done. simpl. repeat case_decide; done.
Qed.

Lemma elem_of_concat {A} (x : A) (ls : list (list A)) :
  x ∈ concat ls ↔ ∃ l, x ∈ l ∧ l ∈ ls.
Proof.
  induction ls as [|l ls IH]; simpl.
  - split; [by intros ?%elem_of_nil|by intros (? & _ & ?%elem_of_nil)].
  - rewrite elem_of_app, IH. split.
    + intros [?|(l' & ? & ?)]; [exists l|exists l']; rewrite elem_of_cons; auto.
    + intros (l' & ? & [->|?]%elem_of_cons); [by left|right; by exists l'].
Qed.

Lemma members_range cs c j : j ∈ members cs c → 0 ≤ j < Z.of_nat (length cs).
Proof. by intros [? _]%elem_of_members_upto. Qed.

Section Candidates.
Context {F : Type} `{FloatOps F}.
Implicit Types (a : Accel F) (bs : list (Bird F)).

Lemma cell_slice_members cs T g cell :
  bucketed cs T g → T ≤ INT_MAX → Z.of_nat (length cs) ≤ INT_MAX →
  0 ≤ cell < T → cell_slice g cell = Some (members cs cell).
Proof.
  intros Hb HT HN Hc. pose proof (bk_counted _ _ _ Hb) as Hcnt.
  pose proof (bucket_members cs T g cell Hb HT Hc) as Hbm.
  unfold bucket in Hbm. unfold cell_slice.
  pose proof (cnt_cnt _ _ _ Hcnt cell Hc) as Hn.
  rewrite (bk_off _ _ _ Hb cell Hc), Hn in *. simpl.
  pose proof (presum_succ _ _ _ (proj1 Hc) Hn) as Hs.
  pose proof (presum_mono (mgcnt g) 0 cell (counted_nonneg _ _ _ Hcnt) ltac:(lia)) as H0.
  pose proof (presum_le_total (mgcnt g) (cell + 1) (counted_nonneg _ _ _ Hcnt)) as H1.
  pose proof (occ_bounds cs cell (length cs)).
  pose proof (defined_count_bounds cs).
  rewrite presum_0 in H0. rewrite (cnt_sum _ _ _ Hcnt) in H1. unfold INT_MAX in *.
  rewrite (u32_small (_ + _)), !i32_small by lia.
  replace (presum (mgcnt g) cell + occ cs cell (length cs) - presum (mgcnt g) cell)
    with (occ cs cell (length cs)) by lia.
  rewrite mapM_rd_seqZ; [by rewrite Hbm|lia|lia|].
  rewrite (bk_grid_len _ _ _ Hb). lia.
Qed.

(** The scan of bird [i] visits the other birds of the cells of its
    window, and nothing when the cell of [i] is undefined. *)
Lemma candidates_spec a bs g i b :
  accel_wf a → bucketed (cells a bs) (gridTotal a) g → numPoints bs ≤ INT_MAX →
  rd bs i = Some b →
  candidates a g (numPoints bs) (nadj_of a) i =
  Some (if decide (cell_of a b = GRID_UNDEF) then []
        else window_members a (cells a bs) i (cell_of a b)).
Proof.
  intros Hwf Hb HN Hi. pose proof (bk_counted _ _ _ Hb) as Hcnt.
  pose proof (wf_total_int a Hwf) as Hti.
  assert (length (cells a bs) = length bs) as Hlcs by apply length_fmap.
  unfold candidates, scanned.
  rewrite (cnt_cell _ _ _ Hcnt), (rd_cells a bs i b Hi). simpl.
  destruct (decide (cell_of a b = GRID_UNDEF)) as [->|Hdef]; [done|].
  destruct (cell_of_defined a b Hwf Hdef) as (gc & Hgc & Hin & Hflat & Hr).
  unfold INT_MAX in *. rewrite (i32_small (cell_of a b)) by lia.
  rewrite (proj2 (Z.eqb_neq _ _) Hdef). simpl.
  rewrite Hflat, (window_cells_spec a gc Hwf Hin). simpl.
  rewrite (mapM_fmap_fun _ (members (cells a bs))). simpl.
  - f_equal. unfold window_members. apply filter_candidates; [done|].
    apply Forall_forall. intros j (ms & Hj & (w & -> & _)%list_elem_of_fmap)%elem_of_concat.
    apply members_range in Hj. unfold numPoints. lia.
  - intros w Hw. apply (cell_slice_members _ _ _ _ Hb);
      [unfold INT_MAX; lia|rewrite Hlcs; unfold numPoints, INT_MAX in *; lia|].
    by apply (window_in_grid a gc).
Qed.

Lemma elem_of_window_members a cs i c j :
  j ∈ window_members a cs i c ↔
  i ≠ j ∧ ∃ w, w ∈ window_of a c ∧ rd cs j = Some w.
Proof.
  unfold window_members. rewrite list_elem_of_filter, elem_of_concat. split.
  - intros [Hne (ms & Hj & (w & -> & Hw)%list_elem_of_fmap)]. split; [done|].
    exists w. split; [done|]. by apply elem_of_members_upto in Hj as [_ ?].
  - intros [Hne (w & Hw & Hj)]. split; [done|]. exists (members cs w). split.
    + apply elem_of_members_upto. split; [|done]. by apply rd_range in Hj.
    + apply list_elem_of_fmap. by exists w.
Qed.

End Candidates.

(** * Clustering: what the three operations do *)

Section ClusterOps.
Context {F : Type} `{FloatOps F}.
Implicit Types (st : NbrState F) (b : Bird F) (bs : list (Bird F)).

Lemma set_cluster_id_id b : set_cluster_id (cluster_id b) b = b.
Proof. by destruct b. Qed.

Lemma set_cluster_id_twice c c' b :
  set_cluster_id c (set_cluster_id c' b) = set_cluster_id c b.
Proof. done. Qed.

Lemma cid_of_Some bs n c : cid_of bs n = Some c ↔ ∃ b, rd bs n = Some b ∧ cluster_id b = c.
Proof.
  unfold cid_of. destruct (rd bs n) as [b|]; simpl.
  - split; [intros [= <-]; by exists b|by intros (? & [= <-] & <-)].
  - split; [done|by intros (? & ? & _)].
Qed.

Lemma upd_bird_spec f i st b :
  rd (birds st) i = Some b →
  upd_bird f i st = Some (set_birds (<[Z.to_nat i := f b]> (birds st)) st).
Proof.
  intros Hb. unfold upd_bird. rewrite Hb. simpl.
  pose proof (rd_range _ _ _ Hb).
  destruct (wr_is_Some (birds st) i (f b)) as [bs' Hw]; [done|].
  rewrite Hw. simpl. by apply wr_Some in Hw as [_ ->].
Qed.

(** Overwriting the cluster id of one bird is a relabelling. *)
Lemma relabel_insert bs i b c :
  rd bs i = Some b →
  relabel (λ n c', if n =? i then c else c') bs (<[Z.to_nat i := set_cluster_id c b]> bs).
Proof.
  intros Hb. split; [apply length_insert|]. intros n b' Hn.
  pose proof (rd_range _ _ _ Hb). pose proof (rd_range _ _ _ Hn).
  destruct (Z.eqb_spec n i) as [->|Hne].
  - rewrite Hb in Hn. injection Hn as <-.
    apply rd_Some. split; [lia|]. apply list_lookup_insert_eq. lia.
  - rewrite set_cluster_id_id. apply rd_Some. split; [lia|].
    rewrite list_lookup_insert_ne by lia. by apply rd_Some in Hn as [_ ?].
Qed.

Lemma relabel_ext f f' bs bs' :
  (∀ n b, rd bs n = Some b → f n (cluster_id b) = f' n (cluster_id b)) →
  relabel f bs bs' → relabel f' bs bs'.
Proof.
  intros Hf [Hl Hr]. split; [done|]. intros n b Hn. rewrite <- (Hf n b Hn). by apply Hr.
Qed.

Lemma relabel_cid f bs bs' n :
  relabel f bs bs' → cid_of bs' n = f n <$> cid_of bs n.
Proof.
  intros [Hl Hr]. unfold cid_of. destruct (rd bs n) as [b|] eqn:Hn; simpl.
  - by rewrite (Hr n b Hn).
  - apply rd_None in Hn. rewrite (proj2 (rd_None bs' n)); [done|lia].
Qed.

Lemma relabel_rd f bs bs' n b' :
  relabel f bs bs' → rd bs' n = Some b' →
  ∃ b, rd bs n = Some b ∧ b' = set_cluster_id (f n (cluster_id b)) b.
Proof.
  intros [Hl Hr] Hn. destruct (rd_is_Some bs n) as [b Hb].
  { apply rd_range in Hn. lia. }
  exists b. split; [done|]. rewrite (Hr n b Hb) in Hn. by injection Hn as <-.
Qed.

(** Lines 1077-1085. *)
Lemma new_cluster_effect i st b :
  rd (birds st) i = Some b →
  if cluster_id b =? -1 then
    ∃ st', new_cluster i st = Some st' ∧
      relabel (λ n c, if n =? i then i32 (max_cluster_id st + 1) else c)
        (birds st) (birds st') ∧
      cluster_assignment st' = cluster_assignment st ++ [[i]] ∧
      max_cluster_id st' = i32 (max_cluster_id st + 1) ∧ same_sort st st'
  else new_cluster i st = Some st.
Proof.
  intros Hb. unfold new_cluster. rewrite Hb. simpl.
  destruct (cluster_id b =? -1); [|done].
  rewrite (upd_bird_spec _ _ _ _ Hb). simpl.
  eexists; split; [done|]. simpl. split_and!; try done.
  by apply relabel_insert.
Qed.

(** Lines 1125-1128. *)
Lemma join_cluster_effect i j st bi bj ms :
  rd (birds st) i = Some bi → rd (birds st) j = Some bj →
  rd (cluster_assignment st) (cluster_id bi) = Some ms →
  if cluster_id bj =? -1 then
    ∃ st', join_cluster i j st = Some st' ∧
      relabel (λ n c, if n =? j then cluster_id bi else c) (birds st) (birds st') ∧
      cluster_assignment st' =
        <[Z.to_nat (cluster_id bi) := ms ++ [j]]> (cluster_assignment st) ∧
      max_cluster_id st' = max_cluster_id st ∧ same_sort st st'
  else join_cluster i j st = Some st.
Proof.
  intros Hi Hj Hms. unfold join_cluster. rewrite Hi, Hj. simpl.
  destruct (cluster_id bj =? -1); [|done].
  rewrite (upd_bird_spec _ _ _ _ Hj). simpl. rewrite Hms. simpl.
  pose proof (rd_range _ _ _ Hms).
  destruct (wr_is_Some (cluster_assignment st) (cluster_id bi) (ms ++ [j])) as [ca Hw];
    [done|].
  rewrite Hw. simpl. apply wr_Some in Hw as [_ ->].
  eexists; split; [done|]. simpl. split_and!; try done.
  by apply relabel_insert.
Qed.

End ClusterOps.

Lemma rd_insert_eq {A} (l : list A) i v :
  0 ≤ i < Z.of_nat (length l) → rd (<[Z.to_nat i := v]> l) i = Some v.
Proof. intros. apply rd_Some. split; [lia|]. apply list_lookup_insert_eq. lia. Qed.

Lemma rd_insert_ne {A} (l : list A) i j v :
  0 ≤ i → i ≠ j → rd (<[Z.to_nat i := v]> l) j = rd l j.
Proof.
  intros. unfold rd. case_bool_decide; [|done]. apply list_lookup_insert_ne. lia.
Qed.

Section Merge.
Context {F : Type} `{FloatOps F}.
Implicit Types (st : NbrState F) (b : Bird F) (bs : list (Bird F)).

Lemma merge_step_inv st0 from to mt mf k st :
  rd (cluster_assignment st0) from = Some mf →
  rd (cluster_assignment st0) to = Some mt →
  from ≠ to →
  (∀ x, x ∈ mf → is_Some (rd (birds st0) x)) →
  0 ≤ k < Z.of_nat (length mf) →
  merge_inv st0 to mt mf k st →
  ∃ st', merge_step from to st k = Some st' ∧ merge_inv st0 to mt mf (k + 1) st'.
Proof.
  intros Hmf Hmt Hne Hvalid Hk (Hrel & Hca & Hmax & Hsort).
  pose proof (rd_range _ _ _ Hmf) as Hrf. pose proof (rd_range _ _ _ Hmt) as Hrt.
  destruct (rd_is_Some mf k Hk) as [kk Hkk].
  pose proof Hkk as [_ Hkk']%rd_Some.
  destruct (Hvalid kk) as [b0 Hb0]; [by eapply list_elem_of_lookup_2|].
  pose proof (proj2 Hrel kk b0 Hb0) as Hbk.
  assert (Z.to_nat (k + 1) = S (Z.to_nat k)) as HS by lia.
  assert (take (Z.to_nat (k + 1)) mf = take (Z.to_nat k) mf ++ [kk]) as Htake.
  { rewrite HS. by apply take_S_r. }
  unfold merge_step. rewrite Hca, rd_insert_ne, Hmf by lia. simpl. rewrite Hkk. simpl.
  rewrite (upd_bird_spec _ _ _ _ Hbk). simpl. rewrite Hca.
  rewrite rd_insert_eq by done. simpl.
  destruct (wr_is_Some (<[Z.to_nat to := mt ++ take (Z.to_nat k) mf]> (cluster_assignment st0))
              to ((mt ++ take (Z.to_nat k) mf) ++ [kk])) as [ca Hw].
  { rewrite length_insert. done. }
  rewrite Hw. simpl. apply wr_Some in Hw as [_ ->].
  eexists; split; [done|]. unfold merge_inv. simpl. split_and!; try done.
  - split; [rewrite length_insert; apply Hrel|].
    intros n b Hn. pose proof (proj2 Hrel n b Hn) as Hn'.
    pose proof (rd_range _ _ _ Hn'). pose proof (rd_range _ _ _ Hbk).
    rewrite Htake. destruct (decide (n = kk)) as [->|Hnk].
    + rewrite Hb0 in Hn. injection Hn as <-.
      rewrite rd_insert_eq by done.
      rewrite (bool_decide_eq_true_2 (kk ∈ _ ++ [kk])); [done|].
      apply elem_of_app. right. by apply list_elem_of_singleton.
    + rewrite rd_insert_ne, Hn' by lia.
      assert (bool_decide (n ∈ take (Z.to_nat k) mf) =
              bool_decide (n ∈ take (Z.to_nat k) mf ++ [kk])) as ->; [|done].
      apply bool_decide_ext. rewrite elem_of_app, list_elem_of_singleton. tauto.
  - rewrite list_insert_insert_eq, Htake. by rewrite (assoc_L (++)).
Qed.

(** Lines 1129-1142: every bird of the cluster of [j] is re-tagged with the
    cluster of [i], the members of the former are appended to those of the
    latter, and the former is emptied. *)
Lemma merge_clusters_effect i j st bi bj mt mf :
  rd (birds st) i = Some bi → rd (birds st) j = Some bj →
  rd (cluster_assignment st) (cluster_id bj) = Some mf →
  rd (cluster_assignment st) (cluster_id bi) = Some mt →
  (∀ x, x ∈ mf ↔ cid_of (birds st) x = Some (cluster_id bj)) →
  if negb (cluster_id bj =? cluster_id bi) then
    ∃ st', merge_clusters i j st = Some st' ∧
      relabel (λ n c, if c =? cluster_id bj then cluster_id bi else c)
        (birds st) (birds st') ∧
      cluster_assignment st' =
        <[Z.to_nat (cluster_id bj) := []]>
          (<[Z.to_nat (cluster_id bi) := mt ++ mf]> (cluster_assignment st)) ∧
      max_cluster_id st' = max_cluster_id st ∧ same_sort st st'
  else merge_clusters i j st = Some st.
Proof.
  intros Hi Hj Hmf Hmt Hmem. unfold merge_clusters. rewrite Hi, Hj. simpl.
  destruct (Z.eqb_spec (cluster_id bj) (cluster_id bi)) as [|Hne]; [done|]. simpl.
  rewrite Hmf. simpl.
  destruct (for_each_seqZ (merge_inv st (cluster_id bi) mt mf)
              (merge_step (cluster_id bj) (cluster_id bi)) 0 (Z.of_nat (length mf)) st)
    as (st1 & Hrun & Hrel & Hca & Hmax & Hsort); [lia| |..].
  { unfold merge_inv. simpl. rewrite app_nil_r. split_and!; try done.
    - split; [done|]. intros n b Hn. by rewrite set_cluster_id_id.
    - symmetry. apply list_insert_id. by apply rd_Some in Hmt as [_ ?]. }
  { intros k s Hk. apply (merge_step_inv st _ _ mt mf k s Hmf Hmt Hne); [|lia].
    intros x Hx%Hmem. apply cid_of_Some in Hx as (b & -> & _). done. }
  rewrite Hrun. simpl. rewrite Z.add_0_l, Nat2Z.id, firstn_all in *.
  pose proof (rd_range _ _ _ Hmf) as Hrf. pose proof (rd_range _ _ _ Hmt) as Hrt.
  destruct (wr_is_Some (cluster_assignment st1) (cluster_id bj) []) as [ca Hw].
  { rewrite Hca, length_insert. done. }
  rewrite Hw. simpl. apply wr_Some in Hw as [_ ->].
  eexists; split; [done|]. simpl. split_and!; try done; [|by rewrite Hca].
  eapply relabel_ext; [|exact Hrel]. intros n b Hn. simpl.
  destruct (Z.eqb_spec (cluster_id b) (cluster_id bj)) as [Heq|Hneq].
  - rewrite bool_decide_eq_true_2; [done|]. apply Hmem, cid_of_Some. by exists b.
  - rewrite bool_decide_eq_false_2; [done|]. intros Hx%Hmem.
    apply cid_of_Some in Hx as (b' & Hb' & ?). congruence.
Qed.

End Merge.

(** * Clustering: the tables stay a description of the cluster ids *)

Section ClusterInv.
Context {F : Type} `{FloatOps F}.
Implicit Types (st : NbrState F) (b : Bird F) (bs : list (Bird F)).

Lemma cluster_inv_valid st c ms x :
  cluster_inv st → rd (cluster_assignment st) c = Some ms → x ∈ ms →
  0 ≤ x < Z.of_nat (length (birds st)).
Proof.
  intros Hinv Hms Hx. apply (ci_mem st Hinv c ms Hms) in Hx.
  apply cid_of_Some in Hx as (b & Hb & _). by apply rd_range in Hb.
Qed.

Lemma rd_snoc {A} (l : list A) (x : A) c ms :
  rd (l ++ [x]) c = Some ms →
  (rd l c = Some ms ∧ c < Z.of_nat (length l)) ∨ (c = Z.of_nat (length l) ∧ ms = x).
Proof.
  intros [Hc Hl]%rd_Some. apply lookup_snoc_Some in Hl as [[? Hl]|[? <-]].
  - left. split; [|lia]. by apply rd_Some.
  - right. split; [lia|done].
Qed.

Lemma new_cluster_inv i st st' :
  cluster_inv st → cid_of (birds st) i = Some (-1) →
  max_cluster_id st + 1 ≤ INT_MAX →
  relabel (λ n c, if n =? i then i32 (max_cluster_id st + 1) else c)
    (birds st) (birds st') →
  cluster_assignment st' = cluster_assignment st ++ [[i]] →
  max_cluster_id st' = i32 (max_cluster_id st + 1) →
  cluster_inv st'.
Proof.
  intros Hinv Hi Hmax Hrel Hca Hm. pose proof (ci_len st Hinv) as Hlen.
  unfold INT_MAX in *. rewrite i32_small in * by lia.
  split.
  - rewrite Hca, Hm, length_app. simpl. lia.
  - intros n c. rewrite (relabel_cid _ _ _ n Hrel), Hca, length_app. simpl.
    destruct (cid_of (birds st) n) as [c0|] eqn:Hn; simpl; [|done].
    intros [= <-]. destruct (Z.eqb_spec n i); [right; lia|].
    destruct (ci_ids st Hinv n c0 Hn); [by left|right; lia].
  - intros c ms. rewrite Hca. intros [[Hms Hc]|[-> ->]]%rd_snoc.
    + destruct (ci_mem st Hinv c ms Hms) as [Hnd Hmem]. split; [done|].
      intros x. rewrite Hmem, (relabel_cid _ _ _ x Hrel).
      pose proof (rd_range _ _ _ Hms).
      destruct (Z.eqb_spec x i) as [->|Hne].
      * rewrite Hi. simpl. split; intros [=]; lia.
      * destruct (cid_of (birds st) x); simpl; [|done]. done.
    + split; [apply NoDup_singleton|]. intros x.
      rewrite list_elem_of_singleton, (relabel_cid _ _ _ x Hrel).
      destruct (Z.eqb_spec x i) as [->|Hne].
      * rewrite Hi. simpl. split; [intros _; f_equal; lia|done].
      * split; [done|]. destruct (cid_of (birds st) x) as [c0|] eqn:Hx; simpl; [|done].
        intros [= ->]. destruct (ci_ids st Hinv x _ Hx); lia.
Qed.

Lemma join_cluster_inv i j st st' t ms :
  cluster_inv st → cid_of (birds st) i = Some t → t ≠ -1 →
  cid_of (birds st) j = Some (-1) →
  rd (cluster_assignment st) t = Some ms →
  relabel (λ n c, if n =? j then t else c) (birds st) (birds st') →
  cluster_assignment st' = <[Z.to_nat t := ms ++ [j]]> (cluster_assignment st) →
  max_cluster_id st' = max_cluster_id st →
  cluster_inv st'.
Proof.
  intros Hinv Hi Ht Hj Hms Hrel Hca Hm.
  pose proof (rd_range _ _ _ Hms) as Hrt.
  split.
  - rewrite Hca, Hm, length_insert. apply (ci_len st Hinv).
  - intros n c. rewrite (relabel_cid _ _ _ n Hrel), Hca, length_insert.
    destruct (cid_of (birds st) n) as [c0|] eqn:Hn; simpl; [|done].
    intros [= <-]. destruct (Z.eqb_spec n j); [right; lia|].
    by apply (ci_ids st Hinv n).
  - intros c ms'. rewrite Hca. destruct (decide (c = t)) as [->|Hne].
    + rewrite rd_insert_eq by done. intros [= <-].
      destruct (ci_mem st Hinv t ms Hms) as [Hnd Hmem]. split.
      * apply NoDup_app. split_and!; [done| |apply NoDup_singleton].
        intros x Hx%Hmem ->%list_elem_of_singleton. congruence.
      * intros x. rewrite elem_of_app, list_elem_of_singleton, Hmem,
          (relabel_cid _ _ _ x Hrel).
        destruct (Z.eqb_spec x j) as [->|Hxj].
        -- rewrite Hj. simpl. split; [done|by right].
        -- destruct (cid_of (birds st) x); simpl; [|split; [by intros [?|?]|done]].
           split; [by intros [?|?]|by left].
    + rewrite rd_insert_ne by lia. intros Hms'.
      destruct (ci_mem st Hinv c ms' Hms') as [Hnd Hmem]. split; [done|].
      intros x. rewrite Hmem, (relabel_cid _ _ _ x Hrel).
      pose proof (rd_range _ _ _ Hms').
      destruct (Z.eqb_spec x j) as [->|Hxj].
      * rewrite Hj. simpl. split; intros [=]; lia.
      * by destruct (cid_of (birds st) x).
Qed.

Lemma merge_clusters_inv st st' f t mt mf :
  cluster_inv st → f ≠ t →
  rd (cluster_assignment st) f = Some mf →
  rd (cluster_assignment st) t = Some mt →
  relabel (λ n c, if c =? f then t else c) (birds st) (birds st') →
  cluster_assignment st' =
    <[Z.to_nat f := []]> (<[Z.to_nat t := mt ++ mf]> (cluster_assignment st)) →
  max_cluster_id st' = max_cluster_id st →
  cluster_inv st'.
Proof.
  intros Hinv Hne Hmf Hmt Hrel Hca Hm.
  pose proof (rd_range _ _ _ Hmf) as Hrf. pose proof (rd_range _ _ _ Hmt) as Hrt.
  destruct (ci_mem st Hinv f mf Hmf) as [Hndf Hmemf].
  destruct (ci_mem st Hinv t mt Hmt) as [Hndt Hmemt].
  split.
  - rewrite Hca, Hm, !length_insert. apply (ci_len st Hinv).
  - intros n c. rewrite (relabel_cid _ _ _ n Hrel), Hca, !length_insert.
    destruct (cid_of (birds st) n) as [c0|] eqn:Hn; simpl; [|done].
    intros [= <-]. destruct (Z.eqb_spec c0 f); [right; lia|].
    by apply (ci_ids st Hinv n).
  - intros c ms. rewrite Hca. destruct (decide (c = f)) as [->|Hcf].
    + rewrite rd_insert_eq by (by rewrite length_insert). intros [= <-].
      split; [apply NoDup_nil_2|]. intros x. rewrite (relabel_cid _ _ _ x Hrel).
      split; [by intros ?%elem_of_nil|].
      destruct (cid_of (birds st) x) as [c0|]; simpl; [|done].
      destruct (Z.eqb_spec c0 f); intros [=]; congruence.
    + rewrite rd_insert_ne by lia. destruct (decide (c = t)) as [->|Hct].
      * rewrite rd_insert_eq by done. intros [= <-]. split.
        -- apply NoDup_app. split_and!; [done| |done].
           intros x Hx%Hmemt Hx'%Hmemf. congruence.
        -- intros x. rewrite elem_of_app, Hmemt, Hmemf, (relabel_cid _ _ _ x Hrel).
           destruct (cid_of (birds st) x) as [c0|]; simpl; [|split; [by intros [?|?]|done]].
           destruct (Z.eqb_spec c0 f) as [->|?].
           ++ split; [done|by right].
           ++ split; [intros [?|[=]]; [done|congruence]|by left].
      * rewrite rd_insert_ne by lia. intros Hms.
        destruct (ci_mem st Hinv c ms Hms) as [Hnd Hmem]. split; [done|].
        intros x. rewrite Hmem, (relabel_cid _ _ _ x Hrel).
        destruct (cid_of (birds st) x) as [c0|]; simpl; [|done].
        destruct (Z.eqb_spec c0 f) as [->|?]; [|done].
        split; intros [=]; congruence.
Qed.

End ClusterInv.

(** * The topological sorted list *)

(** Shifting the entries [k .. num-1] of an array one place up and writing
    [x] at [k] inserts [x] at position [k] of its first [num] entries. *)
Lemma array_insert_take {A} (d d2 : list A) (num k : nat) (x : A) :
  (k ≤ num)%nat → (num < length d)%nat → length d2 = length d →
  (∀ q, (q < k)%nat → d2 !! q = d !! q) →
  d2 !! k = Some x →
  (∀ q, (k < q ≤ num)%nat → d2 !! q = d !! (q - 1)%nat) →
  take (S num) d2 = take k (take num d) ++ x :: drop k (take num d).
Proof.
  intros Hk Hnum Hlen Hlo Hat Hhi. apply list_eq. intros r.
  assert (length (take k (take num d)) = k) as Hlk.
  { rewrite !length_take. lia. }
  destruct (decide (r < k)%nat) as [Hr|Hr].
  - rewrite lookup_take_lt, lookup_app_l, !lookup_take_lt by lia. by apply Hlo.
  - rewrite lookup_app_r by lia. rewrite Hlk.
    destruct (decide (r = k)) as [->|Hne].
    + rewrite lookup_take_lt, Nat.sub_diag by lia. done.
    + replace (r - k)%nat with (S (r - k - 1)) by lia. simpl.
      rewrite lookup_drop. destruct (decide (r ≤ num)%nat).
      * rewrite !lookup_take_lt by lia. rewrite Hhi by lia. f_equal. lia.
      * rewrite !lookup_take_ge by lia. done.
Qed.

Section SortList.
Context {F : Type} `{FloatOps F}.
Implicit Types (st : NbrState F) (d : list F) (j : list Z).

Lemma find_slot_lead d num dsq fuel k :
  0 ≤ k ≤ num → num < Z.of_nat (length d) → (Z.to_nat (num - k) ≤ fuel)%nat →
  find_slot fuel d num dsq k =
  Some (k + Z.of_nat (lead dsq (drop (Z.to_nat k) (take (Z.to_nat num) d)))).
Proof.
  revert k. induction fuel as [|fuel IH]; intros k Hk Hnum Hfuel.
  - assert (k = num) as -> by lia. simpl.
    destruct (rd_is_Some d num) as [dk ->]; [lia|]. simpl.
    rewrite Z.ltb_irrefl, andb_false_r.
    rewrite drop_ge by (rewrite length_take; lia). simpl. f_equal. lia.
  - simpl. destruct (rd_is_Some d k) as [dk Hdk]; [lia|]. rewrite Hdk. simpl.
    destruct (Z.ltb_spec k num) as [Hlt|Hge].
    + apply rd_Some in Hdk as [_ Hdk].
      rewrite (drop_S _ dk) by (rewrite lookup_take_lt by lia; done). simpl.
      destruct (fgt dsq dk); simpl; [|f_equal; lia].
      rewrite IH by lia. replace (Z.to_nat (k + 1)) with (S (Z.to_nat k)) by lia.
      f_equal. lia.
    + rewrite andb_false_r. rewrite drop_ge by (rewrite length_take; lia).
      simpl. f_equal. lia.
Qed.

Lemma lead_le dsq l : (lead dsq l ≤ length l)%nat.
Proof. induction l as [|e l IH]; simpl; [done|]. destruct (fgt dsq e); simpl; lia. Qed.

(** [n] iterations of the shifting loop, from [m] down. *)
Lemma shift_down_spec n m d j :
  (Z.of_nat n ≤ m + 1) → m + 1 < Z.of_nat (length d) → length j = length d →
  ∃ d' j', shift_down n m (d, j) = Some (d', j') ∧
    length d' = length d ∧ length j' = length j ∧
    ∀ q, rd d' q = (if (m - Z.of_nat n + 2 <=? q) && (q <=? m + 1)
                    then rd d (q - 1) else rd d q) ∧
         rd j' q = (if (m - Z.of_nat n + 2 <=? q) && (q <=? m + 1)
                    then rd j (q - 1) else rd j q).
Proof.
  revert m d j. induction n as [|n IH]; intros m d j Hn Hm Hl.
  - exists d, j. split_and!; try done. intros q.
    destruct (Z.leb_spec (m - Z.of_nat 0 + 2) q); destruct (Z.leb_spec q (m + 1)); simpl;
      try done; lia.
  - simpl.
    destruct (rd_is_Some d m) as [dm Hdm]; [lia|]. rewrite Hdm. simpl.
    destruct (wr_is_Some d (m + 1) dm) as [d1 Hd1]; [lia|]. rewrite Hd1. simpl.
    destruct (rd_is_Some j m) as [jm Hjm]; [lia|]. rewrite Hjm. simpl.
    destruct (wr_is_Some j (m + 1) jm) as [j1 Hj1]; [lia|]. rewrite Hj1. simpl.
    pose proof (wr_length _ _ _ _ Hd1) as Hld. pose proof (wr_length _ _ _ _ Hj1) as Hlj.
    destruct (IH (m - 1) d1 j1) as (d' & j' & Hrun & Hld' & Hlj' & Hq); [lia|lia|congruence|].
    exists d', j'. split_and!; [done|congruence|congruence|].
    intros q. destruct (Hq q) as [Hqd Hqj]. rewrite Hqd, Hqj.
    replace (m - 1 - Z.of_nat n + 2) with (m - Z.of_nat (S n) + 2) by lia.
    replace (m - 1 + 1) with m by lia.
    destruct (Z.leb_spec (m - Z.of_nat (S n) + 2) q); simpl.
    + destruct (Z.leb_spec q m); destruct (Z.leb_spec q (m + 1)); try lia.
      * rewrite (rd_wr_ne _ _ _ _ _ Hd1), (rd_wr_ne _ _ _ _ _ Hj1) by lia. done.
      * assert (q = m + 1) as -> by lia.
        rewrite (rd_wr_eq _ _ _ _ Hd1), (rd_wr_eq _ _ _ _ Hj1).
        replace (m + 1 - 1) with m by lia. done.
      * rewrite (rd_wr_ne _ _ _ _ _ Hd1), (rd_wr_ne _ _ _ _ _ Hj1) by lia. done.
    + rewrite (rd_wr_ne _ _ _ _ _ Hd1), (rd_wr_ne _ _ _ _ _ Hj1) by lia. done.
Qed.

End SortList.

Section InsertNbr.
Context {F : Type} `{FloatOps F}.
Implicit Types (st : NbrState F) (d : list F) (j : list Z).

Lemma fst_zip_take (n : nat) d j :
  length j = length d → (zip (take n d) (take n j)).*1 = take n d.
Proof. intros Hl. apply fst_zip. rewrite !length_take. lia. Qed.

Lemma zip_insert_at (k : nat) (dl : list F) (jl : list Z) x y :
  length dl = length jl →
  zip (take k dl ++ x :: drop k dl) (take k jl ++ y :: drop k jl) =
  take k (zip dl jl) ++ (x, y) :: drop k (zip dl jl).
Proof.
  intros Hl. rewrite zip_with_app by (rewrite !length_take; lia).
  simpl. by rewrite zip_with_take, zip_with_drop.
Qed.

(** Lines 1155-1172 never leave the two arrays when the list holds at
    most 15 entries, and insert the new pair in front of the first entry
    that is not nearer, keeping at most [K] entries. *)
Lemma insert_nbr_spec K dsq jj st :
  length (sort_d_nbr st) = 16%nat → length (sort_j_nbr st) = 16%nat →
  0 ≤ sort_num st ≤ 15 →
  ∃ st', insert_nbr K dsq jj st = Some st' ∧
    length (sort_d_nbr st') = 16%nat ∧ length (sort_j_nbr st') = 16%nat ∧
    sort_num st' = (if sort_num st + 1 >? K then K else sort_num st + 1) ∧
    retained st' = take (Z.to_nat (sort_num st')) (ins_sorted (dsq, jj) (retained st)) ∧
    birds st' = birds st ∧ cluster_assignment st' = cluster_assignment st ∧
    max_cluster_id st' = max_cluster_id st.
Proof.
  intros Hld Hlj Hnum. unfold insert_nbr.
  set (num := sort_num st) in *. set (d := sort_d_nbr st) in *.
  set (j := sort_j_nbr st) in *.
  rewrite (find_slot_lead d num dsq (Z.to_nat num) 0) by lia.
  rewrite Z.add_0_l. simpl. rewrite drop_0.
  set (kn := lead dsq (take (Z.to_nat num) d)).
  assert (kn ≤ Z.to_nat num)%nat as Hkn.
  { pose proof (lead_le dsq (take (Z.to_nat num) d)) as Hle.
    rewrite length_take in Hle. unfold kn. lia. }
  rewrite (proj2 (Z.leb_le (Z.of_nat kn) num)) by lia.
  assert (∃ d1 j1,
    (if negb (Z.of_nat kn =? num)
     then shift_down (Z.to_nat (num - Z.of_nat kn)) (num - 1) (d, j)
     else Some (d, j)) = Some (d1, j1) ∧
    length d1 = 16%nat ∧ length j1 = 16%nat ∧
    ∀ q, rd d1 q = (if (Z.of_nat kn + 1 <=? q) && (q <=? num)
                    then rd d (q - 1) else rd d q) ∧
         rd j1 q = (if (Z.of_nat kn + 1 <=? q) && (q <=? num)
                    then rd j (q - 1) else rd j q))
    as (d1 & j1 & -> & Hld1 & Hlj1 & Hq1).
  { destruct (Z.eqb_spec (Z.of_nat kn) num) as [Heq|Hne]; simpl.
    - exists d, j. split_and!; try done. intros q.
      destruct (Z.leb_spec (Z.of_nat kn + 1) q); destruct (Z.leb_spec q num);
        simpl; try done; lia.
    - destruct (shift_down_spec (Z.to_nat (num - Z.of_nat kn)) (num - 1) d j)
        as (d1 & j1 & Hrun & ? & ? & Hq); [lia|lia|congruence|].
      exists d1, j1. split_and!; [done|congruence|congruence|].
      intros q. destruct (Hq q) as [Hqd Hqj].
      replace (num - 1 - Z.of_nat (Z.to_nat (num - Z.of_nat kn)) + 2)
        with (Z.of_nat kn + 1) in * by lia.
      replace (num - 1 + 1) with num in * by lia. done. }
  simpl.
  destruct (wr_is_Some d1 (Z.of_nat kn) dsq) as [d2 Hd2]; [lia|]. rewrite Hd2. simpl.
  destruct (wr_is_Some j1 (Z.of_nat kn) jj) as [j2 Hj2]; [lia|]. rewrite Hj2. simpl.
  pose proof (wr_length _ _ _ _ Hd2) as Hld2. pose proof (wr_length _ _ _ _ Hj2) as Hlj2.
  eexists; split; [done|]. simpl. split_and!; try done; try congruence.
  set (num' := if num + 1 >? K then K else num + 1).
  assert (num' ≤ num + 1) as Hnum'.
  { unfold num'. destruct (Z.gtb_spec (num + 1) K); lia. }
  unfold retained. simpl. fold num d j.
  assert (take (S (Z.to_nat num)) d2 =
          take kn (take (Z.to_nat num) d) ++ dsq :: drop kn (take (Z.to_nat num) d)) as Hd.
  { apply array_insert_take; [done|lia|congruence| | |].
    - intros q Hq. rewrite <- !rd_nat, (rd_wr_ne _ _ _ _ _ Hd2) by lia.
      destruct (Hq1 (Z.of_nat q)) as [-> _].
      destruct (Z.leb_spec (Z.of_nat kn + 1) (Z.of_nat q)); simpl; [lia|done].
    - rewrite <- rd_nat. apply (rd_wr_eq _ _ _ _ Hd2).
    - intros q Hq. rewrite <- !rd_nat, (rd_wr_ne _ _ _ _ _ Hd2) by lia.
      destruct (Hq1 (Z.of_nat q)) as [-> _].
      destruct (Z.leb_spec (Z.of_nat kn + 1) (Z.of_nat q));
        destruct (Z.leb_spec (Z.of_nat q) num); simpl; try lia.
      f_equal. lia. }
  assert (take (S (Z.to_nat num)) j2 =
          take kn (take (Z.to_nat num) j) ++ jj :: drop kn (take (Z.to_nat num) j)) as Hj.
  { apply array_insert_take; [done|lia|congruence| | |].
    - intros q Hq. rewrite <- !rd_nat, (rd_wr_ne _ _ _ _ _ Hj2) by lia.
      destruct (Hq1 (Z.of_nat q)) as [_ ->].
      destruct (Z.leb_spec (Z.of_nat kn + 1) (Z.of_nat q)); simpl; [lia|done].
    - rewrite <- rd_nat. apply (rd_wr_eq _ _ _ _ Hj2).
    - intros q Hq. rewrite <- !rd_nat, (rd_wr_ne _ _ _ _ _ Hj2) by lia.
      destruct (Hq1 (Z.of_nat q)) as [_ ->].
      destruct (Z.leb_spec (Z.of_nat kn + 1) (Z.of_nat q));
        destruct (Z.leb_spec (Z.of_nat q) num); simpl; try lia.
      f_equal. lia. }
  unfold ins_sorted. simpl. rewrite fst_zip_take by congruence. fold kn.
  rewrite <- zip_insert_at by (rewrite !length_take; lia).
  rewrite <- Hd, <- Hj. rewrite zip_with_take, !take_take.
  by rewrite !Nat.min_l by lia.
Qed.

(** With a negative [sort_num] (a negative [K]) nothing is inserted. *)
Lemma insert_nbr_negative K dsq jj st :
  (0 < length (sort_d_nbr st))%nat → sort_num st < 0 →
  insert_nbr K dsq jj st = Some st.
Proof.
  intros Hl Hn. unfold insert_nbr.
  replace (Z.to_nat (sort_num st)) with 0%nat by lia. simpl.
  destruct (rd_is_Some (sort_d_nbr st) 0) as [d0 ->]; [lia|]. simpl.
  rewrite (proj2 (Z.ltb_ge 0 (sort_num st))) by lia. rewrite andb_false_r. simpl.
  by rewrite (proj2 (Z.leb_gt 0 (sort_num st))) by lia.
Qed.

End InsertNbr.

(** * Insertion into a sorted list *)

Section InsSorted.
Context {F : Type} `{FloatOps F}.
Implicit Types (x e : F * Z) (l : list (F * Z)).

Lemma ins_sorted_nil x : ins_sorted x [] = [x].
Proof. done. Qed.

Lemma ins_sorted_cons x e l :
  ins_sorted x (e :: l) = if fgt x.1 e.1 then e :: ins_sorted x l else x :: e :: l.
Proof. unfold ins_sorted. simpl. by destruct (fgt x.1 e.1). Qed.

Lemma ins_sorted_perm x l : ins_sorted x l ≡ₚ x :: l.
Proof.
  unfold ins_sorted. rewrite <- Permutation_middle. by rewrite take_drop.
Qed.

Lemma isort_snoc l x : isort (l ++ [x]) = ins_sorted x (isort l).
Proof. unfold isort. by rewrite foldl_app. Qed.

Lemma isort_perm l : isort l ≡ₚ l.
Proof.
  induction l as [|x l IH] using rev_ind; [done|].
  rewrite isort_snoc, ins_sorted_perm, IH. by rewrite <- Permutation_cons_append.
Qed.

(** Truncating before an insertion does not change the first [K] entries
    of its result. *)
Lemma take_ins_sorted_take (K : nat) x l :
  take K (ins_sorted x (take K l)) = take K (ins_sorted x l).
Proof.
  revert K. induction l as [|e l IH]; intros [|K]; try done.
  simpl take at 2. rewrite !ins_sorted_cons. destruct (fgt x.1 e.1); simpl.
  - by rewrite IH.
  - f_equal. destruct K as [|K]; [done|]. simpl. f_equal.
    rewrite take_take. f_equal. lia.
Qed.

(** Keeping [K] entries after every insertion keeps the first [K] entries
    of the insertion sort. *)
Lemma foldl_take_ins_sorted (K : nat) l :
  foldl (λ acc x, take K (ins_sorted x acc)) [] l = take K (isort l).
Proof.
  induction l as [|x l IH] using rev_ind; [by destruct K|].
  rewrite foldl_app, isort_snoc. simpl. rewrite IH. apply take_ins_sorted_take.
Qed.

Context `{!FloatOrder F}.

Lemma nearer_trans x y z : is_number y → nearer x y → nearer y z → nearer x z.
Proof.
  unfold nearer, fle, fgt. intros [r Hr] Hxy Hyz.
  destruct (flt z.1 x.1) eqn:Hzx; [|done].
  destruct (flt_negtrans z.1 y.1 x.1 r Hr Hzx); congruence.
Qed.

Lemma ins_sorted_sorted x l :
  Forall is_number l →
  StronglySorted nearer l → StronglySorted nearer (ins_sorted x l).
Proof.
  induction l as [|e l IH]; intros Hnum Hs.
  - rewrite ins_sorted_nil. repeat constructor.
  - apply Forall_cons in Hnum as [He Hnum].
    apply StronglySorted_cons in Hs as [Hel Hs].
    rewrite ins_sorted_cons. destruct (fgt x.1 e.1) eqn:Hgt.
    + apply StronglySorted_cons. split; [|by apply IH].
      rewrite ins_sorted_perm. apply Forall_cons. split; [|done].
      unfold nearer, fle, fgt in *. by apply flt_asym.
    + apply StronglySorted_cons. split; [|by apply StronglySorted_cons].
      apply Forall_cons. split; [done|].
      eapply Forall_impl; [exact Hel|]. intros z Hz. by apply (nearer_trans x e z).
Qed.

Lemma isort_sorted l : Forall is_number l → StronglySorted nearer (isort l).
Proof.
  induction l as [|x l IH] using rev_ind; intros Hnum; [constructor|].
  apply Forall_app in Hnum as [Hl _]. rewrite isort_snoc.
  apply ins_sorted_sorted; [|by apply IH]. by rewrite isort_perm.
Qed.

End InsSorted.

(** * The order of single precision numbers *)

Lemma f32_ltb_key (x y : float32) :
  x ≠ S754_nan → y ≠ S754_nan → SFltb x y = true ↔ key_lt (f32_key x) (f32_key y).
Proof.
  intros Hx Hy. unfold SFltb, key_lt.
  destruct x as [sx|sx| |sx mx ex], y as [sy|sy| |sy my ey]; try done;
    try destruct sx; try destruct sy; simpl; try (split; [done|lia]);
    try (split; [intros _; lia|done]).
  - destruct (Z.compare_spec ex ey); simpl; try (split; [done|lia]);
      try (split; [intros _; lia|done]).
    subst. rewrite Pos.compare_cont_spec. simpl.
    destruct (Pos.compare_spec mx my); simpl; try (split; [done|lia]);
      try (split; [intros _; lia|done]).
  - destruct (Z.compare_spec ex ey); simpl; try (split; [done|lia]);
      try (split; [intros _; lia|done]).
    subst. rewrite Pos.compare_cont_spec. simpl.
    destruct (Pos.compare_spec mx my); simpl; try (split; [done|lia]);
      try (split; [intros _; lia|done]).
Qed.

Lemma f32_ltb_number (x y : float32) :
  SFltb x y = true → x ≠ S754_nan ∧ y ≠ S754_nan.
Proof.
  unfold SFltb. destruct x, y; simpl; try done.
Qed.

Global Instance binary32_order : FloatOrder float32.
Proof.
  split; simpl.
  - intros x y Hxy. destruct (f32_ltb_number x y Hxy) as [Hx Hy].
    apply (f32_ltb_key x y Hx Hy) in Hxy.
    destruct (SFltb y x) eqn:Hyx; [|done].
    apply (f32_ltb_key y x Hy Hx) in Hyx. unfold key_lt in *. lia.
  - intros x y z r Hyr Hxz.
    destruct (f32_ltb_number y r Hyr) as [Hy _].
    destruct (f32_ltb_number x z Hxz) as [Hx Hz].
    apply (f32_ltb_key x z Hx Hz) in Hxz.
    rewrite (f32_ltb_key x y Hx Hy), (f32_ltb_key y z Hy Hz).
    unfold key_lt in *. lia.
Qed.

(** * Clustering: the pair of a scan *)

Section ClusterPair.
Context {F : Type} `{FloatOps F}.
Implicit Types (st : NbrState F) (b : Bird F) (bs : list (Bird F)).

Lemma relabel_id bs : relabel (λ _ c, c) bs bs.
Proof. split; [done|]. intros n b Hn. by rewrite set_cluster_id_id. Qed.

Lemma relabel_trans f g bs1 bs2 bs3 :
  relabel f bs1 bs2 → relabel g bs2 bs3 →
  relabel (λ n c, g n (f n c)) bs1 bs3.
Proof.
  intros [Hl1 Hr1] [Hl2 Hr2]. split; [congruence|].
  intros n b Hn. apply Hr1 in Hn. apply Hr2 in Hn. by rewrite Hn.
Qed.

Lemma relabel_length f bs bs' : relabel f bs bs' → length bs' = length bs.
Proof. by intros [? _]. Qed.

(** Lines 1124-1143 for a bird [i] that has a cluster: they return, and
    move [j], with its whole cluster if it has one, to the cluster of [i]. *)
Lemma cluster_pair_effect i j st bi bj :
  cluster_inv st → rd (birds st) i = Some bi → rd (birds st) j = Some bj →
  cluster_id bi ≠ -1 → i ≠ j →
  ∃ st', cluster_pair i j st = Some st' ∧
    relabel (pair_relabel j (cluster_id bi) (cluster_id bj)) (birds st) (birds st') ∧
    cluster_inv st' ∧
    length (cluster_assignment st') = length (cluster_assignment st) ∧
    same_sort st st'.
Proof.
  intros Hinv Hi Hj Ht Hij. unfold cluster_pair.
  set (t := cluster_id bi) in *. set (cj := cluster_id bj) in *.
  assert (cid_of (birds st) i = Some t) as Hci by (apply cid_of_Some; by exists bi).
  assert (cid_of (birds st) j = Some cj) as Hcj by (apply cid_of_Some; by exists bj).
  destruct (ci_ids st Hinv i t Hci) as [?|Htr]; [done|].
  destruct (rd_is_Some (cluster_assignment st) t Htr) as [mt Hmt].
  pose proof (join_cluster_effect i j st bi bj mt Hi Hj Hmt) as Hjoin. fold cj t in Hjoin.
  destruct (Z.eqb_spec cj (-1)) as [Hcj1|Hcj1]; simpl in Hjoin.
  - (* the neighbour had no cluster *)
    destruct Hjoin as (st1 & -> & Hrel & Hca & Hmax & Hsort). simpl.
    assert (cluster_inv st1) as Hinv1.
    { apply (join_cluster_inv i j st st1 t mt); try done. by rewrite Hcj, Hcj1. }
    pose proof (proj2 Hrel i bi Hi) as Hi1. pose proof (proj2 Hrel j bj Hj) as Hj1.
    cbv beta in Hi1, Hj1.
    rewrite (proj2 (Z.eqb_neq i j) Hij) in Hi1. rewrite Z.eqb_refl in Hj1.
    cbv iota in Hi1, Hj1. unfold t in Hi1. rewrite set_cluster_id_id in Hi1.
    unfold merge_clusters. rewrite Hi1, Hj1. simpl. rewrite Z.eqb_refl. simpl.
    eexists; split; [done|]. split_and!; try done.
    + eapply relabel_ext; [|exact Hrel]. intros n b Hn. simpl.
      unfold pair_relabel. rewrite Hcj1. simpl. by rewrite andb_false_r, orb_false_r.
    + by rewrite Hca, length_insert.
  - (* the neighbour has a cluster *)
    rewrite Hjoin. simpl.
    destruct (ci_ids st Hinv j cj Hcj) as [?|Hcr]; [done|].
    destruct (rd_is_Some (cluster_assignment st) cj Hcr) as [mf Hmf].
    pose proof (merge_clusters_effect i j st bi bj mt mf Hi Hj Hmf Hmt
                  (proj2 (ci_mem st Hinv cj mf Hmf))) as Hmerge. fold cj t in Hmerge.
    destruct (Z.eqb_spec cj t) as [Heq|Hne]; simpl in Hmerge.
    + rewrite Hmerge. eexists; split; [done|]. split_and!; try done.
      eapply relabel_ext; [|apply relabel_id]. intros n b Hn. simpl.
      unfold pair_relabel. rewrite (proj2 (Z.eqb_neq cj (-1))) by done. simpl.
      rewrite andb_true_r.
      destruct (Z.eqb_spec n j) as [->|?]; simpl.
      * rewrite Hj in Hn. injection Hn as <-. fold cj. done.
      * destruct (Z.eqb_spec (cluster_id b) cj); congruence.
    + destruct Hmerge as (st1 & -> & Hrel & Hca & Hmax & Hsort).
      eexists; split; [done|]. split_and!; try done.
      * eapply relabel_ext; [|exact Hrel]. intros n b Hn. simpl.
        unfold pair_relabel. rewrite (proj2 (Z.eqb_neq cj (-1))) by done. simpl.
        rewrite andb_true_r.
        destruct (Z.eqb_spec n j) as [->|?]; simpl; [|done].
        rewrite Hj in Hn. injection Hn as <-. fold cj. by rewrite Z.eqb_refl.
      * by apply (merge_clusters_inv st st1 cj t mt mf).
      * by rewrite Hca, !length_insert.
Qed.

End ClusterPair.

(** * Clustering: what a pair does to the cluster ids *)

Section PairFacts.
Context {F : Type} `{FloatOps F}.
Context (bs bs' : list (Bird F)) (i j t cj : Z).
Hypothesis Hi : cid_of bs i = Some t.
Hypothesis Ht : t ≠ -1.
Hypothesis Hj : cid_of bs j = Some cj.
Hypothesis pair_cid : ∀ n, cid_of bs' n = pair_relabel j t cj n <$> cid_of bs n.

Lemma pair_cid_i : cid_of bs' i = Some t.
Proof.
  rewrite pair_cid, Hi. simpl. unfold pair_relabel.
  by destruct ((i =? j) || (t =? cj) && negb (cj =? -1)).
Qed.

Lemma pair_cid_j : cid_of bs' j = Some t.
Proof. rewrite pair_cid, Hj. simpl. unfold pair_relabel. by rewrite Z.eqb_refl. Qed.

Lemma pair_assigned n c :
  cid_of bs n = Some c → c ≠ -1 → ∃ c', cid_of bs' n = Some c' ∧ c' ≠ -1.
Proof.
  intros Hn Hc. rewrite pair_cid, Hn. simpl. unfold pair_relabel.
  destruct ((n =? j) || (c =? cj) && negb (cj =? -1)); eauto.
Qed.

(** Two birds of one cluster stay in one cluster. *)
Lemma pair_same x y c :
  cid_of bs x = Some c → cid_of bs y = Some c → c ≠ -1 →
  ∃ c', c' ≠ -1 ∧ cid_of bs' x = Some c' ∧ cid_of bs' y = Some c'.
Proof.
  intros Hx Hy Hc. rewrite !pair_cid, Hx, Hy. simpl. unfold pair_relabel.
  destruct (Z.eqb_spec c cj) as [->|Hne]; simpl.
  - rewrite (proj2 (Z.eqb_neq cj (-1))) by done. simpl. rewrite !orb_true_r. eauto.
  - rewrite !orb_false_r.
    destruct (Z.eqb_spec x j) as [->|?]; [congruence|].
    destruct (Z.eqb_spec y j) as [->|?]; [congruence|]. eauto.
Qed.

(** Two birds that end in one cluster were in one cluster, or each of
    them was in the cluster of [i], or of [j], or is [j]. *)
Lemma pair_conn (R : relation Z) :
  (∀ x y c, cid_of bs x = Some c → cid_of bs y = Some c → c ≠ -1 → rtsc R x y) →
  R i j →
  ∀ x y c, cid_of bs' x = Some c → cid_of bs' y = Some c → c ≠ -1 → rtsc R x y.
Proof.
  intros Hconn Hij.
  assert (∀ x c, cid_of bs' x = Some c → c ≠ -1 →
                 cid_of bs x = Some c ∨ (c = t ∧ rtsc R x i)) as Hcase.
  { intros x c. rewrite pair_cid.
    destruct (cid_of bs x) as [cx|] eqn:Hx; simpl; [|done].
    unfold pair_relabel. intros [= <-] Hc.
    destruct (Z.eqb_spec x j) as [->|Hxj]; simpl.
    - right. split; [done|]. by apply rtsc_rl.
    - destruct (Z.eqb_spec cx cj) as [->|?]; simpl; [|by left].
      destruct (Z.eqb_spec cj (-1)); simpl; [by left|].
      right. split; [done|]. etrans; [by apply (Hconn x j cj)|by apply rtsc_rl]. }
  intros x y c Hx Hy Hc.
  destruct (Hcase x c Hx Hc) as [Hx'|[Hxt Hxi]], (Hcase y c Hy Hc) as [Hy'|[Hyt Hyi]].
  - by apply (Hconn x y c).
  - subst c. etrans; [by apply (Hconn x i t)|by symmetry].
  - subst c. etrans; [exact Hxi|]. by apply (Hconn i y t).
  - etrans; [exact Hxi|by symmetry].
Qed.

End PairFacts.

(** * The birds during a scan *)

Section Evolves.
Context {F : Type} `{FloatOps F}.
Implicit Types (st : NbrState F) (b : Bird F) (bs : list (Bird F)).

Lemma relabel_evolves f bs bs' : relabel f bs bs' → evolves f bs bs'.
Proof.
  intros [Hl Hr]. split; [done|]. intros n b Hn.
  exists (set_cluster_id (f n (cluster_id b)) b). split; [by apply Hr|]. done.
Qed.

Lemma evolves_cid f bs bs' n : evolves f bs bs' → cid_of bs' n = f n <$> cid_of bs n.
Proof.
  intros [Hl Hr]. unfold cid_of. destruct (rd bs n) as [b|] eqn:Hn; simpl.
  - destruct (Hr n b Hn) as (b' & -> & _ & _ & <-). done.
  - apply rd_None in Hn. rewrite (proj2 (rd_None bs' n)); [done|lia].
Qed.

(** An update of one bird that keeps what [evolves] speaks of. *)
Lemma evolves_insert f (h : Bird F → Bird F) bs bs' i b :
  evolves f bs bs' → rd bs' i = Some b →
  same_static b (h b) → same_result b (h b) → cluster_id (h b) = cluster_id b →
  evolves f bs (<[Z.to_nat i := h b]> bs').
Proof.
  intros [Hl Hr] Hi (Hp & Hv) (Hap & Hav & Hnj & Htn) Hc.
  split; [by rewrite length_insert|]. intros n b0 Hn.
  destruct (Hr n b0 Hn) as (b' & Hb' & (? & ?) & (? & ? & ? & ?) & ?).
  pose proof (rd_range _ _ _ Hi).
  destruct (decide (n = i)) as [->|Hne].
  - rewrite Hi in Hb'. injection Hb' as <-. exists (h b).
    rewrite rd_insert_eq by done. repeat split; congruence.
  - exists b'. rewrite rd_insert_ne by lia. done.
Qed.

Lemma evolves_static f bs0 bs bs' :
  evolves f bs bs' →
  (∀ n b, rd bs0 n = Some b → ∃ b', rd bs n = Some b' ∧ same_static b b') →
  ∀ n b, rd bs0 n = Some b → ∃ b', rd bs' n = Some b' ∧ same_static b b'.
Proof.
  intros [Hl Hr] Hs n b Hn. destruct (Hs n b Hn) as (b1 & Hb1 & Hp & Hv).
  destruct (Hr n b1 Hb1) as (b' & Hb' & (? & ?) & _). exists b'.
  split; [done|]. split; congruence.
Qed.

Lemma evolves_rd f bs bs' n b' :
  evolves f bs bs' → rd bs' n = Some b' →
  ∃ b, rd bs n = Some b ∧ same_static b b' ∧ same_result b b'.
Proof.
  intros [Hl Hr] Hn. destruct (rd_is_Some bs n) as [b Hb].
  { apply rd_range in Hn. lia. }
  destruct (Hr n b Hb) as (b1 & Hb1 & ? & ? & _). exists b.
  rewrite Hn in Hb1. injection Hb1 as <-. done.
Qed.

Lemma cluster_inv_frame st st' :
  cluster_inv st →
  (∀ n, cid_of (birds st') n = cid_of (birds st) n) →
  cluster_assignment st' = cluster_assignment st →
  max_cluster_id st' = max_cluster_id st →
  cluster_inv st'.
Proof.
  intros [Hl Hi Hm] Hc Hca Hmax. split.
  - by rewrite Hca, Hmax.
  - intros n c. rewrite Hc, Hca. apply Hi.
  - intros c ms. rewrite Hca. intros Hms. destruct (Hm c ms Hms) as [? Hx].
    split; [done|]. intros x. by rewrite Hc.
Qed.

End Evolves.

(** * One neighbour of a scan *)

Section VisitSort.
Context {F : Type} `{FloatOps F}.
Implicit Types (st : NbrState F).

Lemma length_ins_sorted (x : F * Z) l : length (ins_sorted x l) = S (length l).
Proof. by rewrite ins_sorted_perm. Qed.

(** The insertion of line 1155-1172 keeps the list the first [K] entries
    of the sorted list of what was inserted. *)
Lemma sort_step K (q : bool) dsq j L st :
  K ≤ 15 →
  length (sort_d_nbr st) = 16%nat → length (sort_j_nbr st) = 16%nat →
  sort_num st ≤ 15 → (K < 0 → sort_num st ≤ 0) →
  (0 ≤ K → retained st = take (Z.to_nat K) (isort L) ∧
           sort_num st = Z.of_nat (length (retained st))) →
  ∃ st', (if q then insert_nbr K dsq j st else Some st) = Some st' ∧
    birds st' = birds st ∧ cluster_assignment st' = cluster_assignment st ∧
    max_cluster_id st' = max_cluster_id st ∧
    length (sort_d_nbr st') = 16%nat ∧ length (sort_j_nbr st') = 16%nat ∧
    sort_num st' ≤ 15 ∧ (K < 0 → sort_num st' ≤ 0) ∧
    (0 ≤ K →
     retained st' = take (Z.to_nat K) (isort (L ++ if q then [(dsq, j)] else [])) ∧
     sort_num st' = Z.of_nat (length (retained st'))).
Proof.
  intros HK Hld Hlj Hnum Hneg Hret. destruct q.
  2:{ exists st. rewrite app_nil_r. done. }
  destruct (decide (0 ≤ sort_num st)) as [Hpos|Hn].
  - destruct (insert_nbr_spec K dsq j st Hld Hlj ltac:(lia))
      as (st' & -> & Hld' & Hlj' & Hnum' & Hret' & Hb & Hca & Hmax).
    exists st'. split_and!; try done.
    + rewrite Hnum'. destruct (Z.gtb_spec (sort_num st + 1) K); lia.
    + intros HK0. rewrite Hnum'. destruct (Z.gtb_spec (sort_num st + 1) K); lia.
    + intros HK0. destruct (Hret HK0) as [HL Hlen].
      assert (retained st' = take (Z.to_nat K) (isort (L ++ [(dsq, j)]))) as Heq.
      { rewrite Hret', isort_snoc, <- (take_ins_sorted_take (Z.to_nat K) _ (isort L)), <- HL.
        rewrite Hnum'. destruct (Z.gtb_spec (sort_num st + 1) K) as [Hgt|Hle]; [done|].
        rewrite !take_ge; [done|rewrite length_ins_sorted; lia..]. }
      split; [done|]. rewrite Hret', length_take, length_ins_sorted.
      rewrite Hnum'. destruct (Z.gtb_spec (sort_num st + 1) K); lia.
  - rewrite insert_nbr_negative by lia. exists st. split_and!; try done.
    intros HK0. destruct (Hret HK0) as [_ Hlen]. lia.
Qed.

End VisitSort.

Section VisitCluster.
Context {F : Type} `{FloatOps F}.
Implicit Types (a : Accel F) (p : Params F) (st : NbrState F)
  (b : Bird F) (bs : list (Bird F)).

Lemma close_iff p bs i j bi bj :
  rd bs i = Some bi → rd bs j = Some bj →
  close p bs i j ↔
  flt (dist_sq (pos bi) (pos bj))
      (fmul (cluster_threshold_dist p) (cluster_threshold_dist p)) = true.
Proof.
  intros Hi Hj. unfold close, dsq_of. rewrite Hi, Hj. simpl. split.
  - by intros (dsq & [= <-] & ?).
  - intros ?. by eexists.
Qed.

(** The cluster ids after the pair [(i, j)] has been handled, or skipped
    because it is not close. *)
Lemma walk_cids a p bs i pre j st bs' (c : bool) bi bj :
  walk_inv a p bs i pre st →
  rd (birds st) i = Some bi → rd (birds st) j = Some bj →
  (c = true ↔ close p bs i j) →
  evolves (if c then pair_relabel j (cluster_id bi) (cluster_id bj) else λ _ c, c)
    (birds st) bs' →
  (∀ n, 0 ≤ n ≤ i → n < Z.of_nat (length bs) →
        ∃ c, cid_of bs' n = Some c ∧ c ≠ -1) ∧
  (∀ x y c, cid_of bs' x = Some c → cid_of bs' y = Some c → c ≠ -1 →
            rtsc (close p bs) x y) ∧
  (∀ i' j', (0 ≤ i' < i ∧ j' ∈ cand_list a bs i') ∨ (i' = i ∧ j' ∈ pre ++ [j]) →
            close p bs i' j' →
            ∃ c, c ≠ -1 ∧ cid_of bs' i' = Some c ∧ cid_of bs' j' = Some c).
Proof.
  intros Hw Hi Hj Hc Hev.
  assert (cid_of (birds st) i = Some (cluster_id bi)) as Hci
    by (apply cid_of_Some; by exists bi).
  assert (cid_of (birds st) j = Some (cluster_id bj)) as Hcj
    by (apply cid_of_Some; by exists bj).
  assert (cluster_id bi ≠ -1) as Ht.
  { pose proof (rd_range _ _ _ Hi) as Hr. rewrite (wi_len _ _ _ _ _ _ Hw) in Hr.
    destruct (wi_assigned _ _ _ _ _ _ Hw i) as (c0 & Hc0 & ?); [lia|lia|]. congruence. }
  pose proof (λ n, evolves_cid _ _ _ n Hev) as Hcid.
  destruct c.
  - assert (close p bs i j) as Hclose by (by apply Hc).
    split_and!.
    + intros n Hn HnN. destruct (wi_assigned _ _ _ _ _ _ Hw n Hn HnN) as (c0 & Hc0 & ?).
      by apply (pair_assigned (birds st) bs' j _ _ Ht Hcid n c0).
    + apply (pair_conn (birds st) bs' i j _ _ Hci Hcj Hcid (close p bs)
               (wi_conn _ _ _ _ _ _ Hw) Hclose).
    + intros i' j' Hpair Hcl.
      assert ((i' = i ∧ j' = j) ∨
              ∃ c0, c0 ≠ -1 ∧ cid_of (birds st) i' = Some c0 ∧
                    cid_of (birds st) j' = Some c0) as [[-> ->]|(c0 & ? & ? & ?)].
      { destruct Hpair as [?|[-> [?|Hs%list_elem_of_singleton]%elem_of_app]].
        - right. apply (wi_found _ _ _ _ _ _ Hw); [by left|done].
        - right. apply (wi_found _ _ _ _ _ _ Hw); [by right|done].
        - by left. }
      * exists (cluster_id bi). split; [done|]. split.
        -- apply (pair_cid_i (birds st) bs' i j _ _ Hci Hcid).
        -- apply (pair_cid_j (birds st) bs' j _ _ Hcj Hcid).
      * by apply (pair_same (birds st) bs' j _ _ Ht Hcj Hcid i' j' c0).
  - assert (∀ n, cid_of bs' n = cid_of (birds st) n) as Hsame.
    { intros n. rewrite Hcid. by destruct (cid_of (birds st) n). }
    split_and!.
    + intros n Hn HnN. rewrite Hsame. by apply (wi_assigned _ _ _ _ _ _ Hw).
    + intros x y c0. rewrite !Hsame. apply (wi_conn _ _ _ _ _ _ Hw).
    + intros i' j' Hpair Hcl. rewrite !Hsame.
      destruct Hpair as [?|[-> [?|Hs%list_elem_of_singleton]%elem_of_app]].
      * apply (wi_found _ _ _ _ _ _ Hw); [by left|done].
      * apply (wi_found _ _ _ _ _ _ Hw); [by right|done].
      * subst j'. apply Hc in Hcl. done.
Qed.

End VisitCluster.

Section VisitWalk.
Context {F : Type} `{FloatOps F}.
Implicit Types (a : Accel F) (p : Params F) (st : NbrState F)
  (b : Bird F) (bs : list (Bird F)).

Lemma aggregated_same a p bs n b b' :
  same_result b b' → aggregated a p bs n b → aggregated a p bs n b'.
Proof.
  intros (Hap & Hav & _ & Htn) (? & ? & ?). unfold aggregated. by rewrite Hap, Hav, Htn.
Qed.

Lemma qual_list_snoc a p bs i pre j bi bj :
  rd bs i = Some bi → rd bs j = Some bj →
  qual_list a p bs i (pre ++ [j]) =
  qual_list a p bs i pre ++
  (if qualifies a p bi bj then [(dist_sq (pos bi) (pos bj), j)] else []).
Proof.
  intros Hi Hj. unfold qual_list. rewrite bind_app, bind_singleton. by rewrite Hi, Hj.
Qed.

(** The body of the innermost loop returns and keeps the invariant of the
    scan. *)
Lemma visit_walk a p bs i pre j st bi0 bj0 :
  neighbors p ≤ 15 →
  rd bs i = Some bi0 → rd bs j = Some bj0 → i ≠ j →
  walk_inv a p bs i pre st →
  ∃ st', visit p (rd2_of a) i (pos bi0) (normalize (vel bi0)) st j = Some st' ∧
         walk_inv a p bs i (pre ++ [j]) st'.
Proof.
  intros HK Hi0 Hj0 Hij Hw.
  destruct (wi_static _ _ _ _ _ _ Hw i bi0 Hi0) as (bi & Hi & Hpi & Hvi).
  destruct (wi_static _ _ _ _ _ _ Hw j bj0 Hj0) as (bj & Hj & Hpj & Hvj).
  assert (cluster_id bi ≠ -1) as Ht.
  { pose proof (rd_range _ _ _ Hi0) as Hr.
    destruct (wi_assigned _ _ _ _ _ _ Hw i) as (c0 & Hc0 & ?); [lia|lia|].
    apply cid_of_Some in Hc0 as (b & Hb & <-). congruence. }
  set (dsq := dist_sq (pos bi0) (pos bj0)).
  set (c := flt dsq (fmul (cluster_threshold_dist p) (cluster_threshold_dist p))).
  set (q := qualifies a p bi0 bj0).
  set (g := if c then pair_relabel j (cluster_id bi) (cluster_id bj) else λ _ c0 : Z, c0).
  (* the clustering of the pair *)
  assert (∃ st1, (if c then cluster_pair i j st else Some st) = Some st1 ∧
                 relabel g (birds st) (birds st1) ∧ cluster_inv st1 ∧
                 length (cluster_assignment st1) = length (cluster_assignment st) ∧
                 same_sort st st1) as (st1 & Hrun1 & Hrel & Hinv1 & Hca1 & Hd1 & Hj1 & Hn1).
  { unfold g. destruct c.
    - apply cluster_pair_effect; try done. apply (wi_cluster _ _ _ _ _ _ Hw).
    - exists st. split_and!; try done; [apply relabel_id|apply (wi_cluster _ _ _ _ _ _ Hw)]. }
  (* the insertion *)
  destruct (wi_arrays _ _ _ _ _ _ Hw) as [Hld Hlj].
  destruct (wi_num _ _ _ _ _ _ Hw) as [Hnum Hneg].
  destruct (sort_step (neighbors p) q dsq j (qual_list a p bs i pre) st1 HK)
    as (st2 & Hrun2 & Hb2 & Hca2 & Hmax2 & Hld2 & Hlj2 & Hnum2 & Hneg2 & Hret2);
    [congruence|congruence|by rewrite Hn1|by rewrite Hn1| |].
  { unfold retained. rewrite Hd1, Hj1, Hn1. apply (wi_retained _ _ _ _ _ _ Hw). }
  (* the counter of bird [i] *)
  pose proof (proj2 Hrel i bi Hi) as Hi1.
  assert (∃ st3, (if q then upd_bird (λ b, set_r_nbrs (i32 (r_nbrs b + 1)) b) i st2
                  else Some st2) = Some st3 ∧
                 evolves g (birds st) (birds st3) ∧
                 cluster_assignment st3 = cluster_assignment st2 ∧
                 max_cluster_id st3 = max_cluster_id st2 ∧
                 sort_d_nbr st3 = sort_d_nbr st2 ∧ sort_j_nbr st3 = sort_j_nbr st2 ∧
                 sort_num st3 = sort_num st2)
    as (st3 & Hrun3 & Hev & Hca3 & Hmax3 & Hd3 & Hj3 & Hn3).
  { destruct q.
    - rewrite <- Hb2 in Hi1. rewrite (upd_bird_spec _ _ _ _ Hi1).
      eexists; split; [done|]. simpl. split_and!; try done.
      rewrite Hb2 in *. by apply evolves_insert; [apply relabel_evolves|..].
    - exists st2. split_and!; try done. rewrite Hb2. by apply relabel_evolves. }
  exists st3. split.
  - unfold visit. rewrite Hj. simpl. rewrite Hpj. fold dsq c. rewrite Hrun1. simpl.
    unfold q, qualifies in Hrun2, Hrun3. fold dsq in Hrun2, Hrun3.
    destruct (flt dsq (rd2_of a)); simpl in *.
    + destruct (fgt _ (fovcos p)); simpl in *.
      * rewrite Hrun2. simpl. exact Hrun3.
      * congruence.
    + congruence.
  - destruct (walk_cids a p bs i pre j st (birds st3) c bi bj Hw Hi Hj) as (Has & Hconn & Hfound).
    { unfold c, dsq. symmetry. by apply close_iff. }
    { exact Hev. }
    pose proof (λ n, evolves_cid _ _ _ n Hev) as Hcid3.
    pose proof (λ n, relabel_cid _ _ _ n Hrel) as Hcid1.
    split; try done.
    + by apply (evolves_static g bs (birds st) (birds st3) Hev (wi_static _ _ _ _ _ _ Hw)).
    + rewrite (proj1 Hev). apply (wi_len _ _ _ _ _ _ Hw).
    + split; congruence.
    + rewrite Hn3. done.
    + intros HK0. unfold retained. rewrite Hd3, Hj3, Hn3.
      rewrite (qual_list_snoc a p bs i pre j bi0 bj0 Hi0 Hj0). by apply Hret2.
    + apply (cluster_inv_frame st1); [done| |congruence..].
      intros n. by rewrite Hcid3, Hcid1.
    + rewrite Hca3, Hca2, Hca1. apply (wi_ca_len _ _ _ _ _ _ Hw).
    + intros HK0 n b' Hn Hb'.
      destruct (evolves_rd _ _ _ _ _ Hev Hb') as (b & Hb & _ & Hres).
      eapply aggregated_same; [exact Hres|]. by apply (wi_done _ _ _ _ _ _ Hw).
    + intros b' Hb'.
      destruct (evolves_rd _ _ _ _ _ Hev Hb') as (b & Hb & _ & (Hap & Hav & _)).
      rewrite Hap, Hav. by apply (wi_cleared _ _ _ _ _ _ Hw).
Qed.

End VisitWalk.

(** A loop over a list with an invariant indexed by the part of the list
    already processed. *)
Lemma for_each_prefix {A St} (I : list A → St → Prop) (f : St → A → option St) l s :
  I [] s →
  (∀ pre x s, x ∈ l → I pre s → ∃ s', f s x = Some s' ∧ I (pre ++ [x]) s') →
  ∃ s', for_each f l s = Some s' ∧ I l s'.
Proof.
  induction l as [|x l IH] using rev_ind; intros H0 Hstep.
  - by exists s.
  - destruct IH as (s1 & E1 & I1); [done| |].
    { intros pre y s2 Hy. apply Hstep, elem_of_app. by left. }
    destruct (Hstep l x s1) as (s2 & E2 & I2); [|done|].
    { apply elem_of_app. right. by apply list_elem_of_singleton. }
    exists s2. by rewrite for_each_snoc, E1.
Qed.

(** * One bird of the neighbour search *)

Section BeginBird.
Context {F : Type} `{FloatOps F}.
Implicit Types (a : Accel F) (p : Params F) (st : NbrState F)
  (b : Bird F) (bs : list (Bird F)).

(** Lines 1077-1100 return and establish the invariant of the scan. *)
Lemma begin_bird_walk a p bs i st bi0 :
  numPoints bs ≤ INT_MAX → rd bs i = Some bi0 →
  head_inv a p bs i st →
  ∃ st', begin_bird i st = Some st' ∧ walk_inv a p bs i [] st'.
Proof.
  intros HN Hi0 Hh. pose proof (rd_range _ _ _ Hi0) as Hir.
  destruct (hi_static _ _ _ _ _ Hh i bi0 Hi0) as (bi & Hi & Hsi).
  pose proof (hi_cluster _ _ _ _ _ Hh) as Hinv.
  pose proof (hi_ca_len _ _ _ _ _ Hh) as Hcal.
  pose proof (ci_len st Hinv) as Hlen.
  assert (cid_of (birds st) i = Some (cluster_id bi)) as Hci
    by (apply cid_of_Some; by exists bi).
  unfold numPoints, INT_MAX in *.
  (* the new cluster *)
  assert (∃ st1 g, new_cluster i st = Some st1 ∧ relabel g (birds st) (birds st1) ∧
            cluster_inv st1 ∧ Z.of_nat (length (cluster_assignment st1)) ≤ i + 1 ∧
            same_sort st st1 ∧
            (∃ c, cid_of (birds st1) i = Some c ∧ c ≠ -1) ∧
            (∀ n c, cid_of (birds st) n = Some c → c ≠ -1 → cid_of (birds st1) n = Some c) ∧
            (∀ n c, cid_of (birds st1) n = Some c → c ≠ -1 →
                    cid_of (birds st) n = Some c ∨
                    (n = i ∧ ∀ y, cid_of (birds st1) y = Some c → y = i)))
    as (st1 & g & Hrun1 & Hrel & Hinv1 & Hcal1 & (Hd1 & Hj1 & Hn1) & Hnew & Hold & Hback).
  { pose proof (new_cluster_effect i st bi Hi) as Hnc.
    destruct (Z.eqb_spec (cluster_id bi) (-1)) as [Heq|Hne].
    - destruct Hnc as (st1 & Hrun & Hrel & Hca & Hmax & Hsort).
      rewrite Heq in Hci.
      pose proof (λ n, relabel_cid _ _ _ n Hrel) as Hcid.
      rewrite i32_small in * by lia.
      exists st1, (λ n c, if n =? i then max_cluster_id st + 1 else c).
      split_and!; try done.
      + apply (new_cluster_inv i st st1); try done; unfold INT_MAX;
          rewrite ?i32_small by lia; try done; lia.
      + rewrite Hca, length_app. simpl. lia.
      + exists (max_cluster_id st + 1). rewrite Hcid, Hci. simpl.
        rewrite Z.eqb_refl. split; [done|lia].
      + intros n c Hn Hc. rewrite Hcid, Hn. simpl.
        destruct (Z.eqb_spec n i) as [->|?]; [congruence|done].
      + intros n c. rewrite Hcid.
        destruct (cid_of (birds st) n) as [c0|] eqn:Hn; simpl; [|done].
        destruct (Z.eqb_spec n i) as [->|?]; [|by left].
        intros [= <-] _. right. split; [done|]. intros y. rewrite Hcid.
        destruct (cid_of (birds st) y) as [cy|] eqn:Hy; simpl; [|done].
        destruct (Z.eqb_spec y i) as [->|?]; [done|]. intros [= ->].
        destruct (ci_ids st Hinv y _ Hy); lia.
    - exists st, (λ _ c, c). split_and!; try done.
      + apply relabel_id.
      + lia.
      + by exists (cluster_id bi).
      + intros n c Hn Hc. by left. }
  unfold begin_bird. rewrite Hrun1. simpl.
  (* the cleared results *)
  pose proof (proj2 Hrel i bi Hi) as Hi1.
  rewrite (upd_bird_spec _ _ _ _ Hi1). simpl.
  eexists; split; [done|].
  set (bi1 := set_cluster_id (g i (cluster_id bi)) bi) in *.
  pose proof (rd_range _ _ _ Hi1) as Hir1.
  assert (∀ n, cid_of (<[Z.to_nat i := clear_info bi1]> (birds st1)) n =
               cid_of (birds st1) n) as Hcid2.
  { intros n. unfold cid_of. destruct (decide (n = i)) as [->|?].
    - by rewrite rd_insert_eq, Hi1.
    - by rewrite rd_insert_ne by lia. }
  split; simpl; try done.
  - intros n b Hn. destruct (hi_static _ _ _ _ _ Hh n b Hn) as (b1 & Hb1 & Hp & Hv).
    pose proof (proj2 Hrel n b1 Hb1) as Hb2.
    destruct (decide (n = i)) as [->|?].
    + rewrite rd_insert_eq by done. eexists; split; [done|].
      rewrite Hi in Hb1. injection Hb1 as <-. done.
    + rewrite rd_insert_ne by lia. eexists; split; [done|]. done.
  - rewrite length_insert, (proj1 Hrel). apply (hi_len _ _ _ _ _ Hh).
  - rewrite Hd1, Hj1. apply (hi_arrays _ _ _ _ _ Hh).
  - intros _. unfold retained. simpl. unfold isort. simpl. by rewrite take_nil.
  - apply (cluster_inv_frame st1); done.
  - intros n Hn HnN. rewrite Hcid2. destruct (decide (n = i)) as [->|?]; [done|].
    destruct (hi_assigned _ _ _ _ _ Hh n) as (c & Hc & ?); [lia|lia|].
    exists c. split; [by apply Hold|done].
  - intros x y c. rewrite !Hcid2. intros Hx Hy Hc.
    destruct (Hback x c Hx Hc) as [Hx'|[-> Honly]].
    + destruct (Hback y c Hy Hc) as [Hy'|[-> Honly]].
      * by apply (hi_conn _ _ _ _ _ Hh x y c).
      * by rewrite (Honly x Hx).
    + by rewrite (Honly y Hy).
  - intros i' j [[Hi' Hj]|[_ []%elem_of_nil]] Hcl. rewrite !Hcid2.
    destruct (hi_found _ _ _ _ _ Hh i' j Hi' Hj Hcl) as (c & Hc & Hci' & Hcj).
    exists c. split_and!; [done|by apply Hold..].
  - intros HK n b' Hn. rewrite rd_insert_ne by lia. intros Hb'.
    destruct (relabel_rd _ _ _ _ _ Hrel Hb') as (b & Hb & ->).
    by apply (hi_done _ _ _ _ _ Hh HK n b).
  - intros b'. rewrite rd_insert_eq by done. by intros [= <-].
Qed.

End BeginBird.

Section Aggregate.
Context {F : Type} `{FloatOps F}.
Implicit Types (a : Accel F) (p : Params F) (st : NbrState F)
  (b : Bird F) (bs : list (Bird F)).

Lemma retained_lookup st (k : nat) d j :
  retained st !! k = Some (d, j) →
  rd (sort_j_nbr st) (Z.of_nat k) = Some j ∧ Z.of_nat k < sort_num st.
Proof.
  unfold retained. intros (x & y & [= <- <-] & Hx & Hy)%lookup_zip_with_Some.
  apply lookup_take_Some in Hy as [Hy Hk]. rewrite rd_nat. split; [done|lia].
Qed.

Lemma gather_snoc (f : Bird F → Vec3F F) bs l x b :
  rd bs x.2 = Some b → gather f bs (l ++ [x]) = gather f bs l ++ [f b].
Proof. intros Hx. unfold gather. rewrite omap_app. simpl. by rewrite Hx. Qed.

Lemma length_gather (f : Bird F → Vec3F F) bs l :
  (∀ x, x ∈ l → is_Some (rd bs x.2)) → length (gather f bs l) = length l.
Proof.
  induction l as [|x l IH]; intros Hv; [done|]. unfold gather in *. simpl.
  destruct (Hv x) as [b ->]; [apply elem_of_cons; by left|]. simpl. f_equal.
  apply IH. intros y Hy. apply Hv, elem_of_cons. by right.
Qed.

Lemma elem_of_qual_list a p bs i l d j :
  (d, j) ∈ qual_list a p bs i l →
  j ∈ l ∧ ∃ bi bj, rd bs i = Some bi ∧ rd bs j = Some bj ∧
                  d = dist_sq (pos bi) (pos bj) ∧ qualifies a p bi bj = true.
Proof.
  unfold qual_list. intros (j' & Hin & Hj')%list_elem_of_bind.
  destruct (rd bs i) as [bi|]; [|by apply elem_of_nil in Hin].
  destruct (rd bs j') as [bj|] eqn:Hbj; [|by apply elem_of_nil in Hin].
  destruct (qualifies a p bi bj) eqn:Hq; [|by apply elem_of_nil in Hin].
  apply list_elem_of_singleton in Hin. injection Hin as -> ->.
  split; [done|]. by exists bi, bj.
Qed.

Lemma set_ave_id b : set_ave (ave_pos b) (ave_vel b) b = b.
Proof. by destruct b. Qed.

(** One iteration of the summing loop. *)
Lemma accumulate_inv bs i bi R st k st' :
  retained st = R → rd (birds st) i = Some bi →
  (∀ n b, rd bs n = Some b → ∃ b', rd (birds st) n = Some b' ∧ same_static b b') →
  (∀ x, x ∈ R → is_Some (rd bs x.2)) →
  0 ≤ k < sort_num st → sort_num st = Z.of_nat (length R) →
  accum_inv bs i bi R st k st' →
  ∃ st'', accumulate i st' k = Some st'' ∧ accum_inv bs i bi R st (k + 1) st''.
Proof.
  intros HR Hbi Hstatic Hvalid Hk Hnum (Hlen & Hother & Hi & Hca & Hmax & Hd & Hj & Hn).
  destruct (lookup_lt_is_Some_2 R (Z.to_nat k)) as [[d jk] Hx]; [lia|].
  pose proof Hx as Hx'. rewrite <- HR in Hx'. apply retained_lookup in Hx' as [Hjk _].
  rewrite Z2Nat.id in Hjk by lia.
  destruct (Hvalid (d, jk)) as [bj0 Hbj0]; [by eapply list_elem_of_lookup_2|]. simpl in Hbj0.
  destruct (Hstatic jk bj0 Hbj0) as (bj & Hbj & Hp & Hv).
  assert (∃ bj', rd (birds st') jk = Some bj' ∧ pos bj' = pos bj0 ∧ vel bj' = vel bj0)
    as (bj' & Hbj' & Hp' & Hv').
  { destruct (decide (jk = i)) as [->|Hne].
    - eexists; split; [exact Hi|]. simpl.
      rewrite Hbi in Hbj. by injection Hbj as <-.
    - exists bj. by rewrite Hother. }
  unfold accumulate. rewrite Hj, Hjk. simpl. rewrite Hbj'. simpl.
  rewrite (upd_bird_spec _ _ _ _ Hi). simpl.
  eexists; split; [done|]. unfold accum_inv. simpl.
  pose proof (rd_range _ _ _ Hi) as Hir.
  split_and!; try done.
  - by rewrite length_insert.
  - intros n Hn'. rewrite rd_insert_ne by lia. by apply Hother.
  - rewrite rd_insert_eq by done. f_equal.
    replace (Z.to_nat (k + 1)) with (S (Z.to_nat k)) by lia.
    rewrite (take_S_r _ _ _ Hx).
    rewrite (gather_snoc pos bs _ (d, jk) bj0 Hbj0), (gather_snoc vel bs _ (d, jk) bj0 Hbj0).
    rewrite !foldl_app. simpl. by rewrite Hp', Hv'.
Qed.

End Aggregate.

Section AggregateHead.
Context {F : Type} `{FloatOps F}.
Implicit Types (a : Accel F) (p : Params F) (st : NbrState F)
  (b : Bird F) (bs : list (Bird F)).

Lemma nbr_list_valid a p bs i x :
  (∀ j, j ∈ cand_list a bs i → is_Some (rd bs j)) →
  x ∈ nbr_list a p bs i → x.2 ∈ cand_list a bs i ∧ is_Some (rd bs x.2).
Proof.
  intros Hv Hx. unfold nbr_list in Hx. apply subseteq_take in Hx.
  rewrite isort_perm in Hx. destruct x as [d j].
  apply elem_of_qual_list in Hx as [Hj _]. split; [done|by apply Hv].
Qed.

Lemma mean_vec_sum (vs : list (Vec3F F)) (num : Z) :
  num = Z.of_nat (length vs) →
  (if num >? 0
   then vscale (foldl vadd vzero vs) (fdiv (f_of_int 1) (f_of_int num))
   else foldl vadd vzero vs) = mean_vec vs.
Proof.
  intros ->. unfold mean_vec. destruct vs as [|v vs]; [done|].
  rewrite decide_False by done.
  by rewrite (proj2 (Z.gtb_gt (Z.of_nat (length (v :: vs))) 0)) by (simpl; lia).
Qed.

(** Lines 1184-1195 return, and leave the state ready for the next bird. *)
Lemma aggregate_head a p bs i st bi0 :
  rd bs i = Some bi0 →
  (∀ j, j ∈ cand_list a bs i → is_Some (rd bs j)) →
  walk_inv a p bs i (cand_list a bs i) st →
  ∃ st', aggregate i st = Some st' ∧ head_inv a p bs (i + 1) st'.
Proof.
  intros Hi0 Hvalid Hw.
  destruct (wi_static _ _ _ _ _ _ Hw i bi0 Hi0) as (bi & Hi & Hpi & Hvi).
  destruct (wi_cleared _ _ _ _ _ _ Hw bi Hi) as [Hap Hav].
  destruct (wi_arrays _ _ _ _ _ _ Hw) as [Hld Hlj].
  destruct (wi_num _ _ _ _ _ _ Hw) as [Hnum Hneg].
  pose proof (rd_range _ _ _ Hi) as Hir.
  set (R := retained st).
  set (num := sort_num st) in *.
  assert (0 ≤ neighbors p → R = nbr_list a p bs i ∧ num = Z.of_nat (length R)) as HR.
  { intros HK. apply (wi_retained _ _ _ _ _ _ Hw HK). }
  (* the summing loop *)
  assert (∃ st1, for_each (accumulate i) (seqZ 0 num) st = Some st1 ∧
                 accum_inv bs i bi R st (Z.max 0 num) st1 ∧
                 (0 ≤ neighbors p → 0 ≤ num)) as (st1 & Hrun1 & Hacc & Hnum0).
  { assert (accum_inv bs i bi R st 0 st) as H0.
    { unfold accum_inv. split_and!; try done.
      replace (foldl vadd vzero (gather pos bs (take (Z.to_nat 0) R)))
        with (ave_pos bi) by (by rewrite Hap).
      replace (foldl vadd vzero (gather vel bs (take (Z.to_nat 0) R)))
        with (ave_vel bi) by (by rewrite Hav).
      by rewrite set_ave_id. }
    destruct (decide (0 ≤ neighbors p)) as [HK|HK].
    - destruct (HR HK) as [HRn Hlen].
      destruct (for_each_seqZ (accum_inv bs i bi R st) (accumulate i) 0 num st)
        as (st1 & Hrun & Hinv); [lia|done| |].
      + intros k s Hk. apply accumulate_inv; try done; try lia.
        * apply (wi_static _ _ _ _ _ _ Hw).
        * intros x Hx. rewrite HRn in Hx. by apply (nbr_list_valid a p bs i x Hvalid).
      + exists st1. rewrite Z.add_0_l in Hinv. rewrite Z.max_r by lia.
        split_and!; [done|done|lia].
    - exists st. rewrite seqZ_nil by lia. rewrite Z.max_l by lia. split_and!; [done..|lia]. }
  unfold aggregate. fold num. rewrite Hrun1. simpl.
  destruct Hacc as (Hlen1 & Hother1 & Hi1 & Hca1 & Hmax1 & Hd1 & Hj1 & Hn1).
  destruct (rd_is_Some (sort_j_nbr st1) 0) as [j0 Hj0]; [rewrite Hj1; lia|].
  rewrite Hj0. simpl. rewrite (upd_bird_spec _ _ _ _ Hi1). simpl.
  set (Sp := foldl vadd vzero (gather pos bs (take (Z.to_nat (Z.max 0 num)) R))) in *.
  set (Sv := foldl vadd vzero (gather vel bs (take (Z.to_nat (Z.max 0 num)) R))) in *.
  rewrite Hn1. fold num.
  set (w := fdiv (f_of_int 1) (f_of_int num)).
  set (bfin := set_ave (if num >? 0 then vscale Sp w else Sp)
                       (if num >? 0 then vscale Sv w else Sv)
                       (set_near j0 num bi)).
  assert (∃ st', (if num >? 0
                  then upd_bird (λ b, set_ave (vscale (ave_pos b) w) (vscale (ave_vel b) w) b) i
                         (set_birds (<[Z.to_nat i := set_near j0 num (set_ave Sp Sv bi)]> (birds st1)) st1)
                  else Some (set_birds (<[Z.to_nat i := set_near j0 num (set_ave Sp Sv bi)]> (birds st1)) st1))
                 = Some st' ∧
                 birds st' = <[Z.to_nat i := bfin]> (birds st1) ∧
                 cluster_assignment st' = cluster_assignment st ∧
                 max_cluster_id st' = max_cluster_id st ∧
                 sort_d_nbr st' = sort_d_nbr st ∧ sort_j_nbr st' = sort_j_nbr st)
    as (st' & -> & Hb' & Hca' & Hmax' & Hd' & Hj').
  { unfold bfin. destruct (num >? 0).
    - erewrite upd_bird_spec; [|simpl; apply rd_insert_eq; lia].
      eexists; split; [done|]. simpl. rewrite list_insert_insert_eq. done.
    - eexists; split; [done|]. done. }
  exists st'. split; [done|].
  assert (∀ n, n ≠ i → rd (birds st') n = rd (birds st) n) as Hother'.
  { intros n Hn. rewrite Hb', rd_insert_ne by lia. by apply Hother1. }
  assert (rd (birds st') i = Some bfin) as Hi'.
  { rewrite Hb'. apply rd_insert_eq. lia. }
  assert (∀ n, cid_of (birds st') n = cid_of (birds st) n) as Hcid.
  { intros n. unfold cid_of. destruct (decide (n = i)) as [->|Hne].
    - by rewrite Hi', Hi.
    - by rewrite Hother'. }
  split.
  - intros n b Hn. destruct (wi_static _ _ _ _ _ _ Hw n b Hn) as (b1 & Hb1 & Hs).
    destruct (decide (n = i)) as [->|Hne].
    + exists bfin. split; [done|]. rewrite Hi in Hb1. injection Hb1 as <-. done.
    + exists b1. by rewrite Hother'.
  - rewrite Hb', length_insert, Hlen1. apply (wi_len _ _ _ _ _ _ Hw).
  - split; congruence.
  - apply (cluster_inv_frame st); [apply (wi_cluster _ _ _ _ _ _ Hw)|done..].
  - rewrite Hca'. apply (wi_ca_len _ _ _ _ _ _ Hw).
  - intros n Hn HnN. rewrite Hcid. apply (wi_assigned _ _ _ _ _ _ Hw); lia.
  - intros x y c. rewrite !Hcid. apply (wi_conn _ _ _ _ _ _ Hw).
  - intros i' j Hr' Hj Hcl. rewrite !Hcid. apply (wi_found _ _ _ _ _ _ Hw); [|done].
    destruct (decide (i' = i)) as [->|?]; [by right|left; split; [lia|done]].
  - intros HK n b Hn Hb. destruct (decide (n = i)) as [->|Hne].
    + rewrite Hi' in Hb. injection Hb as <-.
      destruct (HR HK) as [HRn HRl]. specialize (Hnum0 HK).
      assert (take (Z.to_nat (Z.max 0 num)) R = R) as Htake.
      { apply take_ge. lia. }
      assert (Sp = foldl vadd vzero (gather pos bs R)) as HSp
        by (unfold Sp; by rewrite Htake).
      assert (Sv = foldl vadd vzero (gather vel bs R)) as HSv
        by (unfold Sv; by rewrite Htake).
      assert (∀ f : Bird F → Vec3F F, num = Z.of_nat (length (gather f bs R))) as Hlg.
      { intros f. rewrite length_gather; [done|].
        intros x Hx. rewrite HRn in Hx. by apply (nbr_list_valid a p bs i x Hvalid). }
      unfold aggregated. rewrite <- HRn. unfold bfin. simpl. rewrite HSp, HSv.
      split_and!; [done|by apply mean_vec_sum..].
    + rewrite Hother' in Hb by done. apply (wi_done _ _ _ _ _ _ Hw HK n b); [lia|done].
Qed.

End AggregateHead.

(** * The neighbour search as a whole *)

Section FindNeighbors.
Context {F : Type} `{FloatOps F}.
Implicit Types (a : Accel F) (p : Params F) (st : NbrState F)
  (b : Bird F) (bs : list (Bird F)).

Lemma cand_list_valid a bs i j :
  j ∈ cand_list a bs i → i ≠ j ∧ is_Some (rd bs j) ∧
  ∃ bi, rd bs i = Some bi ∧ cell_of a bi ≠ GRID_UNDEF.
Proof.
  unfold cand_list. destruct (rd bs i) as [bi|]; [|by intros ?%elem_of_nil].
  destruct (decide (cell_of a bi = GRID_UNDEF)); [by intros ?%elem_of_nil|].
  intros (Hne & w & _ & Hw)%elem_of_window_members. split_and!; [done| |by exists bi].
  apply rd_range in Hw. apply rd_is_Some. unfold cells in Hw.
  by rewrite length_fmap in Hw.
Qed.

Lemma find_bird_head a p bs g i st :
  accel_wf a → bucketed (cells a bs) (gridTotal a) g →
  numPoints bs ≤ INT_MAX → neighbors p ≤ 15 →
  0 ≤ i < numPoints bs → head_inv a p bs i st →
  ∃ st', find_bird a p g (numPoints bs) (rd2_of a) (nadj_of a) st i = Some st' ∧
         head_inv a p bs (i + 1) st'.
Proof.
  intros Hwf Hb HN HK Hi Hh.
  destruct (rd_is_Some bs i) as [bi0 Hi0]; [done|].
  destruct (hi_static _ _ _ _ _ Hh i bi0 Hi0) as (bi & Hbi & Hp & Hv).
  unfold find_bird. rewrite Hbi. simpl. rewrite Hp, Hv.
  destruct (begin_bird_walk a p bs i st bi0 HN Hi0 Hh) as (st3 & -> & Hw3). simpl.
  rewrite (scan_window_candidates a p g _ _ i _ _ st3 (cand_list a bs i)).
  2:{ rewrite (candidates_spec a bs g i bi0 Hwf Hb HN Hi0). unfold cand_list.
      by rewrite Hi0. }
  destruct (for_each_prefix (walk_inv a p bs i)
              (visit p (rd2_of a) i (pos bi0) (normalize (vel bi0)))
              (cand_list a bs i) st3 Hw3) as (st4 & -> & Hw4).
  { intros pre j s (Hne & [bj0 Hj0] & _)%cand_list_valid Hs.
    by apply (visit_walk a p bs i pre j s bi0 bj0). }
  simpl. apply (aggregate_head a p bs i st4 bi0); [done| |done].
  intros j Hj. by apply cand_list_valid in Hj as (_ & ? & _).
Qed.

(** The first [m] iterations of the loop over the birds return, and leave
    the invariant for bird [m]. *)
Lemma run_birds_head a p bs g junk_d junk_j m :
  accel_wf a → bucketed (cells a bs) (gridTotal a) g →
  numPoints bs ≤ INT_MAX → neighbors p ≤ 15 →
  length junk_d = 16%nat → length junk_j = 16%nat →
  0 ≤ m ≤ numPoints bs →
  ∃ st0 st, init_state bs junk_d junk_j = Some st0 ∧
    for_each (find_bird a p g (numPoints bs) (rd2_of a) (nadj_of a)) (seqZ 0 m) st0
      = Some st ∧
    head_inv a p bs m st.
Proof.
  intros Hwf Hb HN HK Hld Hlj Hm. unfold init_state.
  destruct (wr_is_Some junk_d 0 (f_of_int 100000)) as [sd Hsd]; [lia|].
  destruct (wr_is_Some junk_j 0 (-1)) as [sj Hsj]; [lia|].
  rewrite Hsd, Hsj. simpl.
  destruct (for_each_seqZ (head_inv a p bs)
              (find_bird a p g (numPoints bs) (rd2_of a) (nadj_of a)) 0 m
              (mkNbr (set_cluster_id (-1) <$> bs) (-1) [] sd sj 0))
    as (st & Hrun & Hinv).
  - lia.
  - assert (∀ n c, cid_of (set_cluster_id (-1) <$> bs) n = Some c → c = -1) as Hcid.
    { intros n c (b & [_ Hbn]%rd_Some & <-)%cid_of_Some.
      rewrite list_lookup_fmap in Hbn. by destruct (bs !! Z.to_nat n); simplify_eq/=. }
    split; simpl.
    + intros n b [? Hn]%rd_Some. exists (set_cluster_id (-1) b). split; [|done].
      apply rd_Some. split; [done|]. by rewrite list_lookup_fmap, Hn.
    + apply length_fmap.
    + by rewrite (wr_length _ _ _ _ Hsd), (wr_length _ _ _ _ Hsj).
    + split; simpl; [done| |].
      * intros n c Hn. left. by eapply Hcid.
      * intros c ms [_ Hc]%rd_Some. by rewrite lookup_nil in Hc.
    + lia.
    + intros n Hn. lia.
    + intros x y c Hx _ Hc. by apply Hcid in Hx.
    + intros i' j Hi'. lia.
    + intros _ n b Hn. lia.
  - intros k s Hk. apply find_bird_head; try done; lia.
  - eexists _, st. rewrite Z.add_0_l in Hinv. done.
Qed.

(** [FindNeighbors] returns, and its final state satisfies the invariant
    for all the birds. *)
Lemma FindNeighbors_head a p bs g junk_d junk_j :
  accel_wf a → bucketed (cells a bs) (gridTotal a) g →
  numPoints bs ≤ INT_MAX → neighbors p ≤ 15 →
  length junk_d = 16%nat → length junk_j = 16%nat →
  ∃ st, FindNeighbors a p g bs junk_d junk_j = Some st ∧
        head_inv a p bs (numPoints bs) st.
Proof.
  intros Hwf Hb HN HK Hld Hlj.
  destruct (run_birds_head a p bs g junk_d junk_j (numPoints bs) Hwf Hb HN HK Hld Hlj)
    as (st0 & st & Hinit & Hrun & Hinv); [unfold numPoints; lia|].
  exists st. split; [|done]. unfold FindNeighbors. rewrite Hinit. simpl. exact Hrun.
Qed.

(** The whole step: grid, buckets and neighbour search. *)
Lemma neighbor_pass_head a p bs old junk_d junk_j :
  accel_wf a → coords_defined a bs → numPoints bs ≤ INT_MAX →
  length old = length bs → neighbors p ≤ 15 →
  length junk_d = 16%nat → length junk_j = 16%nat →
  ∃ g st, neighbor_pass a p bs old junk_d junk_j = Some (g, st) ∧
          bucketed (cells a bs) (gridTotal a) g ∧
          head_inv a p bs (numPoints bs) st.
Proof.
  intros Hwf Hdef HN Hold HK Hld Hlj.
  destruct (grid_pass_bucketed a bs old Hwf Hdef HN Hold) as (g & Hg & Hb).
  destruct (FindNeighbors_head a p bs g junk_d junk_j Hwf Hb HN HK Hld Hlj)
    as (st & Hst & Hh).
  exists g, st. unfold neighbor_pass. rewrite Hg. simpl. rewrite Hst. done.
Qed.

End FindNeighbors.

(** * The cluster lists partition the flock *)

Lemma NoDup_concat {A} (ls : list (list A)) :
  (∀ l, l ∈ ls → NoDup l) →
  (∀ i j l1 l2 x, ls !! i = Some l1 → ls !! j = Some l2 → x ∈ l1 → x ∈ l2 → i = j) →
  NoDup (concat ls).
Proof.
  induction ls as [|l ls IH]; intros Hnd Hdis; simpl; [constructor|].
  apply NoDup_app. split_and!.
  - apply Hnd. left.
  - intros x Hx (l' & Hxl' & [j Hj]%list_elem_of_lookup)%elem_of_concat.
    by specialize (Hdis 0%nat (S j) l l' x eq_refl Hj Hx Hxl').
  - apply IH.
    + intros l' Hl'. apply Hnd. by right.
    + intros i j l1 l2 x Hi Hj H1 H2.
      by injection (Hdis (S i) (S j) l1 l2 x Hi Hj H1 H2).
Qed.

Section Partition.
Context {F : Type} `{FloatOps F}.
Implicit Types (a : Accel F) (bs : list (Bird F)) (st : NbrState F).

Lemma rd_of_lookup {A} (l : list A) k x : l !! k = Some x → rd l (Z.of_nat k) = Some x.
Proof. intros Hk. apply rd_Some. split; [lia|]. by rewrite Nat2Z.id. Qed.

(** The entries of the cluster lists are the assigned birds, once each. *)
Lemma cluster_inv_partition st :
  cluster_inv st →
  NoDup (concat (cluster_assignment st)) ∧
  ∀ x, x ∈ concat (cluster_assignment st) ↔
       ∃ c, cid_of (birds st) x = Some c ∧ c ≠ -1.
Proof.
  intros Hinv. split.
  - apply NoDup_concat.
    + intros l [k Hk%rd_of_lookup]%list_elem_of_lookup.
      apply (ci_mem st Hinv _ l Hk).
    + intros i j l1 l2 x Hi%rd_of_lookup Hj%rd_of_lookup H1 H2.
      apply (ci_mem st Hinv _ _ Hi) in H1. apply (ci_mem st Hinv _ _ Hj) in H2.
      rewrite H1 in H2. injection H2. lia.
  - intros x. rewrite elem_of_concat. split.
    + intros (l & Hx & [k Hk]%list_elem_of_lookup).
      pose proof (rd_of_lookup _ _ _ Hk) as Hrd.
      exists (Z.of_nat k). split; [by apply (ci_mem st Hinv _ _ Hrd)|lia].
    + intros (c & Hc & Hne). destruct (ci_ids st Hinv x c Hc) as [|Hr]; [done|].
      destruct (rd_is_Some (cluster_assignment st) c) as [ms Hms]; [lia|].
      exists ms. split; [by apply (ci_mem st Hinv c ms Hms)|].
      apply rd_Some in Hms as [_ Hms]. by eapply list_elem_of_lookup_2.
Qed.

(** A merge returns, keeps the tables consistent, and keeps the entries of
    the lists. *)
Lemma merge_clusters_partition st i j bi bj :
  cluster_inv st → rd (birds st) i = Some bi → rd (birds st) j = Some bj →
  cluster_id bi ≠ -1 → cluster_id bj ≠ -1 →
  ∃ st', merge_clusters i j st = Some st' ∧ cluster_inv st' ∧
         length (birds st') = length (birds st) ∧
         concat (cluster_assignment st') ≡ₚ concat (cluster_assignment st).
Proof.
  intros Hinv Hi Hj Hci Hcj.
  assert (cid_of (birds st) i = Some (cluster_id bi)) as Hidi
    by (apply cid_of_Some; by exists bi).
  assert (cid_of (birds st) j = Some (cluster_id bj)) as Hidj
    by (apply cid_of_Some; by exists bj).
  destruct (ci_ids st Hinv _ _ Hidi) as [|Hri]; [done|].
  destruct (ci_ids st Hinv _ _ Hidj) as [|Hrj]; [done|].
  destruct (rd_is_Some (cluster_assignment st) (cluster_id bi)) as [mt Hmt]; [lia|].
  destruct (rd_is_Some (cluster_assignment st) (cluster_id bj)) as [mf Hmf]; [lia|].
  pose proof (merge_clusters_effect i j st bi bj mt mf Hi Hj Hmf Hmt
                (proj2 (ci_mem st Hinv _ _ Hmf))) as Heff.
  destruct (Z.eqb_spec (cluster_id bj) (cluster_id bi)) as [Heq|Hne]; simpl in Heff.
  { exists st. done. }
  destruct Heff as (st' & Hrun & Hrel & Hca & Hmax & _).
  pose proof (merge_clusters_inv st st' _ _ mt mf Hinv Hne Hmf Hmt Hrel Hca Hmax) as Hinv'.
  exists st'. split_and!; [done|done|by apply relabel_length in Hrel|].
  destruct (cluster_inv_partition st Hinv) as [Hnd Hel].
  destruct (cluster_inv_partition st' Hinv') as [Hnd' Hel'].
  apply NoDup_Permutation; [done|done|]. intros x. rewrite Hel, Hel'.
  setoid_rewrite (relabel_cid _ _ _ x Hrel).
  destruct (cid_of (birds st) x) as [c|]; simpl.
  - split; intros (c' & [= <-] & Hc').
    + exists c. split; [done|]. intros ->. by destruct (Z.eqb_spec (-1) (cluster_id bj)).
    + eexists. split; [done|]. by destruct (Z.eqb_spec c (cluster_id bj)).
  - split; by intros (? & ? & _).
Qed.

(** C3. When the neighbour search has run, every bird has exactly one
    cluster id, which is not the unassigned sentinel; the cluster lists
    together hold every bird index exactly once, each in the list of its
    id; and merging the clusters of two birds returns and keeps this: the
    tables stay consistent with the ids and the lists keep their
    entries. *)
Theorem clusters_partition a p bs old junk_d junk_j :
  accel_wf a → coords_defined a bs → numPoints bs ≤ INT_MAX →
  length old = length bs → neighbors p ≤ 15 →
  length junk_d = 16%nat → length junk_j = 16%nat →
  ∃ g st, neighbor_pass a p bs old junk_d junk_j = Some (g, st) ∧
    cluster_inv st ∧
    (∀ n, 0 ≤ n < numPoints bs →
       ∃ c ms, cid_of (birds st) n = Some c ∧ c ≠ -1 ∧
               rd (cluster_assignment st) c = Some ms ∧ n ∈ ms) ∧
    (∀ c ms n, rd (cluster_assignment st) c = Some ms → n ∈ ms →
               cid_of (birds st) n = Some c) ∧
    concat (cluster_assignment st) ≡ₚ seqZ 0 (numPoints bs) ∧
    (∀ (s : NbrState F) i j bi bj,
       cluster_inv s → rd (birds s) i = Some bi → rd (birds s) j = Some bj →
       cluster_id bi ≠ -1 → cluster_id bj ≠ -1 →
       ∃ s', merge_clusters i j s = Some s' ∧ cluster_inv s' ∧
             length (birds s') = length (birds s) ∧
             concat (cluster_assignment s') ≡ₚ concat (cluster_assignment s)).
Proof.
  intros Hwf Hdef HN Hold HK Hld Hlj.
  destruct (neighbor_pass_head a p bs old junk_d junk_j Hwf Hdef HN Hold HK Hld Hlj)
    as (g & st & Hrun & _ & Hh).
  pose proof (hi_cluster _ _ _ _ _ Hh) as Hinv.
  exists g, st. split_and!; [done|done|..].
  - intros n Hn.
    destruct (hi_assigned _ _ _ _ _ Hh n Hn) as (c & Hc & Hne);
      [unfold numPoints in Hn; lia|].
    destruct (ci_ids st Hinv n c Hc) as [|Hr]; [done|].
    destruct (rd_is_Some (cluster_assignment st) c) as [ms Hms]; [lia|].
    exists c, ms. split_and!; try done. by apply (ci_mem st Hinv c ms Hms).
  - intros c ms n Hms Hn. by apply (ci_mem st Hinv c ms Hms).
  - destruct (cluster_inv_partition st Hinv) as [Hnd Hel].
    apply NoDup_Permutation; [done|apply NoDup_seqZ|]. intros x.
    rewrite Hel, elem_of_seqZ. split.
    + intros (c & (b & Hb%rd_range & _)%cid_of_Some & _).
      rewrite (hi_len _ _ _ _ _ Hh) in Hb. unfold numPoints. lia.
    + intros Hx. apply (hi_assigned _ _ _ _ _ Hh); unfold numPoints in *; lia.
  - intros s i j bi bj. apply merge_clusters_partition.
Qed.

End Partition.

(** * The scanned pairs, by cell coordinates *)

Lemma flat_inj rx rz X Y Z' X' Y' Z'' :
  0 ≤ X < rx → 0 ≤ X' < rx → 0 ≤ Z' < rz → 0 ≤ Z'' < rz →
  (Y * rz + Z') * rx + X = (Y' * rz + Z'') * rx + X' →
  X = X' ∧ Y = Y' ∧ Z' = Z''.
Proof.
  intros HX HX' HZ HZ' Heq.
  destruct (Z.div_mod_unique rx (Y * rz + Z') (Y' * rz + Z'') X X') as [Hq HXX];
    [lia|lia|lia|].
  destruct (Z.div_mod_unique rz Y Y' Z' Z'') as [HY HZZ]; [lia|lia|lia|].
  done.
Qed.

Section WindowPairs.
Context {F : Type} `{FloatOps F}.
Implicit Types (a : Accel F) (bs : list (Bird F)).

Lemma cell_of_in_scan a b gc :
  accel_wf a → cell_coord a (pos b) = Some gc → in_scan a gc = true →
  cell_of a b = (vy gc * vz (gridRes a) + vz gc) * vx (gridRes a) + vx gc ∧
  cell_of a b = flat_index a gc ∧ cell_of a b ≠ GRID_UNDEF.
Proof.
  intros Hwf Hgc Hin. unfold cell_of. rewrite Hgc, Hin.
  pose proof (flat_index_range a gc Hwf Hin) as [Hf Hr].
  pose proof (wf_total_int a Hwf). unfold INT_MAX, GRID_UNDEF in *.
  rewrite u32_small by lia. split_and!; [done|done|lia].
Qed.

Lemma rd_cells_inv a bs n c :
  rd (cells a bs) n = Some c → ∃ b, rd bs n = Some b ∧ cell_of a b = c.
Proof.
  intros [Hn Hl]%rd_Some. unfold cells in Hl. rewrite list_lookup_fmap in Hl.
  destruct (bs !! Z.to_nat n) as [b|] eqn:Hb; [|done]. injection Hl as <-.
  exists b. split; [|done]. by apply rd_Some.
Qed.

(** The scan of bird [i] visits [j] exactly when both have a cell of the
    scan region and the cell of [j] lies in the window of the cell of [i]. *)
Lemma cand_list_window a bs i j :
  accel_wf a → j ∈ cand_list a bs i ↔ window_pair a bs i j.
Proof.
  intros Hwf. pose proof (wf_srch a Hwf) as Hs.
  pose proof (wf_total_int a Hwf) as HT. unfold INT_MAX in HT.
  unfold cand_list, window_pair. split.
  - destruct (rd bs i) as [bi|] eqn:Hi; [|by intros ?%elem_of_nil].
    destruct (decide (cell_of a bi = GRID_UNDEF)) as [|Hci]; [by intros ?%elem_of_nil|].
    intros (Hne & w & Hw & (bj & Hj & Hcj)%rd_cells_inv)%elem_of_window_members.
    split; [done|].
    destruct (cell_of_defined a bi Hwf Hci) as (gi & Hgi & Hini & Hfi & _).
    rewrite Hfi in Hw. pose proof (window_in_grid a gi w Hwf Hini Hw) as Hwr.
    assert (cell_of a bj ≠ GRID_UNDEF) as Hcj' by (unfold GRID_UNDEF; lia).
    destruct (cell_of_defined a bj Hwf Hcj') as (gj & Hgj & Hinj & Hfj & _).
    exists bi, bj, gi, gj. split_and!; try done.
    pose proof (in_scan_bounds a gi Hwf Hini) as (Hxi & Hyi & Hzi).
    pose proof (in_scan_bounds a gj Hwf Hinj) as (Hxj & Hyj & Hzj).
    pose proof (flat_index_range a gi Hwf Hini) as [Hei _].
    pose proof (flat_index_range a gj Hwf Hinj) as [Hej _].
    rewrite Hei in Hw. unfold window_of in Hw. rewrite (wf_adj a Hwf) in Hw.
    apply list_elem_of_fmap in Hw
      as (adj & Hwe & (x & y & z & Hx & Hy & Hz & ->)%elem_of_adj_table).
    rewrite <- Hcj, Hfj, Hej in Hwe.
    set (rx := vx (gridRes a)) in *. set (rz := vz (gridRes a)) in *.
    destruct (flat_inj rx rz (vx gj) (vy gj) (vz gj)
                (vx gi - 1 + x) (vy gi - 1 + y) (vz gi - 1 + z))
      as (Hx' & Hy' & Hz'); [lia|lia|lia|lia|rewrite Hwe; ring|].
    unfold in_window. lia.
  - intros (Hne & bi & bj & gi & gj & Hi & Hj & Hgi & Hgj & Hini & Hinj & Hx & Hy & Hz).
    rewrite Hi.
    destruct (cell_of_in_scan a bi gi Hwf Hgi Hini) as (Hei & _ & Hci).
    destruct (cell_of_in_scan a bj gj Hwf Hgj Hinj) as (Hej & _ & _).
    rewrite decide_False by done.
    apply elem_of_window_members. split; [done|].
    exists (cell_of a bj). split; [|by apply rd_cells].
    unfold window_of. rewrite (wf_adj a Hwf). apply list_elem_of_fmap.
    exists (((vy gj - vy gi + 1) * vz (gridRes a) + (vz gj - vz gi + 1)) * vx (gridRes a)
            + (vx gj - vx gi + 1)).
    split; [rewrite Hei, Hej; ring|].
    apply elem_of_adj_table.
    exists (vx gj - vx gi + 1), (vy gj - vy gi + 1), (vz gj - vz gi + 1).
    split_and!; (lia || reflexivity).
Qed.

End WindowPairs.

(** * The states of the scan of one bird *)

Section ScanStates.
Context {F : Type} `{FloatOps F}.
Implicit Types (a : Accel F) (p : Params F) (bs : list (Bird F)) (st : NbrState F).

(** The scan of bird [i] reaches every prefix of its list of neighbours,
    and the invariant of the scan holds there. *)
Lemma scan_prefix_walk a p bs g junk_d junk_j i pre suf :
  accel_wf a → bucketed (cells a bs) (gridTotal a) g →
  numPoints bs ≤ INT_MAX → neighbors p ≤ 15 →
  length junk_d = 16%nat → length junk_j = 16%nat →
  0 ≤ i < numPoints bs → cand_list a bs i = pre ++ suf →
  ∃ st, scan_prefix a p g bs junk_d junk_j i pre = Some st ∧
        walk_inv a p bs i pre st.
Proof.
  intros Hwf Hb HN HK Hld Hlj Hi Hpre.
  destruct (run_birds_head a p bs g junk_d junk_j i Hwf Hb HN HK Hld Hlj)
    as (st0 & st & Hinit & Hrun & Hh); [lia|].
  destruct (rd_is_Some bs i) as [bi0 Hi0]; [unfold numPoints in Hi; lia|].
  destruct (hi_static _ _ _ _ _ Hh i bi0 Hi0) as (bi & Hbi & Hpos & Hvel).
  destruct (begin_bird_walk a p bs i st bi0 HN Hi0 Hh) as (st3 & Hbeg & Hw).
  unfold scan_prefix. rewrite Hinit. simpl. rewrite Hrun. simpl.
  rewrite Hbi. simpl. rewrite Hbeg. simpl. rewrite Hpos, Hvel.
  apply (for_each_prefix (walk_inv a p bs i)); [done|].
  intros pre' x s Hx Hs.
  assert (x ∈ cand_list a bs i) as Hc by (rewrite Hpre, elem_of_app; by left).
  destruct (cand_list_valid a bs i x Hc) as (Hne & [bx Hbx] & _).
  by apply (visit_walk a p bs i pre' x s bi0 bx).
Qed.

(** Every insertion into the sorted list returns when the list has at most
    15 entries, and leaves at most 15 if [K] is at most 15. *)
Lemma insert_nbr_returns K dsq j st :
  K ≤ 15 →
  length (sort_d_nbr st) = 16%nat → length (sort_j_nbr st) = 16%nat →
  sort_num st ≤ 15 →
  ∃ st', insert_nbr K dsq j st = Some st' ∧
         length (sort_d_nbr st') = 16%nat ∧ length (sort_j_nbr st') = 16%nat ∧
         sort_num st' ≤ 15.
Proof.
  intros HK Hd Hj Hn. destruct (decide (sort_num st < 0)) as [Hneg|Hpos].
  - exists st. split; [apply insert_nbr_negative; [lia|done]|]. split_and!; [done|done|lia].
  - destruct (insert_nbr_spec K dsq j st Hd Hj) as (st' & Hrun & Hd' & Hj' & Hnum & _);
      [lia|].
    exists st'. split_and!; try done. rewrite Hnum.
    destruct (Z.gtb_spec (sort_num st + 1) K); lia.
Qed.

End ScanStates.

(** * The sorted list of neighbours *)

Section SortedList.
Context {F : Type} `{FloatOps F}.
Implicit Types (a : Accel F) (p : Params F) (bs : list (Bird F)) (st : NbrState F).

(** C10. With at most 15 configured neighbours, no read or write of the
    two 16-entry arrays leaves them: the neighbour search returns (an
    access outside of an array makes the embedded program fail), and in
    every state that the scan of a bird reaches the arrays have 16
    entries, [sort_num] is at most 15, and the insertion of any further
    candidate returns with [sort_num] at most 15 again. *)
Theorem sort_arrays_in_bounds a p bs old junk_d junk_j :
  accel_wf a → coords_defined a bs → numPoints bs ≤ INT_MAX →
  length old = length bs → neighbors p ≤ 15 →
  length junk_d = 16%nat → length junk_j = 16%nat →
  ∃ g st, neighbor_pass a p bs old junk_d junk_j = Some (g, st) ∧
    length (sort_d_nbr st) = 16%nat ∧ length (sort_j_nbr st) = 16%nat ∧
    ∀ i pre suf, 0 ≤ i < numPoints bs → cand_list a bs i = pre ++ suf →
      ∃ s, scan_prefix a p g bs junk_d junk_j i pre = Some s ∧
        length (sort_d_nbr s) = 16%nat ∧ length (sort_j_nbr s) = 16%nat ∧
        sort_num s ≤ 15 ∧
        ∀ dsq j, ∃ s', insert_nbr (neighbors p) dsq j s = Some s' ∧
                       length (sort_d_nbr s') = 16%nat ∧
                       length (sort_j_nbr s') = 16%nat ∧ sort_num s' ≤ 15.
Proof.
  intros Hwf Hdef HN Hold HK Hld Hlj.
  destruct (neighbor_pass_head a p bs old junk_d junk_j Hwf Hdef HN Hold HK Hld Hlj)
    as (g & st & Hrun & Hb & Hh).
  destruct (hi_arrays _ _ _ _ _ Hh) as [Hd Hj].
  exists g, st. split_and!; try done. intros i pre suf Hi Hpre.
  destruct (scan_prefix_walk a p bs g junk_d junk_j i pre suf Hwf Hb HN HK Hld Hlj Hi Hpre)
    as (s & Hs & Hw).
  destruct (wi_arrays _ _ _ _ _ _ Hw) as [Hd' Hj'].
  destruct (wi_num _ _ _ _ _ _ Hw) as [Hn _].
  exists s. split_and!; try done. intros dsq j.
  by apply insert_nbr_returns.
Qed.

Context `{!FloatOrder F}.

Lemma qual_list_numbers a p bs i l : Forall is_number (qual_list a p bs i l).
Proof.
  apply Forall_forall. intros [d j] (_ & bi & bj & _ & _ & -> & Hq)%elem_of_qual_list.
  unfold qualifies in Hq. apply andb_true_iff in Hq as [Hq _]. by exists (rd2_of a).
Qed.

Lemma sorted_take {A} (R : A → A → Prop) (l : list A) n :
  StronglySorted R l → StronglySorted R (take n l).
Proof.
  intros Hs. rewrite <- (take_drop n l) in Hs. by apply StronglySorted_app_1_l in Hs.
Qed.

(** The first [K] entries of a sorted list are nearer than every entry
    that is left out, and as many as the list has, up to [K]. *)
Lemma take_sorted_closest (l : list (F * Z)) (K : nat) x y :
  StronglySorted nearer l → x ∈ l → x ∉ take K l → y ∈ take K l → nearer y x.
Proof.
  intros Hs Hx Hnot Hy. rewrite <- (take_drop K l) in Hs, Hx.
  apply elem_of_app in Hx as [Hx|Hx]; [done|].
  by apply (StronglySorted_app_1_elem_of nearer (take K l) (drop K l)).
Qed.

(** C5. The neighbour search returns, and for every bird [i] its run goes
    through the states named here: [sti] before the bird, [st3] after lines
    1077-1100, [st4] at the end of the scan of the adjacency window, which
    is the scan of the candidates one by one, and [st5] after the
    averages; the rest of the loop over the birds leads from [st5] to the
    result.  In every state that the scan reaches, and so in [st4], the
    retained list has [sort_num] entries, never more than [K] and as many
    as candidates have passed the radius test and the field-of-view test
    if these are fewer; it is sorted ascending by squared distance; it
    consists of the first [K] entries of a sorted arrangement of the
    candidates visited so far that passed both tests; and no candidate that
    passed and is left out is nearer than a retained one.  The result keeps
    the length of the list of [st4] as [t_nbrs] of the bird, and the means
    over its entries as [ave_pos] and [ave_vel]. *)
Theorem retained_list_sorted_bounded a p bs old junk_d junk_j :
  accel_wf a → coords_defined a bs → numPoints bs ≤ INT_MAX →
  length old = length bs → 0 ≤ neighbors p ≤ 15 →
  length junk_d = 16%nat → length junk_j = 16%nat →
  ∃ g st, neighbor_pass a p bs old junk_d junk_j = Some (g, st) ∧
    ∀ i, 0 ≤ i < numPoints bs →
      candidates a g (numPoints bs) (nadj_of a) i = Some (cand_list a bs i) ∧
      (∀ pre suf, cand_list a bs i = pre ++ suf →
        ∃ s, scan_prefix a p g bs junk_d junk_j i pre = Some s ∧
          sort_num s = Z.of_nat (length (retained s)) ∧
          0 ≤ sort_num s ≤ neighbors p ∧
          sort_num s = Z.min (neighbors p)
                         (Z.of_nat (length (qual_list a p bs i pre))) ∧
          StronglySorted nearer (retained s) ∧
          (∀ x, x ∈ retained s → flt x.1 (rd2_of a) = true) ∧
          (∃ sorted, sorted ≡ₚ qual_list a p bs i pre ∧
                     StronglySorted nearer sorted ∧
                     retained s = take (Z.to_nat (neighbors p)) sorted) ∧
          (∀ x y, x ∈ qual_list a p bs i pre → x ∉ retained s →
                  y ∈ retained s → nearer y x)) ∧
      ∃ st0 sti bi st3 st4 st5 b,
        init_state bs junk_d junk_j = Some st0 ∧
        for_each (find_bird a p g (numPoints bs) (rd2_of a) (nadj_of a))
          (seqZ 0 i) st0 = Some sti ∧
        rd (birds sti) i = Some bi ∧
        begin_bird i sti = Some st3 ∧
        scan_window a p g (numPoints bs) (rd2_of a) (nadj_of a) i
          (pos bi) (normalize (vel bi)) st3 = Some st4 ∧
        scan_prefix a p g bs junk_d junk_j i (cand_list a bs i) = Some st4 ∧
        aggregate i st4 = Some st5 ∧
        find_bird a p g (numPoints bs) (rd2_of a) (nadj_of a) sti i = Some st5 ∧
        for_each (find_bird a p g (numPoints bs) (rd2_of a) (nadj_of a))
          (seqZ (i + 1) (numPoints bs - (i + 1))) st5 = Some st ∧
        rd (birds st) i = Some b ∧
        t_nbrs b = Z.of_nat (length (retained st4)) ∧
        ave_pos b = mean_vec (gather pos bs (retained st4)) ∧
        ave_vel b = mean_vec (gather vel bs (retained st4)).
Proof.
  intros Hwf Hdef HN Hold [HK0 HK] Hld Hlj.
  destruct (neighbor_pass_head a p bs old junk_d junk_j Hwf Hdef HN Hold HK Hld Hlj)
    as (g & st & Hrun & Hb & Hh).
  assert (FindNeighbors a p g bs junk_d junk_j = Some st) as Hfind.
  { unfold neighbor_pass in Hrun.
    destruct (grid_pass a bs old) as [g0|]; [simpl in Hrun|done].
    destruct (FindNeighbors a p g0 bs junk_d junk_j) as [s|] eqn:E; [|done].
    simpl in Hrun. injection Hrun as -> ->. done. }
  exists g, st. split; [done|]. intros i Hi.
  destruct (rd_is_Some bs i) as [bi0 Hbi0]; [unfold numPoints in Hi; lia|].
  assert (candidates a g (numPoints bs) (nadj_of a) i = Some (cand_list a bs i)) as Hcand.
  { rewrite (candidates_spec a bs g i bi0 Hwf Hb HN Hbi0). unfold cand_list.
    by rewrite Hbi0. }
  split; [done|]. split.
  { intros pre suf Hpre.
    destruct (scan_prefix_walk a p bs g junk_d junk_j i pre suf Hwf Hb HN HK Hld Hlj Hi Hpre)
      as (s & Hs & Hw).
    destruct (wi_retained _ _ _ _ _ _ Hw HK0) as [Hret Hnum].
    pose proof (isort_sorted _ (qual_list_numbers a p bs i pre)) as Hsorted.
    assert (sort_num s = Z.min (neighbors p)
                           (Z.of_nat (length (qual_list a p bs i pre)))) as Hmin.
    { rewrite Hnum, Hret, length_take, (Permutation_length (isort_perm _)). lia. }
    exists s. split_and!; try done.
    - lia.
    - lia.
    - rewrite Hret. by apply sorted_take.
    - intros [d j] Hx. rewrite Hret in Hx. apply subseteq_take in Hx.
      rewrite isort_perm in Hx.
      apply elem_of_qual_list in Hx as (_ & bi & bj & _ & _ & -> & Hq).
      unfold qualifies in Hq. by apply andb_true_iff in Hq as [Hq _].
    - exists (isort (qual_list a p bs i pre)). split_and!; [apply isort_perm|done|done].
    - intros x y Hx Hnot Hy. rewrite Hret in Hnot, Hy.
      apply (take_sorted_closest (isort (qual_list a p bs i pre))
               (Z.to_nat (neighbors p))); try done.
      by rewrite isort_perm. }
  (* the run of the search up to bird [i] and through its scan *)
  destruct (run_birds_head a p bs g junk_d junk_j i Hwf Hb HN HK Hld Hlj)
    as (st0 & sti & Hinit & Hruni & Hhi); [lia|].
  destruct (hi_static _ _ _ _ _ Hhi i bi0 Hbi0) as (bi & Hbi & Hp & Hv).
  destruct (begin_bird_walk a p bs i sti bi0 HN Hbi0 Hhi) as (st3 & Hbeg & Hw3).
  destruct (for_each_prefix (walk_inv a p bs i)
              (visit p (rd2_of a) i (pos bi) (normalize (vel bi)))
              (cand_list a bs i) st3 Hw3) as (st4 & Hscan & Hw4).
  { intros pre j s (Hne & [bj0 Hj0] & _)%cand_list_valid Hs. rewrite Hp, Hv.
    by apply (visit_walk a p bs i pre j s bi0 bj0). }
  destruct (aggregate_head a p bs i st4 bi0) as (st5 & Hagg & Hh5); [done| |done|].
  { intros j Hj. by apply cand_list_valid in Hj as (_ & ? & _). }
  assert (scan_window a p g (numPoints bs) (rd2_of a) (nadj_of a) i
            (pos bi) (normalize (vel bi)) st3 = Some st4) as Hwin.
  { by rewrite (scan_window_candidates a p g _ _ i _ _ st3 (cand_list a bs i)). }
  assert (find_bird a p g (numPoints bs) (rd2_of a) (nadj_of a) sti i = Some st5) as Hfb.
  { unfold find_bird. rewrite Hbi. simpl. rewrite Hbeg. simpl. rewrite Hwin. done. }
  (* the rest of the loop *)
  assert (for_each (find_bird a p g (numPoints bs) (rd2_of a) (nadj_of a))
            (seqZ (i + 1) (numPoints bs - (i + 1))) st5 = Some st) as Hrest.
  { unfold FindNeighbors in Hfind. rewrite Hinit in Hfind. simpl in Hfind.
    change (for_each (find_bird a p g (numPoints bs) (rd2_of a) (nadj_of a))
              (seqZ 0 (numPoints bs)) st0 = Some st) in Hfind.
    replace (numPoints bs) with (i + (1 + (numPoints bs - (i + 1)))) in Hfind at 2 by lia.
    rewrite seqZ_app, for_each_app, Hruni in Hfind by lia. simpl in Hfind.
    rewrite seqZ_app, for_each_app in Hfind by lia.
    replace (seqZ (0 + i) 1) with [i] in Hfind by (unfold seqZ; simpl; f_equal; lia).
    simpl in Hfind. rewrite Hfb in Hfind. simpl in Hfind.
    by replace (0 + i + 1) with (i + 1) in Hfind by lia. }
  (* what the result keeps *)
  destruct (hi_static _ _ _ _ _ Hh i bi0 Hbi0) as (b & Hbfin & _).
  destruct (hi_done _ _ _ _ _ Hh HK0 i b) as (Ht & Hap & Hav); [lia|done|].
  destruct (wi_retained _ _ _ _ _ _ Hw4 HK0) as [Hret4 _].
  fold (nbr_list a p bs i) in Hret4.
  exists st0, sti, bi, st3, st4, st5, b. split_and!; try done.
  - unfold scan_prefix. rewrite Hinit. simpl. rewrite Hruni. simpl.
    rewrite Hbi. simpl. rewrite Hbeg. done.
  - by rewrite Hret4.
  - by rewrite Hret4.
  - by rewrite Hret4.
Qed.

End SortedList.

(** * Averages, components and undefined cells *)

Section Results.
Context {F : Type} `{FloatOps F}.
Implicit Types (a : Accel F) (p : Params F) (bs : list (Bird F)) (st : NbrState F).

(** C8. After the neighbour search, for every bird: the list retained at
    the end of its scan is [nbr_list]; [t_nbrs] is its length; [ave_pos]
    and [ave_vel] are the sums of the positions and of the velocities of
    its birds, times the reciprocal of its length; and when it is empty
    the count is zero and both vectors are exactly zero. *)
Theorem averages_are_means a p bs old junk_d junk_j :
  accel_wf a → coords_defined a bs → numPoints bs ≤ INT_MAX →
  length old = length bs → 0 ≤ neighbors p ≤ 15 →
  length junk_d = 16%nat → length junk_j = 16%nat →
  ∃ g st, neighbor_pass a p bs old junk_d junk_j = Some (g, st) ∧
    ∀ n, 0 ≤ n < numPoints bs →
      let R := nbr_list a p bs n in
      (∃ s, scan_prefix a p g bs junk_d junk_j n (cand_list a bs n) = Some s ∧
            retained s = R) ∧
      length (gather pos bs R) = length R ∧ length (gather vel bs R) = length R ∧
      ∃ b, rd (birds st) n = Some b ∧
        t_nbrs b = Z.of_nat (length R) ∧
        ave_pos b = mean_vec (gather pos bs R) ∧
        ave_vel b = mean_vec (gather vel bs R) ∧
        (R ≠ [] →
           ave_pos b = vscale (foldl vadd vzero (gather pos bs R))
                         (fdiv (f_of_int 1) (f_of_int (Z.of_nat (length R)))) ∧
           ave_vel b = vscale (foldl vadd vzero (gather vel bs R))
                         (fdiv (f_of_int 1) (f_of_int (Z.of_nat (length R))))) ∧
        (R = [] → t_nbrs b = 0 ∧ ave_pos b = vzero ∧ ave_vel b = vzero).
Proof.
  intros Hwf Hdef HN Hold [HK0 HK] Hld Hlj.
  destruct (neighbor_pass_head a p bs old junk_d junk_j Hwf Hdef HN Hold HK Hld Hlj)
    as (g & st & Hrun & Hb & Hh).
  exists g, st. split; [done|]. intros n Hn R.
  assert (∀ x, x ∈ R → is_Some (rd bs x.2)) as Hvalid.
  { intros x Hx. apply (nbr_list_valid a p bs n x); [|done].
    intros j Hj. by destruct (cand_list_valid a bs n j Hj) as (_ & ? & _). }
  pose proof (length_gather pos bs R Hvalid) as Hlp.
  pose proof (length_gather vel bs R Hvalid) as Hlv.
  split_and!; [|done|done|].
  - destruct (scan_prefix_walk a p bs g junk_d junk_j n (cand_list a bs n) []
                Hwf Hb HN HK Hld Hlj Hn) as (s & Hs & Hw); [by rewrite app_nil_r|].
    exists s. split; [done|]. by destruct (wi_retained _ _ _ _ _ _ Hw HK0).
  - destruct (rd_is_Some (birds st) n) as [b Hbn].
    { rewrite (hi_len _ _ _ _ _ Hh). unfold numPoints in Hn. lia. }
    destruct (hi_done _ _ _ _ _ Hh HK0 n b Hn Hbn) as (Ht & Hp & Hv).
    fold R in Ht, Hp, Hv. exists b. split_and!; try done.
    + intros HR. rewrite Hp, Hv. unfold mean_vec.
      rewrite !decide_False, Hlp, Hlv; [done| |].
      * intros Hnil. apply HR, nil_length_inv. by rewrite <- Hlv, Hnil.
      * intros Hnil. apply HR, nil_length_inv. by rewrite <- Hlp, Hnil.
    + intros HR. rewrite Ht, Hp, Hv, HR. done.
Qed.

(** C4, amended. After the neighbour search, two birds that are nearer
    than the clustering threshold have the same cluster id if one is
    visited by the scan of the other, that is, if both have a cell of the
    scan region and the cell of the one lies in the adjacency window of
    the cell of the other; and two birds with the same cluster id are
    joined by a path of birds in which each is nearer to the next, or the
    next to it, than the clustering threshold. *)
Theorem scanned_close_pairs_share_cluster a p bs old junk_d junk_j :
  accel_wf a → coords_defined a bs → numPoints bs ≤ INT_MAX →
  length old = length bs → neighbors p ≤ 15 →
  length junk_d = 16%nat → length junk_j = 16%nat →
  ∃ g st, neighbor_pass a p bs old junk_d junk_j = Some (g, st) ∧
    (∀ i j, window_pair a bs i j → close p bs i j →
       ∃ c, c ≠ -1 ∧ cid_of (birds st) i = Some c ∧ cid_of (birds st) j = Some c) ∧
    (∀ x y c, cid_of (birds st) x = Some c → cid_of (birds st) y = Some c →
       rtsc (close p bs) x y) ∧
    (∀ x y, 0 ≤ x < numPoints bs → 0 ≤ y < numPoints bs →
       ¬ rtsc (close p bs) x y → cid_of (birds st) x ≠ cid_of (birds st) y).
Proof.
  intros Hwf Hdef HN Hold HK Hld Hlj.
  destruct (neighbor_pass_head a p bs old junk_d junk_j Hwf Hdef HN Hold HK Hld Hlj)
    as (g & st & Hrun & Hb & Hh).
  assert (∀ x y c, cid_of (birds st) x = Some c → cid_of (birds st) y = Some c →
            rtsc (close p bs) x y) as Hpath.
  { intros x y c Hx Hy. apply (hi_conn _ _ _ _ _ Hh x y c Hx Hy).
    pose proof Hx as (b & Hbx%rd_range & _)%cid_of_Some.
    rewrite (hi_len _ _ _ _ _ Hh) in Hbx.
    destruct (hi_assigned _ _ _ _ _ Hh x) as (c' & Hc' & Hne); [unfold numPoints; lia|lia|].
    congruence. }
  exists g, st. split_and!; [done| |done|].
  - intros i j Hpair Hclose. apply (cand_list_window a bs i j Hwf) in Hpair.
    destruct (cand_list_valid a bs i j Hpair) as (_ & _ & bi & Hbi%rd_range & _).
    apply (hi_found _ _ _ _ _ Hh i j); [unfold numPoints; lia|done|done].
  - intros x y Hx Hy Hno Heq.
    destruct (hi_assigned _ _ _ _ _ Hh x) as (c & Hc & _);
      [lia|unfold numPoints in Hx; lia|].
    apply Hno, (Hpath x y c); [done|]. by rewrite <- Heq.
Qed.

(** C6. The grid builder returns for every flock whose cell coordinates
    convert to [int].  The coordinate of a bird is the conversion of
    [(pos - gridMin) * gridDelta]; its cell is the flat index when the
    coordinate lies in [1, gridRes - gridSrch] on every axis, and the
    undefined sentinel otherwise.  A bird with the undefined sentinel is in
    the slice of no cell; its own scan visits nobody; and the scan of no
    bird visits it. *)
Theorem undefined_cells_are_skipped a p bs old junk_d junk_j :
  accel_wf a → coords_defined a bs → numPoints bs ≤ INT_MAX →
  length old = length bs → neighbors p ≤ 15 →
  length junk_d = 16%nat → length junk_j = 16%nat →
  ∃ g st, neighbor_pass a p bs old junk_d junk_j = Some (g, st) ∧
    grid_pass a bs old = Some g ∧
    (∀ n b, rd bs n = Some b →
       ∃ x y z,
         f_to_int (vx (vmul (vsub (pos b) (gridMin a)) (gridDelta a))) = Some x ∧
         f_to_int (vy (vmul (vsub (pos b) (gridMin a)) (gridDelta a))) = Some y ∧
         f_to_int (vz (vmul (vsub (pos b) (gridMin a)) (gridDelta a))) = Some z ∧
         rd (pgcell g) n =
           Some (if bool_decide (1 ≤ x ≤ vx (gridRes a) - gridSrch a ∧
                                 1 ≤ y ≤ vy (gridRes a) - gridSrch a ∧
                                 1 ≤ z ≤ vz (gridRes a) - gridSrch a)
                 then (y * vz (gridRes a) + z) * vx (gridRes a) + x
                 else GRID_UNDEF)) ∧
    (∀ n, rd (pgcell g) n = Some GRID_UNDEF →
       (∀ c, 0 ≤ c < gridTotal a → n ∉ bucket g c) ∧
       candidates a g (numPoints bs) (nadj_of a) n = Some [] ∧
       ∀ i l, candidates a g (numPoints bs) (nadj_of a) i = Some l → n ∉ l) ∧
    (∀ i rd2 posi diri s, 0 ≤ i < numPoints bs →
       ∃ l, candidates a g (numPoints bs) (nadj_of a) i = Some l ∧
            scan_window a p g (numPoints bs) rd2 (nadj_of a) i posi diri s =
            for_each (visit p rd2 i posi diri) l s).
Proof.
  intros Hwf Hdef HN Hold HK Hld Hlj.
  destruct (neighbor_pass_head a p bs old junk_d junk_j Hwf Hdef HN Hold HK Hld Hlj)
    as (g & st & Hrun & Hb & Hh).
  pose proof (cnt_cell _ _ _ (bk_counted _ _ _ Hb)) as Hcell.
  pose proof (wf_total_int a Hwf) as HT. unfold INT_MAX in HT.
  assert (grid_pass a bs old = Some g) as Hg.
  { unfold neighbor_pass in Hrun. destruct (grid_pass a bs old) as [g'|]; [|done].
    simpl in Hrun. destruct (FindNeighbors a p g' bs junk_d junk_j); [|done].
    by injection Hrun as -> _. }
  assert (∀ i, 0 ≤ i < numPoints bs →
            candidates a g (numPoints bs) (nadj_of a) i = Some (cand_list a bs i))
    as Hcand.
  { intros i Hi. destruct (rd_is_Some bs i) as [bi Hbi]; [unfold numPoints in Hi; lia|].
    rewrite (candidates_spec a bs g i bi Hwf Hb HN Hbi). unfold cand_list.
    by rewrite Hbi. }
  assert (∀ i l, candidates a g (numPoints bs) (nadj_of a) i = Some l →
            0 ≤ i < numPoints bs) as Hrange.
  { intros i l Hl. unfold candidates, scanned in Hl.
    destruct (rd (pgcell g) i) as [c|] eqn:Hc; [|done].
    apply rd_range in Hc. rewrite Hcell in Hc. unfold cells in Hc.
    rewrite length_fmap in Hc. unfold numPoints. lia. }
  exists g, st. split_and!; [done|done|..].
  - intros n b Hn. rewrite Hcell, (rd_cells a bs n b Hn).
    pose proof (proj1 (Forall_forall _ _) Hdef b) as Hdefb.
    destruct Hdefb as [gc Hgc].
    { apply rd_Some in Hn as [_ Hn]. by eapply list_elem_of_lookup_2. }
    pose proof Hgc as Hgc'. unfold cell_coord in Hgc'.
    destruct (f_to_int (vx _)) as [x|]; [|done].
    destruct (f_to_int (vy _)) as [y|]; [|done].
    destruct (f_to_int (vz _)) as [z|]; [|done].
    simpl in Hgc'. injection Hgc' as <-. exists x, y, z. split_and!; try done.
    f_equal. case_bool_decide as Hin.
    + assert (in_scan a (mkVec3 x y z) = true) as Hscan.
      { unfold in_scan. rewrite (wf_scan a Hwf). simpl.
        repeat (apply andb_true_iff; split); apply Z.leb_le; lia. }
      by destruct (cell_of_in_scan a b _ Hwf Hgc Hscan) as (-> & _).
    + unfold cell_of. rewrite Hgc.
      destruct (in_scan a (mkVec3 x y z)) eqn:Hscan; [|done].
      apply (in_scan_bounds a _ Hwf) in Hscan. simpl in Hscan. done.
  - intros n Hn. pose proof (rd_range _ _ _ Hn) as Hnr.
    rewrite Hcell in Hn. split_and!.
    + intros c Hc. rewrite (bucket_members _ _ _ _ Hb (proj2 (wf_total_int a Hwf)) Hc).
      intros [_ Hm]%elem_of_members_upto. rewrite Hn in Hm.
      injection Hm as <-. unfold GRID_UNDEF in Hc. lia.
    + rewrite Hcand.
      2:{ rewrite Hcell in Hnr. unfold cells in Hnr. rewrite length_fmap in Hnr.
          unfold numPoints. lia. }
      apply rd_cells_inv in Hn as (b & Hbn & Hc). unfold cand_list.
      by rewrite Hbn, decide_True.
    + intros i l Hl Hin. rewrite (Hcand i (Hrange i l Hl)) in Hl. injection Hl as <-.
      apply (cand_list_window a bs i n Hwf) in Hin
        as (_ & bi & bn & gi & gn & _ & Hbn & _ & Hgn & _ & Hscan & _).
      destruct (cell_of_in_scan a bn gn Hwf Hgn Hscan) as (_ & _ & Hne).
      rewrite (rd_cells a bs n bn Hbn) in Hn. by injection Hn.
  - intros i rd2 posi diri s Hi. exists (cand_list a bs i). split; [by apply Hcand|].
    by apply scan_window_candidates, Hcand.
Qed.

End Results.

(** * Positions that are not finite *)

Lemma for_each_None {A St} (f : St → A → option St) l x s :
  x ∈ l → (∀ s, f s x = None) → for_each f l s = None.
Proof.
  intros Hx Hf. revert s. induction l as [|y l IH]; intros s; [by apply elem_of_nil in Hx|].
  simpl. apply elem_of_cons in Hx as [<-|Hx]; [by rewrite Hf|].
  destruct (f s y); [by apply IH|done].
Qed.

Lemma non_finite_sub x y : non_finite x = true → non_finite (SFsub 24 128 x y) = true.
Proof.
  destruct x as [sx|sx| |sx mx ex]; try done; destruct y as [sy|sy| |sy my ey]; try done.
  by destruct sx, sy.
Qed.

Lemma non_finite_mul x y : non_finite x = true → non_finite (SFmul 24 128 x y) = true.
Proof.
  destruct x as [sx|sx| |sx mx ex]; try done; by destruct y as [sy|sy| |sy my ey].
Qed.

Lemma non_finite_to_int x :
  non_finite x = true → f32_to_int x = Some (-2147483648).
Proof. by destruct x. Qed.

Lemma f32_to_int_total x : is_Some (f32_to_int x).
Proof.
  destruct x as [sx|sx| |sx mx ex]; simpl; try done.
  by destruct (_ && _).
Qed.

(** * The division of the flock centres *)

Section FlockCentres.
Context {F : Type} `{FloatOps F}.

Lemma center_step_other hist (fc fc' : list (Vec3F F)) i k :
  k ≠ i → center_step hist fc k = Some fc' → rd fc' i = rd fc i.
Proof.
  intros Hne. unfold center_step.
  destruct (rd fc k) as [x|]; [simpl|done]. destruct (rd hist k) as [h|]; [simpl|done].
  intros Hw. by apply (rd_wr_ne _ _ _ _ _ Hw).
Qed.

Lemma center_steps_other hist (fc fc' : list (Vec3F F)) i l :
  i ∉ l → for_each (center_step hist) l fc = Some fc' → rd fc' i = rd fc i.
Proof.
  intros Hi. apply (for_each_inv (λ s, rd s i = rd fc i)); [|done].
  intros s x s' Hx Hs Hstep. rewrite <- Hs.
  apply (center_step_other hist s s' i x); [|done]. by intros ->.
Qed.

(** Line 1475 divides every slot below [MAX_FLOCKS] by the count of the
    histogram entry of that rank, whatever the count is. *)
Lemma center_steps_divide hist (fc fc' : list (Vec3F F)) i h n :
  rd hist i = Some h → 0 ≤ i < n →
  for_each (center_step hist) (seqZ 0 n) fc = Some fc' →
  ∃ x, rd fc i = Some x ∧ rd fc' i = Some (vdiv x (f_of_int (bird_cnt h))).
Proof.
  intros Hh Hi. replace n with (i + (n - i)) by lia.
  rewrite seqZ_app, (seqZ_cons (0 + i)), for_each_app by lia. simpl.
  destruct (for_each (center_step hist) (seqZ 0 i) fc) as [fc1|] eqn:H1; [simpl|done].
  destruct (center_step hist fc1 (0 + i)) as [fc2|] eqn:H2; [|done]. intros H3.
  apply center_steps_other with (i := i) in H1; [|rewrite elem_of_seqZ; lia].
  apply center_steps_other with (i := i) in H3; [|rewrite elem_of_seqZ; lia].
  rewrite Z.add_0_l in H2. unfold center_step in H2. rewrite H1, Hh in H2.
  destruct (rd fc i) as [x|]; [simpl in H2|done].
  exists x. split; [done|]. rewrite H3. by apply (rd_wr_eq _ _ _ _ H2).
Qed.

Lemma UpdateFlockData_divides MAX_FLOCKS g (bs : list (Bird F)) hist order i h c fc :
  rd hist i = Some h → 0 ≤ i < MAX_FLOCKS →
  UpdateFlockData MAX_FLOCKS g bs hist order = Some (c, fc) →
  ∃ x, rd fc i = Some (vdiv x (f_of_int (bird_cnt h))).
Proof.
  intros Hh Hi. unfold UpdateFlockData.
  destruct (for_each _ _ _) as [[c0 fc0]|]; [simpl|done].
  destruct (for_each (center_step hist) _ fc0) as [fc1|] eqn:Hdiv; [simpl|done].
  intros [= _ <-].
  destruct (center_steps_divide hist fc0 fc1 i h MAX_FLOCKS Hh Hi Hdiv) as (x & _ & Hx).
  by exists x.
Qed.

End FlockCentres.

(** * The small flock *)

Ltac demo_side :=
  first [ exact demo_accel_wf | exact demo_coords_defined | reflexivity
        | unfold numPoints, INT_MAX; simpl; lia ].

Lemma clusters_partition_witness :
  ∃ g st, neighbor_pass demo_accel demo_params demo_birds demo_old demo_junk_d demo_junk_j
            = Some (g, st) ∧
    cluster_inv st ∧
    concat (cluster_assignment st) ≡ₚ seqZ 0 (numPoints demo_birds).
Proof.
  destruct (clusters_partition demo_accel demo_params demo_birds demo_old
              demo_junk_d demo_junk_j)
    as (g & st & Hrun & Hinv & _ & _ & Hperm & _); [demo_side..|].
  exists g, st. split_and!; assumption.
Defined.

(** Birds 3 and 4 are 1 apart, below the threshold of 3, and end in the
    clusters 2 and 3: both lie in a border cell, outside of the scan
    region, so neither is visited by a scan. *)
Lemma close_birds_in_distinct_clusters :
  ∃ g st, neighbor_pass demo_accel demo_params demo_birds demo_old demo_junk_d demo_junk_j
            = Some (g, st) ∧
    close demo_params demo_birds 3 4 ∧ close demo_params demo_birds 4 3 ∧
    cid_of (birds st) 3 = Some 2 ∧ cid_of (birds st) 4 = Some 3.
Proof.
  eexists _, _. split; [vm_compute; reflexivity|].
  split; [eexists; split; [vm_compute; reflexivity|vm_compute; reflexivity]|].
  split; [eexists; split; [vm_compute; reflexivity|vm_compute; reflexivity]|].
  split; vm_compute; reflexivity.
Qed.

Lemma scanned_close_pairs_share_cluster_witness :
  ∃ g st, neighbor_pass demo_accel demo_params demo_birds demo_old demo_junk_d demo_junk_j
            = Some (g, st) ∧
    (∀ i j, window_pair demo_accel demo_birds i j → close demo_params demo_birds i j →
       ∃ c, c ≠ -1 ∧ cid_of (birds st) i = Some c ∧ cid_of (birds st) j = Some c) ∧
    (∀ x y c, cid_of (birds st) x = Some c → cid_of (birds st) y = Some c →
       rtsc (close demo_params demo_birds) x y).
Proof.
  destruct (scanned_close_pairs_share_cluster demo_accel demo_params demo_birds demo_old
              demo_junk_d demo_junk_j)
    as (g & st & Hrun & Hfound & Hpath & _); [demo_side..|].
  exists g, st. split_and!; assumption.
Defined.

Lemma sort_arrays_in_bounds_witness :
  ∃ g st, neighbor_pass demo_accel demo_params demo_birds demo_old demo_junk_d demo_junk_j
            = Some (g, st) ∧
    length (sort_d_nbr st) = 16%nat ∧ length (sort_j_nbr st) = 16%nat.
Proof.
  destruct (sort_arrays_in_bounds demo_accel demo_params demo_birds demo_old
              demo_junk_d demo_junk_j)
    as (g & st & Hrun & Hd & Hj & _); [demo_side..|].
  exists g, st. split_and!; assumption.
Defined.

Lemma retained_list_sorted_bounded_witness :
  length (qual_list demo_accel demo_params_one demo_birds 1
            (cand_list demo_accel demo_birds 1)) = 2%nat ∧
  ∃ g st sti bi st3 st4 b,
    neighbor_pass demo_accel demo_params_one demo_birds demo_old demo_junk_d demo_junk_j
      = Some (g, st) ∧
    begin_bird 1 sti = Some st3 ∧
    scan_window demo_accel demo_params_one g (numPoints demo_birds) (rd2_of demo_accel)
      (nadj_of demo_accel) 1 (pos bi) (normalize (vel bi)) st3 = Some st4 ∧
    sort_num st4 = 1 ∧ StronglySorted nearer (retained st4) ∧
    rd (birds st) 1 = Some b ∧ t_nbrs b = 1.
Proof.
  assert (length (qual_list demo_accel demo_params_one demo_birds 1
                    (cand_list demo_accel demo_birds 1)) = 2%nat) as Hq
    by (vm_compute; reflexivity).
  split; [exact Hq|].
  destruct (retained_list_sorted_bounded demo_accel demo_params_one demo_birds demo_old
              demo_junk_d demo_junk_j)
    as (g & st & Hrun & Hall); [demo_side..|].
  destruct (Hall 1) as (_ & Hpre & st0 & sti & bi & st3 & st4 & st5 & b & _ & _ & _ &
                        Hbeg & Hwin & Hfull & _ & _ & _ & Hb & Ht & _); [demo_side|].
  destruct (Hpre (cand_list demo_accel demo_birds 1) [])
    as (s & Hs & Hlen & _ & Hmin & Hsorted & _); [by rewrite app_nil_r|].
  rewrite Hfull in Hs. injection Hs as <-. rewrite Hq in Hmin.
  change (sort_num st4 = 1) in Hmin.
  exists g, st, sti, bi, st3, st4, b. split_and!; try assumption.
  rewrite Ht, <- Hlen. exact Hmin.
Defined.

Lemma averages_are_means_witness :
  ∃ g st, neighbor_pass demo_accel demo_params demo_birds demo_old demo_junk_d demo_junk_j
            = Some (g, st) ∧
    ∃ b, rd (birds st) 1 = Some b ∧
      t_nbrs b = Z.of_nat (length (nbr_list demo_accel demo_params demo_birds 1)) ∧
      ave_pos b = mean_vec (gather pos demo_birds (nbr_list demo_accel demo_params demo_birds 1)).
Proof.
  destruct (averages_are_means demo_accel demo_params demo_birds demo_old
              demo_junk_d demo_junk_j)
    as (g & st & Hrun & Hall); [demo_side..|].
  destruct (Hall 1) as (_ & _ & _ & b & Hb & Ht & Hp & _); [demo_side|].
  exists g, st. split; [assumption|]. exists b. split_and!; assumption.
Defined.

Lemma undefined_cells_are_skipped_witness :
  ∃ g st, neighbor_pass demo_accel demo_params demo_birds demo_old demo_junk_d demo_junk_j
            = Some (g, st) ∧
    grid_pass demo_accel demo_birds demo_old = Some g ∧
    ∀ n, rd (pgcell g) n = Some GRID_UNDEF →
      (∀ c, 0 ≤ c < gridTotal demo_accel → n ∉ bucket g c) ∧
      candidates demo_accel g (numPoints demo_birds) (nadj_of demo_accel) n = Some [] ∧
      ∀ i l, candidates demo_accel g (numPoints demo_birds) (nadj_of demo_accel) i = Some l →
             n ∉ l.
Proof.
  destruct (undefined_cells_are_skipped demo_accel demo_params demo_birds demo_old
              demo_junk_d demo_junk_j)
    as (g & st & Hrun & Hg & _ & Hundef & _); [demo_side..|].
  exists g, st. split_and!; assumption.
Defined.

(** C9. In the small flock the cluster of bird 0 is merged into that of
    bird 1, and its emptied list stays in the table: it is ranked last,
    with a count of 0.  With four flock slots the division of line 1475
    divides slot 3 by this zero count, wherever the birds have moved to in
    the meantime, and for the birds as they are the centre is not a number;
    with eight slots the histogram has no entry for slot 4, and the
    checked access fails. *)
Theorem empty_cluster_is_a_divisor :
  ∃ g st hist order,
    neighbor_pass demo_accel demo_params demo_birds demo_old demo_junk_d demo_junk_j
      = Some (g, st) ∧
    cluster_assignment st = [[]; [1; 0; 2]; [3]; [4]] ∧
    CalculateClusters (cluster_assignment st) = Some (hist, order) ∧
    rd hist 3 = Some (mkHistogram 0 0) ∧
    (∀ bs' c fc, UpdateFlockData 4 g bs' hist order = Some (c, fc) →
       ∃ x, rd fc 3 = Some (vdiv x (f_of_int 0))) ∧
    (∃ c fc, UpdateFlockData 4 g (birds st) hist order = Some (c, fc) ∧
             rd fc 3 = Some (mkVec3 S754_nan S754_nan S754_nan)) ∧
    UpdateFlockData 8 g (birds st) hist order = None.
Proof.
  eexists _, _, _, _. split; [vm_compute; reflexivity|].
  split; [reflexivity|]. split; [vm_compute; reflexivity|].
  split; [reflexivity|]. split; [|split; [|vm_compute; reflexivity]].
  - intros bs' c fc Hrun.
    eapply (UpdateFlockData_divides _ _ _ _ _ 3 (mkHistogram 0 0)) in Hrun;
      [exact Hrun|reflexivity|lia].
  - eexists _, _. split; [vm_compute; reflexivity|reflexivity].
Qed.

(** The bound of 15 neighbours cannot be raised: with 16 of them and a full
    list, a farther candidate makes the search loop read entry 16. *)
Remark full_list_is_read_past_its_end :
  insert_nbr 16 (fz 5) 9
    (mkNbr demo_birds (-1) [] (replicate 16 (fz 1)) (replicate 16 0) 16) = None.
Proof. vm_compute. reflexivity. Qed.

(** * Thread blocks *)

Lemma int_div_nonneg a b :
  0 ≤ a → 1 ≤ b → int_div a b = Some (a / b) ∧ int_rem a b = Some (a mod b).
Proof.
  intros Ha Hb. unfold int_div, int_rem.
  rewrite (proj2 (Z.eqb_neq b 0)), (proj2 (Z.eqb_neq b (-1))), andb_false_r by lia.
  simpl. by rewrite Z.quot_div_nonneg, Z.rem_mod_nonneg by lia.
Qed.

(** The quotient that [iDivUp] returns. *)
Lemma iDivUp_spec a b :
  0 ≤ a ≤ INT_MAX → 1 ≤ b ≤ INT_MAX →
  ∃ q, iDivUp a b = Some q ∧ 0 ≤ q ≤ a ∧ b * (q - 1) < a ≤ b * q.
Proof.
  unfold INT_MAX. intros Ha Hb. unfold iDivUp.
  destruct (int_div_nonneg a b) as [-> ->]; [lia..|]. simpl.
  pose proof (Z.div_mod a b) as Hdm. pose proof (Z.mod_pos_bound a b) as Hm.
  assert (0 ≤ a / b) as Hq0 by (apply Z.div_pos; lia).
  assert (a / b ≤ a) as Hqa by (apply Z.div_le_upper_bound; nia).
  destruct (Z.eqb_spec (a mod b) 0) as [H0|Hne]; simpl.
  - exists (a / b). split; [done|]. nia.
  - assert (2 ≤ b) as Hb2.
    { destruct (decide (b = 1)) as [->|]; [|lia]. rewrite Z.mod_1_r in Hne. done. }
    assert (a / b + 1 ≤ a) by nia.
    exists (a / b + 1). rewrite i32_small by lia. split; [done|]. nia.
Qed.

(** X1. For a count [a >= 0] and a positive block size [b], [iDivUp] returns
    the least number of blocks of size [b] that hold [a] elements. *)
Theorem iDivUp_is_ceiling a b :
  0 ≤ a ≤ INT_MAX → 1 ≤ b ≤ INT_MAX →
  ∃ q, iDivUp a b = Some q ∧ 0 ≤ q ≤ a ∧ b * (q - 1) < a ≤ b * q.
Proof. apply iDivUp_spec. Qed.

Lemma iDivUp_is_ceiling_witness :
  ∃ q, iDivUp 1000 512 = Some q ∧ 0 ≤ q ≤ 1000 ∧ 512 * (q - 1) < 1000 ≤ 512 * q.
Proof. apply (iDivUp_is_ceiling 1000 512); unfold INT_MAX; lia. Defined.

(** X2. For [numPnts >= 0] and a positive thread limit, [ComputeNumBlocks]
    returns without dividing by zero: the threads per block are the smaller
    of the limit and [numPnts], there is at least one block, and the
    blocks together have a thread for every point, the last block not
    being idle. *)
Theorem ComputeNumBlocks_covers numPnts minThreads :
  0 ≤ numPnts ≤ INT_MAX → 1 ≤ minThreads ≤ INT_MAX →
  ∃ numBlocks numThreads,
    ComputeNumBlocks numPnts minThreads = Some (numBlocks, numThreads) ∧
    numThreads = Z.min minThreads numPnts ∧ 1 ≤ numBlocks ∧
    numPnts ≤ numBlocks * numThreads ∧
    (numBlocks - 1) * numThreads < Z.max numPnts 1.
Proof.
  intros Hn Ht. unfold ComputeNumBlocks.
  destruct (Z.eqb_spec (Z.min minThreads numPnts) 0) as [H0|Hne]; simpl.
  - exists 1, (Z.min minThreads numPnts). split_and!; try done; lia.
  - destruct (iDivUp_spec numPnts (Z.min minThreads numPnts))
      as (q & -> & Hq & Hlo & Hhi); [done|unfold INT_MAX in *; lia|]. simpl.
    exists q, (Z.min minThreads numPnts). split_and!; try done; nia.
Qed.

Lemma ComputeNumBlocks_covers_witness :
  ∃ numBlocks numThreads,
    ComputeNumBlocks 1000 512 = Some (numBlocks, numThreads) ∧
    numThreads = Z.min 512 1000 ∧ 1 ≤ numBlocks ∧
    1000 ≤ numBlocks * numThreads ∧ (numBlocks - 1) * numThreads < Z.max 1000 1.
Proof. apply (ComputeNumBlocks_covers 1000 512); unfold INT_MAX; lia. Defined.

(** * The adjacency table of the grid *)

Lemma for_each_bind {A B St} (k : St → B → option St) (g : A → list B) l s :
  for_each k (l ≫= g) s = for_each (λ s x, for_each k (g x) s) l s.
Proof.
  revert s. induction l as [|x l IH]; intros s; [done|].
  rewrite bind_cons, for_each_app. simpl.
  destruct (for_each k (g x) s); simpl; [apply IH|done].
Qed.

(** Storing the values [vs] from position [c] on. *)
Lemma store_all (vs : list Z) (adj : list Z) (c : nat) :
  (c ≤ length adj)%nat → Z.of_nat (length adj) ≤ INT_MAX →
  for_each (λ '(adj, cell) v, adj' ← wr adj cell (i32 v); Some (adj', i32 (cell + 1)))
    vs (adj, Z.of_nat c) =
  if decide (c + length vs ≤ length adj)%nat
  then Some (take c adj ++ (i32 <$> vs) ++ drop (c + length vs) adj,
             Z.of_nat (c + length vs))
  else None.
Proof.
  unfold INT_MAX. revert adj c. induction vs as [|v vs IH]; intros adj c Hc Hmax.
  { simpl. rewrite decide_True by lia. rewrite Nat.add_0_r. by rewrite take_drop. }
  cbn [for_each length]. destruct (decide (c = length adj)) as [->|Hlt].
  - rewrite decide_False by lia. unfold wr. by rewrite bool_decide_eq_false_2 by lia.
  - destruct (wr_is_Some adj (Z.of_nat c) (i32 v)) as [adj' Hw]; [lia|].
    rewrite Hw. simpl. apply wr_Some in Hw as [_ ->]. rewrite Nat2Z.id.
    rewrite (i32_small (Z.of_nat c + 1)) by lia.
    replace (Z.of_nat c + 1) with (Z.of_nat (S c)) by lia.
    rewrite IH by (rewrite ?length_insert; lia). rewrite length_insert.
    destruct (decide (S c + length vs ≤ length adj)%nat) as [Hfit|Hno].
    + rewrite decide_True by lia. f_equal. f_equal; [|f_equal; lia].
      rewrite (take_S_r _ _ (i32 v)) by (apply list_lookup_insert_eq; lia).
      rewrite take_insert_ge by lia. rewrite <- app_assoc. simpl. f_equal.
      rewrite drop_insert_lt by lia. by replace (c + S (length vs))%nat with (S (c + length vs)) by lia.
    + by rewrite decide_False by lia.
Qed.

Lemma fill_adj_flat res srch adj :
  fill_adj res srch adj =
  for_each (λ '(adj, cell) v, adj' ← wr adj cell (i32 v); Some (adj', i32 (cell + 1)))
    (adj_table res srch) (adj, 0).
Proof.
  unfold fill_adj, adj_table. rewrite for_each_bind.
  apply for_each_ext. intros s y _. rewrite for_each_bind.
  apply for_each_ext. intros s' z _. rewrite for_each_bind.
  apply for_each_ext. intros [a c] x _. simpl. unfold adj_store.
  by destruct (wr a c _).
Qed.

(** X3. [InitializeGrid] clamps the search size to at least 2 and exits for a
    size above 6.  Its table loop stores [gridSrch^3] entries into the 64
    entries of [gridAdj]: for the sizes up to 4 the array then starts with
    the table of the offsets [(y*resZ + z)*resX + x], in the order [y], [z],
    [x], and keeps the rest; for the sizes 5 and 6, which pass the guard,
    the loop writes behind the array. *)
Theorem adjacency_table_fits_up_to_4 res gridSrch adj :
  length adj = 64%nat →
  (gridSrch ≤ 4 →
     let s := Z.max gridSrch 2 in
     InitializeGrid_adj res gridSrch adj =
       Some (Some ((i32 <$> adj_table res s) ++ drop (Z.to_nat (s * s * s)) adj,
                   s * s * s))) ∧
  (5 ≤ gridSrch ≤ 6 → InitializeGrid_adj res gridSrch adj = Some None) ∧
  (7 ≤ gridSrch → InitializeGrid_adj res gridSrch adj = None).
Proof.
  intros Hlen. unfold InitializeGrid_adj.
  assert (∀ s, 0 ≤ s →
            fill_adj res s adj =
            if decide (s * s * s ≤ 64)
            then Some ((i32 <$> adj_table res s) ++ drop (Z.to_nat (s * s * s)) adj,
                       s * s * s)
            else None) as Hfill.
  { intros s Hs. rewrite fill_adj_flat.
    pose proof (length_adj_table res s Hs) as Hl.
    rewrite (store_all _ adj 0) by (rewrite ?Hlen; unfold INT_MAX; lia).
    rewrite Hlen. simpl. destruct (decide (s * s * s ≤ 64)).
    - rewrite decide_True by lia. do 2 f_equal; [|lia]. do 2 f_equal. lia.
    - by rewrite decide_False by lia. }
  split_and!.
  - intros Hs. cbv zeta. destruct (Z.ltb_spec gridSrch 2).
    + rewrite Z.max_r by lia. simpl. by rewrite Hfill, decide_True by lia.
    + rewrite Z.max_l by lia. rewrite Z.gtb_ltb, (proj2 (Z.ltb_ge 6 gridSrch)) by lia.
      rewrite Hfill by lia. rewrite decide_True by nia. done.
  - intros Hs. rewrite (proj2 (Z.ltb_ge gridSrch 2)) by lia.
    rewrite Z.gtb_ltb, (proj2 (Z.ltb_ge 6 gridSrch)) by lia.
    rewrite Hfill by lia. by rewrite decide_False by nia.
  - intros Hs. rewrite (proj2 (Z.ltb_ge gridSrch 2)) by lia.
    by rewrite Z.gtb_ltb, (proj2 (Z.ltb_lt 6 gridSrch)) by lia.
Qed.

Lemma adjacency_table_fits_up_to_4_witness :
  InitializeGrid_adj (mkVec3 6 6 6) 5 (replicate 64 0) = Some None.
Proof.
  apply (adjacency_table_fits_up_to_4 (mkVec3 6 6 6) 5 (replicate 64 0)); [reflexivity|lia].
Defined.

(** * A scan visits a bird once *)

Lemma NoDup_adj_table res srch :
  srch ≤ vx res → srch ≤ vz res → NoDup (adj_table res srch).
Proof.
  intros Hx Hz. unfold adj_table.
  assert (∀ y1 z1 x1 y2 z2 x2,
            x1 ∈ seqZ 0 srch → x2 ∈ seqZ 0 srch → z1 ∈ seqZ 0 srch → z2 ∈ seqZ 0 srch →
            (y1 * vz res + z1) * vx res + x1 = (y2 * vz res + z2) * vx res + x2 →
            x1 = x2 ∧ y1 = y2 ∧ z1 = z2) as Hinj.
  { intros y1 z1 x1 y2 z2 x2. rewrite !elem_of_seqZ. intros ???? Heq.
    apply (flat_inj (vx res) (vz res)); try done; lia. }
  apply NoDup_bind; [| |apply NoDup_seqZ].
  - intros y1 y2 v _ _.
    intros (z1 & (x1 & ->%list_elem_of_singleton & Hx1)%list_elem_of_bind & Hz1)%list_elem_of_bind.
    intros (z2 & (x2 & Heq%list_elem_of_singleton & Hx2)%list_elem_of_bind & Hz2)%list_elem_of_bind.
    by destruct (Hinj _ _ _ _ _ _ Hx1 Hx2 Hz1 Hz2 Heq) as (_ & ? & _).
  - intros y _. apply NoDup_bind; [| |apply NoDup_seqZ].
    + intros z1 z2 v Hz1 Hz2.
      intros (x1 & ->%list_elem_of_singleton & Hx1)%list_elem_of_bind.
      intros (x2 & Heq%list_elem_of_singleton & Hx2)%list_elem_of_bind.
      by destruct (Hinj _ _ _ _ _ _ Hx1 Hx2 Hz1 Hz2 Heq) as (_ & _ & ?).
    + intros z Hz1. apply NoDup_bind; [| |apply NoDup_seqZ].
      * intros x1 x2 v Hx1 Hx2 ->%list_elem_of_singleton Heq%list_elem_of_singleton.
        by destruct (Hinj _ _ _ _ _ _ Hx1 Hx2 Hz1 Hz1 Heq) as (? & _ & _).
      * intros x _. apply NoDup_singleton.
Qed.

Section VisitsOnce.
Context {F : Type} `{FloatOps F}.
Implicit Types (a : Accel F) (p : Params F) (bs : list (Bird F)) (st : NbrState F).

Lemma NoDup_cand_list a bs i : accel_wf a → NoDup (cand_list a bs i).
Proof.
  intros Hwf. unfold cand_list. destruct (rd bs i) as [b|]; [|constructor].
  destruct (decide (cell_of a b = GRID_UNDEF)) as [|Hc]; [constructor|].
  destruct (cell_of_defined a b Hwf Hc) as (gc & _ & Hin & _ & _).
  pose proof (in_scan_bounds a gc Hwf Hin) as (Hx & _ & Hz).
  pose proof (wf_srch a Hwf) as Hs.
  assert (NoDup (window_of a (cell_of a b))) as Hwin.
  { unfold window_of. apply NoDup_fmap_2_strong; [intros x y _ _; lia|].
    rewrite (wf_adj a Hwf). apply NoDup_adj_table; lia. }
  unfold window_members. apply NoDup_filter, NoDup_concat.
  - intros l (w & -> & _)%list_elem_of_fmap. apply NoDup_members_upto.
  - intros k1 k2 l1 l2 x (w1 & -> & Hk1)%list_lookup_fmap_Some
      (w2 & -> & Hk2)%list_lookup_fmap_Some
      [_ H1]%elem_of_members_upto [_ H2]%elem_of_members_upto.
    rewrite H1 in H2. injection H2 as <-. by apply (NoDup_lookup _ _ _ _ Hwin Hk1).
Qed.

(** X4. The two nested loops of the neighbour search run their body at most
    once for every other bird, and never for the bird itself or for an
    index that is not a bird. *)
Theorem scan_visits_each_bird_once a bs old :
  accel_wf a → coords_defined a bs → numPoints bs ≤ INT_MAX →
  length old = length bs →
  ∃ g, grid_pass a bs old = Some g ∧
    ∀ i l, candidates a g (numPoints bs) (nadj_of a) i = Some l →
      NoDup l ∧ (i ∉ l) ∧ (∀ j, j ∈ l → 0 ≤ j < numPoints bs).
Proof.
  intros Hwf Hdef HN Hold.
  destruct (grid_pass_bucketed a bs old Hwf Hdef HN Hold) as (g & Hg & Hb).
  pose proof (cnt_cell _ _ _ (bk_counted _ _ _ Hb)) as Hcell.
  exists g. split; [done|]. intros i l Hl.
  assert (is_Some (rd bs i)) as [bi Hbi].
  { unfold candidates, scanned in Hl.
    destruct (rd (pgcell g) i) as [c|] eqn:Hc; [|done].
    apply rd_range in Hc. rewrite Hcell in Hc. unfold cells in Hc.
    rewrite length_fmap in Hc. by apply rd_is_Some. }
  rewrite (candidates_spec a bs g i bi Hwf Hb HN Hbi) in Hl.
  assert (l = cand_list a bs i) as ->.
  { unfold cand_list. rewrite Hbi. by injection Hl. }
  split_and!.
  - by apply NoDup_cand_list.
  - intros Hi. by destruct (cand_list_valid a bs i i Hi).
  - intros j Hj. destruct (cand_list_valid a bs i j Hj) as (_ & [bj Hbj%rd_range] & _).
    done.
Qed.

Lemma qual_list_sublist a p bs i l : (qual_list a p bs i l).*2 `sublist_of` l.
Proof.
  induction l as [|j l IH]; [done|]. unfold qual_list in *.
  rewrite bind_cons, fmap_app.
  destruct (rd bs i) as [bi|]; [|by apply sublist_cons].
  destruct (rd bs j) as [bj|]; [|by apply sublist_cons].
  destruct (qualifies a p bi bj); [by apply sublist_skip|by apply sublist_cons].
Qed.

(** X5. In every state of the scan of a bird, no bird occurs twice among the
    retained neighbours, the bird itself is not among them, and each of
    them was visited by the scan. *)
Theorem retained_neighbours_are_distinct a p bs old junk_d junk_j :
  accel_wf a → coords_defined a bs → numPoints bs ≤ INT_MAX →
  length old = length bs → 0 ≤ neighbors p ≤ 15 →
  length junk_d = 16%nat → length junk_j = 16%nat →
  ∃ g, grid_pass a bs old = Some g ∧
    ∀ i pre suf, 0 ≤ i < numPoints bs → cand_list a bs i = pre ++ suf →
      ∃ st, scan_prefix a p g bs junk_d junk_j i pre = Some st ∧
        NoDup (retained st).*2 ∧ (i ∉ (retained st).*2) ∧
        (∀ j, j ∈ (retained st).*2 → j ∈ pre).
Proof.
  intros Hwf Hdef HN Hold [HK0 HK] Hld Hlj.
  destruct (grid_pass_bucketed a bs old Hwf Hdef HN Hold) as (g & Hg & Hb).
  exists g. split; [done|]. intros i pre suf Hi Hpre.
  destruct (scan_prefix_walk a p bs g junk_d junk_j i pre suf Hwf Hb HN HK Hld Hlj Hi Hpre)
    as (st & Hs & Hw).
  destruct (wi_retained _ _ _ _ _ _ Hw HK0) as [Hret _].
  exists st. split; [done|].
  assert (NoDup pre) as Hnd.
  { pose proof (NoDup_cand_list a bs i Hwf) as Hc. rewrite Hpre in Hc.
    by apply NoDup_app in Hc as [? _]. }
  assert (∀ j, j ∈ (retained st).*2 → j ∈ pre) as Hin.
  { intros j Hj. rewrite Hret, fmap_take in Hj. apply subseteq_take in Hj.
    rewrite isort_perm in Hj. by apply (sublist_subseteq _ _ (qual_list_sublist a p bs i pre)). }
  split_and!; [|intros Hself|done].
  - rewrite Hret, fmap_take. apply (sublist_NoDup _ (isort (qual_list a p bs i pre)).*2);
      [|apply sublist_take].
    rewrite isort_perm. by apply (sublist_NoDup _ pre); [|apply qual_list_sublist].
  - apply Hin in Hself.
    assert (i ∈ cand_list a bs i) as Hc by (rewrite Hpre, elem_of_app; by left).
    by destruct (cand_list_valid a bs i i Hc).
Qed.

End VisitsOnce.

Lemma scan_visits_each_bird_once_witness :
  ∃ g, grid_pass demo_accel demo_birds demo_old = Some g ∧
    ∀ i l, candidates demo_accel g (numPoints demo_birds) (nadj_of demo_accel) i = Some l →
      NoDup l ∧ (i ∉ l) ∧ (∀ j, j ∈ l → 0 ≤ j < numPoints demo_birds).
Proof.
  apply (scan_visits_each_bird_once demo_accel demo_birds demo_old); demo_side.
Defined.

Lemma retained_neighbours_are_distinct_witness :
  ∃ g st, grid_pass demo_accel demo_birds demo_old = Some g ∧
    scan_prefix demo_accel demo_params g demo_birds demo_junk_d demo_junk_j 1
      (cand_list demo_accel demo_birds 1) = Some st ∧
    NoDup (retained st).*2 ∧ (1 ∉ (retained st).*2).
Proof.
  destruct (retained_neighbours_are_distinct demo_accel demo_params demo_birds demo_old
              demo_junk_d demo_junk_j) as (g & Hg & Hall); [demo_side..|].
  destruct (Hall 1 (cand_list demo_accel demo_birds 1) []) as (st & Hs & Hnd & Hself & _);
    [demo_side|by rewrite app_nil_r|].
  exists g, st. split_and!; assumption.
Defined.

(** * The sorted array *)

Lemma StronglySorted_filter {A} (R : relation A) (P : A → Prop) `{∀ x, Decision (P x)} l :
  StronglySorted R l → StronglySorted R (filter P l).
Proof.
  induction 1 as [|x l Hs IH Hall]; [constructor|]. rewrite filter_cons.
  destruct (decide (P x)); [|done]. constructor; [done|].
  apply Forall_forall. intros y [_ Hy]%list_elem_of_filter.
  by apply (proj1 (Forall_forall _ _) Hall).
Qed.

Lemma StronglySorted_seqZ m (n : nat) : StronglySorted Z.lt (seqZ m (Z.of_nat n)).
Proof.
  revert m. induction n as [|n IH]; intros m; [constructor|].
  rewrite seqZ_cons by lia. replace (Z.pred (Z.of_nat (S n))) with (Z.of_nat n) by lia.
  constructor; [apply IH|]. apply Forall_forall. intros y Hy%elem_of_seqZ. lia.
Qed.

(** Overwriting the first [k] entries. *)
Lemma reset_prefix {A} (v : A) (l : list A) (k : nat) :
  (k ≤ length l)%nat →
  for_each (λ grid n, wr grid n v) (seqZ 0 (Z.of_nat k)) l = Some (replicate k v ++ drop k l).
Proof.
  induction k as [|k IH]; intros Hk; [done|].
  rewrite seqZ_S, for_each_snoc, IH by lia. simpl. rewrite Z.add_0_l.
  apply wr_Some. rewrite length_app, length_replicate, length_drop. split; [lia|].
  rewrite Nat2Z.id, insert_app_r_alt by (rewrite length_replicate; lia).
  rewrite length_replicate, Nat.sub_diag.
  rewrite (drop_S l (default v (l !! k)) k).
  2:{ destruct (lookup_lt_is_Some_2 l k) as [x ->]; [lia|done]. }
  change (replicate (S k) v ++ drop (S k) l = replicate k v ++ v :: drop (S k) l).
  by rewrite replicate_S_end, <- app_assoc.
Qed.

Section SortedArray.
Context {F : Type} `{FloatOps F}.
Implicit Types (a : Accel F) (bs : list (Bird F)).

(** X6. On the CPU the counting sort is stable: in the slice of every cell the
    birds stand in increasing order of their index. *)
Theorem buckets_are_in_index_order a bs old :
  accel_wf a → coords_defined a bs → numPoints bs ≤ INT_MAX →
  length old = length bs →
  ∃ g, grid_pass a bs old = Some g ∧
    ∀ c, 0 ≤ c < gridTotal a → StronglySorted Z.lt (bucket g c).
Proof.
  intros Hwf Hdef HN Hold.
  destruct (grid_pass_bucketed a bs old Hwf Hdef HN Hold) as (g & Hg & Hb).
  exists g. split; [done|]. intros c Hc.
  rewrite (bucket_members _ _ _ _ Hb (proj2 (wf_total_int a Hwf)) Hc).
  apply StronglySorted_filter, StronglySorted_seqZ.
Qed.

(** X7. The sorted array of the step before has no influence on the grid of
    this step, whether the grid builder returns or not. *)
Theorem grid_pass_forgets_previous_order a bs old old' :
  length old = length bs → length old' = length bs →
  grid_pass a bs old = grid_pass a bs old'.
Proof.
  intros Hold Hold'. unfold grid_pass, InsertIntoGrid.
  destruct (for_each (insert_step a bs) _ _) as [[[cell ndx] cnt]|]; [simpl|done].
  unfold PrefixSumGrid. simpl.
  destruct (for_each (scan_step cnt) _ _) as [[off sum]|]; [simpl|done].
  unfold numPoints. rewrite !reset_prefix by lia.
  by rewrite !drop_ge by lia.
Qed.

(** X8. After the counting sort every bird with a cell stands at exactly one
    place of the sorted array, a bird without a cell at none, and every
    other entry is the undefined sentinel. *)
Theorem sorted_array_holds_birds_once a bs old :
  accel_wf a → coords_defined a bs → numPoints bs ≤ INT_MAX →
  length old = length bs →
  ∃ g, grid_pass a bs old = Some g ∧
    length (mgrid g) = length bs ∧
    (∀ n b, rd bs n = Some b → n ∈ mgrid g ↔ cell_of a b ≠ GRID_UNDEF) ∧
    (∀ q v, rd (mgrid g) q = Some v → v = GRID_UNDEF ∨ is_Some (rd bs v)) ∧
    (∀ q q' v, rd (mgrid g) q = Some v → rd (mgrid g) q' = Some v →
               v ≠ GRID_UNDEF → q = q').
Proof.
  intros Hwf Hdef HN Hold.
  destruct (grid_pass_bucketed a bs old Hwf Hdef HN Hold) as (g & Hg & Hb).
  exists g. split; [done|]. split_and!.
  - rewrite (bk_grid_len _ _ _ Hb). unfold cells. by rewrite length_fmap.
  - intros n b Hn. pose proof (rd_cells a bs n b Hn) as Hcn.
    pose proof (rd_range _ _ _ Hn) as Hr. unfold numPoints, INT_MAX in HN. split.
    + intros [q Hq]%list_elem_of_lookup.
      destruct (bk_grid_only _ _ _ Hb (Z.of_nat q) n (rd_of_lookup _ _ _ Hq))
        as [Hu|(c & Hc & Hne & _)]; [unfold GRID_UNDEF in Hu; lia|].
      rewrite Hcn in Hc. by injection Hc as ->.
    + intros Hne. pose proof (bk_grid _ _ _ Hb n _ Hcn Hne) as [_ Hq]%rd_Some.
      by eapply list_elem_of_lookup_2.
  - intros q v Hq.
    destruct (bk_grid_only _ _ _ Hb q v Hq) as [?|(c & (b & Hv & _)%rd_cells_inv & _)];
      [by left|right; by exists b].
  - intros q q' v Hq Hq' Hv.
    destruct (bk_grid_only _ _ _ Hb q v Hq) as [?|(c & Hc & _ & ->)]; [done|].
    destruct (bk_grid_only _ _ _ Hb q' v Hq') as [?|(c' & Hc' & _ & ->)]; [done|].
    rewrite Hc in Hc'. by injection Hc' as <-.
Qed.

End SortedArray.

Lemma buckets_are_in_index_order_witness :
  ∃ g, grid_pass demo_accel demo_birds demo_old = Some g ∧
    ∀ c, 0 ≤ c < gridTotal demo_accel → StronglySorted Z.lt (bucket g c).
Proof. apply (buckets_are_in_index_order demo_accel demo_birds demo_old); demo_side. Defined.

Lemma grid_pass_forgets_previous_order_witness :
  grid_pass demo_accel demo_birds demo_old = grid_pass demo_accel demo_birds [4; 3; 2; 1; 0].
Proof.
  apply (grid_pass_forgets_previous_order demo_accel demo_birds demo_old [4; 3; 2; 1; 0]);
    reflexivity.
Defined.

Lemma sorted_array_holds_birds_once_witness :
  ∃ g, grid_pass demo_accel demo_birds demo_old = Some g ∧
    length (mgrid g) = length demo_birds ∧
    (∀ n b, rd demo_birds n = Some b → n ∈ mgrid g ↔ cell_of demo_accel b ≠ GRID_UNDEF).
Proof.
  destruct (sorted_array_holds_birds_once demo_accel demo_birds demo_old)
    as (g & Hg & Hlen & Hmem & _); [demo_side..|].
  exists g. split_and!; assumption.
Defined.

(** * The ranking of the clusters *)

Lemma sumZ_perm (l k : list Z) : l ≡ₚ k → sumZ l = sumZ k.
Proof. induction 1; simpl; lia. Qed.

Lemma histogram_ids (ca : list (list Z)) :
  h_cluster_id <$>
    imap (λ i members, mkHistogram (Z.of_nat i) (Z.of_nat (length members))) ca
  = Z.of_nat <$> seq 0 (length ca).
Proof. rewrite fmap_imap, <- imap_seq_0. by apply imap_ext. Qed.

(** The histogram and the order that [CalculateClusters] computes. *)
Lemma CalculateClusters_spec (ca : list (list Z)) :
  ∃ hist order, CalculateClusters ca = Some (hist, order) ∧
    length hist = length ca ∧ length order = length ca ∧
    (∀ r h, rd hist r = Some h →
       rd order (h_cluster_id h) = Some r ∧
       ∃ ms, rd ca (h_cluster_id h) = Some ms ∧ bird_cnt h = Z.of_nat (length ms)) ∧
    (∀ c ms, rd ca c = Some ms →
       ∃ r, rd order c = Some r ∧
            rd hist r = Some (mkHistogram c (Z.of_nat (length ms)))).
Proof.
  unfold CalculateClusters.
  set (H0 := imap (λ i members, mkHistogram (Z.of_nat i) (Z.of_nat (length members))) ca).
  set (hist := merge_sort histogram_ge H0).
  assert (hist ≡ₚ H0) as Hperm by apply merge_sort_Permutation.
  assert (length hist = length ca) as Hlen.
  { rewrite Hperm. apply length_imap. }
  assert (NoDup (h_cluster_id <$> hist)) as Hnd.
  { rewrite Hperm. unfold H0. rewrite histogram_ids.
    apply NoDup_fmap_2; [apply Nat2Z.inj'|apply NoDup_seq]. }
  assert (∀ h, h ∈ hist →
            ∃ ms, rd ca (h_cluster_id h) = Some ms ∧ bird_cnt h = Z.of_nat (length ms))
    as Hent.
  { intros h Hh. rewrite Hperm in Hh.
    apply elem_of_lookup_imap in Hh as (i & ms & -> & Hi). exists ms. simpl.
    split; [by apply rd_of_lookup|done]. }
  destruct (for_each_seqZ
              (λ k order, length order = length ca ∧
                 ∀ r h, 0 ≤ r < k → rd hist r = Some h → rd order (h_cluster_id h) = Some r)
              (λ order i, h ← rd hist i; wr order (h_cluster_id h) i)
              0 (Z.of_nat (length hist)) (replicate (length ca) 0))
    as (order & Hrun & Hlo & Hord).
  - lia.
  - split; [apply length_replicate|intros; lia].
  - intros k order Hk [Hl Hinv].
    destruct (rd_is_Some hist k) as [hk Hhk]; [lia|]. rewrite Hhk. simpl.
    assert (hk ∈ hist) as Hin.
    { apply rd_Some in Hhk as [_ ?]. by eapply list_elem_of_lookup_2. }
    destruct (Hent hk Hin) as (ms & Hms%rd_range & _).
    destruct (wr_is_Some order (h_cluster_id hk) k) as [order' Hw]; [lia|].
    exists order'. split; [done|]. rewrite (wr_length _ _ _ _ Hw). split; [done|].
    intros r h Hr Hh. destruct (decide (r = k)) as [->|Hne].
    + rewrite Hhk in Hh. injection Hh as <-. by apply (rd_wr_eq _ _ _ _ Hw).
    + rewrite (rd_wr_ne _ _ _ _ _ Hw); [apply Hinv; [lia|done]|].
      intros Heq. apply Hne.
      apply rd_Some in Hh as [? Hh]. apply rd_Some in Hhk as [? Hhk'].
      assert (Z.to_nat k = Z.to_nat r); [|lia].
      apply (NoDup_lookup _ _ _ (h_cluster_id hk) Hnd);
        rewrite list_lookup_fmap; [by rewrite Hhk'|by rewrite Hh, Heq].
  - rewrite Hrun. simpl. exists hist, order. rewrite Z.add_0_l in Hord.
    split_and!; try done.
    + intros r h Hh. split.
      * apply Hord; [apply rd_range in Hh; lia|done].
      * apply Hent. apply rd_Some in Hh as [_ ?]. by eapply list_elem_of_lookup_2.
    + intros c ms Hms. pose proof Hms as [Hc0 Hl]%rd_Some.
      assert (mkHistogram c (Z.of_nat (length ms)) ∈ hist) as Hin.
      { rewrite Hperm. unfold H0.
        replace c with (Z.of_nat (Z.to_nat c)) at 1 by lia.
        by apply (elem_of_lookup_imap_2
                    (λ i members, mkHistogram (Z.of_nat i) (Z.of_nat (length members)))). }
      apply list_elem_of_lookup in Hin as [r Hr]. apply rd_of_lookup in Hr.
      exists (Z.of_nat r). split; [|done].
      apply (Hord (Z.of_nat r) (mkHistogram c (Z.of_nat (length ms))));
        [apply rd_range in Hr; lia|done].
Qed.

(** X9. [CalculateClusters] never fails.  It makes one histogram entry for
    every cluster list, emptied ones included, and [cluster_order] is the
    inverse of the ranking: the entry of rank [r] belongs to the cluster
    whose order is [r], and its count is the length of the list of that
    cluster. *)
Theorem CalculateClusters_order_inverts_ranking (ca : list (list Z)) :
  ∃ hist order, CalculateClusters ca = Some (hist, order) ∧
    length hist = length ca ∧ length order = length ca ∧
    (∀ r h, rd hist r = Some h →
       rd order (h_cluster_id h) = Some r ∧
       ∃ ms, rd ca (h_cluster_id h) = Some ms ∧ bird_cnt h = Z.of_nat (length ms)) ∧
    (∀ c ms, rd ca c = Some ms →
       ∃ r, rd order c = Some r ∧
            rd hist r = Some (mkHistogram c (Z.of_nat (length ms)))).
Proof. apply CalculateClusters_spec. Qed.

Section Histogram.
Context {F : Type} `{FloatOps F}.
Implicit Types (a : Accel F) (p : Params F) (bs : list (Bird F)) (st : NbrState F).

Lemma sumZ_lengths (ls : list (list Z)) :
  sumZ ((λ ms, Z.of_nat (length ms)) <$> ls) = Z.of_nat (length (concat ls)).
Proof.
  induction ls as [|l ls IH]; [done|]. rewrite fmap_cons. simpl sumZ. simpl concat.
  rewrite length_app, IH. lia.
Qed.

(** X10. After the neighbour search the histogram counts every bird once: the
    counts add up to the number of birds, and the entry that ranks the
    cluster of a bird has a count of at least one, so only a slot that
    ranks an emptied cluster has the count zero. *)
Theorem histogram_counts_every_bird a p bs old junk_d junk_j :
  accel_wf a → coords_defined a bs → numPoints bs ≤ INT_MAX →
  length old = length bs → neighbors p ≤ 15 →
  length junk_d = 16%nat → length junk_j = 16%nat →
  ∃ g st hist order,
    neighbor_pass a p bs old junk_d junk_j = Some (g, st) ∧
    CalculateClusters (cluster_assignment st) = Some (hist, order) ∧
    sumZ (bird_cnt <$> hist) = numPoints bs ∧
    (∀ n b, rd (birds st) n = Some b →
       ∃ r h, rd order (cluster_id b) = Some r ∧ rd hist r = Some h ∧
              h_cluster_id h = cluster_id b ∧ 1 ≤ bird_cnt h) ∧
    (∀ r h, rd hist r = Some h → bird_cnt h = 0 →
       rd (cluster_assignment st) (h_cluster_id h) = Some [] ∧
       ∀ n b, rd (birds st) n = Some b → rd order (cluster_id b) ≠ Some r).
Proof.
  intros Hwf Hdef HN Hold HK Hld Hlj.
  destruct (neighbor_pass_head a p bs old junk_d junk_j Hwf Hdef HN Hold HK Hld Hlj)
    as (g & st & Hrun & _ & Hh).
  pose proof (hi_cluster _ _ _ _ _ Hh) as Hinv.
  destruct (CalculateClusters_spec (cluster_assignment st))
    as (hist & order & Hcalc & Hlh & Hlo & Hrank & Hinvr).
  assert (∀ n b, rd (birds st) n = Some b →
            ∃ r h, rd order (cluster_id b) = Some r ∧ rd hist r = Some h ∧
                   h_cluster_id h = cluster_id b ∧ 1 ≤ bird_cnt h) as Hbird.
  { intros n b Hb.
    assert (cid_of (birds st) n = Some (cluster_id b)) as Hc
      by (apply cid_of_Some; by exists b).
    pose proof (rd_range _ _ _ Hb) as Hr. rewrite (hi_len _ _ _ _ _ Hh) in Hr.
    destruct (hi_assigned _ _ _ _ _ Hh n) as (c & Hc' & Hne);
      [unfold numPoints; lia|lia|].
    rewrite Hc in Hc'. injection Hc' as <-.
    destruct (ci_ids st Hinv n _ Hc) as [|Hcr]; [done|].
    destruct (rd_is_Some (cluster_assignment st) (cluster_id b)) as [ms Hms]; [lia|].
    destruct (Hinvr _ ms Hms) as (r & Hor & Hhr).
    exists r, (mkHistogram (cluster_id b) (Z.of_nat (length ms))).
    split_and!; try done. simpl.
    assert (n ∈ ms) as Hin by (by apply (ci_mem st Hinv _ ms Hms)).
    destruct ms; [by apply elem_of_nil in Hin|simpl; lia]. }
  exists g, st, hist, order. split_and!; try done.
  - destruct (cluster_inv_partition st Hinv) as [Hnd Hel].
    assert (concat (cluster_assignment st) ≡ₚ seqZ 0 (numPoints bs)) as Hperm.
    { apply NoDup_Permutation; [done|apply NoDup_seqZ|]. intros x.
      rewrite Hel, elem_of_seqZ. split.
      - intros (c & (b & Hb%rd_range & _)%cid_of_Some & _).
        rewrite (hi_len _ _ _ _ _ Hh) in Hb. unfold numPoints. lia.
      - intros Hx. apply (hi_assigned _ _ _ _ _ Hh); unfold numPoints in *; lia. }
    unfold CalculateClusters in Hcalc.
    destruct (for_each _ _ _) in Hcalc; [|done]. injection Hcalc as <- _.
    rewrite (sumZ_perm _ _ (fmap_Permutation bird_cnt _ _ (merge_sort_Permutation _ _))).
    rewrite fmap_imap.
    rewrite (imap_ext _ (λ _ ms, Z.of_nat (length ms))) by done.
    rewrite (imap_const (λ ms : list Z, Z.of_nat (length ms))).
    rewrite sumZ_lengths, Hperm, length_seqZ. unfold numPoints. lia.
  - intros r h Hh0 Hcnt. destruct (Hrank r h Hh0) as (Hor & ms & Hms & Hc).
    assert (ms = []) as -> by (apply nil_length_inv; lia).
    split; [done|]. intros n b Hb Hrb.
    destruct (Hbird n b Hb) as (r' & h' & Hor' & Hh' & Hid & Hpos).
    rewrite Hrb in Hor'. injection Hor' as <-. rewrite Hh0 in Hh'. injection Hh' as <-. lia.
Qed.

End Histogram.

Lemma histogram_counts_every_bird_witness :
  ∃ g st hist order,
    neighbor_pass demo_accel demo_params demo_birds demo_old demo_junk_d demo_junk_j
      = Some (g, st) ∧
    CalculateClusters (cluster_assignment st) = Some (hist, order) ∧
    sumZ (bird_cnt <$> hist) = numPoints demo_birds.
Proof.
  destruct (histogram_counts_every_bird demo_accel demo_params demo_birds demo_old
              demo_junk_d demo_junk_j) as (g & st & hist & order & Hrun & Hcalc & Hsum & _);
    [demo_side..|].
  exists g, st, hist, order. split_and!; assumption.
Defined.

(** * The flock centres *)

Section FlockSums.
Context {F : Type} `{FloatOps F}.
Implicit Types (g : Grid) (bs : list (Bird F)) (hist : list Histogram).

Lemma counted_pos_succ g bs order r k :
  0 ≤ k →
  counted_pos g bs order r (k + 1) =
  counted_pos g bs order r k ++
    match counted_bird g bs order r k with Some v => [v] | None => [] end.
Proof.
  intros Hk. unfold counted_pos. rewrite seqZ_app, omap_app by lia. by f_equal.
Qed.

(** The sums after [k] iterations of the loop of lines 1451-1472. *)
Lemma flock_step_sums MAX_FLOCKS g bs order k (c : Vec3F F) fc :
  (∀ n b, rd bs n = Some b → is_counted g n b = true →
          ∃ r, rd order (cluster_id b) = Some r ∧ 0 ≤ r) →
  length (pgcell g) = length bs → 0 ≤ k < numPoints bs →
  c = foldl vadd vzero (counted_pos g bs order None k) →
  Z.of_nat (length fc) = MAX_FLOCKS →
  (∀ r, 0 ≤ r < MAX_FLOCKS →
        rd fc r = Some (foldl vadd vzero (counted_pos g bs order (Some r) k))) →
  ∃ c' fc', flock_step g bs order MAX_FLOCKS (c, fc) k = Some (c', fc') ∧
    c' = foldl vadd vzero (counted_pos g bs order None (k + 1)) ∧
    Z.of_nat (length fc') = MAX_FLOCKS ∧
    (∀ r, 0 ≤ r < MAX_FLOCKS →
          rd fc' r = Some (foldl vadd vzero (counted_pos g bs order (Some r) (k + 1)))).
Proof.
  intros Hord Hlen Hk Hc Hl Hfc. unfold numPoints in Hk.
  destruct (rd_is_Some bs k) as [b Hb]; [lia|].
  destruct (rd_is_Some (pgcell g) k) as [gc Hgc]; [lia|].
  unfold flock_step. rewrite Hb, Hgc. simpl.
  assert (is_counted g k b =
          negb (i32 gc =? GRID_UNDEF) &&
          negb (fisnan (vx (pos b)) || fisnan (vy (pos b)) || fisnan (vz (pos b))))
    as Hcnt by (unfold is_counted; by rewrite Hgc).
  assert (∀ r, counted_bird g bs order r k =
               if is_counted g k b then
                 match r with
                 | None => Some (pos b)
                 | Some r => order_n ← rd order (cluster_id b);
                             if order_n =? r then Some (pos b) else None
                 end
               else None) as Hcb.
  { intros r. unfold counted_bird. by rewrite Hb. }
  destruct (is_counted g k b) eqn:Hic.
  - symmetry in Hcnt. apply andb_true_iff in Hcnt as [-> Hnan].
    apply negb_true_iff in Hnan. rewrite Hnan. simpl.
    destruct (Hord k b Hb Hic) as (r0 & Hr0 & Hr0pos). rewrite Hr0. simpl.
    assert (foldl vadd vzero (counted_pos g bs order None (k + 1)) = vadd c (pos b)) as Hc'.
    { rewrite counted_pos_succ, Hcb by lia. by rewrite foldl_app, <- Hc. }
    assert (∀ r, counted_pos g bs order (Some r) (k + 1) =
                 counted_pos g bs order (Some r) k ++
                 (if r0 =? r then [pos b] else [])) as Hsucc.
    { intros r. rewrite counted_pos_succ, Hcb by lia. rewrite Hr0. simpl.
      by destruct (r0 =? r). }
    destruct (Z.ltb_spec r0 MAX_FLOCKS) as [Hlt|Hge].
    + rewrite (Hfc r0) by lia. simpl.
      destruct (wr_is_Some fc r0
                  (vadd (foldl vadd vzero (counted_pos g bs order (Some r0) k)) (pos b)))
        as [fc' Hw]; [lia|].
      rewrite Hw. simpl. eexists _, fc'. split; [done|].
      rewrite (wr_length _ _ _ _ Hw). split_and!; [done|done|].
      intros r Hr. rewrite Hsucc. destruct (Z.eqb_spec r0 r) as [<-|Hne].
      * rewrite (rd_wr_eq _ _ _ _ Hw). by rewrite foldl_app.
      * rewrite (rd_wr_ne _ _ _ _ _ Hw) by done. rewrite app_nil_r. by apply Hfc.
    + eexists _, fc. split; [done|]. split_and!; [done|done|].
      intros r Hr. rewrite Hsucc, (proj2 (Z.eqb_neq r0 r)) by lia.
      rewrite app_nil_r. by apply Hfc.
  - assert ((if negb (i32 gc =? GRID_UNDEF)
             then if fisnan (vx (pos b)) || fisnan (vy (pos b)) || fisnan (vz (pos b))
                  then Some (c, fc)
                  else order_n ← rd order (cluster_id b);
                       (if order_n <? MAX_FLOCKS
                        then fc0 ← rd fc order_n;
                             flock_centers ← wr fc order_n (vadd fc0 (pos b));
                             Some (vadd c (pos b), flock_centers)
                        else Some (vadd c (pos b), fc))
             else Some (c, fc)) = Some (c, fc)) as ->.
    { destruct (i32 gc =? GRID_UNDEF); simpl in *; [done|].
      symmetry in Hcnt. apply negb_false_iff in Hcnt. by rewrite Hcnt. }
    exists c, fc. split; [done|]. split_and!; [|done|].
    + rewrite counted_pos_succ, Hcb by lia. by rewrite app_nil_r.
    + intros r Hr. rewrite counted_pos_succ, Hcb by lia. rewrite app_nil_r. by apply Hfc.
Qed.

(** The two loops of [UpdateFlockData]. *)
Lemma UpdateFlockData_returns MAX_FLOCKS g bs hist order :
  0 ≤ MAX_FLOCKS ≤ Z.of_nat (length hist) →
  length (pgcell g) = length bs →
  (∀ n b, rd bs n = Some b → is_counted g n b = true →
          ∃ r, rd order (cluster_id b) = Some r ∧ 0 ≤ r) →
  ∃ c fc, UpdateFlockData MAX_FLOCKS g bs hist order = Some (c, fc) ∧
    c = vscale (foldl vadd vzero (counted_pos g bs order None (numPoints bs)))
               (fdiv (f_of_int 1) (f_of_int (numPoints bs))) ∧
    Z.of_nat (length fc) = MAX_FLOCKS ∧
    ∀ r h, 0 ≤ r < MAX_FLOCKS → rd hist r = Some h →
      rd fc r = Some (vdiv (foldl vadd vzero
                              (counted_pos g bs order (Some r) (numPoints bs)))
                           (f_of_int (bird_cnt h))).
Proof.
  intros HM Hlen Hord. unfold UpdateFlockData.
  destruct (for_each_seqZ
              (λ k (st : Vec3F F * list (Vec3F F)),
                 st.1 = foldl vadd vzero (counted_pos g bs order None k) ∧
                 Z.of_nat (length st.2) = MAX_FLOCKS ∧
                 ∀ r, 0 ≤ r < MAX_FLOCKS →
                   rd st.2 r = Some (foldl vadd vzero (counted_pos g bs order (Some r) k)))
              (flock_step g bs order MAX_FLOCKS) 0 (numPoints bs)
              (vzero, replicate (Z.to_nat MAX_FLOCKS) vzero))
    as ([c fc] & Hrun & Hc & Hl & Hfc).
  - unfold numPoints. lia.
  - simpl. rewrite length_replicate. split_and!; [done|lia|].
    intros r Hr. apply rd_Some. split; [lia|]. apply lookup_replicate_2. lia.
  - intros k [c fc] Hk (Hc & Hl & Hfc). simpl in *.
    destruct (flock_step_sums MAX_FLOCKS g bs order k c fc Hord Hlen)
      as (c' & fc' & Hstep & Hc' & Hl' & Hfc'); try done.
    by exists (c', fc').
  - rewrite Hrun. simpl in *. rewrite Z.add_0_l in *.
    destruct (for_each_seqZ
                (λ k (fc' : list (Vec3F F)),
                   Z.of_nat (length fc') = MAX_FLOCKS ∧
                   (∀ r h, 0 ≤ r < k → rd hist r = Some h →
                      rd fc' r = Some (vdiv (foldl vadd vzero
                                   (counted_pos g bs order (Some r) (numPoints bs)))
                                   (f_of_int (bird_cnt h)))) ∧
                   (∀ r, k ≤ r < MAX_FLOCKS → rd fc' r = rd fc r))
                (center_step hist) 0 MAX_FLOCKS fc)
      as (fc' & Hdiv & Hl' & Hlow & _).
    + lia.
    + split_and!; [done|intros; lia|done].
    + intros k s Hk (Hls & Hlo & Hhi). unfold center_step.
      rewrite (Hhi k), (Hfc k) by lia. simpl.
      destruct (rd_is_Some hist k) as [hk Hhk]; [lia|]. rewrite Hhk. simpl.
      destruct (wr_is_Some s k
                  (vdiv (foldl vadd vzero (counted_pos g bs order (Some k) (numPoints bs)))
                        (f_of_int (bird_cnt hk)))) as [s' Hw]; [lia|].
      exists s'. split; [done|]. rewrite (wr_length _ _ _ _ Hw). split_and!; [done| |].
      * intros r h Hr Hh. destruct (decide (r = k)) as [->|Hne].
        -- rewrite Hhk in Hh. injection Hh as <-. by apply (rd_wr_eq _ _ _ _ Hw).
        -- rewrite (rd_wr_ne _ _ _ _ _ Hw) by done. apply Hlo; [lia|done].
      * intros r Hr. rewrite (rd_wr_ne _ _ _ _ _ Hw) by lia. apply Hhi. lia.
    + rewrite Hdiv. simpl. eexists _, fc'. split; [done|]. rewrite Hc.
      split_and!; [done|done|]. intros r h Hr Hh. apply Hlow; [lia|done].
Qed.

Lemma UpdateFlockData_fails MAX_FLOCKS g bs hist order :
  Z.of_nat (length hist) < MAX_FLOCKS →
  UpdateFlockData MAX_FLOCKS g bs hist order = None.
Proof.
  intros HM. unfold UpdateFlockData.
  destruct (for_each _ _ _) as [[c fc]|]; [simpl|done].
  rewrite (for_each_None _ _ (Z.of_nat (length hist))); [done| |].
  - apply elem_of_seqZ. lia.
  - intros s. unfold center_step. destruct (rd s _); [simpl|done].
    by rewrite (proj2 (rd_None hist (Z.of_nat (length hist)))) by lia.
Qed.

(** X11. [UpdateFlockData] returns when the histogram has an entry for every
    flock slot and the order of the cluster of every counted bird is known.
    The centroid is the sum of the positions of the counted birds (those
    with a grid cell and no NaN coordinate), times the reciprocal of the
    number of all birds; the centre of slot [r] is the sum of the positions
    of the counted birds whose cluster has order [r], divided by the count
    of the histogram entry [r]. *)
Theorem UpdateFlockData_sums_counted_birds MAX_FLOCKS g bs hist order :
  0 ≤ MAX_FLOCKS ≤ Z.of_nat (length hist) →
  length (pgcell g) = length bs →
  (∀ n b, rd bs n = Some b → is_counted g n b = true →
          ∃ r, rd order (cluster_id b) = Some r ∧ 0 ≤ r) →
  ∃ c fc, UpdateFlockData MAX_FLOCKS g bs hist order = Some (c, fc) ∧
    c = vscale (foldl vadd vzero (counted_pos g bs order None (numPoints bs)))
               (fdiv (f_of_int 1) (f_of_int (numPoints bs))) ∧
    Z.of_nat (length fc) = MAX_FLOCKS ∧
    ∀ r h, 0 ≤ r < MAX_FLOCKS → rd hist r = Some h →
      rd fc r = Some (vdiv (foldl vadd vzero
                              (counted_pos g bs order (Some r) (numPoints bs)))
                           (f_of_int (bird_cnt h))).
Proof. apply UpdateFlockData_returns. Qed.

(** X12. When there are more flock slots than histogram entries, the checked
    access of line 1475 fails: [UpdateFlockData] does not return. *)
Theorem UpdateFlockData_needs_an_entry_per_slot MAX_FLOCKS g bs hist order :
  Z.of_nat (length hist) < MAX_FLOCKS →
  UpdateFlockData MAX_FLOCKS g bs hist order = None.
Proof. apply UpdateFlockData_fails. Qed.

End FlockSums.

Lemma UpdateFlockData_sums_counted_birds_witness :
  ∃ c fc, UpdateFlockData 1 (mkGrid [86] [0] [] [] [0]) [demo_bird (v3 9 9 9)]
            [mkHistogram 0 1] [0] = Some (c, fc) ∧
    Z.of_nat (length fc) = 1.
Proof.
  destruct (UpdateFlockData_sums_counted_birds 1 (mkGrid [86] [0] [] [] [0])
              [demo_bird (v3 9 9 9)] [mkHistogram 0 1] [0])
    as (c & fc & Hrun & _ & Hl & _).
  - simpl. lia.
  - reflexivity.
  - intros n b [_ Hn]%rd_Some _. exists 0.
    destruct (Z.to_nat n); [|discriminate Hn]. injection Hn as <-.
    split; [reflexivity|lia].
  - exists c, fc. split; assumption.
Defined.

Lemma UpdateFlockData_needs_an_entry_per_slot_witness :
  UpdateFlockData 1 (mkGrid [] [] [] [] []) ([] : list (Bird float32)) [] [] = None.
Proof. apply UpdateFlockData_needs_an_entry_per_slot. simpl. lia. Defined.

(** * One step up to the flock centres *)

Section StepCentres.
Context {F : Type} `{FloatOps F}.
Implicit Types (a : Accel F) (p : Params F) (bs : list (Bird F)) (st : NbrState F).

(** X13. After the grid, the neighbour search and the ranking of one step,
    [UpdateFlockData] returns exactly when [MAX_FLOCKS] is at most the
    number of clusters that the search has opened, wherever the birds have
    moved to in the meantime. *)
Theorem flock_centres_need_enough_clusters a p bs old junk_d junk_j :
  accel_wf a → coords_defined a bs → numPoints bs ≤ INT_MAX →
  length old = length bs → neighbors p ≤ 15 →
  length junk_d = 16%nat → length junk_j = 16%nat →
  ∃ g st hist order,
    neighbor_pass a p bs old junk_d junk_j = Some (g, st) ∧
    CalculateClusters (cluster_assignment st) = Some (hist, order) ∧
    Z.of_nat (length (cluster_assignment st)) = max_cluster_id st + 1 ∧
    Z.of_nat (length (cluster_assignment st)) ≤ numPoints bs ∧
    ∀ MAX_FLOCKS (bs' : list (Bird F)),
      0 ≤ MAX_FLOCKS → length bs' = length bs →
      (∀ n, cid_of bs' n = cid_of (birds st) n) →
      is_Some (UpdateFlockData MAX_FLOCKS g bs' hist order) ↔
      MAX_FLOCKS ≤ Z.of_nat (length (cluster_assignment st)).
Proof.
  intros Hwf Hdef HN Hold HK Hld Hlj.
  destruct (neighbor_pass_head a p bs old junk_d junk_j Hwf Hdef HN Hold HK Hld Hlj)
    as (g & st & Hrun & Hb & Hh).
  pose proof (hi_cluster _ _ _ _ _ Hh) as Hinv.
  destruct (CalculateClusters_spec (cluster_assignment st))
    as (hist & order & Hcalc & Hlh & Hlo & Hrank & Hinvr).
  exists g, st, hist, order. split_and!; [done|done|apply (ci_len st Hinv)| |].
  { apply (hi_ca_len _ _ _ _ _ Hh). }
  intros MAX_FLOCKS bs' HM Hlen' Hcid. split.
  - intros [res Hres]. destruct (decide (MAX_FLOCKS ≤ Z.of_nat (length (cluster_assignment st))))
      as [|Hgt]; [done|].
    rewrite UpdateFlockData_fails in Hres by lia. done.
  - intros Hle.
    destruct (UpdateFlockData_returns MAX_FLOCKS g bs' hist order) as (c & fc & -> & _).
    + lia.
    + rewrite (cnt_cell _ _ _ (bk_counted _ _ _ Hb)). unfold cells.
      by rewrite length_fmap.
    + intros n b' Hn _.
      assert (cid_of (birds st) n = Some (cluster_id b')) as Hc.
      { rewrite <- Hcid. apply cid_of_Some. by exists b'. }
      pose proof (rd_range _ _ _ Hn) as Hr. rewrite Hlen' in Hr.
      destruct (hi_assigned _ _ _ _ _ Hh n) as (c & Hc' & Hne);
        [unfold numPoints; lia|lia|].
      rewrite Hc in Hc'. injection Hc' as <-.
      destruct (ci_ids st Hinv n _ Hc) as [|Hcr]; [done|].
      destruct (rd_is_Some (cluster_assignment st) (cluster_id b')) as [ms Hms]; [lia|].
      destruct (Hinvr _ ms Hms) as (r & Hor & Hhr%rd_range).
      exists r. split; [done|lia].
    + done.
Qed.

(** X14. The neighbour search moves no bird and changes no velocity, and it
    keeps the number of birds. *)
Theorem FindNeighbors_moves_no_bird a p bs old junk_d junk_j :
  accel_wf a → coords_defined a bs → numPoints bs ≤ INT_MAX →
  length old = length bs → neighbors p ≤ 15 →
  length junk_d = 16%nat → length junk_j = 16%nat →
  ∃ g st, neighbor_pass a p bs old junk_d junk_j = Some (g, st) ∧
    length (birds st) = length bs ∧
    ∀ n b, rd bs n = Some b →
      ∃ b', rd (birds st) n = Some b' ∧ pos b' = pos b ∧ vel b' = vel b.
Proof.
  intros Hwf Hdef HN Hold HK Hld Hlj.
  destruct (neighbor_pass_head a p bs old junk_d junk_j Hwf Hdef HN Hold HK Hld Hlj)
    as (g & st & Hrun & _ & Hh).
  exists g, st. split_and!; [done|apply (hi_len _ _ _ _ _ Hh)|].
  intros n b Hn. destruct (hi_static _ _ _ _ _ Hh n b Hn) as (b' & Hb' & Hp & Hv).
  by exists b'.
Qed.

End StepCentres.

Lemma flock_centres_need_enough_clusters_witness :
  ∃ g st hist order,
    neighbor_pass demo_accel demo_params demo_birds demo_old demo_junk_d demo_junk_j
      = Some (g, st) ∧
    CalculateClusters (cluster_assignment st) = Some (hist, order) ∧
    Z.of_nat (length (cluster_assignment st)) ≤ numPoints demo_birds.
Proof.
  destruct (flock_centres_need_enough_clusters demo_accel demo_params demo_birds demo_old
              demo_junk_d demo_junk_j)
    as (g & st & hist & order & Hrun & Hcalc & _ & Hle & _); [demo_side..|].
  exists g, st, hist, order. split_and!; assumption.
Defined.

Lemma FindNeighbors_moves_no_bird_witness :
  ∃ g st, neighbor_pass demo_accel demo_params demo_birds demo_old demo_junk_d demo_junk_j
            = Some (g, st) ∧
    length (birds st) = length demo_birds.
Proof.
  destruct (FindNeighbors_moves_no_bird demo_accel demo_params demo_birds demo_old
              demo_junk_d demo_junk_j) as (g & st & Hrun & Hlen & _); [demo_side..|].
  exists g, st. split; assumption.
Defined.

(** * AssignClusters *)

Lemma rtsc_idemp {A} (R : relation A) x y : rtsc (rtsc R) x y → rtsc R x y.
Proof.
  induction 1 as [x|x y z Hxy _ IH]; [done|].
  etrans; [|exact IH]. destruct Hxy as [Hxy|Hyx]; [done|by symmetry].
Qed.

Section AssignClusters.
Context {F : Type} `{FloatOps F}.
Implicit Types (st : NbrState F) (tbl : list ClusterNbrs) (bs : list (Bird F)).

Lemma frame_relabel bs0 bs bs' f :
  (∀ n b, rd bs0 n = Some b → ∃ c, rd bs n = Some (set_cluster_id c b)) →
  relabel f bs bs' →
  ∀ n b, rd bs0 n = Some b → ∃ c, rd bs' n = Some (set_cluster_id c b).
Proof.
  intros Hfr [_ Hrel] n b Hn. destruct (Hfr n b Hn) as (c & Hc).
  eexists. rewrite (Hrel _ _ Hc). by rewrite set_cluster_id_twice.
Qed.

Lemma cluster_pair_self i st bi :
  rd (birds st) i = Some bi → cluster_id bi ≠ -1 → cluster_pair i i st = Some st.
Proof.
  intros Hi Hne. unfold cluster_pair, join_cluster. rewrite Hi. simpl.
  rewrite (proj2 (Z.eqb_neq _ _) Hne). simpl.
  unfold merge_clusters. rewrite Hi. simpl. by rewrite Z.eqb_refl.
Qed.

(** The cluster ids after an operation that relabels like a pair. *)
Lemma pair_walk tbl bs0 N st st' (u v t cj : Z) :
  Z.of_nat (length (birds st)) = N →
  (∀ n b, rd bs0 n = Some b → ∃ c, rd (birds st) n = Some (set_cluster_id c b)) →
  (∀ x y c, cid_of (birds st) x = Some c → cid_of (birds st) y = Some c →
            c ≠ -1 → rtsc (nbr_edge tbl) x y) →
  cid_of (birds st) u = Some t → t ≠ -1 → cid_of (birds st) v = Some cj →
  rtsc (nbr_edge tbl) u v →
  relabel (pair_relabel v t cj) (birds st) (birds st') →
  cluster_inv st' →
  length (cluster_assignment st') = length (cluster_assignment st) →
  Z.of_nat (length (birds st')) = N ∧
  (∀ n b, rd bs0 n = Some b → ∃ c, rd (birds st') n = Some (set_cluster_id c b)) ∧
  (∀ n c, cid_of (birds st) n = Some c → c ≠ -1 →
          ∃ c', cid_of (birds st') n = Some c' ∧ c' ≠ -1) ∧
  (∀ x y c, cid_of (birds st') x = Some c → cid_of (birds st') y = Some c →
            c ≠ -1 → rtsc (nbr_edge tbl) x y) ∧
  (∀ x y c, cid_of (birds st) x = Some c → cid_of (birds st) y = Some c → c ≠ -1 →
            ∃ c', c' ≠ -1 ∧ cid_of (birds st') x = Some c' ∧ cid_of (birds st') y = Some c') ∧
  cid_of (birds st') u = Some t ∧ cid_of (birds st') v = Some t.
Proof.
  intros Hlen Hframe Hconn Hu Ht Hv Huv Hrel Hinv' Hlen'.
  assert (∀ n, cid_of (birds st') n = pair_relabel v t cj n <$> cid_of (birds st) n) as Hcid
    by (intros n; by apply relabel_cid).
  split_and!.
  - by rewrite (relabel_length _ _ _ Hrel).
  - apply (frame_relabel bs0 (birds st) _ _ Hframe Hrel).
  - apply (pair_assigned (birds st) (birds st') v t cj Ht Hcid).
  - intros x y c Hx Hy Hc. apply rtsc_idemp.
    apply (pair_conn (birds st) (birds st') u v t cj Hu Hv Hcid (rtsc (nbr_edge tbl)))
      with (c := c); try done.
    intros x' y' c' Hx' Hy' Hc'. apply rtsc_lr. by apply (Hconn x' y' c').
  - apply (pair_same (birds st) (birds st') v t cj Ht Hv Hcid).
  - apply (pair_cid_i (birds st) (birds st') u v t cj Hu Hcid).
  - apply (pair_cid_j (birds st) (birds st') v t cj Hv Hcid).
Qed.

Lemma assign_nbr_walk tbl bs0 N i k st nb :
  nbrs_valid tbl N → rd tbl i = Some nb → 0 ≤ i < N → 0 ≤ k < cluster_nbr_cnt nb →
  assign_walk tbl bs0 N i k st →
  ∃ st', assign_nbr i nb st k = Some st' ∧ assign_walk tbl bs0 N i (k + 1) st'.
Proof.
  intros [Htl Hval] Hnb Hi Hk Hw.
  destruct (Hval i nb k Hnb Hk) as (j & Hj & Hjr).
  unfold assign_nbr. rewrite Hj. simpl.
  pose proof (aw_len _ _ _ _ _ _ Hw) as Hlen.
  destruct (rd_is_Some (birds st) i) as [bi Hbi]; [lia|].
  destruct (rd_is_Some (birds st) j) as [bj Hbj]; [lia|].
  destruct (aw_assigned _ _ _ _ _ _ Hw i) as (t & Hti & Ht); [lia|lia|].
  assert (cluster_id bi = t) as Hbt.
  { apply cid_of_Some in Hti as (b & Hb & <-). congruence. }
  assert (cid_of (birds st) j = Some (cluster_id bj)) as Hcj
    by (apply cid_of_Some; by exists bj).
  assert (nbr_edge tbl i j) as Hedge by (by exists nb, k).
  assert (∀ st', (∀ x y c, cid_of (birds st) x = Some c → cid_of (birds st) y = Some c →
                   c ≠ -1 → ∃ c', c' ≠ -1 ∧ cid_of (birds st') x = Some c' ∧
                                  cid_of (birds st') y = Some c') →
            (∃ c, c ≠ -1 ∧ cid_of (birds st') i = Some c ∧ cid_of (birds st') j = Some c) →
            ∀ i' j' nb' l, 0 ≤ i' ≤ i → rd tbl i' = Some nb' →
              0 ≤ l < cluster_nbr_cnt nb' → (i' = i → l < k + 1) →
              rd (cluster_nbrs nb') l = Some j' →
              ∃ c, c ≠ -1 ∧ cid_of (birds st') i' = Some c ∧ cid_of (birds st') j' = Some c)
    as Hfound.
  { intros st' Hsame Hnew i' j' nb' l Hi' Hnb' Hl Hlt Hj'.
    destruct (decide (i' = i ∧ l = k)) as [[-> ->]|Hn].
    - rewrite Hnb in Hnb'. injection Hnb' as <-. rewrite Hj in Hj'. by injection Hj' as <-.
    - destruct (aw_found _ _ _ _ _ _ Hw i' j' nb' l) as (c & Hc & Hci & Hcj'); try done.
      { intros ->. specialize (Hlt eq_refl). lia. }
      by apply (Hsame i' j' c). }
  destruct (decide (i = j)) as [<-|Hij].
  - rewrite (cluster_pair_self i st bi Hbi) by congruence. exists st. split; [done|].
    split; try apply Hw.
    apply Hfound; [intros x y c ???; by exists c|by exists t].
  - destruct (cluster_pair_effect i j st bi bj) as (st' & Hrun & Hrel & Hinv' & Hlen' & _);
      [apply Hw|done|done|congruence|done|].
    rewrite Hbt in Hrel.
    destruct (pair_walk tbl bs0 N st st' i j t (cluster_id bj) Hlen
                (aw_frame _ _ _ _ _ _ Hw) (aw_conn _ _ _ _ _ _ Hw) Hti Ht Hcj
                (rtsc_lr _ _ Hedge) Hrel Hinv' Hlen')
      as (Hl' & Hfr' & Hass' & Hconn' & Hsame' & Hci' & Hcj').
    exists st'. split; [done|]. split; try done.
    + rewrite Hlen'. apply (aw_ca_len _ _ _ _ _ _ Hw).
    + intros n Hn HnN. destruct (aw_assigned _ _ _ _ _ _ Hw n Hn HnN) as (c & Hc & Hne).
      by apply (Hass' n c).
    + apply Hfound; [done|by exists t].
Qed.

(** The search of lines 1233-1238 returns the sentinel, or the cluster id
    of one of the neighbours. *)
Lemma min_nbr_spec tbl N i nb bs :
  nbrs_valid tbl N → rd tbl i = Some nb → Z.of_nat (length bs) = N →
  ∃ m, for_each (min_nbr_step bs nb) (seqZ 0 (cluster_nbr_cnt nb)) (-1) = Some m ∧
       (m = -1 ∨ ∃ j, nbr_edge tbl i j ∧ cid_of bs j = Some m).
Proof.
  intros [Htl Hval] Hnb Hlen.
  destruct (decide (cluster_nbr_cnt nb ≤ 0)) as [Hle|Hpos].
  { rewrite seqZ_nil by done. exists (-1). split; [done|by left]. }
  destruct (for_each_seqZ
              (λ (k m : Z), m = -1 ∨ ∃ j, nbr_edge tbl i j ∧ cid_of bs j = Some m)
              (min_nbr_step bs nb) 0 (cluster_nbr_cnt nb) (-1))
    as (m & Hrun & Hm); [lia|by left| |by exists m].
  intros k m Hk Hm. destruct (Hval i nb k Hnb) as (j & Hj & Hjr); [lia|].
  destruct (rd_is_Some bs j) as [bj Hbj]; [lia|].
  unfold min_nbr_step. rewrite Hj. simpl. rewrite Hbj. simpl.
  eexists; split; [done|].
  destruct (negb (cluster_id bj =? -1) && ((cluster_id bj <? m) || (m =? -1))); [|done].
  right. exists j. split; [exists nb, k; split_and!; try done; lia|].
  apply cid_of_Some. by exists bj.
Qed.

Lemma assign_own_walk tbl bs0 N i st nb :
  nbrs_valid tbl N → rd tbl i = Some nb → 0 ≤ i < N → N ≤ INT_MAX →
  assign_inv tbl bs0 N i st →
  ∃ st', assign_own i nb st = Some st' ∧ assign_walk tbl bs0 N i 0 st'.
Proof.
  intros Hval Hnb Hi HN Hinv.
  pose proof (ai_len _ _ _ _ _ Hinv) as Hlen.
  pose proof (ai_cluster _ _ _ _ _ Hinv) as Hci.
  pose proof (ai_ca_len _ _ _ _ _ Hinv) as Hcal.
  destruct (rd_is_Some (birds st) i) as [bi Hbi]; [lia|].
  assert (cid_of (birds st) i = Some (cluster_id bi)) as Hcidi
    by (apply cid_of_Some; by exists bi).
  assert (∀ i' j nb' l, 0 ≤ i' ≤ i → rd tbl i' = Some nb' →
            0 ≤ l < cluster_nbr_cnt nb' → (i' = i → l < 0) →
            rd (cluster_nbrs nb') l = Some j →
            0 ≤ i' < i ∧ nbr_edge tbl i' j) as Hold.
  { intros i' j nb' l Hi' Hnb' Hl Hlt Hj. split.
    - destruct (decide (i' = i)) as [->|]; [specialize (Hlt eq_refl)|]; lia.
    - by exists nb', l. }
  unfold assign_own. rewrite Hbi. simpl.
  destruct (Z.eqb_spec (cluster_id bi) (-1)) as [Hun|Hhas].
  2:{ exists st. split; [done|]. split; try apply Hinv.
      - lia.
      - intros n Hn HnN. destruct (decide (n = i)) as [->|].
        + by exists (cluster_id bi).
        + apply (ai_assigned _ _ _ _ _ Hinv); lia.
      - intros i' j nb' l Hi' Hnb' Hl Hlt Hj.
        destruct (Hold i' j nb' l) as [? ?]; try done.
        by apply (ai_found _ _ _ _ _ Hinv). }
  rewrite Hun in Hcidi.
  destruct (min_nbr_spec tbl N i nb (birds st) Hval Hnb Hlen) as (m & -> & Hm). simpl.
  pose proof (ci_len st Hci) as Hmax. unfold INT_MAX in HN.
  destruct (Z.eqb_spec m (-1)) as [->|Hmne].
  - (* a new cluster *)
    rewrite (upd_bird_spec _ _ _ _ Hbi). simpl.
    rewrite i32_small by lia. eexists; split; [done|].
    set (mx := max_cluster_id st + 1).
    set (st' := set_clusters mx _ _).
    assert (relabel (λ n c, if n =? i then i32 (max_cluster_id st + 1) else c)
              (birds st) (birds st')) as Hrel.
    { rewrite i32_small by lia. by apply relabel_insert. }
    assert (∀ n, cid_of (birds st') n =
                 (λ c, if n =? i then mx else c) <$> cid_of (birds st) n) as Hcid.
    { intros n. rewrite (relabel_cid _ _ _ n Hrel), i32_small by lia.
      done. }
    assert (∀ n c, n ≠ i → cid_of (birds st) n = Some c → cid_of (birds st') n = Some c)
      as Hkeep.
    { intros n c Hn Hc. rewrite Hcid, Hc. simpl. by rewrite (proj2 (Z.eqb_neq n i)). }
    assert (∀ n c, cid_of (birds st') n = Some c →
              (n = i ∧ c = mx) ∨ (n ≠ i ∧ cid_of (birds st) n = Some c ∧ c ≠ mx)) as Hsplit.
    { intros n c. rewrite Hcid. destruct (cid_of (birds st) n) as [c0|] eqn:Hc0; [|done].
      simpl. destruct (Z.eqb_spec n i) as [->|Hne]; intros [= <-]; [by left|right].
      split_and!; try done. destruct (ci_ids st Hci n c0 Hc0); unfold mx; lia. }
    split.
    + by rewrite (relabel_length _ _ _ Hrel).
    + apply (frame_relabel bs0 (birds st) _ _ (ai_frame _ _ _ _ _ Hinv) Hrel).
    + apply (new_cluster_inv i st st');
        first [done | unfold INT_MAX; lia | by rewrite i32_small by lia].
    + simpl. rewrite length_app. simpl. lia.
    + intros n Hn HnN. destruct (decide (n = i)) as [->|Hne].
      * exists mx. rewrite Hcid, Hcidi. simpl. rewrite Z.eqb_refl. split; [done|unfold mx; lia].
      * destruct (ai_assigned _ _ _ _ _ Hinv n) as (c & Hc & Hcne); [lia|lia|].
        exists c. split; [by apply Hkeep|done].
    + intros x y c Hx Hy Hc.
      destruct (Hsplit x c Hx) as [[-> Hxm]|(Hxi & Hx' & Hxm)],
               (Hsplit y c Hy) as [[-> Hym]|(Hyi & Hy' & Hym)]; try done.
      by apply (ai_conn _ _ _ _ _ Hinv x y c).
    + intros i' j nb' l Hi' Hnb' Hl Hlt Hj.
      destruct (Hold i' j nb' l) as [Hi'' Hedge]; try done.
      destruct (ai_found _ _ _ _ _ Hinv i' j Hi'' Hedge) as (c & Hc & Hci' & Hcj).
      exists c. split; [done|]. split; apply Hkeep; try done; [lia|].
      intros ->. congruence.
  - (* the least cluster of the neighbours *)
    destruct Hm as [?|(j0 & Hedge & Hj0)]; [done|].
    destruct (ci_ids st Hci j0 m Hj0) as [?|Hmr]; [done|].
    destruct (rd_is_Some (cluster_assignment st) m Hmr) as [ms Hms].
    rewrite (upd_bird_spec _ _ _ _ Hbi). simpl. rewrite Hms. simpl.
    destruct (wr_is_Some (cluster_assignment st) m (ms ++ [i])) as [ca Hw]; [done|].
    rewrite Hw. simpl. eexists; split; [done|].
    set (st' := set_clusters _ ca _).
    assert (relabel (λ n c, if n =? i then m else c) (birds st) (birds st')) as Hrel
      by (by apply relabel_insert).
    assert (cluster_inv st') as Hci'.
    { apply (join_cluster_inv j0 i st st' m ms); try done.
      by apply wr_Some in Hw as [_ ->]. }
    assert (relabel (pair_relabel i m (-1)) (birds st) (birds st')) as Hrel'.
    { eapply relabel_ext; [|exact Hrel]. intros n b _. simpl. unfold pair_relabel.
      by rewrite andb_false_r, orb_false_r. }
    assert (length (cluster_assignment st') = length (cluster_assignment st)) as Hlca.
    { simpl. by rewrite (wr_length _ _ _ _ Hw). }
    destruct (pair_walk tbl bs0 N st st' j0 i m (-1) Hlen
                (ai_frame _ _ _ _ _ Hinv) (ai_conn _ _ _ _ _ Hinv) Hj0 Hmne Hcidi
                (rtsc_rl _ _ Hedge) Hrel' Hci' Hlca)
      as (Hl' & Hfr' & Hass' & Hconn' & Hsame' & _ & Hcv).
    split; try done.
    + rewrite Hlca. lia.
    + intros n Hn HnN. destruct (decide (n = i)) as [->|Hne]; [by exists m|].
      destruct (ai_assigned _ _ _ _ _ Hinv n) as (c & Hc & Hcne); [lia|lia|].
      by apply (Hass' n c).
    + intros i' j nb' l Hi' Hnb' Hl Hlt Hj.
      destruct (Hold i' j nb' l) as [Hi'' Hedge']; try done.
      destruct (ai_found _ _ _ _ _ Hinv i' j Hi'' Hedge') as (c & Hc & Hci'' & Hcj).
      by apply (Hsame' i' j c).
Qed.

Lemma assign_bird_inv tbl bs0 N i st :
  nbrs_valid tbl N → 0 ≤ i < N → N ≤ INT_MAX → assign_inv tbl bs0 N i st →
  ∃ st', assign_bird tbl st i = Some st' ∧ assign_inv tbl bs0 N (i + 1) st'.
Proof.
  intros Hval Hi HN Hinv.
  destruct (rd_is_Some tbl i) as [nb Hnb]; [destruct Hval; lia|].
  unfold assign_bird. rewrite Hnb. simpl.
  destruct (assign_own_walk tbl bs0 N i st nb Hval Hnb Hi HN Hinv) as (st1 & -> & Hw1).
  simpl.
  assert (∃ st' k, for_each (assign_nbr i nb) (seqZ 0 (cluster_nbr_cnt nb)) st1 = Some st' ∧
                   cluster_nbr_cnt nb ≤ k ∧ assign_walk tbl bs0 N i k st')
    as (st' & k & Hrun & Hk & Hw).
  { destruct (decide (cluster_nbr_cnt nb ≤ 0)) as [Hle|Hpos].
    - rewrite seqZ_nil by done. exists st1, 0. done.
    - destruct (for_each_seqZ (assign_walk tbl bs0 N i) (assign_nbr i nb)
                  0 (cluster_nbr_cnt nb) st1) as (st' & Hrun & Hw'); [lia|done| |].
      + intros k s Hk Hs. apply assign_nbr_walk; try done; lia.
      + exists st', (0 + cluster_nbr_cnt nb). split_and!; [done|lia|done]. }
  exists st'. split; [done|]. split; try apply Hw.
  - intros n Hn HnN. apply (aw_assigned _ _ _ _ _ _ Hw); lia.
  - intros i' j Hi' (nb' & l & Hnb' & Hl & Hj).
    apply (aw_found _ _ _ _ _ _ Hw i' j nb' l); try done; [lia|].
    intros ->. rewrite Hnb in Hnb'. injection Hnb' as <-. lia.
Qed.

(** [AssignClusters] with the clustering switched on returns, and its final
    state satisfies the invariant for all the birds. *)
Lemma AssignClusters_inv tbl st :
  nbrs_valid tbl (numPoints (birds st)) → numPoints (birds st) ≤ INT_MAX →
  ∃ st', AssignClusters true true tbl st = Some st' ∧
         assign_inv tbl (birds st) (numPoints (birds st)) (numPoints (birds st)) st'.
Proof.
  intros Hval HN. unfold AssignClusters. simpl.
  destruct (for_each_seqZ (assign_inv tbl (birds st) (numPoints (birds st)))
              (assign_bird tbl) 0 (numPoints (birds st)) (reset_clusters st))
    as (st' & Hrun & Hinv).
  - unfold numPoints. lia.
  - assert (∀ n c, cid_of (set_cluster_id (-1) <$> birds st) n = Some c → c = -1) as Hcid.
    { intros n c (b & [_ Hbn]%rd_Some & <-)%cid_of_Some.
      rewrite list_lookup_fmap in Hbn. by destruct (birds st !! Z.to_nat n); simplify_eq/=. }
    split; simpl.
    + by rewrite length_fmap.
    + intros n b [? Hn]%rd_Some. exists (-1). apply rd_Some. split; [done|].
      by rewrite list_lookup_fmap, Hn.
    + split; simpl; [done| |].
      * intros n c Hn. left. by eapply Hcid.
      * intros c ms [_ Hc]%rd_Some. by rewrite lookup_nil in Hc.
    + lia.
    + intros n Hn. lia.
    + intros x y c Hx _ Hc. by apply Hcid in Hx.
    + intros i' j Hi'. lia.
  - intros k s Hk Hs. apply assign_bird_inv; try done; lia.
  - exists st'. by rewrite Z.add_0_l in Hinv.
Qed.

(** X15. With the clustering switched on, [AssignClusters] returns for every
    table of neighbours that lists birds.  It changes nothing of a bird
    but its cluster id; every bird gets an id that is not the sentinel and
    stands in the list of that id; and the lists together hold every
    bird once. *)
Theorem AssignClusters_partitions_the_flock tbl st :
  nbrs_valid tbl (numPoints (birds st)) → numPoints (birds st) ≤ INT_MAX →
  ∃ st', AssignClusters true true tbl st = Some st' ∧
    length (birds st') = length (birds st) ∧
    (∀ n b, rd (birds st) n = Some b →
       ∃ c ms, c ≠ -1 ∧ rd (birds st') n = Some (set_cluster_id c b) ∧
               rd (cluster_assignment st') c = Some ms ∧ n ∈ ms) ∧
    concat (cluster_assignment st') ≡ₚ seqZ 0 (numPoints (birds st)) ∧
    Z.of_nat (length (cluster_assignment st')) = max_cluster_id st' + 1.
Proof.
  intros Hval HN.
  destruct (AssignClusters_inv tbl st Hval HN) as (st' & Hrun & Hinv).
  pose proof (ai_cluster _ _ _ _ _ Hinv) as Hci.
  pose proof (ai_len _ _ _ _ _ Hinv) as Hlen.
  exists st'. split_and!; [done|unfold numPoints in Hlen; lia| | |apply (ci_len st' Hci)].
  - intros n b Hn. pose proof (rd_range _ _ _ Hn) as Hr.
    destruct (ai_frame _ _ _ _ _ Hinv n b Hn) as (c & Hc).
    destruct (ai_assigned _ _ _ _ _ Hinv n) as (c' & Hc' & Hne);
      [unfold numPoints; lia..|].
    assert (c' = c) as ->.
    { apply cid_of_Some in Hc' as (b' & Hb' & <-). rewrite Hc in Hb'. by injection Hb' as <-. }
    destruct (ci_ids st' Hci n c Hc') as [|Hcr]; [done|].
    destruct (rd_is_Some (cluster_assignment st') c Hcr) as [ms Hms].
    exists c, ms. split_and!; try done. by apply (ci_mem st' Hci c ms Hms).
  - destruct (cluster_inv_partition st' Hci) as [Hnd Hel].
    apply NoDup_Permutation; [done|apply NoDup_seqZ|]. intros x.
    rewrite Hel, elem_of_seqZ. split.
    + intros (c & (b & Hb%rd_range & _)%cid_of_Some & _). lia.
    + intros Hx. apply (ai_assigned _ _ _ _ _ Hinv); lia.
Qed.

(** X16. With the clustering switched on, two birds end with the same cluster
    id exactly when a path of neighbour entries, in either direction, joins
    them: the clusters are the connected components of the neighbour
    table. *)
Theorem AssignClusters_finds_components tbl st :
  nbrs_valid tbl (numPoints (birds st)) → numPoints (birds st) ≤ INT_MAX →
  ∃ st', AssignClusters true true tbl st = Some st' ∧
    ∀ x y, 0 ≤ x < numPoints (birds st) → 0 ≤ y < numPoints (birds st) →
      cid_of (birds st') x = cid_of (birds st') y ↔ rtsc (nbr_edge tbl) x y.
Proof.
  intros Hval HN.
  destruct (AssignClusters_inv tbl st Hval HN) as (st' & Hrun & Hinv).
  exists st'. split; [done|]. intros x y Hx Hy. split.
  - intros Heq. destruct (ai_assigned _ _ _ _ _ Hinv x) as (c & Hc & Hne); [lia..|].
    apply (ai_conn _ _ _ _ _ Hinv x y c); [done|by rewrite <- Heq|done].
  - clear Hy. intros Hpath. destruct Hval as [Htl Hval].
    assert (∀ u v, nbr_edge tbl u v →
              0 ≤ u < numPoints (birds st) ∧ 0 ≤ v < numPoints (birds st) ∧
              cid_of (birds st') u = cid_of (birds st') v) as Hedge.
    { intros u v Huv. pose proof Huv as (nb & l & Hnb & Hl & Hj).
      pose proof (rd_range _ _ _ Hnb) as Hu.
      destruct (Hval u nb l Hnb Hl) as (j & Hj' & Hjr).
      rewrite Hj in Hj'. injection Hj' as <-.
      destruct (ai_found _ _ _ _ _ Hinv u v) as (c & _ & Hcu & Hcv); [lia|done|].
      split_and!; [lia..|congruence]. }
    induction Hpath as [x|x z y Hxz _ IH]; [done|].
    destruct Hxz as [Hxz|Hzx].
    + destruct (Hedge x z Hxz) as (_ & Hz & ->). by apply IH.
    + destruct (Hedge z x Hzx) as (Hz & _ & <-). by apply IH.
Qed.

(** X17. On the CPU path [AssignClusters] changes nothing.  On the GPU path with
    the clustering switched off it leaves every bird without a cluster and
    no cluster list, so that the ranking is empty and [UpdateFlockData]
    does not return for any positive number of flock slots. *)
Theorem AssignClusters_off_leaves_no_cluster tbl st :
  (∀ calc, AssignClusters false calc tbl st = Some st) ∧
  ∃ st', AssignClusters true false tbl st = Some st' ∧
    (∀ n b, rd (birds st) n = Some b →
            rd (birds st') n = Some (set_cluster_id (-1) b)) ∧
    cluster_assignment st' = [] ∧ max_cluster_id st' = -1 ∧
    CalculateClusters (cluster_assignment st') = Some ([], []) ∧
    ∀ MAX_FLOCKS g, 1 ≤ MAX_FLOCKS →
      UpdateFlockData MAX_FLOCKS g (birds st') [] [] = None.
Proof.
  split; [done|]. exists (reset_clusters st). split_and!; try done.
  - intros n b [? Hn]%rd_Some. apply rd_Some. split; [done|].
    simpl. by rewrite list_lookup_fmap, Hn.
  - intros MAX_FLOCKS g HM. apply UpdateFlockData_fails. simpl. lia.
Qed.

End AssignClusters.

(** ** A neighbour table of five birds *)

(** A table whose arrays hold only birds, and at least as many entries as
    it counts, is a valid table. *)
Lemma nbrs_valid_Forall (tbl : list ClusterNbrs) N :
  Z.of_nat (length tbl) = N →
  Forall (λ nb, cluster_nbr_cnt nb ≤ Z.of_nat (length (cluster_nbrs nb)) ∧
                Forall (λ j, 0 ≤ j < N) (cluster_nbrs nb)) tbl →
  nbrs_valid tbl N.
Proof.
  intros Hl Hall. split; [done|]. intros x nb l [_ Hx]%rd_Some Hr.
  rewrite Forall_forall in Hall. destruct (Hall nb) as [Hcnt Hin].
  { by eapply list_elem_of_lookup_2. }
  destruct (rd_is_Some (cluster_nbrs nb) l) as [j Hj]; [lia|].
  exists j. split; [done|]. rewrite Forall_forall in Hin. apply Hin.
  apply rd_Some in Hj as [_ Hj]. by eapply list_elem_of_lookup_2.
Qed.

Lemma demo_tbl_valid : nbrs_valid demo_tbl (numPoints (birds demo_state)).
Proof.
  apply nbrs_valid_Forall; [reflexivity|].
  repeat first [apply Forall_nil_2 | apply Forall_cons_2 | split];
    unfold numPoints; simpl; lia.
Defined.

Lemma AssignClusters_partitions_the_flock_witness :
  ∃ st', AssignClusters true true demo_tbl demo_state = Some st' ∧
    concat (cluster_assignment st') ≡ₚ seqZ 0 5 ∧
    Z.of_nat (length (cluster_assignment st')) = max_cluster_id st' + 1.
Proof.
  destruct (AssignClusters_partitions_the_flock demo_tbl demo_state)
    as (st' & Hrun & _ & _ & Hperm & Hmax);
    [exact demo_tbl_valid|unfold numPoints, INT_MAX; simpl; lia|].
  exists st'. split_and!; assumption.
Defined.

Lemma AssignClusters_finds_components_witness :
  ∃ st', AssignClusters true true demo_tbl demo_state = Some st' ∧
    (cid_of (birds st') 0 = cid_of (birds st') 1 ↔ rtsc (nbr_edge demo_tbl) 0 1).
Proof.
  destruct (AssignClusters_finds_components demo_tbl demo_state)
    as (st' & Hrun & Hiff);
    [exact demo_tbl_valid|unfold numPoints, INT_MAX; simpl; lia|].
  exists st'. split; [assumption|].
  apply Hiff; unfold numPoints; simpl; lia.
Defined.

(** * The layout of the sorted array *)

Lemma take_add_drop {A} (l : list A) (n m : nat) :
  take (n + m) l = take n l ++ take m (drop n l).
Proof.
  revert l. induction n as [|n IH]; intros [|x l]; simpl; try done.
  - by rewrite take_nil.
  - by rewrite IH.
Qed.

Section ArrayLayout.
Context {F : Type} `{FloatOps F}.
Implicit Types (a : Accel F) (bs : list (Bird F)).

(** The entries of the sorted array before the offset of cell [k] are the
    slices of the cells before [k], one after the other. *)
Lemma take_presum_buckets cs T g (k : nat) :
  bucketed cs T g → Z.of_nat k ≤ T →
  take (Z.to_nat (presum (mgcnt g) (Z.of_nat k))) (mgrid g) =
  concat (bucket g <$> seqZ 0 (Z.of_nat k)).
Proof.
  intros Hb. pose proof (bk_counted _ _ _ Hb) as Hcnt.
  induction k as [|k IH]; intros Hk; [done|].
  replace (Z.of_nat (S k)) with (Z.of_nat k + 1) by lia.
  rewrite seqZ_app, fmap_app, concat_app by lia. rewrite <- IH by lia.
  pose proof (cnt_cnt _ _ _ Hcnt (Z.of_nat k) ltac:(lia)) as Hc.
  rewrite (presum_succ (mgcnt g) (Z.of_nat k) _ ltac:(lia) Hc).
  pose proof (presum_mono (mgcnt g) 0 (Z.of_nat k) (counted_nonneg cs T g Hcnt) ltac:(lia))
    as Hp. rewrite presum_0 in Hp.
  pose proof (occ_bounds cs (Z.of_nat k) (length cs)) as Ho.
  rewrite Z2Nat.inj_add, take_add_drop by lia. f_equal.
  replace (seqZ (0 + Z.of_nat k) 1) with [Z.of_nat k]
    by (unfold seqZ; simpl; f_equal; lia).
  simpl. rewrite app_nil_r. unfold bucket.
  by rewrite (bk_off _ _ _ Hb (Z.of_nat k)), Hc by lia.
Qed.

(** X18. The sorted array is the slices of the cells in the order of the cells,
    each holding the birds of its cell, followed by one undefined entry for
    every bird without a cell. *)
Theorem sorted_array_is_cells_in_order a bs old :
  accel_wf a → coords_defined a bs → numPoints bs ≤ INT_MAX →
  length old = length bs →
  ∃ g, grid_pass a bs old = Some g ∧
    mgrid g = concat (bucket g <$> seqZ 0 (gridTotal a)) ++
              replicate (length bs - Z.to_nat (defined_count (cells a bs))) GRID_UNDEF.
Proof.
  intros Hwf Hdef HN Hold.
  destruct (grid_pass_bucketed a bs old Hwf Hdef HN Hold) as (g & Hg & Hb).
  pose proof (bk_counted _ _ _ Hb) as Hcnt.
  pose proof (wf_total_int a Hwf) as HT.
  exists g. split; [done|].
  set (D := defined_count (cells a bs)).
  rewrite <- (take_drop (Z.to_nat D) (mgrid g)) at 1. f_equal.
  - unfold D. rewrite <- (counted_presum_total (cells a bs) (gridTotal a) g Hcnt).
    rewrite <- (Z2Nat.id (gridTotal a)) by lia. apply (take_presum_buckets (cells a bs) (gridTotal a)); [done|lia].
  - symmetry. apply replicate_as_Forall. split.
    + rewrite length_drop, (bk_grid_len _ _ _ Hb). unfold cells. by rewrite length_fmap.
    + apply Forall_lookup. intros i v Hi. rewrite lookup_drop in Hi.
      destruct (bk_grid_only _ _ _ Hb (Z.of_nat (Z.to_nat D + i)) v (rd_of_lookup _ _ _ Hi))
        as [->|(c & Hc & Hne & Hq)]; [done|].
      assert (0 ≤ c < gridTotal a) as Hcr.
      { destruct (cells_in_grid_cells a bs Hwf c); [|done|done].
        apply rd_Some in Hc as [_ Hc]. by eapply list_elem_of_lookup_2. }
      pose proof (slot_bound _ _ _ Hcnt v c Hcr Hc) as Hs. fold D in Hs. lia.
Qed.

End ArrayLayout.

Lemma sorted_array_is_cells_in_order_witness :
  ∃ g, grid_pass demo_accel demo_birds demo_old = Some g ∧
    mgrid g = concat (bucket g <$> seqZ 0 (gridTotal demo_accel)) ++
              replicate (length demo_birds -
                         Z.to_nat (defined_count (cells demo_accel demo_birds))) GRID_UNDEF.
Proof. apply (sorted_array_is_cells_in_order demo_accel demo_birds demo_old); demo_side. Defined.

(** * The counters of the neighbour search *)

(** A loop over a list with an invariant indexed by the part of the list
    already processed, where every iteration knows its place in the list. *)
Lemma for_each_split {A St} (I : list A → St → Prop) (f : St → A → option St) l s :
  I [] s →
  (∀ pre x suf s, l = pre ++ x :: suf → I pre s →
     ∃ s', f s x = Some s' ∧ I (pre ++ [x]) s') →
  ∃ s', for_each f l s = Some s' ∧ I l s'.
Proof.
  induction l as [|x l IH] using rev_ind; intros H0 Hstep.
  - by exists s.
  - destruct IH as (s1 & E1 & I1); [done| |].
    { intros pre y suf s2 ->. apply (Hstep pre y (suf ++ [x])).
      by rewrite <- !app_assoc. }
    destruct (Hstep l x [] s1) as (s2 & E2 & I2); [done|done|].
    exists s2. by rewrite for_each_snoc, E1.
Qed.

Section ScanResults.
Context {F : Type} `{FloatOps F}.
Implicit Types (a : Accel F) (p : Params F) (st : NbrState F)
  (b : Bird F) (bs : list (Bird F)).

Lemma upd_bird_Some (f : Bird F → Bird F) i st st' :
  upd_bird f i st = Some st' →
  ∃ b, rd (birds st) i = Some b ∧
       st' = set_birds (<[Z.to_nat i := f b]> (birds st)) st.
Proof.
  intros Hrun. destruct (rd (birds st) i) as [b|] eqn:Hb.
  - rewrite (upd_bird_spec _ _ _ _ Hb) in Hrun. injection Hrun as <-. by exists b.
  - unfold upd_bird in Hrun. by rewrite Hb in Hrun.
Qed.

Lemma rd_insert_inv {A} (l : list A) i v n w :
  0 ≤ i < Z.of_nat (length l) → rd (<[Z.to_nat i := v]> l) n = Some w →
  (n = i ∧ w = v) ∨ (n ≠ i ∧ rd l n = Some w).
Proof.
  intros Hi Hn. destruct (decide (n = i)) as [->|Hne].
  - rewrite rd_insert_eq in Hn by done. injection Hn as <-. by left.
  - rewrite rd_insert_ne in Hn by lia. by right.
Qed.

(** Lines 1077-1100 keep [sort_j_nbr] and the counters of the other birds,
    and clear the count of bird [i]. *)
Lemma begin_bird_results i st st3 :
  begin_bird i st = Some st3 →
  sort_j_nbr st3 = sort_j_nbr st ∧
  ∀ n b', rd (birds st3) n = Some b' →
    ∃ b, rd (birds st) n = Some b ∧
         if decide (n = i) then r_nbrs b' = 0 else same_counts b b'.
Proof.
  unfold begin_bird. intros Hrun.
  destruct (new_cluster i st) as [st1|] eqn:H1; [simpl in Hrun|done].
  destruct (upd_bird clear_info i st1) as [st2|] eqn:H2; [simpl in Hrun|done].
  injection Hrun as <-. simpl.
  apply upd_bird_Some in H2 as (b1 & Hb1 & ->). simpl.
  assert (sort_j_nbr st1 = sort_j_nbr st ∧
          ∀ n b', rd (birds st1) n = Some b' →
            ∃ b, rd (birds st) n = Some b ∧ same_counts b b') as [Hj Hc].
  { unfold new_cluster in H1.
    destruct (rd (birds st) i) as [bi|] eqn:Hbi; [simpl in H1|done].
    destruct (cluster_id bi =? -1).
    - destruct (upd_bird _ i st) as [st'|] eqn:H3; [simpl in H1|done].
      injection H1 as <-. simpl.
      apply upd_bird_Some in H3 as (b0 & Hb0 & ->). simpl. split; [done|].
      intros n b' Hn.
      destruct (rd_insert_inv _ _ _ _ _ (rd_range _ _ _ Hb0) Hn) as [[-> ->]|[? ?]].
      + by exists b0.
      + by exists b'.
    - injection H1 as <-. split; [done|]. intros n b' Hn. by exists b'. }
  split; [done|]. intros n b' Hn.
  destruct (rd_insert_inv _ _ _ _ _ (rd_range _ _ _ Hb1) Hn) as [[-> ->]|[Hne Hn']].
  - destruct (Hc i b1 Hb1) as (b & Hb & _). exists b. split; [done|].
    by rewrite decide_True.
  - destruct (Hc n b' Hn') as (b & Hb & Hs). exists b. by rewrite decide_False.
Qed.

(** The body of the innermost loop keeps [near_j] of every bird, counts a
    neighbour that passes the two tests in [r_nbrs] of bird [i], and
    leaves [sort_j_nbr] alone for a neighbour that does not pass. *)
Lemma visit_results a p bs i pre j st st' bi0 bj0 :
  neighbors p ≤ 15 →
  rd bs i = Some bi0 → rd bs j = Some bj0 → i ≠ j →
  walk_inv a p bs i pre st →
  visit p (rd2_of a) i (pos bi0) (normalize (vel bi0)) st j = Some st' →
  (qualifies a p bi0 bj0 = false → sort_j_nbr st' = sort_j_nbr st) ∧
  ∀ n b', rd (birds st') n = Some b' →
    ∃ b, rd (birds st) n = Some b ∧ near_j b' = near_j b ∧
         r_nbrs b' = if bool_decide (n = i) && qualifies a p bi0 bj0
                     then i32 (r_nbrs b + 1) else r_nbrs b.
Proof.
  intros HK Hi0 Hj0 Hij Hw Hrun.
  destruct (wi_static _ _ _ _ _ _ Hw i bi0 Hi0) as (bi & Hi & Hpi & Hvi).
  destruct (wi_static _ _ _ _ _ _ Hw j bj0 Hj0) as (bj & Hj & Hpj & Hvj).
  assert (cluster_id bi ≠ -1) as Ht.
  { pose proof (rd_range _ _ _ Hi0) as Hr.
    destruct (wi_assigned _ _ _ _ _ _ Hw i) as (c0 & Hc0 & ?); [lia|lia|].
    apply cid_of_Some in Hc0 as (b & Hb & <-). congruence. }
  set (dsq := dist_sq (pos bi0) (pos bj0)).
  set (c := flt dsq (fmul (cluster_threshold_dist p) (cluster_threshold_dist p))).
  assert (∃ st1 g, (if c then cluster_pair i j st else Some st) = Some st1 ∧
                   relabel g (birds st) (birds st1) ∧ same_sort st st1)
    as (st1 & g & Hrun1 & Hrel & Hd1 & Hj1 & Hn1).
  { destruct c.
    - destruct (cluster_pair_effect i j st bi bj) as (st1 & ? & ? & _ & _ & ?);
        try done; [apply (wi_cluster _ _ _ _ _ _ Hw)|]. by eexists _, _.
    - exists st, (λ _ c0, c0). split_and!; try done. apply relabel_id. }
  assert (∀ n b', rd (birds st1) n = Some b' →
            ∃ b, rd (birds st) n = Some b ∧ near_j b' = near_j b ∧ r_nbrs b' = r_nbrs b)
    as Hkeep.
  { intros n b' Hn. destruct (relabel_rd _ _ _ _ _ Hrel Hn) as (b & Hb & ->).
    by exists b. }
  unfold visit in Hrun. rewrite Hj in Hrun. simpl in Hrun. rewrite Hpj in Hrun.
  fold dsq c in Hrun. rewrite Hrun1 in Hrun. simpl in Hrun.
  unfold qualifies. fold dsq.
  destruct (flt dsq (rd2_of a)); simpl in *.
  2:{ injection Hrun as <-. split; [done|]. intros n b' Hn.
      destruct (Hkeep n b' Hn) as (b & ? & ? & ?). exists b. by rewrite andb_false_r. }
  destruct (fgt _ (fovcos p)); simpl in *.
  2:{ injection Hrun as <-. split; [done|]. intros n b' Hn.
      destruct (Hkeep n b' Hn) as (b & ? & ? & ?). exists b. by rewrite andb_false_r. }
  split; [done|].
  destruct (wi_arrays _ _ _ _ _ _ Hw) as [Hld Hlj].
  destruct (wi_num _ _ _ _ _ _ Hw) as [Hnum Hneg].
  destruct (sort_step (neighbors p) true dsq j (qual_list a p bs i pre) st1 HK)
    as (st2 & Hrun2 & Hb2 & _);
    [congruence|congruence|by rewrite Hn1|by rewrite Hn1| |].
  { unfold retained. rewrite Hd1, Hj1, Hn1. apply (wi_retained _ _ _ _ _ _ Hw). }
  simpl in Hrun2. rewrite Hrun2 in Hrun. simpl in Hrun.
  apply upd_bird_Some in Hrun as (b2 & Hb2' & ->). simpl.
  intros n b' Hn. rewrite Hb2 in Hn, Hb2'.
  destruct (rd_insert_inv _ _ _ _ _ (rd_range _ _ _ Hb2') Hn) as [[-> ->]|[Hne Hn']].
  - destruct (Hkeep i b2 Hb2') as (b & Hb & Hnj & Hrn). exists b.
    rewrite bool_decide_eq_true_2 by done. simpl. split_and!; [done|done|by rewrite Hrn].
  - destruct (Hkeep n b' Hn') as (b & Hb & Hnj & Hrn). exists b.
    rewrite bool_decide_eq_false_2 by done. done.
Qed.

(** Lines 1184-1195 keep [sort_j_nbr], the counts, and [near_j] of the
    other birds; bird [i] gets the first entry of [sort_j_nbr] as its
    [near_j]. *)
Lemma aggregate_results i st st' :
  aggregate i st = Some st' →
  sort_j_nbr st' = sort_j_nbr st ∧
  ∀ n b', rd (birds st') n = Some b' →
    ∃ b, rd (birds st) n = Some b ∧ r_nbrs b' = r_nbrs b ∧
         if decide (n = i) then rd (sort_j_nbr st) 0 = Some (near_j b')
         else near_j b' = near_j b.
Proof.
  unfold aggregate. intros Hrun.
  destruct (for_each (accumulate i) _ st) as [st1|] eqn:Hloop; [simpl in Hrun|done].
  assert (sort_j_nbr st1 = sort_j_nbr st ∧
          ∀ n b', rd (birds st1) n = Some b' →
            ∃ b, rd (birds st) n = Some b ∧ same_counts b b') as [Hj1 Hc1].
  { eapply (for_each_inv (λ s, sort_j_nbr s = sort_j_nbr st ∧
               ∀ n b', rd (birds s) n = Some b' →
                 ∃ b, rd (birds st) n = Some b ∧ same_counts b b')); [| |exact Hloop].
    - intros s k s' _ [Hjs Hcs] Hacc. unfold accumulate in Hacc.
      destruct (rd (sort_j_nbr s) k) as [jk|]; [simpl in Hacc|done].
      destruct (rd (birds s) jk) as [bj|]; [simpl in Hacc|done].
      apply upd_bird_Some in Hacc as (b0 & Hb0 & ->). simpl. split; [done|].
      intros n b' Hn.
      destruct (rd_insert_inv _ _ _ _ _ (rd_range _ _ _ Hb0) Hn) as [[-> ->]|[? Hn']].
      + destruct (Hcs i b0 Hb0) as (b & Hb & Hs). by exists b.
      + by apply Hcs.
    - split; [done|]. intros n b' Hn. by exists b'. }
  destruct (rd (sort_j_nbr st1) 0) as [j0|] eqn:Hj0; [simpl in Hrun|done].
  destruct (upd_bird (set_near j0 (sort_num st1)) i st1) as [st2|] eqn:H2;
    [simpl in Hrun|done].
  apply upd_bird_Some in H2 as (b1 & Hb1 & ->). simpl in Hrun.
  pose proof (rd_range _ _ _ Hb1) as Hir.
  rewrite Hj1 in Hj0.
  assert (sort_j_nbr st' = sort_j_nbr st1 ∧
          ∃ b2, birds st' = <[Z.to_nat i := b2]> (birds st1) ∧
                near_j b2 = j0 ∧ r_nbrs b2 = r_nbrs b1) as (Hj' & b2 & Hb' & Hnj & Hrn).
  { destruct (sort_num st1 >? 0).
    - apply upd_bird_Some in Hrun as (b2 & Hb2 & ->). simpl in *.
      rewrite rd_insert_eq in Hb2 by done. injection Hb2 as <-.
      split; [done|]. eexists. rewrite list_insert_insert_eq. done.
    - injection Hrun as <-. simpl. split; [done|]. by eexists. }
  split; [congruence|]. intros n b' Hn. rewrite Hb' in Hn.
  destruct (rd_insert_inv _ _ _ _ _ Hir Hn) as [[-> ->]|[Hne Hn']].
  - destruct (Hc1 i b1 Hb1) as (b & Hb & _ & Hr). exists b.
    rewrite decide_True by done. split_and!; [done|congruence|congruence].
  - destruct (Hc1 n b' Hn') as (b & Hb & Hnb & Hr). exists b.
    by rewrite decide_False.
Qed.

Lemma length_qual_list a p bs i l :
  (length (qual_list a p bs i l) ≤ length l)%nat.
Proof.
  rewrite <- (length_fmap snd (qual_list a p bs i l)).
  apply sublist_length, qual_list_sublist.
Qed.

(** A scan visits fewer candidates than there are birds. *)
Lemma length_cand_list a bs i :
  accel_wf a → Z.of_nat (length (cand_list a bs i)) ≤ Z.max 0 (numPoints bs - 1).
Proof.
  intros Hwf.
  destruct (decide (cand_list a bs i = [])) as [->|Hne]; [simpl; lia|].
  assert (0 ≤ i < numPoints bs) as Hi.
  { destruct (cand_list a bs i) as [|j l] eqn:E; [done|].
    destruct (cand_list_valid a bs i j) as (_ & _ & bi & Hbi%rd_range & _).
    - rewrite E. apply elem_of_cons. by left.
    - unfold numPoints. lia. }
  assert (i :: cand_list a bs i ⊆+ seqZ 0 (numPoints bs)) as Hsub.
  { apply NoDup_submseteq.
    - apply NoDup_cons. split; [|by apply NoDup_cand_list].
      intros Hin. by destruct (cand_list_valid a bs i i Hin).
    - intros x [->|Hx]%elem_of_cons; apply elem_of_seqZ; [lia|].
      destruct (cand_list_valid a bs i x Hx) as (_ & [bx Hbx%rd_range] & _).
      unfold numPoints. lia. }
  apply submseteq_length in Hsub. rewrite length_seqZ in Hsub. simpl in Hsub. lia.
Qed.

(** One bird of the neighbour search, with its counters. *)
Lemma find_bird_results a p bs g i st :
  accel_wf a → bucketed (cells a bs) (gridTotal a) g →
  numPoints bs ≤ INT_MAX → neighbors p ≤ 15 →
  0 ≤ i < numPoints bs → head_inv a p bs i st → results_inv a p bs i st →
  ∃ st', find_bird a p g (numPoints bs) (rd2_of a) (nadj_of a) st i = Some st' ∧
         head_inv a p bs (i + 1) st' ∧ results_inv a p bs (i + 1) st'.
Proof.
  intros Hwf Hb HN HK Hi Hh Hr.
  destruct (rd_is_Some bs i) as [bi0 Hi0]; [done|].
  destruct (hi_static _ _ _ _ _ Hh i bi0 Hi0) as (bi & Hbi & Hp & Hv).
  unfold find_bird. rewrite Hbi. simpl. rewrite Hp, Hv.
  destruct (begin_bird_walk a p bs i st bi0 HN Hi0 Hh) as (st3 & Hbeg & Hw3).
  rewrite Hbeg. simpl.
  destruct (begin_bird_results i st st3 Hbeg) as [Hj3 Hc3].
  rewrite (scan_window_candidates a p g _ _ i _ _ st3 (cand_list a bs i)).
  2:{ rewrite (candidates_spec a bs g i bi0 Hwf Hb HN Hi0). unfold cand_list.
      by rewrite Hi0. }
  pose proof (length_cand_list a bs i Hwf) as Hlc.
  destruct (for_each_split
              (λ pre s, walk_inv a p bs i pre s ∧ results_walk a p bs i pre s)
              (visit p (rd2_of a) i (pos bi0) (normalize (vel bi0)))
              (cand_list a bs i) st3) as (st4 & Hscan & Hw4 & Hr4).
  { split; [done|]. split.
    - intros HK1 _. rewrite Hj3. by apply (ri_slot _ _ _ _ _ Hr).
    - intros HK1 n b' Hn Hb'. destruct (Hc3 n b' Hb') as (b & Hb0 & Hs).
      rewrite decide_False in Hs by lia. destruct Hs as [-> _].
      by apply (ri_near _ _ _ _ _ Hr HK1 n b).
    - intros n b' Hn Hb'. destruct (Hc3 n b' Hb') as (b & Hb0 & Hs).
      rewrite decide_False in Hs by lia. destruct Hs as [_ ->].
      by apply (ri_count _ _ _ _ _ Hr n b).
    - intros b' Hb'. destruct (Hc3 i b' Hb') as (b & _ & Hs).
      by rewrite decide_True in Hs. }
  { intros pre j suf s Hsplit [Hw Hrw].
    assert (j ∈ cand_list a bs i) as Hj.
    { rewrite Hsplit, elem_of_app, elem_of_cons. right. by left. }
    destruct (cand_list_valid a bs i j Hj) as (Hne & [bj0 Hj0] & _).
    destruct (visit_walk a p bs i pre j s bi0 bj0 HK Hi0 Hj0 Hne Hw) as (s' & Hv' & Hw').
    exists s'. split; [done|]. split; [done|].
    destruct (visit_results a p bs i pre j s s' bi0 bj0 HK Hi0 Hj0 Hne Hw Hv')
      as [Hsame Hcnt].
    rewrite (f_equal length Hsplit), length_app in Hlc. simpl in Hlc.
    pose proof (length_qual_list a p bs i pre) as Hlq.
    split.
    - intros HK1. rewrite (qual_list_snoc a p bs i pre j bi0 bj0 Hi0 Hj0).
      intros [Hpre Hq]%app_eq_nil. rewrite Hsame.
      + by apply (rw_slot _ _ _ _ _ _ Hrw).
      + by destruct (qualifies a p bi0 bj0).
    - intros HK1 n b' Hn Hb'. destruct (Hcnt n b' Hb') as (b & Hb0 & -> & _).
      by apply (rw_near _ _ _ _ _ _ Hrw HK1 n b).
    - intros n b' Hn Hb'. destruct (Hcnt n b' Hb') as (b & Hb0 & _ & Hrn).
      rewrite bool_decide_eq_false_2 in Hrn by lia. simpl in Hrn. rewrite Hrn.
      by apply (rw_count _ _ _ _ _ _ Hrw n b).
    - intros b' Hb'. destruct (Hcnt i b' Hb') as (b & Hb0 & _ & Hrn).
      rewrite bool_decide_eq_true_2 in Hrn by done. simpl in Hrn.
      rewrite (qual_list_snoc a p bs i pre j bi0 bj0 Hi0 Hj0), length_app.
      rewrite Hrn, (rw_own _ _ _ _ _ _ Hrw b Hb0).
      destruct (qualifies a p bi0 bj0); simpl; [|lia].
      unfold numPoints, INT_MAX in *. rewrite i32_small by lia. lia. }
  rewrite Hscan. simpl.
  destruct (aggregate_head a p bs i st4 bi0) as (st' & Hagg & Hh'); [done| |done|].
  { intros j Hj. by apply cand_list_valid in Hj as (_ & ? & _). }
  exists st'. split; [done|]. split; [done|].
  destruct (aggregate_results i st4 st' Hagg) as [Hj' Hc'].
  assert (1 ≤ neighbors p →
          rd (sort_j_nbr st4) 0 = Some (first_slot a p bs (Z.to_nat (i + 1)))) as Hslot.
  { intros HK1. replace (Z.to_nat (i + 1)) with (S (Z.to_nat i)) by lia.
    simpl. rewrite Z2Nat.id by lia.
    destruct (wi_retained _ _ _ _ _ _ Hw4 ltac:(lia)) as [Hret _].
    fold (nbr_list a p bs i) in Hret.
    destruct (nbr_list a p bs i) as [|x l] eqn:Hnl.
    - apply (rw_slot _ _ _ _ _ _ Hr4 HK1).
      unfold nbr_list in Hnl.
      destruct (isort (qual_list a p bs i (cand_list a bs i))) as [|y l'] eqn:Hs.
      + apply Permutation_nil_r. by rewrite <- Hs, isort_perm.
      + destruct (Z.to_nat (neighbors p)) eqn:HKn; [lia|done].
    - assert (retained st4 !! 0%nat = Some x) as Hx by (by rewrite Hret).
      destruct x as [d j]. by apply retained_lookup in Hx as [Hx _]. }
  split.
  - intros HK1. rewrite Hj'. by apply Hslot.
  - intros HK1 n b' Hn Hb'. destruct (Hc' n b' Hb') as (b & Hb0 & _ & Hnear).
    destruct (decide (n = i)) as [->|Hne].
    + rewrite (Hslot HK1) in Hnear. by injection Hnear as <-.
    + rewrite Hnear. apply (rw_near _ _ _ _ _ _ Hr4 HK1 n b); [lia|done].
  - intros n b' Hn Hb'. destruct (Hc' n b' Hb') as (b & Hb0 & -> & _).
    destruct (decide (n = i)) as [->|Hne].
    + by apply (rw_own _ _ _ _ _ _ Hr4).
    + apply (rw_count _ _ _ _ _ _ Hr4 n b); [lia|done].
Qed.

(** The first [m] iterations of the loop over the birds, with the
    counters. *)
Lemma run_birds_results a p bs g junk_d junk_j (m : nat) :
  accel_wf a → bucketed (cells a bs) (gridTotal a) g →
  numPoints bs ≤ INT_MAX → neighbors p ≤ 15 →
  length junk_d = 16%nat → length junk_j = 16%nat →
  Z.of_nat m ≤ numPoints bs →
  ∃ st0 st, init_state bs junk_d junk_j = Some st0 ∧
    for_each (find_bird a p g (numPoints bs) (rd2_of a) (nadj_of a))
      (seqZ 0 (Z.of_nat m)) st0 = Some st ∧
    head_inv a p bs (Z.of_nat m) st ∧ results_inv a p bs (Z.of_nat m) st.
Proof.
  intros Hwf Hb HN HK Hld Hlj. induction m as [|m IH]; intros Hm.
  - destruct (run_birds_head a p bs g junk_d junk_j 0 Hwf Hb HN HK Hld Hlj)
      as (st0 & st & Hinit & Hrun & Hh); [lia|].
    simpl in Hrun. injection Hrun as <-.
    exists st0, st0. split_and!; try done. split; try (intros; lia).
    intros _. unfold init_state in Hinit.
    destruct (wr junk_d 0 _) as [sd|]; [simpl in Hinit|done].
    destruct (wr junk_j 0 (-1)) as [sj|] eqn:Hsj; [simpl in Hinit|done].
    injection Hinit as <-. simpl. apply wr_Some in Hsj as [? ->].
    by apply rd_insert_eq.
  - destruct IH as (st0 & st & Hinit & Hrun & Hh & Hr); [lia|].
    destruct (find_bird_results a p bs g (Z.of_nat m) st Hwf Hb HN HK) as (st' & Hf & Hh' & Hr');
      [lia|done|done|].
    exists st0, st'.
    replace (Z.of_nat (S m)) with (Z.of_nat m + 1) by lia.
    split_and!; try done.
    rewrite seqZ_app by lia.
    replace (seqZ (0 + Z.of_nat m) 1) with [Z.of_nat m]
      by (unfold seqZ; simpl; f_equal; lia).
    by rewrite for_each_snoc, Hrun.
Qed.

(** The whole step, with the counters of every bird. *)
Lemma neighbor_pass_results a p bs old junk_d junk_j :
  accel_wf a → coords_defined a bs → numPoints bs ≤ INT_MAX →
  length old = length bs → neighbors p ≤ 15 →
  length junk_d = 16%nat → length junk_j = 16%nat →
  ∃ g st, neighbor_pass a p bs old junk_d junk_j = Some (g, st) ∧
          head_inv a p bs (numPoints bs) st ∧ results_inv a p bs (numPoints bs) st.
Proof.
  intros Hwf Hdef HN Hold HK Hld Hlj.
  destruct (grid_pass_bucketed a bs old Hwf Hdef HN Hold) as (g & Hg & Hb).
  destruct (run_birds_results a p bs g junk_d junk_j (length bs) Hwf Hb HN HK Hld Hlj)
    as (st0 & st & Hinit & Hrun & Hh & Hr); [unfold numPoints; lia|].
  assert (FindNeighbors a p g bs junk_d junk_j = Some st) as Hfind.
  { unfold FindNeighbors. rewrite Hinit. simpl. exact Hrun. }
  exists g, st. unfold neighbor_pass. rewrite Hg. simpl. by rewrite Hfind.
Qed.

(** X19. After the neighbour search, [r_nbrs] of a bird is the number of the
    birds that its scan visited and found within the radius and in the
    field of view, whatever [neighbors] is; it is less than the number of
    birds; and [t_nbrs] is the smaller of [neighbors] and [r_nbrs]. *)
Theorem r_nbrs_counts_birds_in_view a p bs old junk_d junk_j :
  accel_wf a → coords_defined a bs → numPoints bs ≤ INT_MAX →
  length old = length bs → neighbors p ≤ 15 →
  length junk_d = 16%nat → length junk_j = 16%nat →
  ∃ g st, neighbor_pass a p bs old junk_d junk_j = Some (g, st) ∧
    ∀ n b, rd (birds st) n = Some b →
      r_nbrs b = in_view a p bs n ∧ 0 ≤ r_nbrs b < numPoints bs ∧
      (0 ≤ neighbors p → t_nbrs b = Z.min (neighbors p) (r_nbrs b)).
Proof.
  intros Hwf Hdef HN Hold HK Hld Hlj.
  destruct (neighbor_pass_results a p bs old junk_d junk_j Hwf Hdef HN Hold HK Hld Hlj)
    as (g & st & Hrun & Hh & Hr).
  exists g, st. split; [done|]. intros n b Hn.
  pose proof (rd_range _ _ _ Hn) as Hnr. rewrite (hi_len _ _ _ _ _ Hh) in Hnr.
  assert (r_nbrs b = in_view a p bs n) as Hcount.
  { apply (ri_count _ _ _ _ _ Hr n b); [unfold numPoints; lia|done]. }
  pose proof (length_cand_list a bs n Hwf) as Hlc.
  pose proof (length_qual_list a p bs n (cand_list a bs n)) as Hlq.
  split; [done|]. split.
  - rewrite Hcount. unfold in_view, numPoints in *. lia.
  - intros HK0.
    destruct (hi_done _ _ _ _ _ Hh HK0 n b) as (Ht & _); [unfold numPoints; lia|done|].
    rewrite Ht, Hcount. unfold in_view, nbr_list.
    rewrite length_take, (Permutation_length (isort_perm _)). lia.
Qed.

(** X20. For [neighbors >= 1], a bird that retained a neighbour has the first
    of its retained list as [near_j].  A bird that retained none does not
    keep the -1 of line 1093: line 1189 gives it the [near_j] of the bird
    before it, and only the first bird gets -1, from line 1057. *)
Theorem near_j_is_stale_without_neighbours a p bs old junk_d junk_j :
  accel_wf a → coords_defined a bs → numPoints bs ≤ INT_MAX →
  length old = length bs → 1 ≤ neighbors p ≤ 15 →
  length junk_d = 16%nat → length junk_j = 16%nat →
  ∃ g st, neighbor_pass a p bs old junk_d junk_j = Some (g, st) ∧
    ∀ n b, rd (birds st) n = Some b →
      near_j b = match nbr_list a p bs n with
                 | x :: _ => x.2
                 | [] => default (-1) (near_j <$> rd (birds st) (n - 1))
                 end.
Proof.
  intros Hwf Hdef HN Hold [HK1 HK] Hld Hlj.
  destruct (neighbor_pass_results a p bs old junk_d junk_j Hwf Hdef HN Hold HK Hld Hlj)
    as (g & st & Hrun & Hh & Hr).
  exists g, st. split; [done|]. intros n b Hn.
  pose proof (rd_range _ _ _ Hn) as Hnr. rewrite (hi_len _ _ _ _ _ Hh) in Hnr.
  rewrite (ri_near _ _ _ _ _ Hr HK1 n b) by (try done; unfold numPoints; lia).
  replace (Z.to_nat (n + 1)) with (S (Z.to_nat n)) by lia. simpl.
  rewrite Z2Nat.id by lia.
  destruct (nbr_list a p bs n) as [|x l]; [|done].
  destruct (decide (n = 0)) as [->|Hn0]; [done|].
  destruct (rd_is_Some (birds st) (n - 1)) as [b1 Hb1];
    [rewrite (hi_len _ _ _ _ _ Hh); lia|].
  rewrite Hb1. simpl.
  rewrite (ri_near _ _ _ _ _ Hr HK1 (n - 1) b1) by (try done; unfold numPoints; lia).
  by replace (Z.to_nat (n - 1 + 1)) with (Z.to_nat n) by lia.
Qed.

End ScanResults.

Lemma r_nbrs_counts_birds_in_view_witness :
  ∃ g st, neighbor_pass demo_accel demo_params demo_birds demo_old demo_junk_d demo_junk_j
            = Some (g, st) ∧
    ∀ n b, rd (birds st) n = Some b →
      r_nbrs b = in_view demo_accel demo_params demo_birds n ∧
      0 ≤ r_nbrs b < numPoints demo_birds ∧
      (0 ≤ neighbors demo_params → t_nbrs b = Z.min (neighbors demo_params) (r_nbrs b)).
Proof.
  apply (r_nbrs_counts_birds_in_view demo_accel demo_params demo_birds demo_old
           demo_junk_d demo_junk_j); demo_side.
Defined.

Lemma near_j_is_stale_without_neighbours_witness :
  ∃ g st, neighbor_pass demo_accel demo_params demo_birds demo_old demo_junk_d demo_junk_j
            = Some (g, st) ∧
    ∀ n b, rd (birds st) n = Some b →
      near_j b = match nbr_list demo_accel demo_params demo_birds n with
                 | x :: _ => x.2
                 | [] => default (-1) (near_j <$> rd (birds st) (n - 1))
                 end.
Proof.
  apply (near_j_is_stale_without_neighbours demo_accel demo_params demo_birds demo_old
           demo_junk_d demo_junk_j); demo_side.
Defined.

(** * The uninitialised sort arrays *)

(** Two runs of a loop from related states end in related states, if every
    iteration keeps the relation. *)
Lemma for_each_rel {A St} (R : St → St → Prop) (f : St → A → option St) l s s' s1 s1' :
  (∀ x s s' s1 s1', x ∈ l → R s s' → f s x = Some s1 → f s' x = Some s1' → R s1 s1') →
  R s s' → for_each f l s = Some s1 → for_each f l s' = Some s1' → R s1 s1'.
Proof.
  revert s s'. induction l as [|x l IH]; intros s s' Hf HR; simpl.
  - by intros [= <-] [= <-].
  - destruct (f s x) as [t|] eqn:E; [|done].
    destruct (f s' x) as [t'|] eqn:E'; [|done].
    apply IH.
    + intros y u u' u1 u1' Hy. apply Hf. apply elem_of_cons. by right.
    + apply (Hf x s s' t t'); [apply elem_of_cons; by left|done..].
Qed.

Section Uninitialised.
Context {F : Type} `{FloatOps F}.
Implicit Types (a : Accel F) (p : Params F) (st : NbrState F)
  (b : Bird F) (bs : list (Bird F)).

(** ** What does not touch the sort arrays *)

Lemma for_each_sort_free {A} (f : NbrState F → A → option (NbrState F)) l :
  (∀ x, sort_free (λ s, f s x)) → sort_free (for_each f l).
Proof.
  intros Hf d j n. induction l as [|x l IH]; intros s; simpl; [done|].
  rewrite (Hf x d j n s). destruct (f s x) as [s1|]; simpl; [apply IH|done].
Qed.

Lemma upd_bird_sort_free (f : Bird F → Bird F) i : sort_free (upd_bird f i).
Proof.
  intros d j n s. unfold upd_bird. simpl.
  destruct (rd (birds s) i); simpl; [|done]. by destruct (wr _ _ _).
Qed.

Lemma new_cluster_sort_free i : sort_free (new_cluster (F:=F) i).
Proof.
  intros d j n s. unfold new_cluster. simpl.
  destruct (rd (birds s) i) as [bi|]; simpl; [|done].
  destruct (cluster_id bi =? -1); [|done].
  rewrite upd_bird_sort_free. by destruct (upd_bird _ i s).
Qed.

Lemma join_cluster_sort_free i j : sort_free (join_cluster (F:=F) i j).
Proof.
  intros d jj n s. unfold join_cluster. simpl.
  destruct (rd (birds s) i) as [bi|]; simpl; [|done].
  destruct (rd (birds s) j) as [bj|]; simpl; [|done].
  destruct (cluster_id bj =? -1); [|done].
  rewrite upd_bird_sort_free. destruct (upd_bird _ j s) as [s1|]; simpl; [|done].
  destruct (rd (cluster_assignment s1) _); simpl; [|done]. by destruct (wr _ _ _).
Qed.

Lemma merge_step_sort_free from to k :
  sort_free (λ s, merge_step (F:=F) from to s k).
Proof.
  intros d jj n s. unfold merge_step. simpl.
  destruct (rd (cluster_assignment s) from) as [ms|]; simpl; [|done].
  destruct (rd ms k) as [kk|]; simpl; [|done].
  rewrite upd_bird_sort_free. destruct (upd_bird _ kk s) as [s1|]; simpl; [|done].
  destruct (rd (cluster_assignment s1) _); simpl; [|done]. by destruct (wr _ _ _).
Qed.

Lemma merge_clusters_sort_free i j : sort_free (merge_clusters (F:=F) i j).
Proof.
  intros d jj n s. unfold merge_clusters. simpl.
  destruct (rd (birds s) i) as [bi|]; simpl; [|done].
  destruct (rd (birds s) j) as [bj|]; simpl; [|done].
  destruct (negb _); [|done].
  destruct (rd (cluster_assignment s) _) as [ms|]; simpl; [|done].
  rewrite (for_each_sort_free _ _ (merge_step_sort_free _ _)).
  destruct (for_each _ _ s) as [s1|]; simpl; [|done]. by destruct (wr _ _ _).
Qed.

Lemma cluster_pair_sort_free i j : sort_free (cluster_pair (F:=F) i j).
Proof.
  intros d jj n s. unfold cluster_pair.
  rewrite join_cluster_sort_free. destruct (join_cluster i j s) as [s1|]; simpl; [|done].
  apply merge_clusters_sort_free.
Qed.

(** What does not touch the sort arrays leaves them as they are. *)
Lemma sort_free_same (g : NbrState F → option (NbrState F)) st s1 :
  sort_free g → g st = Some s1 → same_sort st s1.
Proof.
  intros Hg H1.
  pose proof (Hg (sort_d_nbr st) (sort_j_nbr st) (sort_num st) st) as Hs.
  replace (set_sort (sort_d_nbr st) (sort_j_nbr st) (sort_num st) st) with st in Hs
    by (by destruct st).
  rewrite H1 in Hs. simpl in Hs. injection Hs as Hs.
  unfold same_sort. rewrite Hs. done.
Qed.

Lemma sort_free_rel (g : NbrState F → option (NbrState F)) st st' s1 s1' :
  sort_free g →
  same_search st st' → g st = Some s1 → g st' = Some s1' → same_search s1 s1'.
Proof.
  intros Hg (Hb & Hm & Hca & Hn & Hr & Hl & Hl' & Hret & H0) H1 H1'.
  destruct (sort_free_same g st s1 Hg H1) as (Hd1 & Hj1 & Hn1).
  destruct (sort_free_same g st' s1' Hg H1') as (Hd1' & Hj1' & Hn1').
  assert (st' = set_sort (sort_d_nbr st') (sort_j_nbr st') (sort_num st') st) as Hst'.
  { destruct st, st'; simpl in *. by subst. }
  rewrite Hst', Hg, H1 in H1'. simpl in H1'. injection H1' as <-.
  simpl in *. unfold same_search, retained in *. simpl.
  rewrite Hd1, Hj1, Hn1. done.
Qed.

(** ** The insertion *)

Lemma length_retained st :
  length (sort_d_nbr st) = 16%nat → length (sort_j_nbr st) = 16%nat →
  0 ≤ sort_num st ≤ 16 → length (retained st) = Z.to_nat (sort_num st).
Proof.
  intros Hd Hj Hn. unfold retained. rewrite length_zip_with, !length_take. lia.
Qed.

(** Below [sort_num], the entries of [sort_j_nbr] are those of the
    retained list. *)
Lemma same_search_rd st st' k :
  same_search st st' → 0 ≤ k < sort_num st →
  rd (sort_j_nbr st') k = rd (sort_j_nbr st) k.
Proof.
  intros (Hb & Hm & Hca & Hn & Hr & [Hd Hj] & [Hd' Hj'] & Hret & H0) Hk.
  destruct (lookup_lt_is_Some_2 (retained st) (Z.to_nat k)) as [[d j] Hx].
  { rewrite length_retained by (done || lia). lia. }
  pose proof Hx as Hx'. rewrite <- Hret in Hx'.
  apply retained_lookup in Hx as [Hx _]. apply retained_lookup in Hx' as [Hx' _].
  rewrite Z2Nat.id in Hx, Hx' by lia. congruence.
Qed.

Lemma insert_nbr_rel K dsq j st st' s1 s1' :
  1 ≤ K ≤ 15 → same_search st st' →
  insert_nbr K dsq j st = Some s1 → insert_nbr K dsq j st' = Some s1' →
  same_search s1 s1'.
Proof.
  intros HK (Hb & Hm & Hca & Hn & Hr & [Hd Hj] & [Hd' Hj'] & Hret & H0) H1 H1'.
  destruct (insert_nbr_spec K dsq j st Hd Hj Hr)
    as (x & Hx & Hld1 & Hlj1 & Hn1 & Hr1 & Hb1 & Hca1 & Hm1).
  rewrite Hx in H1. injection H1 as ->.
  destruct (insert_nbr_spec K dsq j st' Hd' Hj' ltac:(lia))
    as (x & Hx' & Hld1' & Hlj1' & Hn1' & Hr1' & Hb1' & Hca1' & Hm1').
  rewrite Hx' in H1'. injection H1' as ->.
  assert (sort_num s1' = sort_num s1) as Hnum by (rewrite Hn1', Hn1, Hn; done).
  assert (1 ≤ sort_num s1 ≤ 15) as Hrange.
  { rewrite Hn1. destruct (Z.gtb_spec (sort_num st + 1) K); lia. }
  assert (retained s1' = retained s1) as Hret1 by (rewrite Hr1', Hr1, Hret, Hnum; done).
  unfold same_search. split_and!; try congruence; try lia.
  destruct (lookup_lt_is_Some_2 (retained s1) 0%nat) as [[d0 j0] Hx0].
  { rewrite length_retained by (done || lia). lia. }
  pose proof Hx0 as Hx0'. rewrite <- Hret1 in Hx0'.
  apply retained_lookup in Hx0 as [Hx0 _]. apply retained_lookup in Hx0' as [Hx0' _].
  change (Z.of_nat 0) with 0 in Hx0, Hx0'. congruence.
Qed.

(** ** The scan of one bird *)

Lemma visit_rel p rd2 i posi diri j st st' s1 s1' :
  1 ≤ neighbors p ≤ 15 → same_search st st' →
  visit p rd2 i posi diri st j = Some s1 → visit p rd2 i posi diri st' j = Some s1' →
  same_search s1 s1'.
Proof.
  intros HK HR. unfold visit. rewrite (proj1 HR).
  destruct (rd (birds st) j) as [bj|]; simpl; [|done].
  set (c := flt _ (fmul _ _)).
  destruct (if c then cluster_pair i j st else Some st) as [t|] eqn:E; [simpl|done].
  destruct (if c then cluster_pair i j st' else Some st') as [t'|] eqn:E'; [simpl|done].
  assert (same_search t t') as HRt.
  { destruct c.
    - by apply (sort_free_rel (cluster_pair i j) st st' t t' (cluster_pair_sort_free i j)).
    - by simplify_eq. }
  destruct (flt _ rd2); [|by intros [= <-] [= <-]].
  destruct (fgt _ (fovcos p)); [|by intros [= <-] [= <-]].
  destruct (insert_nbr _ _ j t) as [u|] eqn:Eu; [simpl|done].
  destruct (insert_nbr _ _ j t') as [u'|] eqn:Eu'; [simpl|done].
  apply sort_free_rel; [apply upd_bird_sort_free|].
  by eapply (insert_nbr_rel (neighbors p) _ j t t' u u').
Qed.

Lemma scan_window_rel a p g n rd2 nadj i posi diri st st' s1 s1' :
  1 ≤ neighbors p ≤ 15 → same_search st st' →
  scan_window a p g n rd2 nadj i posi diri st = Some s1 →
  scan_window a p g n rd2 nadj i posi diri st' = Some s1' →
  same_search s1 s1'.
Proof.
  intros HK HR. unfold scan_window.
  destruct (rd (pgcell g) i) as [c|]; simpl; [|done].
  destruct (negb _); [|by intros [= <-] [= <-]].
  apply for_each_rel; [|done].
  intros x s s' t t' _ HRs.
  destruct (rd (gridAdj a) x) as [adj|]; simpl; [|done].
  unfold scan_cell.
  destruct (rd (mgoff g) _) as [o|]; simpl; [|done].
  destruct (rd (mgcnt g) _) as [cn|]; simpl; [|done].
  apply for_each_rel; [|done].
  intros y u u' v v' _ HRu.
  destruct (rd (mgrid g) y) as [j0|]; simpl; [|done].
  destruct (_ >=? n); [by intros [= <-] [= <-]|].
  destruct (i =? _); [by intros [= <-] [= <-]|].
  by apply visit_rel.
Qed.

Lemma begin_bird_rel i st st' s1 s1' :
  same_search st st' →
  begin_bird i st = Some s1 → begin_bird i st' = Some s1' → same_search s1 s1'.
Proof.
  intros HR. unfold begin_bird.
  destruct (new_cluster i st) as [t|] eqn:E; [simpl|done].
  destruct (new_cluster i st') as [t'|] eqn:E'; [simpl|done].
  pose proof (sort_free_rel _ st st' t t' (new_cluster_sort_free i) HR E E') as HRt.
  destruct (upd_bird clear_info i t) as [u|] eqn:Eu; [simpl|done].
  destruct (upd_bird clear_info i t') as [u'|] eqn:Eu'; [simpl|done].
  destruct (sort_free_rel _ t t' u u' (upd_bird_sort_free clear_info i) HRt Eu Eu')
    as (Hb & Hm & Hca & Hn & Hr & Hl & Hl' & Hret & H0).
  intros [= <-] [= <-]. unfold same_search, retained. simpl.
  split_and!; try done; try apply Hl; apply Hl'.
Qed.

Lemma aggregate_rel i st st' s1 s1' :
  same_search st st' →
  aggregate i st = Some s1 → aggregate i st' = Some s1' → same_search s1 s1'.
Proof.
  intros HR. unfold aggregate.
  assert (sort_num st' = sort_num st) as -> by apply HR.
  destruct (for_each (accumulate i) _ st) as [t|] eqn:E; [simpl|done].
  destruct (for_each (accumulate i) _ st') as [t'|] eqn:E'; [simpl|done].
  assert (same_search t t' ∧ sort_num t = sort_num st) as [HRt Hnt].
  { revert E E'.
    apply (for_each_rel (λ s s', same_search s s' ∧ sort_num s = sort_num st));
      [|done].
    intros k s s' u u' Hk%elem_of_seqZ [HRs Hns]. unfold accumulate.
    rewrite (same_search_rd s s' k HRs) by lia. rewrite (proj1 HRs).
    destruct (rd (sort_j_nbr s) k) as [jk|]; simpl; [|done].
    destruct (rd (birds s) jk) as [bj|]; simpl; [|done].
    intros Eu Eu'. split.
    - eapply sort_free_rel; [apply upd_bird_sort_free|exact HRs|exact Eu|exact Eu'].
    - eapply sort_free_same in Eu as (_ & _ & ->); [done|apply upd_bird_sort_free]. }
  pose proof HRt as (_ & _ & _ & Hn' & _ & _ & _ & _ & H0).
  rewrite H0, Hn'.
  destruct (rd (sort_j_nbr t) 0) as [j0|]; simpl; [|done].
  destruct (upd_bird _ i t) as [u|] eqn:Eu; [simpl|done].
  destruct (upd_bird _ i t') as [u'|] eqn:Eu'; [simpl|done].
  assert (same_search u u') as HRu.
  { eapply sort_free_rel; [apply upd_bird_sort_free|exact HRt|exact Eu|exact Eu']. }
  assert (sort_num u' = sort_num u) as -> by apply HRu.
  destruct (sort_num u >? 0); [|by intros [= <-] [= <-]].
  by apply sort_free_rel; [apply upd_bird_sort_free|].
Qed.

Lemma find_bird_rel a p g n rd2 nadj i st st' s1 s1' :
  1 ≤ neighbors p ≤ 15 → same_search st st' →
  find_bird a p g n rd2 nadj st i = Some s1 →
  find_bird a p g n rd2 nadj st' i = Some s1' →
  same_search s1 s1'.
Proof.
  intros HK HR. unfold find_bird. rewrite (proj1 HR).
  destruct (rd (birds st) i) as [bi|]; simpl; [|done].
  destruct (begin_bird i st) as [t|] eqn:E; [simpl|done].
  destruct (begin_bird i st') as [t'|] eqn:E'; [simpl|done].
  pose proof (begin_bird_rel i st st' t t' HR E E') as HRt.
  destruct (scan_window _ _ _ _ _ _ _ _ _ t) as [u|] eqn:Eu; [simpl|done].
  destruct (scan_window _ _ _ _ _ _ _ _ _ t') as [u'|] eqn:Eu'; [simpl|done].
  apply aggregate_rel.
  by apply (scan_window_rel a p g n rd2 nadj i (pos bi) (normalize (vel bi)) t t' u u').
Qed.

(** X21. The two sort arrays are locals that are not initialised beyond their
    first entry, and the search reads entries that it has not written.
    For [1 <= neighbors <= 15] what it read there has no influence: two
    runs on the same flock with different contents of the arrays end with
    the same birds and the same clustering tables. *)
Theorem uninitialised_arrays_have_no_influence a p bs old junk_d junk_j junk_d' junk_j' :
  accel_wf a → coords_defined a bs → numPoints bs ≤ INT_MAX →
  length old = length bs → 1 ≤ neighbors p ≤ 15 →
  length junk_d = 16%nat → length junk_j = 16%nat →
  length junk_d' = 16%nat → length junk_j' = 16%nat →
  ∃ g st st',
    neighbor_pass a p bs old junk_d junk_j = Some (g, st) ∧
    neighbor_pass a p bs old junk_d' junk_j' = Some (g, st') ∧
    birds st' = birds st ∧ cluster_assignment st' = cluster_assignment st ∧
    max_cluster_id st' = max_cluster_id st.
Proof.
  intros Hwf Hdef HN Hold HK Hld Hlj Hld' Hlj'.
  destruct (neighbor_pass_head a p bs old junk_d junk_j Hwf Hdef HN Hold
              (proj2 HK) Hld Hlj) as (g & st & Hrun & _ & _).
  destruct (neighbor_pass_head a p bs old junk_d' junk_j' Hwf Hdef HN Hold
              (proj2 HK) Hld' Hlj') as (g' & st' & Hrun' & _ & _).
  assert (g' = g ∧ same_search st st') as [-> HR].
  { unfold neighbor_pass in Hrun, Hrun'.
    destruct (grid_pass a bs old) as [g0|]; [simpl in Hrun, Hrun'|done].
    destruct (FindNeighbors a p g0 bs junk_d junk_j) as [s|] eqn:E; [|done].
    destruct (FindNeighbors a p g0 bs junk_d' junk_j') as [s'|] eqn:E'; [|done].
    simpl in Hrun, Hrun'. injection Hrun as <- <-. injection Hrun' as <- <-.
    split; [done|]. unfold FindNeighbors in E, E'.
    destruct (init_state bs junk_d junk_j) as [s0|] eqn:E0; [simpl in E|done].
    destruct (init_state bs junk_d' junk_j') as [s0'|] eqn:E0'; [simpl in E'|done].
    revert E E'. apply for_each_rel.
    - intros i u u' v v' _. by apply find_bird_rel.
    - unfold init_state in E0, E0'.
      destruct (wr junk_d 0 _) as [sd|] eqn:Esd; [simpl in E0|done].
      destruct (wr junk_j 0 _) as [sj|] eqn:Esj; [simpl in E0|done].
      destruct (wr junk_d' 0 _) as [sd'|] eqn:Esd'; [simpl in E0'|done].
      destruct (wr junk_j' 0 _) as [sj'|] eqn:Esj'; [simpl in E0'|done].
      injection E0 as <-. injection E0' as <-.
      apply wr_Some in Esd as [_ ->]. apply wr_Some in Esj as [_ ->].
      apply wr_Some in Esd' as [_ ->]. apply wr_Some in Esj' as [_ ->].
      unfold same_search, retained. simpl. rewrite !length_insert.
      split_and!; try done. by rewrite !rd_insert_eq by lia. }
  exists g, st, st'. split_and!; try done; apply HR.
Qed.

End Uninitialised.

Lemma uninitialised_arrays_have_no_influence_witness :
  ∃ g st st',
    neighbor_pass demo_accel demo_params demo_birds demo_old demo_junk_d demo_junk_j
      = Some (g, st) ∧
    neighbor_pass demo_accel demo_params demo_birds demo_old
      (replicate 16 (fz 1)) (replicate 16 3) = Some (g, st') ∧
    birds st' = birds st ∧ cluster_assignment st' = cluster_assignment st ∧
    max_cluster_id st' = max_cluster_id st.
Proof.
  apply (uninitialised_arrays_have_no_influence demo_accel demo_params demo_birds demo_old
           demo_junk_d demo_junk_j (replicate 16 (fz 1)) (replicate 16 3)); demo_side.
Defined.

(** * The nearest neighbour as an index *)

Section NearestIndex.
Context {F : Type} `{FloatOps F}.
Implicit Types (a : Accel F) (p : Params F) (bs : list (Bird F)).

(** The first entry of [sort_j_nbr] is -1 or the index of a bird. *)
Lemma first_slot_range a p bs (m : nat) :
  first_slot a p bs m = -1 ∨ 0 ≤ first_slot a p bs m < numPoints bs.
Proof.
  induction m as [|m IH]; [by left|]. simpl.
  destruct (nbr_list a p bs (Z.of_nat m)) as [|x l] eqn:Hnl; [done|]. right.
  destruct (nbr_list_valid a p bs (Z.of_nat m) x) as [_ [bx Hbx%rd_range]].
  - intros j Hj. by apply cand_list_valid in Hj as (_ & ? & _).
  - rewrite Hnl. apply elem_of_cons. by left.
  - unfold numPoints. lia.
Qed.

(** X22. For [1 <= neighbors <= 15], [near_j] of every bird is -1 or the index
    of a bird after the neighbour search, so that the reads of
    [GetElem(0, b->near_j)] under the test [near_j != -1] stay inside the
    buffer of the birds. *)
Theorem near_j_is_none_or_a_bird a p bs old junk_d junk_j :
  accel_wf a → coords_defined a bs → numPoints bs ≤ INT_MAX →
  length old = length bs → 1 ≤ neighbors p ≤ 15 →
  length junk_d = 16%nat → length junk_j = 16%nat →
  ∃ g st, neighbor_pass a p bs old junk_d junk_j = Some (g, st) ∧
    ∀ n b, rd (birds st) n = Some b →
      near_j b = -1 ∨ is_Some (rd (birds st) (near_j b)).
Proof.
  intros Hwf Hdef HN Hold [HK1 HK] Hld Hlj.
  destruct (neighbor_pass_results a p bs old junk_d junk_j Hwf Hdef HN Hold HK Hld Hlj)
    as (g & st & Hrun & Hh & Hr).
  exists g, st. split; [done|]. intros n b Hn.
  pose proof (rd_range _ _ _ Hn) as Hnr. rewrite (hi_len _ _ _ _ _ Hh) in Hnr.
  rewrite (ri_near _ _ _ _ _ Hr HK1 n b) by (try done; unfold numPoints; lia).
  destruct (first_slot_range a p bs (Z.to_nat (n + 1))) as [?|Hrange]; [by left|right].
  apply rd_is_Some. rewrite (hi_len _ _ _ _ _ Hh). unfold numPoints in Hrange. lia.
Qed.

End NearestIndex.

Lemma near_j_is_none_or_a_bird_witness :
  ∃ g st, neighbor_pass demo_accel demo_params demo_birds demo_old demo_junk_d demo_junk_j
            = Some (g, st) ∧
    ∀ n b, rd (birds st) n = Some b →
      near_j b = -1 ∨ is_Some (rd (birds st) (near_j b)).
Proof.
  apply (near_j_is_none_or_a_bird demo_accel demo_params demo_birds demo_old
           demo_junk_d demo_junk_j); demo_side.
Defined.

(** * The ring buffers of the graphs *)

Section GraphRing.
Context {F : Type} `{FloatOps F}.
Implicit Types (g : graph_t F) (gs : list (graph_t F)).

Lemma grow_graphs_spec (fuel : nat) id (ng : graph_t F) gs :
  0 ≤ id ≤ INT_MAX → id + 1 ≤ Z.of_nat (length gs) + Z.of_nat fuel →
  grow_graphs fuel id ng gs =
  Some (gs ++ replicate (Z.to_nat (id + 1) - length gs) ng).
Proof.
  intros Hid. unfold INT_MAX in Hid.
  assert (u64 id = id) as Hu by (unfold u64; rewrite Z.mod_small; lia).
  revert gs. induction fuel as [|fuel IH]; intros gs Hfuel; simpl; rewrite Hu.
  - destruct (Z.geb_spec id (Z.of_nat (length gs))) as [Hge|Hlt]; [lia|].
    replace (Z.to_nat (id + 1) - length gs)%nat with 0%nat by lia.
    by rewrite app_nil_r.
  - destruct (Z.geb_spec id (Z.of_nat (length gs))) as [Hge|Hlt].
    + rewrite IH by (rewrite length_app; simpl; lia).
      rewrite length_app, <- app_assoc. simpl. f_equal.
      replace (Z.to_nat (id + 1) - length gs)%nat
        with (S (Z.to_nat (id + 1) - (length gs + 1))) by lia.
      done.
    + replace (Z.to_nat (id + 1) - length gs)%nat with 0%nat by lia.
      by rewrite app_nil_r.
Qed.

(** X23. [Graph] does not return for a negative [id]: converted to
    [size_t] it exceeds every size, and the growing loop does not end.
    For other ids it returns: the vector grows to [id + 1] graphs if it was
    shorter, the new graphs being empty and having the colour and scale of
    this call; the cursor of graph [id] advances by one and wraps from 2047
    to 0, the sample is stored at the new cursor and nowhere else; no other
    graph changes; and every cursor stays inside its 2048 samples. *)
Theorem Graph_writes_inside_the_ring id (y : F) clr scal gs :
  Forall graph_ok gs → Z.of_nat (length gs) ≤ INT_MAX →
  (id < 0 → -9223372036854775808 ≤ id → Graph id y clr scal gs = None) ∧
  (0 ≤ id ≤ INT_MAX →
   let grown := gs ++ replicate (Z.to_nat (id + 1) - length gs) (new_graph clr scal) in
   ∃ gs' g0 g', Graph id y clr scal gs = Some gs' ∧
     rd grown id = Some g0 ∧ rd gs' id = Some g' ∧
     (∀ k, k ≠ id → rd gs' k = rd grown k) ∧
     length gs' = length grown ∧ Forall graph_ok gs' ∧
     g_x g' = (g_x g0 + 1) mod 2048 ∧
     rd (g_y g') (g_x g') = Some y ∧
     (∀ q, q ≠ g_x g' → rd (g_y g') q = rd (g_y g0) q) ∧
     g_scal g' = g_scal g0 ∧ g_clr g' = g_clr g0).
Proof.
  intros Hok Hlen. unfold INT_MAX in *. split.
  - intros Hneg Hmin. unfold Graph.
    replace (Z.to_nat (id + 1)) with 0%nat by lia. simpl.
    assert (u64 id = id + 18446744073709551616) as ->.
    { unfold u64. symmetry. apply (Z.mod_unique_pos _ _ (-1)); lia. }
    by destruct (Z.geb_spec (id + 18446744073709551616) (Z.of_nat (length gs))); [|lia].
  - intros Hid. set (grown := gs ++ replicate _ _). unfold Graph.
    rewrite grow_graphs_spec by (unfold INT_MAX; lia). fold grown. simpl.
    assert (Forall graph_ok grown) as Hgrown.
    { apply Forall_app. split; [done|]. apply Forall_replicate.
      split; [simpl; lia|apply length_replicate]. }
    assert (Z.of_nat (length grown) = Z.max (Z.of_nat (length gs)) (id + 1)) as Hlg.
    { unfold grown. rewrite length_app, length_replicate. lia. }
    destruct (rd_is_Some grown id) as [g0 Hg0]; [lia|].
    rewrite Hg0. simpl.
    assert (graph_ok g0) as [Hx Hy].
    { rewrite Forall_forall in Hgrown. apply Hgrown.
      apply rd_Some in Hg0 as [_ Hg0]. by eapply list_elem_of_lookup_2. }
    rewrite (i32_small (g_x g0 + 1)) by lia.
    set (x := if g_x g0 + 1 >=? 2048 then 0 else g_x g0 + 1).
    assert (x = (g_x g0 + 1) mod 2048 ∧ 0 ≤ x < 2048) as [Hxm Hxr].
    { unfold x. destruct (Z.geb_spec (g_x g0 + 1) 2048).
      - replace (g_x g0 + 1) with 2048 by lia. done.
      - rewrite Z.mod_small by lia. lia. }
    destruct (wr_is_Some (g_y g0) x y) as [ys Hys]; [lia|]. rewrite Hys. simpl.
    destruct (wr_is_Some grown id (mkGraph x ys (g_scal g0) (g_clr g0))) as [gs' Hgs'];
      [lia|].
    rewrite Hgs'. pose proof Hgs' as [_ ->]%wr_Some. pose proof Hys as [_ ->]%wr_Some.
    exists (<[Z.to_nat id := mkGraph x (<[Z.to_nat x := y]> (g_y g0)) (g_scal g0) (g_clr g0)]>
              grown), g0, (mkGraph x (<[Z.to_nat x := y]> (g_y g0)) (g_scal g0) (g_clr g0)).
    split_and!; try done.
    + apply rd_insert_eq. lia.
    + intros k Hk. apply rd_insert_ne; lia.
    + apply length_insert.
    + apply Forall_insert; [done|]. split; simpl; [done|by rewrite length_insert].
    + simpl. apply rd_insert_eq. lia.
    + intros q Hq. simpl. apply rd_insert_ne; simpl in *; lia.
Qed.

End GraphRing.

Lemma Graph_writes_inside_the_ring_witness :
  Graph (-1) (fz 1) (fz 0, fz 0, fz 0, fz 1) (fz 1, fz 1) [] = None ∧
  ∃ gs', Graph 1 (fz 1) (fz 0, fz 0, fz 0, fz 1) (fz 1, fz 1) [] = Some gs' ∧
         length gs' = 2%nat.
Proof.
  destruct (Graph_writes_inside_the_ring 1 (fz 1) (fz 0, fz 0, fz 0, fz 1) (fz 1, fz 1) [])
    as [_ Hpos]; [apply Forall_nil_2|unfold INT_MAX; simpl; lia|].
  destruct (Graph_writes_inside_the_ring (-1) (fz 1) (fz 0, fz 0, fz 0, fz 1) (fz 1, fz 1) [])
    as [Hneg _]; [apply Forall_nil_2|unfold INT_MAX; simpl; lia|].
  split; [apply Hneg; lia|].
  destruct Hpos as (gs' & g0 & g' & Hrun & _ & _ & _ & Hlen & _); [unfold INT_MAX; lia|].
  exists gs'. split; assumption.
Defined.

(** * A bird without a cell among the others *)

Lemma skip_index_lt k n m : n < m → skip_index k n < skip_index k m.
Proof. unfold skip_index. destruct (Z.ltb_spec n k), (Z.ltb_spec m k); lia. Qed.

Global Instance skip_index_inj k : Inj (=) (=) (skip_index k).
Proof.
  intros n m. unfold skip_index. destruct (Z.ltb_spec n k), (Z.ltb_spec m k); lia.
Qed.

Lemma skip_index_cover k x : x ≠ k → x = skip_index k (if x <? k then x else x - 1).
Proof.
  intros Hx. unfold skip_index. destruct (Z.ltb_spec x k) as [Hlt|Hge].
  - by rewrite (proj2 (Z.ltb_lt x k)).
  - rewrite (proj2 (Z.ltb_ge (x - 1) k)) by lia. lia.
Qed.

Lemma rd_fmap {A B} (f : A → B) (l : list A) i : rd (f <$> l) i = f <$> rd l i.
Proof. unfold rd. case_bool_decide; [apply list_lookup_fmap|done]. Qed.

Lemma length_insert_bird {A} (k : nat) (b : A) bs :
  (k ≤ length bs)%nat → length (insert_bird k b bs) = S (length bs).
Proof.
  intros Hk. unfold insert_bird. rewrite length_app, length_take. simpl.
  rewrite length_drop. lia.
Qed.

Lemma rd_insert_bird {A} (k : nat) (b : A) bs n :
  (k ≤ length bs)%nat →
  rd (insert_bird k b bs) (skip_index (Z.of_nat k) n) = rd bs n.
Proof.
  intros Hk. unfold rd, skip_index, insert_bird.
  destruct (Z.ltb_spec n (Z.of_nat k)) as [Hlt|Hge].
  - case_bool_decide; [|done].
    rewrite lookup_app_l by (rewrite length_take; lia).
    apply lookup_take_lt. lia.
  - rewrite !bool_decide_eq_true_2 by lia.
    rewrite lookup_app_r by (rewrite length_take; lia).
    rewrite length_take, Nat.min_l by done.
    replace (Z.to_nat (n + 1) - k)%nat with (S (Z.to_nat n - k)) by lia.
    simpl. rewrite lookup_drop. f_equal. lia.
Qed.

Lemma rd_insert_bird_at {A} (k : nat) (b : A) bs :
  (k ≤ length bs)%nat → rd (insert_bird k b bs) (Z.of_nat k) = Some b.
Proof.
  intros Hk. rewrite rd_nat. unfold insert_bird.
  rewrite lookup_app_r by (rewrite length_take; lia).
  by rewrite length_take, Nat.min_l, Nat.sub_diag by done.
Qed.

Lemma filter_ne_fmap (f : Z → Z) `{!Inj (=) (=) f} i (l : list Z) :
  filter (λ j, f i ≠ j) (f <$> l) = f <$> filter (λ j, i ≠ j) l.
Proof.
  induction l as [|x l IH]; [done|]. rewrite fmap_cons, !filter_cons.
  destruct (decide (i ≠ x)) as [Hne|Heq].
  - rewrite decide_True by (intros ?%(inj f); done). by rewrite fmap_cons, IH.
  - rewrite decide_False; [done|]. intros Hf. apply Hf. f_equal.
    by destruct (decide (i = x)).
Qed.

Section LeftOut.
Context {F : Type} `{FloatOps F}.
Variables (a : Accel F) (bs : list (Bird F)) (b : Bird F) (k : nat).
Hypothesis Hwf : accel_wf a.
Hypothesis Hk : (k ≤ length bs)%nat.
Hypothesis Hcell : cell_of a b = GRID_UNDEF.

#[warnings="-notation-for-abbreviation"]
Local Notation bs' := (insert_bird k b bs).
#[warnings="-notation-for-abbreviation"]
Local Notation sh := (skip_index (Z.of_nat k)).
#[warnings="-notation-for-abbreviation"]
Local Notation shp := (prod_map (@id F) (skip_index (Z.of_nat k))).

Lemma rd_cells_shift n : rd (cells a bs') (sh n) = rd (cells a bs) n.
Proof. unfold cells. by rewrite !rd_fmap, rd_insert_bird. Qed.

Lemma rd_cells_new : rd (cells a bs') (Z.of_nat k) = Some GRID_UNDEF.
Proof. unfold cells. by rewrite rd_fmap, rd_insert_bird_at, <- Hcell. Qed.

Lemma length_cells_new : length (cells a bs') = S (length (cells a bs)).
Proof. unfold cells. by rewrite !length_fmap, length_insert_bird. Qed.

(** The members of a cell are the same birds, under their new indices. *)
Lemma members_shift c :
  c ≠ GRID_UNDEF → members (cells a bs') c = sh <$> members (cells a bs) c.
Proof.
  intros Hc. apply (StronglySorted_unique_strong Z.lt).
  - intros x y _ _ Hxy Hyx. lia.
  - apply StronglySorted_filter, StronglySorted_seqZ.
  - apply (StronglySorted_fmap _ Z.lt Z.lt); [intros x y; apply skip_index_lt|].
    apply StronglySorted_filter, StronglySorted_seqZ.
  - apply NoDup_Permutation.
    + apply NoDup_members_upto.
    + apply (NoDup_fmap_2 _), NoDup_members_upto.
    + intros x. unfold members. rewrite list_elem_of_fmap, elem_of_members_upto.
      rewrite length_cells_new. split.
      * intros [Hx Hcx]. destruct (decide (x = Z.of_nat k)) as [->|Hne].
        { rewrite rd_cells_new in Hcx. congruence. }
        pose proof (skip_index_cover (Z.of_nat k) x Hne) as Hcov.
        exists (if x <? Z.of_nat k then x else x - 1). split; [done|].
        apply elem_of_members_upto. rewrite Hcov, rd_cells_shift in Hcx.
        split; [|done]. unfold cells. rewrite length_fmap.
        unfold cells in Hx. rewrite length_fmap in Hx.
        destruct (Z.ltb_spec x (Z.of_nat k)); lia.
      * intros (n & -> & [Hn Hcn]%elem_of_members_upto). split.
        -- unfold skip_index. destruct (Z.ltb_spec n (Z.of_nat k)); lia.
        -- by rewrite rd_cells_shift.
Qed.

Lemma concat_members_shift (W : list Z) :
  Forall (λ w, w ≠ GRID_UNDEF) W →
  concat (members (cells a bs') <$> W) = sh <$> concat (members (cells a bs) <$> W).
Proof.
  induction 1 as [|w W Hw _ IH]; [done|]. rewrite !fmap_cons. simpl concat.
  by rewrite fmap_app, members_shift, IH.
Qed.

(** A scan visits the same birds, under their new indices. *)
Lemma cand_list_shift i : cand_list a bs' (sh i) = sh <$> cand_list a bs i.
Proof.
  unfold cand_list. rewrite rd_insert_bird by done.
  destruct (rd bs i) as [bi|]; [|done].
  destruct (decide (cell_of a bi = GRID_UNDEF)) as [|Hc]; [done|].
  unfold window_members. rewrite <- filter_ne_fmap by apply _. f_equal.
  apply concat_members_shift.
  destruct (cell_of_defined a bi Hwf Hc) as (gc & _ & Hin & Hf & _). rewrite Hf.
  apply Forall_forall. intros w Hw.
  pose proof (window_in_grid a gc w Hwf Hin Hw).
  pose proof (wf_total_int a Hwf). unfold INT_MAX, GRID_UNDEF in *. lia.
Qed.

Lemma cand_list_new : cand_list a bs' (Z.of_nat k) = [].
Proof. unfold cand_list. rewrite rd_insert_bird_at by done. by rewrite decide_True. Qed.

Lemma qual_list_shift p i l :
  qual_list a p bs' (sh i) (sh <$> l) = shp <$> qual_list a p bs i l.
Proof.
  unfold qual_list. induction l as [|j l IH]; [done|].
  rewrite fmap_cons, !bind_cons, fmap_app, IH. f_equal.
  rewrite !rd_insert_bird by done.
  destruct (rd bs i) as [bi|]; [|done]. destruct (rd bs j) as [bj|]; [|done].
  by destruct (qualifies a p bi bj).
Qed.

Lemma ins_sorted_shift (x : F * Z) l :
  ins_sorted (shp x) (shp <$> l) = shp <$> ins_sorted x l.
Proof.
  destruct x as [dx jx]. induction l as [|[de je] l IH]; [done|].
  rewrite fmap_cons, !ins_sorted_cons. simpl.
  destruct (fgt dx de); [|done]. by rewrite fmap_cons, <- IH.
Qed.

Lemma isort_shift (l : list (F * Z)) : isort (shp <$> l) = shp <$> isort l.
Proof.
  induction l as [|x l IH] using rev_ind; [done|].
  rewrite fmap_app. simpl. by rewrite !isort_snoc, IH, ins_sorted_shift.
Qed.

(** The retained neighbours are the same birds, under their new indices. *)
Lemma nbr_list_shift p i : nbr_list a p bs' (sh i) = shp <$> nbr_list a p bs i.
Proof.
  unfold nbr_list. by rewrite cand_list_shift, qual_list_shift, isort_shift, fmap_take.
Qed.

Lemma nbr_list_new p : nbr_list a p bs' (Z.of_nat k) = [].
Proof. unfold nbr_list. rewrite cand_list_new. apply take_nil. Qed.

Lemma gather_shift (f : Bird F → Vec3F F) (l : list (F * Z)) :
  gather f bs' (shp <$> l) = gather f bs l.
Proof.
  unfold gather. induction l as [|[d j] l IH]; [done|].
  rewrite fmap_cons. simpl. rewrite rd_insert_bird by done.
  destruct (rd bs j) as [bj|]; simpl; [f_equal|]; exact IH.
Qed.

Lemma in_view_shift p i : in_view a p bs' (sh i) = in_view a p bs i.
Proof.
  unfold in_view. by rewrite cand_list_shift, qual_list_shift, length_fmap.
Qed.

Lemma first_slot_S p (l : list (Bird F)) (m : nat) :
  first_slot a p l (S m) =
  match nbr_list a p l (Z.of_nat m) with
  | [] => first_slot a p l m
  | x :: _ => x.2
  end.
Proof. done. Qed.

(** The stale first entry of [sort_j_nbr] passes over the new bird. *)
Lemma first_slot_shift p (m : nat) :
  (m ≤ length bs)%nat →
  first_slot a p bs' (if decide (m ≤ k)%nat then m else S m) =
  sh (first_slot a p bs m).
Proof.
  induction m as [|m IH]; intros Hm.
  - rewrite decide_True by lia. simpl. unfold skip_index.
    by destruct (Z.ltb_spec (-1) (Z.of_nat k)); [|lia].
  - specialize (IH ltac:(lia)). rewrite (first_slot_S p bs m).
    destruct (Nat.le_gt_cases (S m) k) as [Hle|Hgt].
    + rewrite decide_True by lia. rewrite decide_True in IH by lia.
      rewrite (first_slot_S p bs' m).
      replace (Z.of_nat m) with (sh (Z.of_nat m)) at 1
        by (unfold skip_index; destruct (Z.ltb_spec (Z.of_nat m) (Z.of_nat k)); lia).
      rewrite nbr_list_shift.
      by destruct (nbr_list a p bs (Z.of_nat m)) as [|[d j] l].
    + rewrite decide_False by lia. rewrite (first_slot_S p bs' (S m)).
      replace (Z.of_nat (S m)) with (sh (Z.of_nat m))
        by (unfold skip_index; destruct (Z.ltb_spec (Z.of_nat m) (Z.of_nat k)); lia).
      rewrite nbr_list_shift.
      destruct (nbr_list a p bs (Z.of_nat m)) as [|[d j] l]; [rewrite fmap_nil|done].
      destruct (Nat.le_gt_cases m k) as [Hmk|Hmk].
      * assert (m = k) as -> by lia. rewrite decide_True in IH by lia.
        by rewrite (first_slot_S p bs' k), nbr_list_new.
      * by rewrite decide_False in IH by lia.
Qed.

(** A bird whose cell is undefined is left out of the grid and of every
    scan, and the grid and the neighbour results of the other birds are
    those of the flock without it, under the new indices. *)
Lemma undefined_bird_is_left_out p old old' junk_d junk_j :
  coords_defined a bs → is_Some (cell_coord a (pos b)) →
  numPoints bs < INT_MAX →
  length old = length bs → length old' = S (length bs) →
  1 ≤ neighbors p ≤ 15 → length junk_d = 16%nat → length junk_j = 16%nat →
  ∃ g st g' st',
    neighbor_pass a p bs old junk_d junk_j = Some (g, st) ∧
    neighbor_pass a p bs' old' junk_d junk_j = Some (g', st') ∧
    rd (pgcell g') (Z.of_nat k) = Some GRID_UNDEF ∧
    (Z.of_nat k ∉ mgrid g') ∧
    (∀ c, 0 ≤ c < gridTotal a → Z.of_nat k ∉ bucket g' c) ∧
    candidates a g' (numPoints bs') (nadj_of a) (Z.of_nat k) = Some [] ∧
    (∀ i l, candidates a g' (numPoints bs') (nadj_of a) i = Some l → Z.of_nat k ∉ l) ∧
    mgcnt g' = mgcnt g ∧ mgoff g' = mgoff g ∧
    (∀ c, 0 ≤ c < gridTotal a → bucket g' c = sh <$> bucket g c) ∧
    (∀ i l, candidates a g (numPoints bs) (nadj_of a) i = Some l →
            candidates a g' (numPoints bs') (nadj_of a) (sh i) = Some (sh <$> l)) ∧
    ∀ n bn, rd (birds st) n = Some bn →
      ∃ bn', rd (birds st') (sh n) = Some bn' ∧
        pos bn' = pos bn ∧ vel bn' = vel bn ∧
        t_nbrs bn' = t_nbrs bn ∧ r_nbrs bn' = r_nbrs bn ∧
        ave_pos bn' = ave_pos bn ∧ ave_vel bn' = ave_vel bn ∧
        near_j bn' = sh (near_j bn).
Proof.
  intros Hdef Hb HN Hold Hold' [HK1 HK] Hld Hlj.
  pose proof (wf_total_int a Hwf) as HT.
  assert (coords_defined a bs') as Hdef'.
  { unfold coords_defined, insert_bird in *. apply Forall_app. split.
    - by apply Forall_take.
    - apply Forall_cons. split; [done|]. by apply Forall_drop. }
  assert (numPoints bs' = numPoints bs + 1) as HN'.
  { unfold numPoints. rewrite length_insert_bird by done. lia. }
  destruct (neighbor_pass_head a p bs old junk_d junk_j Hwf Hdef ltac:(lia) Hold HK Hld Hlj)
    as (g & st & Hrun & Hbk & _).
  destruct (neighbor_pass_results a p bs old junk_d junk_j Hwf Hdef ltac:(lia) Hold HK
              Hld Hlj) as (g0 & st0 & Hrun0 & Hh & Hr).
  rewrite Hrun in Hrun0. injection Hrun0 as <- <-.
  destruct (neighbor_pass_head a p bs' old' junk_d junk_j Hwf Hdef')
    as (g' & st' & Hrun' & Hbk' & _);
    [lia|by rewrite length_insert_bird|done..|].
  destruct (neighbor_pass_results a p bs' old' junk_d junk_j Hwf Hdef')
    as (g0 & st0 & Hrun0 & Hh' & Hr');
    [lia|by rewrite length_insert_bird|done..|].
  rewrite Hrun' in Hrun0. injection Hrun0 as <- <-.
  pose proof (bk_counted _ _ _ Hbk) as Hcnt.
  pose proof (bk_counted _ _ _ Hbk') as Hcnt'.
  assert (∀ c, 0 ≤ c < gridTotal a → c ≠ GRID_UNDEF) as Hcu
    by (unfold INT_MAX, GRID_UNDEF in *; lia).
  assert (mgcnt g' = mgcnt g) as Hcnt_eq.
  { apply list_eq. intros c.
    destruct (decide (c < Z.to_nat (gridTotal a))%nat) as [Hc|Hc].
    - rewrite <- !rd_nat.
      rewrite (cnt_cnt _ _ _ Hcnt (Z.of_nat c)), (cnt_cnt _ _ _ Hcnt' (Z.of_nat c)) by lia.
      f_equal. unfold occ. fold (members (cells a bs') (Z.of_nat c)).
      fold (members (cells a bs) (Z.of_nat c)).
      rewrite members_shift by (apply Hcu; lia). by rewrite length_fmap.
    - rewrite !lookup_ge_None_2; [done|..].
      + rewrite (cnt_len _ _ _ Hcnt). lia.
      + rewrite (cnt_len _ _ _ Hcnt'). lia. }
  assert (∀ i bi, rd bs' i = Some bi →
            candidates a g' (numPoints bs') (nadj_of a) i = Some (cand_list a bs' i))
    as Hcand'.
  { intros i bi Hbi. rewrite (candidates_spec a bs' g' i bi Hwf Hbk'); [|lia|done].
    unfold cand_list. by rewrite Hbi. }
  exists g, st, g', st'. split_and!; try done.
  - rewrite (cnt_cell _ _ _ Hcnt'). apply rd_cells_new.
  - intros [q Hq]%list_elem_of_lookup.
    destruct (bk_grid_only _ _ _ Hbk' (Z.of_nat q) (Z.of_nat k) (rd_of_lookup _ _ _ Hq))
      as [Hu|(c & Hc & Hne & _)].
    + unfold numPoints, INT_MAX, GRID_UNDEF in *. lia.
    + rewrite rd_cells_new in Hc. congruence.
  - intros c Hc. rewrite (bucket_members _ _ _ _ Hbk') by lia.
    intros [_ Hin]%elem_of_members_upto. rewrite rd_cells_new in Hin.
    injection Hin as Hin. by apply (Hcu c Hc).
  - rewrite (Hcand' (Z.of_nat k) b) by (by apply rd_insert_bird_at).
    by rewrite cand_list_new.
  - intros i l Hl Hin.
    assert (is_Some (rd bs' i)) as [bi Hbi].
    { unfold candidates, scanned in Hl.
      destruct (rd (pgcell g') i) as [c|] eqn:Hc; [|done].
      apply rd_range in Hc. rewrite (cnt_cell _ _ _ Hcnt') in Hc.
      apply rd_is_Some. unfold cells in Hc. by rewrite length_fmap in Hc. }
    rewrite (Hcand' i bi Hbi) in Hl. injection Hl as <-.
    apply (cand_list_window a bs' i (Z.of_nat k) Hwf) in Hin
      as (_ & bi' & bj & gi & gj & _ & Hbj & _ & Hgj & _ & Hinj & _).
    rewrite rd_insert_bird_at in Hbj by done. injection Hbj as <-.
    by destruct (cell_of_in_scan a b gj Hwf Hgj Hinj) as (_ & _ & ?).
  - apply list_eq. intros c.
    destruct (decide (c < Z.to_nat (gridTotal a))%nat) as [Hc|Hc].
    + rewrite <- !rd_nat.
      rewrite (bk_off _ _ _ Hbk (Z.of_nat c)), (bk_off _ _ _ Hbk' (Z.of_nat c)) by lia.
      by rewrite Hcnt_eq.
    + rewrite !lookup_ge_None_2; [done|..].
      * rewrite (bk_off_len _ _ _ Hbk). lia.
      * rewrite (bk_off_len _ _ _ Hbk'). lia.
  - intros c Hc.
    rewrite (bucket_members _ _ _ _ Hbk'), (bucket_members _ _ _ _ Hbk) by lia.
    apply members_shift. by apply Hcu.
  - intros i l Hl.
    assert (is_Some (rd bs i)) as [bi Hbi].
    { unfold candidates, scanned in Hl.
      destruct (rd (pgcell g) i) as [c|] eqn:Hc; [|done].
      apply rd_range in Hc. rewrite (cnt_cell _ _ _ Hcnt) in Hc.
      apply rd_is_Some. unfold cells in Hc. by rewrite length_fmap in Hc. }
    rewrite (candidates_spec a bs g i bi Hwf Hbk) in Hl; [|lia|done].
    rewrite (Hcand' (sh i) bi) by (by rewrite rd_insert_bird).
    rewrite cand_list_shift. unfold cand_list. rewrite Hbi. by injection Hl as <-.
  - intros n bn Hn. pose proof (rd_range _ _ _ Hn) as Hnr.
    rewrite (hi_len _ _ _ _ _ Hh) in Hnr.
    destruct (rd_is_Some bs n) as [b0 Hb0]; [done|].
    destruct (hi_static _ _ _ _ _ Hh n b0 Hb0) as (bn0 & Hbn0 & Hp & Hv).
    rewrite Hn in Hbn0. injection Hbn0 as <-.
    assert (rd bs' (sh n) = Some b0) as Hb0' by (by rewrite rd_insert_bird).
    destruct (hi_static _ _ _ _ _ Hh' (sh n) b0 Hb0') as (bn' & Hbn' & Hp' & Hv').
    assert (0 ≤ sh n < numPoints bs') as Hsr.
    { unfold skip_index, numPoints in *. destruct (Z.ltb_spec n (Z.of_nat k)); lia. }
    destruct (hi_done _ _ _ _ _ Hh ltac:(lia) n bn) as (Ht & Hap & Hav);
      [unfold numPoints; lia|done|].
    destruct (hi_done _ _ _ _ _ Hh' ltac:(lia) (sh n) bn') as (Ht' & Hap' & Hav');
      [lia|done|].
    rewrite nbr_list_shift in Ht', Hap', Hav'.
    rewrite length_fmap in Ht'. rewrite gather_shift in Hap', Hav'.
    exists bn'. split_and!; try congruence.
    + rewrite (ri_count _ _ _ _ _ Hr' (sh n) bn'), (ri_count _ _ _ _ _ Hr n bn);
        [apply in_view_shift|unfold numPoints; lia|done|lia|done].
    + rewrite (ri_near _ _ _ _ _ Hr' HK1 (sh n) bn'), (ri_near _ _ _ _ _ Hr HK1 n bn);
        [|unfold numPoints; lia|done|lia|done].
      rewrite <- (first_slot_shift p (Z.to_nat (n + 1))) by lia. f_equal.
      unfold skip_index. destruct (Z.ltb_spec n (Z.of_nat k)).
      * rewrite decide_True by lia. done.
      * rewrite decide_False by lia. lia.
Qed.

End LeftOut.

(** ** The conversion of a position that is not finite *)

Lemma cell_coord_total (a : Accel float32) (v : Vec3 float32) :
  is_Some (cell_coord a v).
Proof.
  unfold cell_coord. simpl.
  destruct (f32_to_int_total (SFmul 24 128 (SFsub 24 128 (vx v) (vx (gridMin a)))
                                (vx (gridDelta a)))) as [x ->].
  destruct (f32_to_int_total (SFmul 24 128 (SFsub 24 128 (vy v) (vy (gridMin a)))
                                (vy (gridDelta a)))) as [y ->].
  destruct (f32_to_int_total (SFmul 24 128 (SFsub 24 128 (vz v) (vz (gridMin a)))
                                (vz (gridDelta a)))) as [z ->].
  done.
Qed.

Lemma coords_defined_float32 (a : Accel float32) bs : coords_defined a bs.
Proof. apply Forall_forall. intros b _. apply cell_coord_total. Qed.

(** The coordinates of a position with a component that is not finite
    are converted like any others, and one of them becomes [INT_MIN],
    which the range test refuses. *)
Lemma non_finite_coord (a : Accel float32) (b : Bird float32) :
  non_finite (vx (pos b)) || non_finite (vy (pos b)) || non_finite (vz (pos b)) = true →
  ∃ gc, cell_coord a (pos b) = Some gc ∧
        (vx gc = -2147483648 ∨ vy gc = -2147483648 ∨ vz gc = -2147483648) ∧
        in_scan a gc = false ∧ cell_of a b = GRID_UNDEF.
Proof.
  intros Hnf. destruct (cell_coord_total a (pos b)) as [gc Hgc]. exists gc.
  assert (vx gc = -2147483648 ∨ vy gc = -2147483648 ∨ vz gc = -2147483648) as Hmin.
  { unfold cell_coord, vmul, vsub in Hgc. simpl in Hgc.
    destruct (f32_to_int (SFmul 24 128 (SFsub 24 128 (vx (pos b)) _) _)) as [x|] eqn:Hx;
      [simpl in Hgc|done].
    destruct (f32_to_int (SFmul 24 128 (SFsub 24 128 (vy (pos b)) _) _)) as [y|] eqn:Hy;
      [simpl in Hgc|done].
    destruct (f32_to_int (SFmul 24 128 (SFsub 24 128 (vz (pos b)) _) _)) as [z|] eqn:Hz;
      [simpl in Hgc|done].
    injection Hgc as <-. simpl.
    apply orb_true_iff in Hnf as [Hnf|Hnz]; [apply orb_true_iff in Hnf as [Hnx|Hny]|].
    - rewrite (non_finite_to_int _ (non_finite_mul _ _ (non_finite_sub _ _ Hnx))) in Hx.
      left. congruence.
    - rewrite (non_finite_to_int _ (non_finite_mul _ _ (non_finite_sub _ _ Hny))) in Hy.
      right. left. congruence.
    - rewrite (non_finite_to_int _ (non_finite_mul _ _ (non_finite_sub _ _ Hnz))) in Hz.
      right. right. congruence. }
  assert (in_scan a gc = false) as Hin.
  { unfold in_scan. destruct Hmin as [Hm|[Hm|Hm]]; rewrite Hm.
    - done.
    - by rewrite !andb_false_r.
    - by rewrite !andb_false_r. }
  split_and!; try done. unfold cell_of. by rewrite Hgc, Hin.
Qed.

(** C7. The grid builder has no test for positions that are not finite.
    A position with a NaN or infinite component is subtracted, scaled and
    converted like any other, a flat index is computed from the result, and
    the range test on the cell coordinates then stores the undefined cell
    for the bird.  The grid pass and the neighbour search return.  The bird
    is counted in no cell and stands in no bucket and not in the sorted
    array, its own scan visits nobody and no scan visits it.  The counts,
    the offsets, the buckets, the scans and the neighbour results of the
    other birds are those of the flock without the bird, where a bird
    behind it has an index greater by one. *)
Theorem non_finite_bird_is_left_out (a : Accel float32) (p : Params float32)
    bs b (k : nat) old old' junk_d junk_j :
  accel_wf a → (k ≤ length bs)%nat → numPoints bs < INT_MAX →
  length old = length bs → length old' = S (length bs) →
  1 ≤ neighbors p ≤ 15 → length junk_d = 16%nat → length junk_j = 16%nat →
  non_finite (vx (pos b)) || non_finite (vy (pos b)) || non_finite (vz (pos b)) = true →
  (∃ gc, cell_coord a (pos b) = Some gc ∧
         (vx gc = -2147483648 ∨ vy gc = -2147483648 ∨ vz gc = -2147483648) ∧
         in_scan a gc = false ∧ cell_of a b = GRID_UNDEF) ∧
  ∃ g st g' st',
    neighbor_pass a p bs old junk_d junk_j = Some (g, st) ∧
    neighbor_pass a p (insert_bird k b bs) old' junk_d junk_j = Some (g', st') ∧
    rd (pgcell g') (Z.of_nat k) = Some GRID_UNDEF ∧
    (Z.of_nat k ∉ mgrid g') ∧
    (∀ c, 0 ≤ c < gridTotal a → Z.of_nat k ∉ bucket g' c) ∧
    candidates a g' (numPoints (insert_bird k b bs)) (nadj_of a) (Z.of_nat k) = Some [] ∧
    (∀ i l, candidates a g' (numPoints (insert_bird k b bs)) (nadj_of a) i = Some l →
            Z.of_nat k ∉ l) ∧
    mgcnt g' = mgcnt g ∧ mgoff g' = mgoff g ∧
    (∀ c, 0 ≤ c < gridTotal a →
          bucket g' c = skip_index (Z.of_nat k) <$> bucket g c) ∧
    (∀ i l, candidates a g (numPoints bs) (nadj_of a) i = Some l →
            candidates a g' (numPoints (insert_bird k b bs)) (nadj_of a)
              (skip_index (Z.of_nat k) i) = Some (skip_index (Z.of_nat k) <$> l)) ∧
    ∀ n bn, rd (birds st) n = Some bn →
      ∃ bn', rd (birds st') (skip_index (Z.of_nat k) n) = Some bn' ∧
        pos bn' = pos bn ∧ vel bn' = vel bn ∧
        t_nbrs bn' = t_nbrs bn ∧ r_nbrs bn' = r_nbrs bn ∧
        ave_pos bn' = ave_pos bn ∧ ave_vel bn' = ave_vel bn ∧
        near_j bn' = skip_index (Z.of_nat k) (near_j bn).
Proof.
  intros Hwf Hk HN Hold Hold' HK Hld Hlj Hnf.
  pose proof (non_finite_coord a b Hnf) as Hgc. split; [exact Hgc|].
  destruct Hgc as (gc & Hgc & _ & _ & Hcell).
  apply (undefined_bird_is_left_out a bs b k Hwf Hk Hcell); try done.
  apply coords_defined_float32.
Qed.

(** C7, as stated, does not hold: the position of the bird [nan_bird]
    has a NaN component and does enter the cell-index arithmetic.  Lines
    899-901 are evaluated on it like on any other position: the conversion
    gives the cell coordinate [INT_MIN], the flat index computed from it is
    -2147483564, and it is the range test of line 903, not a test of the
    position, that stores the undefined cell. *)
Lemma non_finite_position_enters_index_arithmetic :
  non_finite (vx (pos nan_bird)) = true ∧
  cell_coord demo_accel (pos nan_bird) = Some (mkVec3 (-2147483648) 2 2) ∧
  flat_index demo_accel (mkVec3 (-2147483648) 2 2) = -2147483564 ∧
  in_scan demo_accel (mkVec3 (-2147483648) 2 2) = false ∧
  insert_step demo_accel (demo_birds ++ [nan_bird])
    (replicate 6 0, replicate 6 0, replicate 216 0) 5 =
  Some (<[5%nat := GRID_UNDEF]> (replicate 6 0), replicate 6 0, replicate 216 0).
Proof. split_and!; vm_compute; reflexivity. Qed.

Lemma non_finite_bird_is_left_out_witness :
  ∃ g st g' st',
    neighbor_pass demo_accel demo_params demo_birds demo_old demo_junk_d demo_junk_j
      = Some (g, st) ∧
    neighbor_pass demo_accel demo_params (insert_bird 2 nan_bird demo_birds)
      (replicate 6 0) demo_junk_d demo_junk_j = Some (g', st') ∧
    rd (pgcell g') 2 = Some GRID_UNDEF ∧ mgcnt g' = mgcnt g ∧ mgoff g' = mgoff g ∧
    ∀ n bn, rd (birds st) n = Some bn →
      ∃ bn', rd (birds st') (skip_index 2 n) = Some bn' ∧
             t_nbrs bn' = t_nbrs bn ∧ ave_pos bn' = ave_pos bn ∧
             near_j bn' = skip_index 2 (near_j bn).
Proof.
  destruct (non_finite_bird_is_left_out demo_accel demo_params demo_birds nan_bird 2
              demo_old (replicate 6 0) demo_junk_d demo_junk_j)
    as (_ & g & st & g' & st' & Hrun & Hrun' & Hcell & _ & _ & _ & _ & Hcnt & Hoff & _ & _ &
        Hres); [demo_side..|].
  exists g, st, g', st'. split_and!; try assumption.
  intros n bn Hn. destruct (Hres n bn Hn) as (bn' & Hbn' & _ & _ & Ht & _ & Hap & _ & Hnj).
  exists bn'. split_and!; assumption.
Defined.
